(* ===== verification/_CoqProject ===== *)
-Q . S2P
Prelude.v
CMem.v
CString.v
Utf.v
Heap.v
HeapSpec.v
Alloc.v
Sys.v
CStdlib.v
QSort.v
CTime.v
Format.v
Printf.v
Posix.v
GetOpt.v
Stream.v
StreamSpec.v
FileRead.v
Topo.v
Sha256.v
HostText.v
SemVer.v
PkgMeta.v
PkgDb.v
PkgCmd.v
PkgSpec.v
Thread.v
Iface.v
Args.v
KMod.v
TinyC.v
SortDemo.v
Brainf.v
Calc.v
Demos.v
Grids.v
Wumpus.v
Arrays.v
Json.v
EchoServer.v
Programs.v
CProg.v
ElfInfo.v
Tools.v
