(* ===== verification/Prelude.v ===== *)
(** * Verification of the C code of Mellivora OS

    Mellivora OS is a 32-bit operating system written in x86 assembly, with a C
    side: the freestanding runtime and C library that programs are linked with
    ([c/rt], headers in [c/include]), a kernel module in C ([c/kmod]), the package
    manager [tools/hbpkg.c] and sample programs ([samples]).  This library models
    the C side and proves what it does.  C code reaches the assembly kernel only
    through [int $0x80]; the kernel is a parameter wherever it is called.

    ** How C is modelled

    Functions are Rocq functions named as in the source.  A [w]-bit integer is a
    [Z] with its wrap-around written out ([u8], [u32], [i32], ...).  The library
    runs on a byte-addressed memory ([CMem]): an access outside the memory is a
    fault, [None], so a theorem that a routine returns [Some _] is also one that it
    stays inside the bytes it was given.  Code that threads state is written in the
    monad [M S A] of this file.  A loop over a C string takes [fuel m] steps, one
    more than the memory has bytes, which is enough because it moves over distinct
    mapped bytes; the growing loop of [malloc] is bounded by [MALLOC_ROUNDS], which
    exceeds the pages of the 32-bit window; other recursions carry fuel that a
    theorem shows to be enough.  A theorem about a routine that loops says that it
    returns.

    ** Files

    - [Prelude]: words, tactics, bounded loops, the state-and-fault monad.
    - [CMem]: memory, C strings in memory.
    - [CString]: every routine of [c/rt/string.c], each with its functional lemma.
    - [Utf]: [c/rt/utf.c], UTF-8 and UTF-16 in both directions.
    - [Heap], [HeapSpec], [Alloc]: [c/rt/malloc.c].  [Heap] is the code over block
      headers and the free list; [HeapSpec] the tiling invariant and the refinement
      of an abstract first-fit allocator; [Alloc] the class through which other
      components use it, discharged by the heap.  A block header is kept apart from
      the bytes of payloads.  That is faithful as long as the header stands: when a
      merge absorbs a block, its header becomes payload of the neighbour, so the
      model forgets it ([forget]) and reading it again is a fault.
    - [Sys]: the system calls as an inductive type, the class [Kernel] and the state
      of a process ([mv/syscall.h]).
    - [CStdlib], [QSort]: [c/rt/stdlib.c] and [atoi], [exit] of [malloc.c].
    - [CTime]: [c/rt/time.c].
    - [Format], [Printf], [Stream], [StreamSpec]: [c/rt/stdio.c], the formatter as one
      loop over an abstract sink, the texts its formats stand for ([Printf]), then
      streams over [Alloc] and [Sys].
    - [Posix], [GetOpt]: [c/rt/posix.c].
    - [Thread], [Iface], [Args], [KMod]: [c/rt/thread.c], [c/rt/iface.c],
      [c/rt/args.c], [c/kmod/kmod.c].
    - [Topo], [Sha256], [SemVer], [PkgMeta], [PkgDb], [PkgCmd], [PkgSpec], over the
      string functions of [HostText]: [tools/hbpkg.c], built for Linux.  Its strings
      are lists of characters, its files a map from paths to bytes, and [system],
      the bytes a write stores and whether a rename or a removal succeeds are
      functions of the class [HostOps]; [host_stores] is a host where none of these
      fails.  [Sha256] also has [samples/sha256.c].
    - [TinyC]: the subset of C of the on-system compiler that the samples are written
      in: [int] globals by name, [if], [while], [putchar] and [getchar], as
      combinators of the monad, with the rules for loops.  On top of it [SortDemo]
      ([sort.c]), [Brainf] ([bf.c], with and
      without the three declarations it lacks), [Calc] ([calc.c]), [Demos] ([hanoi.c], [fib.c],
      [primes.c], [stars.c], [boxes.c], [hello.c], [echo.c], [word_stats.c]), [Grids]
      ([matrix_mul.c], [mandelbrot_fp.c], [matrix.c]) and [Wumpus] ([wumpus.c]).
    - [Arrays]: [char] arrays with bounds, for the samples that have them; [Json]
      ([json_parse.c]) and [EchoServer] ([echo_server.c], the socket calls as the
      class [Net]).
    - [FileRead], [Programs], [ElfInfo], [Tools]: files of the kernel as the class
      [FileDisk], reading one through a stream; what programs share, the console as
      the class [Console] and the life of one that reads a file ([session]); and the
      programs [c/prog/elfinfo.c], [c/prog/elfwc.c] and [c/prog/elfcat.c] over the
      modelled library.
    - [CProg]: [c/prog/cprog.c], the self-test over the string routines.

    ** What the theorems show

    - Heap: [malloc] and [free] refine first-fit allocation on a gapless tiling;
      blocks are disjoint, contents survive, every sequence of calls keeps the
      invariant, second frees of a header that still stands included, [realloc]
      keeps the data; and what happens for sizes near [2^32].
    - Formatting and streams: [snprintf] writes the text its format stands for, with
      flags, widths, precisions and every conversion, cut and terminated; a
      flush hands the kernel exactly what was written and reported, in one call, and
      answers as the kernel did; [fgets] and [getline]
      return the lines of the input; a second flush loses the first.
    - Conversions and sorting: [strtol] reads the number a text denotes; [qsort] is a
      stable sort when it ends in the caller's array, and frees the caller's array
      otherwise.
    - Time: [civil_from_days] is the Gregorian calendar, inverse to
      [days_from_civil]; [mktime] inverts [localtime]; [strftime] expands the format
      within the buffer.
    - Unicode: the decoder makes progress and accepts only canonical encodings; the
      conversions are inverse on well-formed text and never split a character.
    - Options and arguments: [getopt] answers the flags in order and leaves them in
      front of the operands; [mv_args] splits the line into its words.
    - Threads and interfaces: every unmap is of a mapped stack; the reference counts
      are the number of references held, as long as an object is only used while one
      is held.
    - Package manager: the topological sort is complete and its cycle test exact;
      [sha256_hex] is the SHA-256 of the standard, and the sample's rolling schedule
      computes the same; versions are ordered and constraints mean ranges; metadata
      round-trip and every field stays in its buffer; adding and removing records
      does what it says on a host that stores what it is given, and answers the same
      on one that does not; only relative paths without [..] are installed; installation
      ends when dependencies are well-founded and, on such a host, registers the
      package; it never ends on a cycle.
    - Samples: the JSON tokenizer refines a lexer on the text, and the program lists
      exactly the tokens whose printed text it is given; Hunt the Wumpus plays by its rules on every input;
      the Brainfuck interpreter, with its missing declarations added, refines the
      reference machine; the calculator answers
      the value of each line; both sorts sort; the matrix loops compute the product;
      the moves printed by [hanoi.c] solve the puzzle; the rain is drawn frame by frame.
    - Server and utilities: the echo server sends every chunk back and closes every
      session, and reports each failure; [elfwc] prints the number of lines, words
      and bytes of a file without the white space its header does not name; [elfcat] shows the file and nothing else, or its
      numbered lines; [elfinfo] describes the ELF header and the loadable segments
      of any file; the self-test succeeds and prints its process number.

    Where the code does not do what its comments say, the theorem states what it
    does: [qsort_frees_the_array], [second_flush_drops_the_first],
    [malloc_huge_requests], [install_cycle_never_ends], [install_files_quoting],
    [semver_limits], [iface_resurrects], [args_full_vector],
    [kmod_selftest_without_host], [console_limits], [fprintf_text],
    [getopt_attached_argument], [getopt_moved_option], [wait_status],
    [second_sorts_do_not_sort], [bf_negative_cell], [calc_swallows_a_line],
    [word_stats_report], [mandelbrot_one_colour], [matrix_large_entry],
    [wumpus_surprises], [json_long_string], [double_free], [double_free_outcomes],
    [db_add_unchecked], [db_remove_unchecked], [record_checksum_zero],
    [wc_carriage_return], [bf_undeclared].

    ** Bounds

    [LIMIT], [2^29] bytes, bounds what is written to or read from one stream in
    [StreamSpec], so that the doubled buffer sizes do not wrap; [MALLOC_ROUNDS] bounds
    the growing loop of [malloc], a round of which inserts a block that fits or moves
    the break up by a page; [malloc_huge_requests] shows the requests whose rounded size wraps.
    [sha256_hex] is for messages below [2^61] bytes, where the bit length
    fits its field.  [cmd_install] takes one unit of fuel for each level of its
    recursion; two above the rank of the packages is enough.  [topo_sort] recurses at
    most one level deeper than the number of nodes.  A [while] of the samples runs at
    most [ROUNDS], [2^64], times and a loop over arrays [LOOP_BOUND], [2^32], times;
    that a loop ends is part of each theorem, and a loop that does not is [None].  The
    accept loop of the echo server, which never ends, is taken for any number of
    rounds.

    ** Not modelled

    The kernel, the boot loader and the programs in assembly; the Python and shell
    tools that build images; [tcc_hello.c], one call of a compiler builtin; the
    remaining programs of [c/prog]: [libctest.c], [crtdemo.c], [posixtest.c],
    [localetest.c] and [unicodedemo.c] compare single results of the library with
    constants, which the theorems about the library cover, [threadtest.c] and
    [threadmore.c] depend on the scheduler of the kernel, [mvapp] and [mvprobe] call a
    library in assembly through a patched slot; widths given by [*], which the
    formatter has and [Printf] does not give a text to; the one-line start-up code; the assembly thunk a thread returns
    to.  Directories of the host are not in its file map, so [mkdir] has no effect
    there; the libc of the host is modelled by the functions of [HostText]. *)

From stdpp Require Export base tactics numbers list list_numbers option gmap fin_maps sorting.
From Stdlib Require Export ZArith Lia.
From Stdlib Require Export Ascii.
From stdpp Require Export strings.

#[global] Set Default Proof Using "Type".
#[export] Set Default Goal Selector "!".
#[export] Obligation Tactic := idtac.

(** The scope of the development's own notations. *)
Declare Scope c_scope.
Delimit Scope c_scope with C.
#[global] Open Scope Z_scope.

(** * Machine integers

    The target has 8-bit bytes, 16-bit UTF-16 units and one 32-bit word
    ([c/include/mv/types.h]).  A C value of width [w] is a [Z]; the wrap-around
    of the unsigned types and the two's complement reading of the signed ones
    are written out. *)

Definition u8 (z : Z) : Z := z `mod` 256.
Definition u16 (z : Z) : Z := z `mod` 65536.
Definition u32 (z : Z) : Z := z `mod` 4294967296.
Definition u64 (z : Z) : Z := z `mod` 18446744073709551616.

Definition i8 (z : Z) : Z := (z + 128) `mod` 256 - 128.
Definition i32 (z : Z) : Z := (z + 2147483648) `mod` 4294967296 - 2147483648.
Definition i64 (z : Z) : Z :=
  (z + 9223372036854775808) `mod` 18446744073709551616 - 9223372036854775808.

Definition is_u8 (z : Z) : Prop := 0 ≤ z < 256.
Definition is_u16 (z : Z) : Prop := 0 ≤ z < 65536.
Definition is_u32 (z : Z) : Prop := 0 ≤ z < 4294967296.
Definition is_i32 (z : Z) : Prop := -2147483648 ≤ z < 2147483648.

(** C's [/] and [%] truncate towards zero, which is Rocq's [Z.quot] and
    [Z.rem]; on the unsigned types they agree with [Z.div] and [Z.modulo]. *)
Notation "x /c y" := (Z.quot x y) (at level 40, left associativity) : c_scope.
Notation "x %c y" := (Z.rem x y) (at level 40, left associativity) : c_scope.
#[global] Open Scope c_scope.

(** C truth values: the integer a comparison yields. *)
Definition of_bool (b : bool) : Z := if b then 1 else 0.

(** A C string literal as the bytes it denotes (without the terminator), and a
    C character constant as its code. *)
Definition chr (a : ascii) : Z := Z.of_N (N_of_ascii a).
Definition lit (s : string) : list Z := map chr (String.list_ascii_of_string s).

(** ** Tactics *)

(** [lia] with division and remainder by a constant expanded. *)
Ltac dlia := Z.div_mod_to_equations; lia.
Ltac qlia := Z.quot_rem_to_equations; lia.

(** Unfold the word conversions and finish by [dlia]. *)
Ltac word_lia :=
  unfold u8, u16, u32, u64, i8, i32, i64, is_u8, is_u16, is_u32, is_i32 in *; dlia.

(** Turn the boolean tests of the code into propositions and split on them. *)
Ltac bool_cases :=
  repeat match goal with
  | |- context [Z.eqb ?a ?b] => destruct (Z.eqb_spec a b)
  | |- context [Z.ltb ?a ?b] => destruct (Z.ltb_spec a b)
  | |- context [Z.leb ?a ?b] => destruct (Z.leb_spec a b)
  end; simpl.

(** The same in the hypotheses. *)
Ltac bool_hyps :=
  repeat match goal with
  | H : context [Z.eqb ?a ?b] |- _ => destruct (Z.eqb_spec a b)
  | H : context [Z.ltb ?a ?b] |- _ => destruct (Z.ltb_spec a b)
  | H : context [Z.leb ?a ?b] |- _ => destruct (Z.leb_spec a b)
  end; simpl in *.

(** Rewrite one boolean comparison whose value [lia] knows. *)
Ltac zb_true t := replace t with true by (symmetry; first [apply Z.eqb_eq | apply Z.ltb_lt | apply Z.leb_le]; lia).
Ltac zb_false t := replace t with false by (symmetry; first [apply Z.eqb_neq | apply Z.ltb_ge | apply Z.leb_gt]; lia).

(** Rewrite every comparison of the goal that [lia] decides. *)
Ltac zb_simpl :=
  repeat match goal with
  | |- context [Z.eqb ?a ?b] =>
      first [ replace (Z.eqb a b) with true by (symmetry; apply Z.eqb_eq; lia)
            | replace (Z.eqb a b) with false by (symmetry; apply Z.eqb_neq; lia) ]
  | |- context [Z.ltb ?a ?b] =>
      first [ replace (Z.ltb a b) with true by (symmetry; apply Z.ltb_lt; lia)
            | replace (Z.ltb a b) with false by (symmetry; apply Z.ltb_ge; lia) ]
  | |- context [Z.leb ?a ?b] =>
      first [ replace (Z.leb a b) with true by (symmetry; apply Z.leb_le; lia)
            | replace (Z.leb a b) with false by (symmetry; apply Z.leb_gt; lia) ]
  end.

(** Equality of results that are options and tuples of integers. *)
Ltac tuple_eq :=
  repeat match goal with
  | |- Some _ = Some _ => apply f_equal
  | |- (_, _) = (_, _) => apply f_equal2
  end; try reflexivity; try lia.

(** One step of a monadic chain whose first computation is known.  As a rewrite
    rule it keeps the kernel from comparing the computations themselves. *)
Lemma some_bind {A B} (x : A) (f : A → option B) : (Some x ≫= f) = f x.
Proof. reflexivity. Qed.

Ltac bind_step := rewrite !some_bind; cbv beta iota zeta.

(** Split a successful monadic chain in a hypothesis into its steps. *)
Ltac bind_inv :=
  repeat match goal with
  | H : (_ ≫= _) = Some _ |- _ => apply bind_Some in H as (?&?&H)
  | H : (match ?x with Some _ => _ | None => _ end) = Some _ |- _ =>
      destruct x eqn:?; [|discriminate]
  end; simplify_eq.

(** ** Facts about the word conversions, shared through the [word] hints *)

Create HintDb word.
Create Rewrite HintDb word.

Lemma u8_bound z : is_u8 (u8 z).
Proof. word_lia. Qed.
Lemma u16_bound z : is_u16 (u16 z).
Proof. word_lia. Qed.
Lemma u32_bound z : is_u32 (u32 z).
Proof. word_lia. Qed.
Lemma i32_bound z : is_i32 (i32 z).
Proof. word_lia. Qed.

Lemma u8_small z : is_u8 z → u8 z = z.
Proof. word_lia. Qed.
Lemma u16_small z : is_u16 z → u16 z = z.
Proof. word_lia. Qed.
Lemma u32_small z : is_u32 z → u32 z = z.
Proof. word_lia. Qed.
Lemma i32_small z : is_i32 z → i32 z = z.
Proof. word_lia. Qed.
Lemma i8_small z : 0 ≤ z < 128 → i8 z = z.
Proof. word_lia. Qed.

Lemma u32_i32 z : u32 (i32 z) = u32 z.
Proof. word_lia. Qed.
Lemma i32_u32 z : i32 (u32 z) = i32 z.
Proof. word_lia. Qed.
Lemma u8_i8 z : u8 (i8 z) = u8 z.
Proof. word_lia. Qed.
Lemma i8_inj a b : is_u8 a → is_u8 b → i8 a = i8 b → a = b.
Proof. word_lia. Qed.

Lemma u32_add_l a b : u32 (u32 a + b) = u32 (a + b).
Proof. word_lia. Qed.
Lemma u32_add_r a b : u32 (a + u32 b) = u32 (a + b).
Proof. word_lia. Qed.
Lemma u32_mul_l a b : u32 (u32 a * b) = u32 (a * b).
Proof. unfold u32. apply Z.mul_mod_idemp_l. lia. Qed.
Lemma u32_idemp a : u32 (u32 a) = u32 a.
Proof. word_lia. Qed.
Lemma u8_idemp a : u8 (u8 a) = u8 a.
Proof. word_lia. Qed.

#[export] Hint Resolve u8_bound u16_bound u32_bound i32_bound : word.
#[export] Hint Rewrite u32_i32 i32_u32 u8_i8 u32_add_l u32_add_r u32_mul_l u32_idemp u8_idemp : word.

(** ** Lists *)

Lemma lookup_app_mid {A} (l1 l2 : list A) x :
  (l1 ++ x :: l2) !! length l1 = Some x.
Proof. rewrite lookup_app_r by lia. by rewrite Nat.sub_diag. Qed.

Lemma insert_app_mid {A} (l1 l2 : list A) x y :
  <[length l1 := y]> (l1 ++ x :: l2) = l1 ++ y :: l2.
Proof. rewrite insert_app_r_alt by lia. by rewrite Nat.sub_diag. Qed.

Lemma Forall_is_u8_replicate n b : is_u8 b → Forall is_u8 (replicate n b).
Proof. intros. by apply Forall_replicate. Qed.

Lemma chr_u8 a : is_u8 (chr a).
Proof. unfold chr, is_u8. pose proof (N_ascii_bounded a). lia. Qed.
Lemma lit_u8 s : Forall is_u8 (lit s).
Proof. unfold lit. apply Forall_map. apply Forall_forall. intros a _. apply chr_u8. Qed.
Lemma map_u8 t : Forall is_u8 t → map u8 t = t.
Proof. induction 1 as [|x l Hx _ IH]; [done|]. cbn [map]. by rewrite u8_small, IH. Qed.

Lemma length_Z_nonneg {A} (l : list A) : 0 ≤ Z.of_nat (length l).
Proof. lia. Qed.
#[export] Hint Resolve length_Z_nonneg : word.

(** ** Bits *)

(** A fact about every value of a small range, by evaluation. *)
Lemma range_check (P : Z → bool) n :
  forallb P (seqZ 0 n) = true → ∀ x, 0 ≤ x < n → P x = true.
Proof.
  rewrite forallb_forall. intros H x Hx. apply H. apply list_elem_of_In, elem_of_seqZ. lia.
Qed.

(** [by_range x n]: prove a boolean statement about the byte-sized [x] by
    evaluating it at [0 .. n-1]. *)
Ltac by_range x n :=
  match goal with
  | |- ?b = true =>
      let P := constr:(ltac:(let f := eval pattern x in b in
                             match f with ?g _ => exact g end)) in
      apply (range_check P n); [vm_compute; reflexivity|lia]
  end.

Lemma land_mask x k n : 0 ≤ n → k = Z.ones n → Z.land x k = x `mod` 2 ^ n.
Proof. intros ? ->. by apply Z.land_ones. Qed.

Lemma land_63 x : Z.land x 63 = x `mod` 64.
Proof. by apply (land_mask x 63 6). Qed.
Lemma land_1023 x : Z.land x 1023 = x `mod` 1024.
Proof. by apply (land_mask x 1023 10). Qed.
Lemma land_255 x : Z.land x 255 = x `mod` 256.
Proof. by apply (land_mask x 255 8). Qed.

Lemma lor_shiftl_add a b n : 0 ≤ n → 0 ≤ b < 2 ^ n → Z.lor (Z.shiftl a n) b = a * 2 ^ n + b.
Proof.
  intros Hn Hb. rewrite <- Z.add_nocarry_lor; [by rewrite Z.shiftl_mul_pow2|].
  apply Z.bits_inj'. intros i Hi. rewrite Z.land_spec, Z.shiftl_spec, Z.bits_0 by done.
  destruct (decide (i < n)).
  - rewrite (Z.testbit_neg_r a) by lia. done.
  - rewrite <- (Z.mod_small b (2 ^ n)) by done. rewrite Z.mod_pow2_bits_high by lia.
    by rewrite andb_false_r.
Qed.

Lemma shiftr_div x n : 0 ≤ n → Z.shiftr x n = x `div` 2 ^ n.
Proof. apply Z.shiftr_div_pow2. Qed.

(** ** Loops with a large bound

    [loop n body s] runs [body] at most [n] times: [inl] goes round again, [inr]
    leaves the loop, [None] is a fault.  The bound is a [positive], so a loop
    the program bounds by a 32-bit quantity keeps an executable definition. *)
Fixpoint loop {S R} (n : positive) (body : S → option (S + R)) (s : S) : option (S + R) :=
  match n with
  | xH => body s
  | xO n' =>
      r ← loop n' body s;
      match r with inl s' => loop n' body s' | inr x => Some (inr x) end
  | xI n' =>
      r ← body s;
      match r with
      | inr x => Some (inr x)
      | inl s1 =>
          r ← loop n' body s1;
          match r with inl s' => loop n' body s' | inr x => Some (inr x) end
      end
  end.

(** The same with a unary bound, which the proofs recurse on. *)
Fixpoint loop_nat {S R} (n : nat) (body : S → option (S + R)) (s : S) : option (S + R) :=
  match n with
  | O => Some (inl s)
  | Datatypes.S n' =>
      r ← body s;
      match r with inl s' => loop_nat n' body s' | inr x => Some (inr x) end
  end.

Section loop.
Context {S R : Type} (body : S → option (S + R)).

Lemma loop_nat_add a b s :
  loop_nat (a + b) body s =
  (r ← loop_nat a body s; match r with inl s' => loop_nat b body s' | inr x => Some (inr x) end).
Proof.
  revert s. induction a as [|a IH]; intros s; [done|]. cbn [Nat.add loop_nat].
  destruct (body s) as [[s'|x]|]; cbn; [apply IH|done|done].
Qed.

Lemma loop_loop_nat n s : loop n body s = loop_nat (Pos.to_nat n) body s.
Proof.
  revert s. induction n as [n IH|n IH|]; intros s; cbn [loop].
  - replace (Pos.to_nat n~1) with (Datatypes.S (Pos.to_nat n + Pos.to_nat n))%nat by lia.
    cbn [loop_nat]. destruct (body s) as [[s1|x]|]; cbn; [|done|done].
    rewrite loop_nat_add, IH. destruct (loop_nat _ body s1) as [[s2|x]|]; cbn; [apply IH|done|done].
  - replace (Pos.to_nat n~0) with (Pos.to_nat n + Pos.to_nat n)%nat by lia.
    rewrite loop_nat_add, IH. destruct (loop_nat _ body s) as [[s2|x]|]; cbn; [apply IH|done|done].
  - change (Pos.to_nat 1) with 1%nat. cbn [loop_nat]. by destruct (body s) as [[s1|x]|].
Qed.

(** A loop that leaves within [k] rounds gives the same result under any larger
    bound. *)
Lemma loop_nat_exit k n s x :
  loop_nat k body s = Some (inr x) → (k ≤ n)%nat → loop_nat n body s = Some (inr x).
Proof.
  intros H Hle. replace n with (k + (n - k))%nat by lia. rewrite loop_nat_add, H. done.
Qed.

Lemma loop_exit k n s x :
  loop_nat k body s = Some (inr x) → (k ≤ Pos.to_nat n)%nat → loop n body s = Some (inr x).
Proof. intros. rewrite loop_loop_nat. by eapply loop_nat_exit. Qed.

Lemma loop_exit1 n s x : body s = Some (inr x) → loop n body s = Some (inr x).
Proof. intros Hb. apply (loop_exit 1); [simpl; by rewrite Hb|lia]. Qed.

Lemma loop_exit2 n s s' x :
  (2 ≤ n)%positive → body s = Some (inl s') → body s' = Some (inr x) → loop n body s = Some (inr x).
Proof. intros Hn Hb Hb'. apply (loop_exit 2); [simpl; rewrite Hb; simpl; by rewrite Hb'|lia]. Qed.
End loop.
#[global] Arguments loop : simpl never.

(** ** Stateful code that can fault

    [M S A]: a computation over the state [S] that faults ([None]) or returns a
    value and the new state. *)

Definition M (S A : Type) : Type := S → option (A * S).
Definition ret {S A} (a : A) : M S A := λ s, Some (a, s).
Definition fault {S A} : M S A := λ _, None.
Definition bindM {S A B} (x : M S A) (f : A → M S B) : M S B :=
  λ s, r ← x s; f (fst r) (snd r).
Notation "x <- e ;; k" := (bindM e (λ x, k)) (at level 100, e at next level, right associativity) : c_scope.
Notation "e ;;; k" := (bindM e (λ _, k)) (at level 100, right associativity) : c_scope.

Lemma bind_ret {S A B} (a : A) (k : A → M S B) s : bindM (ret a) k s = k a s.
Proof. done. Qed.
Lemma bind_some {S A B} (x : M S A) (k : A → M S B) s a s' : x s = Some (a, s') → bindM x k s = k a s'.
Proof. intros E. unfold bindM. by rewrite E. Qed.
Lemma bind_none {S A B} (x : M S A) (k : A → M S B) s : x s = None → bindM x k s = None.
Proof. intros E. unfold bindM. by rewrite E. Qed.
Lemma bind_inv_some {S A B} (x : M S A) (k : A → M S B) s b s'' :
  bindM x k s = Some (b, s'') → ∃ a s', x s = Some (a, s') ∧ k a s' = Some (b, s'').
Proof. unfold bindM. destruct (x s) as [[a s']|]; [|done]. simpl. eauto. Qed.
