(* ===== verification/CMem.v ===== *)
(** * The byte-addressed memory the C library works on

    A C object is a run of bytes at an address.  Memory is a finite map from
    addresses to byte values: a read or a write of an address outside the map
    is a fault ([None]), so a theorem that a routine returns [Some _] is also a
    theorem that it touches nothing but the bytes its caller owns.

    - [load], [store]: one byte access, as [*p] and [*p = c] do it;
    - [seg m p bs]: the bytes [bs] lie at [p];
    - [mapped m p n]: the [n] bytes at [p] belong to the program;
    - [cstr m p s]: a NUL-terminated string with the characters [s] lies at [p];
    - [write m p bs]: the memory after [bs] was written at [p], the reference
      the copying routines are compared with;
    - [fuel m]: a bound on the number of steps any scan over distinct mapped
      bytes can take, which is what bounds the string loops. *)

From S2P Require Import Prelude.

Abbreviation mem := (gmap Z Z).

Definition load (m : mem) (p : Z) : option Z := m !! p.

Definition store (m : mem) (p c : Z) : option mem :=
  match m !! p with
  | Some _ => Some (<[p := u8 c]> m)
  | None => None
  end.

(** ** Specification predicates *)

Definition seg (m : mem) (p : Z) (bs : list Z) : Prop :=
  ∀ i b, bs !! i = Some b → m !! (p + Z.of_nat i) = Some b.

Definition mapped (m : mem) (p n : Z) : Prop :=
  ∀ a, p ≤ a < p + n → is_Some (m !! a).

(** A character of a C string: a byte that is not the terminator. *)
Definition is_char (b : Z) : Prop := 0 < b < 256.

Definition cstr (m : mem) (p : Z) (s : list Z) : Prop :=
  seg m p (s ++ [0]) ∧ Forall is_char s.

Fixpoint write (m : mem) (p : Z) (bs : list Z) : mem :=
  match bs with
  | [] => m
  | b :: bs' => write (<[p := b]> m) (p + 1) bs'
  end.

(** Addresses [p .. p+n) and [q .. q+k) do not meet. *)
Definition disjoint (p n q k : Z) : Prop := p + n ≤ q ∨ q + k ≤ p.

(** Every string loop advances over distinct mapped addresses, so it either
    stops or faults within [size m] iterations. *)
Definition fuel (m : mem) : nat := S (size m).

(** ** Reading and writing *)

Section mem.
Implicit Types (m : mem) (p q a n : Z) (bs cs : list Z).

Lemma load_seg m p bs i b :
  seg m p bs → bs !! i = Some b → load m (p + Z.of_nat i) = Some b.
Proof. intros H1 H2. exact (H1 _ _ H2). Qed.

Lemma seg_nil m p : seg m p [].
Proof. intros i b H. by rewrite lookup_nil in H. Qed.

Lemma seg_cons m p b bs : seg m p (b :: bs) ↔ m !! p = Some b ∧ seg m (p + 1) bs.
Proof.
  split.
  - intros H. split.
    + specialize (H 0%nat b eq_refl). by rewrite Z.add_0_r in H.
    + intros i c Hc. specialize (H (S i) c Hc).
      by replace (p + 1 + Z.of_nat i) with (p + Z.of_nat (S i)) by lia.
  - intros [H1 H2] [|i] c Hc; simpl in Hc.
    + rewrite Z.add_0_r. congruence.
    + replace (p + Z.of_nat (S i)) with (p + 1 + Z.of_nat i) by lia. by apply H2.
Qed.

Lemma seg_app m p bs cs :
  seg m p (bs ++ cs) ↔ seg m p bs ∧ seg m (p + Z.of_nat (length bs)) cs.
Proof.
  revert p. induction bs as [|b bs IH]; intros p; simpl.
  - rewrite Z.add_0_r. split; [intros; split; [apply seg_nil|done]|by intros []].
  - rewrite !seg_cons, IH.
    replace (p + 1 + Z.of_nat (length bs)) with (p + Z.of_nat (S (length bs))) by lia.
    tauto.
Qed.

Lemma seg_mapped m p bs : seg m p bs → mapped m p (Z.of_nat (length bs)).
Proof.
  intros H a Ha.
  destruct (lookup_lt_is_Some_2 bs (Z.to_nat (a - p))) as [b Hb]; [lia|].
  exists b. specialize (H _ _ Hb). by replace (p + Z.of_nat (Z.to_nat (a - p))) with a in H by lia.
Qed.

Lemma mapped_seg m p n :
  mapped m p n → ∃ bs, Z.of_nat (length bs) = Z.max 0 n ∧ seg m p bs.
Proof.
  destruct (decide (n ≤ 0)) as [Hn|Hn].
  { exists []. simpl. split; [lia|apply seg_nil]. }
  assert (∃ k, n = Z.of_nat k) as [k ->] by (exists (Z.to_nat n); lia). clear Hn.
  revert p. induction k as [|k IH]; intros p H.
  - exists []. simpl. split; [lia|apply seg_nil].
  - destruct (H p) as [b Hb]; [lia|].
    destruct (IH (p + 1)) as (bs & Hl & Hs).
    { intros a Ha. apply H. lia. }
    exists (b :: bs). simpl. split; [lia|]. by rewrite seg_cons.
Qed.

Lemma mapped_weaken m p n q k :
  mapped m p n → p ≤ q → q + k ≤ p + n → mapped m q k.
Proof. intros H ?? a ?. apply H. lia. Qed.

Lemma mapped_cons m p n : 0 < n → mapped m p n → is_Some (m !! p) ∧ mapped m (p + 1) (n - 1).
Proof. intros ? H. split; [apply H; lia|]. intros a ?. apply H. lia. Qed.

(** *** [write] *)

Lemma lookup_write m p bs a :
  write m p bs !! a =
  if bool_decide (p ≤ a < p + Z.of_nat (length bs)) then bs !! Z.to_nat (a - p) else m !! a.
Proof.
  revert m p. induction bs as [|b bs IH]; intros m p; simpl.
  - rewrite bool_decide_eq_false_2 by lia. done.
  - rewrite IH. destruct (decide (a = p)) as [->|Hne].
    + rewrite bool_decide_eq_false_2 by lia.
      rewrite bool_decide_eq_true_2 by lia.
      rewrite lookup_insert_eq. by rewrite Z.sub_diag.
    + rewrite lookup_insert_ne by done.
      case_bool_decide; case_bool_decide; try lia; [|done].
      replace (Z.to_nat (a - p)) with (S (Z.to_nat (a - (p + 1)))) by lia. done.
Qed.

Lemma lookup_write_out m p bs a :
  ¬ (p ≤ a < p + Z.of_nat (length bs)) → write m p bs !! a = m !! a.
Proof. intros H. rewrite lookup_write. by rewrite bool_decide_eq_false_2. Qed.

Lemma lookup_write_in m p bs i b :
  bs !! i = Some b → write m p bs !! (p + Z.of_nat i) = Some b.
Proof.
  intros H. rewrite lookup_write. pose proof (lookup_lt_Some _ _ _ H).
  rewrite bool_decide_eq_true_2 by lia. by replace (Z.to_nat _) with i by lia.
Qed.

Lemma seg_write m p bs : seg (write m p bs) p bs.
Proof. intros i b. apply lookup_write_in. Qed.

Lemma seg_write_disjoint m p bs q cs :
  disjoint p (Z.of_nat (length bs)) q (Z.of_nat (length cs)) →
  seg m q cs → seg (write m p bs) q cs.
Proof.
  intros Hd H i c Hc. pose proof (lookup_lt_Some _ _ _ Hc).
  rewrite lookup_write_out by (unfold disjoint in Hd; lia). by apply H.
Qed.

Lemma mapped_write m p bs q n : mapped m q n → mapped (write m p bs) q n.
Proof.
  intros H a Ha. rewrite lookup_write. case_bool_decide; [|by apply H].
  apply lookup_lt_is_Some_2. lia.
Qed.

Lemma write_app m p bs cs :
  write m p (bs ++ cs) = write (write m p bs) (p + Z.of_nat (length bs)) cs.
Proof.
  revert m p. induction bs as [|b bs IH]; intros m p; simpl; [by rewrite Z.add_0_r|].
  rewrite IH. f_equal. lia.
Qed.

Lemma write_insert m p b : <[p := b]> m = write m p [b].
Proof. done. Qed.

(** Writing what is there already changes nothing. *)
Lemma write_seg m p bs : seg m p bs → write m p bs = m.
Proof.
  intros H. apply map_eq. intros a. rewrite lookup_write. case_bool_decide as Ha; [|done].
  destruct (lookup_lt_is_Some_2 bs (Z.to_nat (a - p))) as [b Hb]; [lia|].
  rewrite Hb. specialize (H _ _ Hb). by replace (p + _) with a in H by lia.
Qed.

(** Two writes that do not meet commute. *)
Lemma write_comm m p bs q cs :
  disjoint p (Z.of_nat (length bs)) q (Z.of_nat (length cs)) →
  write (write m p bs) q cs = write (write m q cs) p bs.
Proof.
  intros Hd. apply map_eq. intros a. rewrite !lookup_write. unfold disjoint in Hd.
  repeat case_bool_decide; try done; lia.
Qed.

Lemma seg_lookup_eq m m' p bs :
  (∀ a, p ≤ a < p + Z.of_nat (length bs) → m' !! a = m !! a) → seg m p bs → seg m' p bs.
Proof.
  intros He H i b Hb. pose proof (lookup_lt_Some _ _ _ Hb). rewrite He by lia. by apply H.
Qed.

(** *** One-byte accesses *)

Lemma store_mapped m p c : is_Some (m !! p) → store m p c = Some (write m p [u8 c]).
Proof. intros [b Hb]. unfold store. by rewrite Hb. Qed.

Lemma store_spec m p c m' :
  store m p c = Some m' ↔ is_Some (m !! p) ∧ m' = write m p [u8 c].
Proof.
  unfold store. destruct (m !! p) as [b|] eqn:E; simpl.
  - split; [intros; simplify_eq; eauto|intros [_ ->]; done].
  - split; [done|]. intros [[??] _]. done.
Qed.

Lemma size_write m p bs : mapped m p (Z.of_nat (length bs)) → size (write m p bs) = size m.
Proof.
  revert m p. induction bs as [|b bs IH]; intros m p H; [done|]. simpl in *.
  destruct (mapped_cons m p (Z.of_nat (S (length bs)))) as [Hp Hr]; [lia|done|].
  rewrite IH.
  - by apply map_size_insert_Some.
  - replace (Z.of_nat (S (length bs)) - 1) with (Z.of_nat (length bs)) in Hr by lia.
    intros a Ha. destruct (Hr a Ha) as [c Hc].
    destruct (decide (a = p)) as [->|]; [rewrite lookup_insert_eq; eauto|].
    rewrite lookup_insert_ne by done. eauto.
Qed.

Lemma dom_write m p bs : mapped m p (Z.of_nat (length bs)) → dom (write m p bs) = dom m.
Proof.
  intros H. apply set_eq. intros a. rewrite !elem_of_dom, lookup_write.
  case_bool_decide as Ha; [|done]. split; intros _.
  - by apply H.
  - apply lookup_lt_is_Some_2. lia.
Qed.

(** A run of mapped bytes is no longer than the memory. *)
Lemma mapped_size m p n : 0 ≤ n → mapped m p n → (Z.to_nat n ≤ size m)%nat.
Proof.
  intros Hn H.
  assert (list_to_set (seqZ p n) ⊆@{gset Z} dom m) as Hsub.
  { intros a. rewrite elem_of_list_to_set, elem_of_seqZ, elem_of_dom. apply H. }
  apply subseteq_size in Hsub. rewrite size_dom in Hsub.
  rewrite size_list_to_set in Hsub by apply NoDup_seqZ.
  by rewrite length_seqZ in Hsub.
Qed.

Lemma seg_fuel m p bs : seg m p bs → (length bs < fuel m)%nat.
Proof.
  intros H%seg_mapped%mapped_size; [|lia]. unfold fuel. rewrite Nat2Z.id in H. lia.
Qed.

Lemma fuel_write m p bs : mapped m p (Z.of_nat (length bs)) → fuel (write m p bs) = fuel m.
Proof. intros. unfold fuel. by rewrite size_write. Qed.

(** *** C strings *)

Lemma cstr_seg m p s : cstr m p s → seg m p (s ++ [0]).
Proof. by intros []. Qed.

Lemma cstr_fuel m p s : cstr m p s → (length s < fuel m)%nat.
Proof. intros H%cstr_seg%seg_fuel. rewrite length_app in H. simpl in H. lia. Qed.

Lemma cstr_nil m p : cstr m p [] ↔ m !! p = Some 0.
Proof.
  unfold cstr. simpl. rewrite seg_cons. split; [by intros [[] _]|].
  intros. repeat split; [done|apply seg_nil|done].
Qed.

Lemma cstr_cons m p c s : cstr m p (c :: s) ↔ m !! p = Some c ∧ is_char c ∧ cstr m (p + 1) s.
Proof.
  unfold cstr. simpl. rewrite seg_cons, Forall_cons. tauto.
Qed.

Lemma cstr_drop m p s (n : nat) :
  (n ≤ length s)%nat → cstr m p s → cstr m (p + Z.of_nat n) (drop n s).
Proof.
  intros Hn [H1 H2]. split; [|by apply Forall_drop].
  rewrite <- (take_drop n s), <- app_assoc, seg_app in H1. destruct H1 as [_ H1].
  rewrite length_take in H1. by replace (n `min` length s)%nat with n in H1 by lia.
Qed.

(** The string at an address is unique. *)
Lemma cstr_inj m p s t : cstr m p s → cstr m p t → s = t.
Proof.
  revert p t. induction s as [|c s IH]; intros p [|d t] Hs Ht; [done| | |].
  - rewrite cstr_nil in Hs. rewrite cstr_cons in Ht. destruct Ht as (Ht & Hd & _).
    unfold is_char in Hd. simplify_eq. lia.
  - rewrite cstr_nil in Ht. rewrite cstr_cons in Hs. destruct Hs as (Hs & Hd & _).
    unfold is_char in Hd. simplify_eq. lia.
  - rewrite cstr_cons in Hs, Ht. destruct Hs as (?&?&Hs), Ht as (?&?&Ht).
    simplify_eq. f_equal. eauto.
Qed.

Lemma cstr_write_disjoint m p bs q s :
  disjoint p (Z.of_nat (length bs)) q (Z.of_nat (length s) + 1) →
  cstr m q s → cstr (write m p bs) q s.
Proof.
  intros Hd [H1 H2]. split; [|done]. apply seg_write_disjoint; [|done].
  rewrite length_app. simpl. by rewrite Nat2Z.inj_add.
Qed.

Lemma cstr_write m p s : Forall is_char s → cstr (write m p (s ++ [0])) p s.
Proof. intros. split; [apply seg_write|done]. Qed.

End mem.

Lemma is_char_u8 b : is_char b → is_u8 b.
Proof. unfold is_char, is_u8. lia. Qed.

Lemma u8_char b : is_char b → u8 b = b.
Proof. intros. apply u8_small. by apply is_char_u8. Qed.

Create HintDb cmem.
#[export] Hint Resolve seg_nil seg_write cstr_seg seg_mapped mapped_write is_char_u8 : cmem.

(** A concrete memory for witnesses: [bs] at [p] and nothing else. *)
Definition mem_of (p : Z) (bs : list Z) : mem := write ∅ p bs.

Lemma mem_of_seg p bs : seg (mem_of p bs) p bs.
Proof. apply seg_write. Qed.

(** [cstr] is decidable on concrete memories. *)
Fixpoint segb (m : mem) (p : Z) (bs : list Z) : bool :=
  match bs with
  | [] => true
  | b :: bs' => bool_decide (m !! p = Some b) && segb m (p + 1) bs'
  end.

Lemma segb_seg m p bs : segb m p bs = true → seg m p bs.
Proof.
  revert p. induction bs as [|b bs IH]; intros p; simpl; [intros; apply seg_nil|].
  rewrite andb_true_iff, bool_decide_eq_true. intros [? ?]. rewrite seg_cons. auto.
Qed.

Definition cstrb (m : mem) (p : Z) (s : list Z) : bool :=
  segb m p (s ++ [0]) && forallb (fun b => (0 <? b) && (b <? 256)) s.

Lemma cstrb_cstr m p s : cstrb m p s = true → cstr m p s.
Proof.
  unfold cstrb. rewrite andb_true_iff. intros [H1 H2]. split; [by apply segb_seg|].
  rewrite forallb_forall in H2. apply Forall_forall. intros b Hb%list_elem_of_In%H2.
  rewrite andb_true_iff, !Z.ltb_lt in Hb. done.
Qed.

Fixpoint mappedb (m : mem) (p : Z) (n : nat) : bool :=
  match n with
  | O => true
  | S n' => bool_decide (is_Some (m !! p)) && mappedb m (p + 1) n'
  end.

Lemma mappedb_mapped m p n : mappedb m p (Z.to_nat n) = true → mapped m p n.
Proof.
  remember (Z.to_nat n) as k eqn:Hk. revert p n Hk.
  induction k as [|k IH]; intros p n Hk; simpl.
  - intros _ a Ha. lia.
  - rewrite andb_true_iff, bool_decide_eq_true. intros [H1 H2] a Ha.
    destruct (decide (a = p)) as [->|]; [done|].
    apply (IH (p + 1) (n - 1)); [lia|done|lia].
Qed.
