(* ===== verification/CString.v ===== *)
(** * [c/rt/string.c]: the C library's string and memory functions

    Each routine is translated loop by loop over the memory of [CMem].  A loop
    that counts down recurses on its count; a loop that looks for a terminator
    runs on [fuel m], which [cstr_fuel] shows to be enough whenever the string
    is there.  A pointer result that C writes as [0] is the address [0].

    The specifications compare each routine with list functions on the bytes:
    [lexdiff] for the comparisons, [write] for the copies, [find_idx],
    [last_idx] and [find_sub] for the searches, [tokens] for [strtok_r]. *)

From S2P Require Import Prelude CMem.

(** ** The memory routines *)

(** [while (n--) *d++ = *s++;] *)
Fixpoint memcpy_loop (n : nat) (m : mem) (d s : Z) : option mem :=
  match n with
  | O => Some m
  | S n' => b ← load m s; m' ← store m d b; memcpy_loop n' m' (d + 1) (s + 1)
  end.

Definition memcpy (m : mem) (dst src n : Z) : option (Z * mem) :=
  m' ← memcpy_loop (Z.to_nat n) m dst src; Some (dst, m').

(** [while (n--) *--d = *--s;] *)
Fixpoint memmove_back (n : nat) (m : mem) (d s : Z) : option mem :=
  match n with
  | O => Some m
  | S n' => b ← load m (s - 1); m' ← store m (d - 1) b; memmove_back n' m' (d - 1) (s - 1)
  end.

Definition memmove (m : mem) (dst src n : Z) : option (Z * mem) :=
  if (dst =? src) || (n =? 0) then Some (dst, m)
  else if dst <? src then m' ← memcpy_loop (Z.to_nat n) m dst src; Some (dst, m')
  else m' ← memmove_back (Z.to_nat n) m (dst + n) (src + n); Some (dst, m').

Fixpoint memset_loop (n : nat) (m : mem) (d c : Z) : option mem :=
  match n with
  | O => Some m
  | S n' => m' ← store m d c; memset_loop n' m' (d + 1) c
  end.

Definition memset (m : mem) (dst c n : Z) : option (Z * mem) :=
  m' ← memset_loop (Z.to_nat n) m dst c; Some (dst, m').

Fixpoint memcmp_loop (n : nat) (m : mem) (p q : Z) : option Z :=
  match n with
  | O => Some 0
  | S n' =>
      x ← load m p; y ← load m q;
      if negb (x =? y) then Some (x - y) else memcmp_loop n' m (p + 1) (q + 1)
  end.

Definition memcmp (m : mem) (a b n : Z) : option Z := memcmp_loop (Z.to_nat n) m a b.

Fixpoint memchr_loop (n : nat) (m : mem) (p c : Z) : option Z :=
  match n with
  | O => Some 0
  | S n' => b ← load m p; if b =? u8 c then Some p else memchr_loop n' m (p + 1) c
  end.

Definition memchr (m : mem) (s c n : Z) : option Z := memchr_loop (Z.to_nat n) m s c.

Definition bzero (m : mem) (s n : Z) : option mem :=
  '(_, m') ← memset m s 0 n; Some m'.

(** ** Lengths and comparisons *)

Fixpoint strlen_loop (f : nat) (m : mem) (s n : Z) : option Z :=
  match f with
  | O => None
  | S f' => b ← load m (s + n); if b =? 0 then Some n else strlen_loop f' m s (u32 (n + 1))
  end.

Definition strlen (m : mem) (s : Z) : option Z := strlen_loop (fuel m) m s 0.

Fixpoint strnlen_loop (k : nat) (m : mem) (s n : Z) : option Z :=
  match k with
  | O => Some n
  | S k' => b ← load m (s + n); if b =? 0 then Some n else strnlen_loop k' m s (n + 1)
  end.

Definition strnlen (m : mem) (s max : Z) : option Z := strnlen_loop (Z.to_nat max) m s 0.

Fixpoint strcmp_loop (f : nat) (m : mem) (a b : Z) : option Z :=
  match f with
  | O => None
  | S f' =>
      x ← load m a; y ← load m b;
      if negb (x =? 0) && (x =? y) then strcmp_loop f' m (a + 1) (b + 1)
      else Some (u8 x - u8 y)
  end.

Definition strcmp (m : mem) (a b : Z) : option Z := strcmp_loop (fuel m) m a b.

Definition strcoll (m : mem) (a b : Z) : option Z := strcmp m a b.

Fixpoint strncmp_loop (n : nat) (m : mem) (a b : Z) : option Z :=
  match n with
  | O => Some 0
  | S n' =>
      x ← load m a; y ← load m b;
      if negb (x =? 0) && (x =? y) then strncmp_loop n' m (a + 1) (b + 1)
      else Some (u8 x - u8 y)
  end.

Definition strncmp (m : mem) (a b n : Z) : option Z := strncmp_loop (Z.to_nat n) m a b.

(** [(c >= 'A' && c <= 'Z') ? c + 32 : c] on a signed [char]. *)
Definition fold_case (c : Z) : Z := if (65 <=? i8 c) && (i8 c <=? 90) then i8 c + 32 else i8 c.

Fixpoint strcasecmp_loop (f : nat) (m : mem) (a b : Z) : option Z :=
  match f with
  | O => None
  | S f' =>
      x ← load m a; y ← load m b;
      if negb (x =? 0) && negb (y =? 0) then
        if negb (fold_case x =? fold_case y) then Some (fold_case x - fold_case y)
        else strcasecmp_loop f' m (a + 1) (b + 1)
      else Some (u8 x - u8 y)
  end.

Definition strcasecmp (m : mem) (a b : Z) : option Z := strcasecmp_loop (fuel m) m a b.

Fixpoint strncasecmp_loop (n : nat) (m : mem) (a b : Z) : option Z :=
  match n with
  | O => Some 0
  | S n' =>
      x ← load m a; y ← load m b;
      if negb (fold_case x =? fold_case y) then Some (fold_case x - fold_case y)
      else if x =? 0 then Some 0
      else strncasecmp_loop n' m (a + 1) (b + 1)
  end.

Definition strncasecmp (m : mem) (a b n : Z) : option Z := strncasecmp_loop (Z.to_nat n) m a b.

(** ** Copies *)

Fixpoint strcpy_loop (f : nat) (m : mem) (d s : Z) : option mem :=
  match f with
  | O => None
  | S f' =>
      c ← load m s; m' ← store m d c;
      if c =? 0 then Some m' else strcpy_loop f' m' (d + 1) (s + 1)
  end.

Definition strcpy (m : mem) (dst src : Z) : option (Z * mem) :=
  m' ← strcpy_loop (fuel m) m dst src; Some (dst, m').

(** [for (; i < n && src[i] != '\0'; i++) dst[i] = src[i];], then the padding. *)
Fixpoint strncpy_copy (k : nat) (m : mem) (dst src i : Z) : option (Z * mem) :=
  match k with
  | O => Some (i, m)
  | S k' =>
      c ← load m (src + i);
      if c =? 0 then Some (i, m)
      else m' ← store m (dst + i) c; strncpy_copy k' m' dst src (i + 1)
  end.

Definition strncpy (m : mem) (dst src n : Z) : option (Z * mem) :=
  '(i, m1) ← strncpy_copy (Z.to_nat n) m dst src 0;
  m2 ← memset_loop (Z.to_nat (n - i)) m1 (dst + i) 0;
  Some (dst, m2).

Definition strcat (m : mem) (dst src : Z) : option (Z * mem) :=
  n ← strlen m dst;
  '(_, m') ← strcpy m (dst + n) src;
  Some (dst, m').

Fixpoint strncat_loop (n : nat) (m : mem) (d s : Z) : option (Z * mem) :=
  match n with
  | O => Some (d, m)
  | S n' =>
      c ← load m s;
      if c =? 0 then Some (d, m)
      else m' ← store m d c; strncat_loop n' m' (d + 1) (s + 1)
  end.

Definition strncat (m : mem) (dst src n : Z) : option (Z * mem) :=
  k ← strlen m dst;
  '(d, m1) ← strncat_loop (Z.to_nat n) m (dst + k) src;
  m2 ← store m1 d 0;
  Some (dst, m2).

Definition strxfrm (m : mem) (dst src n : Z) : option (Z * mem) :=
  len ← strlen m src;
  if negb (dst =? 0) && (0 <? n) then
    let copy := if len <? n - 1 then len else n - 1 in
    '(_, m1) ← memcpy m dst src copy;
    m2 ← store m1 (dst + copy) 0;
    Some (len, m2)
  else Some (len, m).

(** ** Searches *)

Fixpoint strchr_loop (f : nat) (m : mem) (s c : Z) : option Z :=
  match f with
  | O => None
  | S f' =>
      b ← load m s;
      if b =? u8 c then Some s
      else if b =? 0 then Some 0
      else strchr_loop f' m (s + 1) c
  end.

Definition strchr (m : mem) (s c : Z) : option Z := strchr_loop (fuel m) m s c.

Fixpoint strrchr_loop (f : nat) (m : mem) (s c found : Z) : option Z :=
  match f with
  | O => None
  | S f' =>
      b ← load m s;
      let found' := if b =? u8 c then s else found in
      if b =? 0 then Some found' else strrchr_loop f' m (s + 1) c found'
  end.

Definition strrchr (m : mem) (s c : Z) : option Z := strrchr_loop (fuel m) m s c 0.

Fixpoint strstr_loop (f : nat) (m : mem) (hay needle n : Z) : option Z :=
  match f with
  | O => None
  | S f' =>
      h ← load m hay;
      if h =? 0 then Some 0
      else
        b ← load m needle;
        hit ← (if h =? b then r ← strncmp m hay needle n; Some (r =? 0) else Some false);
        if hit : bool then Some hay else strstr_loop f' m (hay + 1) needle n
  end.

Definition strstr (m : mem) (haystack needle : Z) : option Z :=
  b ← load m needle;
  if b =? 0 then Some haystack
  else n ← strlen m needle; strstr_loop (fuel m) m haystack needle n.

(** [strspn] and [strcspn] share the loop; [inside] is the side of the
    [strchr] test that continues. *)
Fixpoint span_loop (inside : bool) (f : nat) (m : mem) (s set n : Z) : option Z :=
  match f with
  | O => None
  | S f' =>
      b ← load m (s + n);
      if b =? 0 then Some n
      else
        p ← strchr m set b;
        if Bool.eqb (negb (p =? 0)) inside then span_loop inside f' m s set (u32 (n + 1))
        else Some n
  end.

Definition strspn (m : mem) (s accept : Z) : option Z := span_loop true (fuel m) m s accept 0.
Definition strcspn (m : mem) (s reject : Z) : option Z := span_loop false (fuel m) m s reject 0.

Fixpoint strpbrk_loop (f : nat) (m : mem) (s accept : Z) : option Z :=
  match f with
  | O => None
  | S f' =>
      b ← load m s;
      if b =? 0 then Some 0
      else p ← strchr m accept b;
           if negb (p =? 0) then Some s else strpbrk_loop f' m (s + 1) accept
  end.

Definition strpbrk (m : mem) (s accept : Z) : option Z := strpbrk_loop (fuel m) m s accept.

(** ** Tokens

    [save] is the pointer the caller's [*saveptr] holds; the new value comes
    back with the token and the memory. *)
Definition strtok_r (m : mem) (str delim save : Z) : option (Z * Z * mem) :=
  let start := if negb (str =? 0) then str else save in
  if start =? 0 then Some (0, start, m)
  else
    k ← strspn m start delim;
    let start := start + k in
    b ← load m start;
    if b =? 0 then Some (0, 0, m)
    else
      k2 ← strcspn m start delim;
      let stop := start + k2 in
      e ← load m stop;
      if negb (e =? 0) then m' ← store m stop 0; Some (start, stop + 1, m')
      else Some (start, 0, m).

(** [strtok] keeps the saved pointer in a static variable: [next]. *)
Definition strtok (next : Z) (m : mem) (str delim : Z) : option (Z * Z * mem) :=
  strtok_r m str delim next.

(** The loop every caller writes: the first call names the string, the others
    pass NULL, until NULL comes back. *)
Fixpoint strtok_rest (f : nat) (m : mem) (delim save : Z) : option (list Z * mem) :=
  match f with
  | O => None
  | S f' =>
      '(tok, save', m') ← strtok_r m 0 delim save;
      if tok =? 0 then Some ([], m')
      else '(toks, m'') ← strtok_rest f' m' delim save'; Some (tok :: toks, m'')
  end.

Definition strtok_all (m : mem) (str delim : Z) : option (list Z * mem) :=
  '(tok, save', m') ← strtok_r m str delim 0;
  if tok =? 0 then Some ([], m')
  else '(toks, m'') ← strtok_rest (fuel m) m' delim save'; Some (tok :: toks, m'').

(** ** Error texts *)


(** The table of [strerror], with the numbers of [c/include/errno.h]. *)
Definition errno_text : list (Z * string) :=
  [ (0, "Success"); (1, "Operation not permitted"); (2, "No such file or directory");
    (3, "No such process"); (4, "Interrupted system call"); (5, "Input/output error");
    (8, "Exec format error"); (9, "Bad file descriptor"); (10, "No child processes");
    (11, "Resource temporarily unavailable"); (12, "Cannot allocate memory");
    (13, "Permission denied"); (14, "Bad address"); (17, "File exists");
    (20, "Not a directory"); (21, "Is a directory"); (22, "Invalid argument");
    (23, "Too many open files in system"); (24, "Too many open files");
    (25, "Inappropriate ioctl for device"); (27, "File too large");
    (28, "No space left on device"); (29, "Illegal seek"); (30, "Read-only file system");
    (32, "Broken pipe"); (34, "Numerical result out of range");
    (38, "Function not implemented") ].

Fixpoint assoc_text (n : Z) (l : list (Z * string)) : option string :=
  match l with
  | [] => None
  | (k, t) :: l' => if n =? k then Some t else assoc_text n l'
  end.

(** The string the returned pointer points at. *)
Definition strerror (errnum : Z) : list Z :=
  match assoc_text errnum errno_text with
  | Some t => lit t
  | None =>
      let d k := u8 (48 + k) in
      (lit "Unknown error ") ++
      [d ((errnum /c 100) %c 10); d ((errnum /c 10) %c 10); d (errnum %c 10)]
  end%list.

(** ** Reference functions *)

(** The difference of the first bytes that differ, 0 when none does. *)
Fixpoint lexdiff (s t : list Z) : Z :=
  match s, t with
  | x :: s', y :: t' => if x =? y then lexdiff s' t' else x - y
  | _, _ => 0
  end.

(** Index of the first byte satisfying [P]. *)
Fixpoint find_idx (P : Z → bool) (s : list Z) : option nat :=
  match s with
  | [] => None
  | x :: s' => if P x then Some O else S <$> find_idx P s'
  end.

(** The address a search reports: the base plus the index, or NULL. *)
Definition addr_of (p : Z) (o : option nat) : Z :=
  match o with Some i => p + Z.of_nat i | None => 0 end.

(** Is [t] a prefix of [s]? *)
Fixpoint is_prefix (t s : list Z) : bool :=
  match t, s with
  | [], _ => true
  | x :: t', y :: s' => (x =? y) && is_prefix t' s'
  | _, [] => false
  end.

(** Index of the first occurrence of a non-empty [t] in [s]. *)
Fixpoint find_sub (t s : list Z) : option nat :=
  match s with
  | [] => None
  | _ :: s' => if is_prefix t s then Some O else S <$> find_sub t s'
  end.

Definition memb (c : Z) (l : list Z) : bool := existsb (Z.eqb c) l.

(** The longest prefix all of whose bytes satisfy [P]. *)
Fixpoint span (P : Z → bool) (s : list Z) : list Z * list Z :=
  match s with
  | [] => ([], [])
  | x :: s' => if P x then let '(a, b) := span P s' in (x :: a, b) else ([], s)
  end.

(** ** The memory routines *)

Section memory_routines.
Implicit Types (m : mem) (p q d s n : Z) (bs cs : list Z).

Lemma memcpy_loop_spec m d s bs :
  seg m s bs → mapped m d (Z.of_nat (length bs)) → Forall is_u8 bs →
  (d ≤ s ∨ s + Z.of_nat (length bs) ≤ d) →
  memcpy_loop (length bs) m d s = Some (write m d bs).
Proof.
  revert m d s. induction bs as [|b bs IH]; intros m d s Hs Hd Hb Hov; [done|].
  rewrite seg_cons in Hs. destruct Hs as [Hs0 Hs]. apply Forall_cons in Hb as [Hb0 Hb].
  cbn [length] in *. apply mapped_cons in Hd as [Hd0 Hd]; [|lia].
  cbn [memcpy_loop]. unfold load. rewrite Hs0. cbn.
  rewrite store_mapped by done. cbn [mbind option_bind]. rewrite u8_small by done.
  rewrite IH; [done| | |done|lia].
  - apply seg_write_disjoint; [|done]. unfold disjoint. simpl. lia.
  - apply mapped_write. replace (Z.of_nat (length bs)) with (Z.of_nat (S (length bs)) - 1) by lia. done.
Qed.

Lemma memmove_back_spec m d s bs :
  let n := Z.of_nat (length bs) in
  seg m (s - n) bs → mapped m (d - n) n → Forall is_u8 bs → s ≤ d →
  memmove_back (length bs) m d s = Some (write m (d - n) bs).
Proof.
  revert m d s. induction bs as [|b bs IH] using rev_ind; intros m d s n Hs Hd Hb Hov; [done|].
  subst n. rewrite length_app in *. cbn [length] in *. rewrite Nat.add_1_r in *.
  apply seg_app in Hs as [Hs Hs0]. rewrite seg_cons in Hs0. destruct Hs0 as [Hs0 _].
  apply Forall_app in Hb as [Hb Hb0]. apply Forall_cons in Hb0 as [Hb0 _].
  cbn [memmove_back]. unfold load.
  replace (s - Z.of_nat (S (length bs)) + Z.of_nat (length bs)) with (s - 1) in Hs0 by lia.
  rewrite Hs0. cbn. rewrite store_mapped by (apply Hd; lia). cbn [mbind option_bind].
  rewrite u8_small by done.
  rewrite IH; [| | |done|lia].
  - rewrite write_app.
    replace (d - Z.of_nat (S (length bs)) + Z.of_nat (length bs)) with (d - 1) by lia.
    replace (d - Z.of_nat (S (length bs))) with (d - 1 - Z.of_nat (length bs)) by lia.
    f_equal. apply write_comm. unfold disjoint. simpl. lia.
  - apply seg_write_disjoint; [unfold disjoint; simpl; lia|].
    by replace (s - 1 - Z.of_nat (length bs)) with (s - Z.of_nat (S (length bs))) by lia.
  - apply mapped_write. eapply mapped_weaken; [done|lia|lia].
Qed.

Lemma memcpy_ok m dst src bs :
  seg m src bs → mapped m dst (Z.of_nat (length bs)) → Forall is_u8 bs →
  (dst ≤ src ∨ src + Z.of_nat (length bs) ≤ dst) →
  memcpy m dst src (Z.of_nat (length bs)) = Some (dst, write m dst bs).
Proof. intros. unfold memcpy. rewrite Nat2Z.id, memcpy_loop_spec by done. done. Qed.

(** Bytes of any value, areas that do not meet. *)
Lemma memcpy_apart m dst src bs :
  seg m src bs → mapped m dst (Z.of_nat (length bs)) →
  disjoint dst (Z.of_nat (length bs)) src (Z.of_nat (length bs)) →
  memcpy m dst src (Z.of_nat (length bs)) = Some (dst, write m dst (map u8 bs)).
Proof.
  intros Hs Hd Hov. unfold memcpy. rewrite Nat2Z.id.
  assert (memcpy_loop (length bs) m dst src = Some (write m dst (map u8 bs))) as ->; [|done].
  revert m dst src Hs Hd Hov. induction bs as [|b bs IH]; intros m d s Hs Hd Hov; [done|].
  rewrite seg_cons in Hs. destruct Hs as [Hs0 Hs]. unfold disjoint in *.
  cbn [length] in *. apply mapped_cons in Hd as [Hd0 Hd]; [|lia].
  cbn [memcpy_loop]. unfold load. rewrite Hs0. cbn [mbind option_bind].
  rewrite store_mapped by done. cbn [mbind option_bind]. rewrite IH; [done| | |lia].
  - apply seg_write_disjoint; [|done]. unfold disjoint. simpl. lia.
  - apply mapped_write. replace (Z.of_nat (length bs)) with (Z.of_nat (S (length bs)) - 1) by lia. done.
Qed.

Lemma memmove_ok m dst src bs :
  seg m src bs → mapped m dst (Z.of_nat (length bs)) → Forall is_u8 bs →
  memmove m dst src (Z.of_nat (length bs)) = Some (dst, write m dst bs).
Proof.
  intros Hs Hd Hb. unfold memmove. destruct (Z.eqb_spec dst src) as [->|Hne]; simpl.
  { by rewrite write_seg. }
  destruct (Z.eqb_spec (Z.of_nat (length bs)) 0) as [H0|H0].
  { by destruct bs. }
  destruct (Z.ltb_spec dst src).
  - rewrite Nat2Z.id, memcpy_loop_spec by (done || lia). done.
  - rewrite Nat2Z.id, memmove_back_spec; [|..|done|lia].
    + by replace (dst + _ - _) with dst by lia.
    + by replace (src + _ - _) with src by lia.
    + by replace (dst + _ - _) with dst by lia.
Qed.

Lemma memset_loop_spec (n : nat) m d c :
  mapped m d (Z.of_nat n) → memset_loop n m d c = Some (write m d (replicate n (u8 c))).
Proof.
  revert m d. induction n as [|n IH]; intros m d Hd; [done|].
  apply mapped_cons in Hd as [Hd0 Hd]; [|lia]. cbn [memset_loop].
  rewrite store_mapped by done. cbn [mbind option_bind]. rewrite IH; [done|].
  apply mapped_write. by replace (Z.of_nat n) with (Z.of_nat (S n) - 1) by lia.
Qed.

Lemma memset_ok m dst c n :
  0 ≤ n → mapped m dst n → memset m dst c n = Some (dst, write m dst (replicate (Z.to_nat n) (u8 c))).
Proof.
  intros Hn Hm. unfold memset. rewrite memset_loop_spec; [done|].
  by rewrite Z2Nat.id.
Qed.

Lemma memcmp_loop_spec m p q bs cs :
  seg m p bs → seg m q cs → length bs = length cs →
  memcmp_loop (length bs) m p q = Some (lexdiff bs cs).
Proof.
  revert p q cs. induction bs as [|b bs IH]; intros p q [|c cs] Hp Hq Hl; try done.
  rewrite seg_cons in Hp, Hq. destruct Hp as [Hp0 Hp], Hq as [Hq0 Hq]. cbn.
  unfold load. rewrite Hp0, Hq0. cbn. destruct (Z.eqb_spec b c); cbn; [|done].
  apply IH; [done..|]. simpl in Hl. lia.
Qed.

Lemma memchr_loop_spec m p c bs :
  seg m p bs → memchr_loop (length bs) m p c = Some (addr_of p (find_idx (Z.eqb (u8 c)) bs)).
Proof.
  revert p. induction bs as [|b bs IH]; intros p Hp; [done|].
  rewrite seg_cons in Hp. destruct Hp as [Hp0 Hp]. cbn. unfold load. rewrite Hp0. cbn.
  rewrite (Z.eqb_sym b). destruct (Z.eqb_spec (u8 c) b); cbn; [f_equal; lia|].
  rewrite IH by done. f_equal. destruct (find_idx _ bs); cbn; [lia|done].
Qed.
End memory_routines.

(** ** Lengths and comparisons of strings *)

Section string_reads.
Implicit Types (m : mem) (p q a b n : Z) (s t : list Z).

Lemma strlen_loop_spec f m p k s :
  cstr m (p + Z.of_nat k) s → (length s < f)%nat → is_u32 (Z.of_nat (k + length s)) →
  strlen_loop f m p (Z.of_nat k) = Some (Z.of_nat (k + length s)).
Proof.
  revert k f. induction s as [|c s IH]; intros k [|f] Hs Hf Hk; simpl in Hf; try lia.
  - rewrite cstr_nil in Hs. cbn. unfold load. rewrite Hs. cbn. by rewrite Nat.add_0_r.
  - rewrite cstr_cons in Hs. destruct Hs as (H0 & Hc & Hs). cbn. unfold load. rewrite H0. cbn.
    unfold is_char in Hc. zb_simpl. simpl in Hk.
    replace (u32 (Z.of_nat k + 1)) with (Z.of_nat (S k)) by (rewrite u32_small; unfold is_u32 in *; lia).
    rewrite IH; [f_equal; lia| |lia|].
    + by replace (p + Z.of_nat (S k)) with (p + Z.of_nat k + 1) by lia.
    + by replace (S k + length s)%nat with (k + S (length s))%nat by lia.
Qed.

Lemma strlen_ok m p s :
  cstr m p s → is_u32 (Z.of_nat (length s)) → strlen m p = Some (Z.of_nat (length s)).
Proof.
  intros Hs Hl. unfold strlen. change 0 with (Z.of_nat 0).
  rewrite (strlen_loop_spec _ _ _ _ s); [done| |by eapply cstr_fuel|done].
  by rewrite Z.add_0_r.
Qed.

Lemma strnlen_loop_spec k m p i s :
  cstr m (p + Z.of_nat i) s →
  strnlen_loop k m p (Z.of_nat i) = Some (Z.of_nat (i + k `min` length s)).
Proof.
  revert i k. induction s as [|c s IH]; intros i [|k] Hs.
  - cbn. f_equal. lia.
  - rewrite cstr_nil in Hs. cbn. unfold load. rewrite Hs. cbn. f_equal. lia.
  - cbn. f_equal. lia.
  - rewrite cstr_cons in Hs. destruct Hs as (H0 & Hc & Hs). cbn. unfold load. rewrite H0. cbn.
    unfold is_char in Hc. zb_simpl.
    replace (Z.of_nat i + 1) with (Z.of_nat (S i)) by lia.
    rewrite IH; [f_equal; lia|]. by replace (p + Z.of_nat (S i)) with (p + Z.of_nat i + 1) by lia.
Qed.

Lemma strnlen_ok m p s n :
  cstr m p s → 0 ≤ n → strnlen m p n = Some (Z.min n (Z.of_nat (length s))).
Proof.
  intros Hs Hn. unfold strnlen. change 0 with (Z.of_nat 0).
  rewrite (strnlen_loop_spec _ _ _ _ s); [f_equal; lia|]. by rewrite Z.add_0_r.
Qed.

Lemma strcmp_loop_spec f m a b s t :
  cstr m a s → cstr m b t → (length s < f)%nat →
  strcmp_loop f m a b = Some (lexdiff (s ++ [0]) (t ++ [0])).
Proof.
  revert f a b t. induction s as [|x s IH]; intros [|f] a b t Hs Ht Hf; simpl in Hf; try lia.
  - rewrite cstr_nil in Hs. destruct t as [|y t].
    + rewrite cstr_nil in Ht. cbn. unfold load. by rewrite Hs, Ht.
    + rewrite cstr_cons in Ht. destruct Ht as (Ht & Hy & _). cbn. unfold load. rewrite Hs, Ht. cbn.
      rewrite (u8_char y) by done. unfold is_char in Hy. destruct y; try lia. done.
  - rewrite cstr_cons in Hs. destruct Hs as (Hs0 & Hx & Hs). cbn. unfold load. rewrite Hs0. cbn.
    rewrite (u8_char x) by done. pose proof Hx as Hx'. unfold is_char in Hx'.
    zb_simpl. cbn. destruct t as [|y t].
    + rewrite cstr_nil in Ht. rewrite Ht. cbn. zb_simpl. done.
    + rewrite cstr_cons in Ht. destruct Ht as (Ht0 & Hy & Ht). rewrite Ht0. cbn.
      rewrite (u8_char y) by done. destruct (Z.eqb_spec x y); [|done]. apply IH; [done..|lia].
Qed.

Lemma strcmp_ok m a b s t :
  cstr m a s → cstr m b t → strcmp m a b = Some (lexdiff (s ++ [0]) (t ++ [0])).
Proof. intros. apply strcmp_loop_spec; [done..|by eapply cstr_fuel]. Qed.

Lemma strncmp_loop_spec (n : nat) m a b s t :
  cstr m a s → cstr m b t →
  strncmp_loop n m a b = Some (lexdiff (take n (s ++ [0])) (take n (t ++ [0]))).
Proof.
  revert n a b t. induction s as [|x s IH]; intros [|n] a b t Hs Ht; try done.
  - rewrite cstr_nil in Hs. destruct t as [|y t].
    + rewrite cstr_nil in Ht. cbn. unfold load. rewrite Hs, Ht. cbn. by destruct n.
    + rewrite cstr_cons in Ht. destruct Ht as (Ht & Hy & _). cbn. unfold load. rewrite Hs, Ht. cbn.
      rewrite (u8_char y) by done. unfold is_char in Hy. destruct y; try lia. done.
  - rewrite cstr_cons in Hs. destruct Hs as (Hs0 & Hx & Hs). cbn. unfold load. rewrite Hs0. cbn.
    rewrite (u8_char x) by done. pose proof Hx as Hx'. unfold is_char in Hx'.
    zb_simpl. cbn. destruct t as [|y t].
    + rewrite cstr_nil in Ht. rewrite Ht. cbn. zb_simpl. done.
    + rewrite cstr_cons in Ht. destruct Ht as (Ht0 & Hy & Ht). rewrite Ht0. cbn.
      rewrite (u8_char y) by done. destruct (Z.eqb_spec x y); [|done]. by apply IH.
Qed.

(** [lexdiff] on terminated strings is 0 exactly on equal strings, and its
    sign is antisymmetric and transitive: a total order on strings. *)
Lemma lexdiff_refl s : lexdiff s s = 0.
Proof. induction s; simpl; [done|]. by rewrite Z.eqb_refl. Qed.

Lemma lexdiff_antisym s t : lexdiff t s = - lexdiff s t.
Proof.
  revert t. induction s as [|x s IH]; intros [|y t]; simpl; try done.
  rewrite (Z.eqb_sym y). destruct (Z.eqb_spec x y); [apply IH|lia].
Qed.

Lemma lexdiff_eq_0 s t :
  Forall is_char s → Forall is_char t → lexdiff (s ++ [0]) (t ++ [0]) = 0 ↔ s = t.
Proof.
  intros Hs Ht. split; [|intros ->; apply lexdiff_refl].
  revert t Ht. induction Hs as [|x s Hx Hs IH]; intros [|y t] Ht; simpl; unfold is_char in *; try done.
  - apply Forall_cons in Ht as [Hy _]. destruct y; try lia.
  - destruct (Z.eqb_spec x 0); lia.
  - apply Forall_cons in Ht as [Hy Ht]. destruct (Z.eqb_spec x y) as [->|]; [|lia].
    intros H. f_equal. by apply IH.
Qed.

Lemma lexdiff_trans s t r :
  Forall is_char s → Forall is_char t → Forall is_char r →
  lexdiff (s ++ [0]) (t ++ [0]) < 0 → lexdiff (t ++ [0]) (r ++ [0]) < 0 →
  lexdiff (s ++ [0]) (r ++ [0]) < 0.
Proof.
  intros Hs. revert t r. induction Hs as [|x s Hx Hs IH]; intros [|y t] [|z r] Ht Hr;
    try apply Forall_cons in Ht as [Hy Ht]; try apply Forall_cons in Hr as [Hz Hr];
    cbn [app lexdiff]; unfold is_char in *; bool_cases; try lia; subst; eauto.
Qed.
End string_reads.

(** ** Copies of strings *)

Section string_copies.
Implicit Types (m : mem) (p q d a b : Z) (s t : list Z).

(** Bytes of a string with its terminator. *)
Lemma cstr_bytes s : Forall is_char s → Forall is_u8 (s ++ [0]).
Proof.
  intros H. apply Forall_app. split; [by eapply Forall_impl; [|apply is_char_u8]|].
  repeat constructor; done.
Qed.

Lemma strcpy_loop_spec f m d p s :
  cstr m p s → mapped m d (Z.of_nat (length s) + 1) → (length s < f)%nat →
  (d ≤ p ∨ p + Z.of_nat (length s) < d) →
  strcpy_loop f m d p = Some (write m d (s ++ [0])).
Proof.
  revert f m d p. induction s as [|c s IH]; intros [|f] m d p Hs Hd Hf Hov; cbn [length] in *; try lia.
  - rewrite cstr_nil in Hs. cbn. unfold load. rewrite Hs. cbn.
    rewrite store_mapped by (apply Hd; lia). done.
  - rewrite cstr_cons in Hs. destruct Hs as (H0 & Hc & Hs). cbn [strcpy_loop].
    unfold load. rewrite H0. cbn [mbind option_bind].
    rewrite store_mapped by (apply Hd; lia). cbn [mbind option_bind].
    rewrite u8_char by done. unfold is_char in Hc. zb_simpl.
    rewrite IH; [done| | |lia|lia].
    + apply cstr_write_disjoint; [|done]. unfold disjoint. simpl. lia.
    + apply mapped_write. eapply mapped_weaken; [done|lia|lia].
Qed.

Lemma strcpy_ok m dst src s :
  cstr m src s → mapped m dst (Z.of_nat (length s) + 1) →
  (dst ≤ src ∨ src + Z.of_nat (length s) < dst) →
  strcpy m dst src = Some (dst, write m dst (s ++ [0])).
Proof.
  intros. unfold strcpy. rewrite (strcpy_loop_spec _ _ _ _ s); [done..|by eapply cstr_fuel|done].
Qed.

Lemma strncpy_copy_spec k m dst src i s :
  cstr m (src + Z.of_nat i) s →
  mapped m (dst + Z.of_nat i) (Z.of_nat (k `min` length s)) →
  (dst ≤ src ∨ src + Z.of_nat i + Z.of_nat (length s) < dst) →
  strncpy_copy k m dst src (Z.of_nat i) =
  Some (Z.of_nat (i + k `min` length s), write m (dst + Z.of_nat i) (take k s)).
Proof.
  revert k m i. induction s as [|c s IH]; intros [|k] m i Hs Hd Hov; cbn [length take] in *.
  - cbn. by rewrite Nat.add_0_r.
  - rewrite cstr_nil in Hs. cbn. unfold load. rewrite Hs. cbn. by rewrite Nat.add_0_r.
  - cbn. by rewrite Nat.add_0_r.
  - rewrite cstr_cons in Hs. destruct Hs as (H0 & Hc & Hs). cbn [strncpy_copy]. unfold load. rewrite H0.
    cbn [mbind option_bind]. pose proof Hc as Hc'. unfold is_char in Hc'. zb_simpl.
    rewrite store_mapped by (apply Hd; lia). cbn [mbind option_bind]. rewrite u8_char by done.
    replace (Z.of_nat i + 1) with (Z.of_nat (S i)) by lia.
    rewrite IH; [| | |lia].
    + f_equal. f_equal; [lia|]. cbn [write]. f_equal. lia.
    + replace (src + Z.of_nat (S i)) with (src + Z.of_nat i + 1) by lia.
      apply cstr_write_disjoint; [|done]. unfold disjoint. simpl. lia.
    + apply mapped_write. eapply mapped_weaken; [done|lia|lia].
Qed.

(** The padded copy: what fits of [s], then zeros up to [n]. *)
Definition padded (n : nat) (s : list Z) : list Z := take n s ++ replicate (n - length s) 0.

Lemma strncpy_ok m dst src s (n : nat) :
  cstr m src s → mapped m dst (Z.of_nat n) →
  (dst + Z.of_nat n ≤ src ∨ src + Z.of_nat (length s) < dst) →
  strncpy m dst src (Z.of_nat n) = Some (dst, write m dst (padded n s)).
Proof.
  intros Hs Hd Hov. unfold strncpy. rewrite Nat2Z.id.
  pose proof (strncpy_copy_spec n m dst src 0 s) as H. change (Z.of_nat 0) with 0 in H.
  rewrite !Z.add_0_r in H. rewrite H; [|done| |lia].
  - cbn [mbind option_bind fst snd]. rewrite Nat.add_0_l.
    rewrite memset_loop_spec.
    + cbn [mbind option_bind]. unfold padded. rewrite write_app, length_take.
      replace (Z.to_nat (Z.of_nat n - Z.of_nat (n `min` length s))) with (n - length s)%nat by lia.
      done.
    + apply mapped_write. eapply mapped_weaken; [done|lia|lia].
  - eapply mapped_weaken; [done|lia|lia].
Qed.

Lemma cstr_app_write m p s t :
  Forall is_char t → cstr m p s →
  cstr (write m (p + Z.of_nat (length s)) (t ++ [0])) p (s ++ t).
Proof.
  intros Ht [Hs1 Hs2]. split; [|by apply Forall_app].
  apply seg_app in Hs1 as [Hs1 _]. rewrite <- app_assoc, seg_app. split; [|apply seg_write].
  apply seg_write_disjoint; [|done]. unfold disjoint. lia.
Qed.

Lemma strcat_ok m dst src s t :
  cstr m dst s → cstr m src t → is_u32 (Z.of_nat (length s)) →
  mapped m (dst + Z.of_nat (length s)) (Z.of_nat (length t) + 1) →
  (dst + Z.of_nat (length s) + Z.of_nat (length t) < src ∨ src + Z.of_nat (length t) < dst + Z.of_nat (length s)) →
  strcat m dst src = Some (dst, write m (dst + Z.of_nat (length s)) (t ++ [0])).
Proof.
  intros Hs Ht Hl Hm Hov. unfold strcat. rewrite (strlen_ok _ _ s) by done. cbn [mbind option_bind].
  rewrite (strcpy_ok _ _ _ t); [done|done|done|lia].
Qed.

Lemma strncat_loop_spec k m d p s :
  cstr m p s → mapped m d (Z.of_nat (k `min` length s)) →
  (d + Z.of_nat (k `min` length s) ≤ p ∨ p + Z.of_nat (length s) < d) →
  strncat_loop k m d p = Some (d + Z.of_nat (k `min` length s), write m d (take k s)).
Proof.
  revert k m d p. induction s as [|c s IH]; intros [|k] m d p Hs Hd Hov; cbn [length take] in *.
  - cbn. by rewrite Z.add_0_r.
  - rewrite cstr_nil in Hs. cbn. unfold load. rewrite Hs. cbn. by rewrite Z.add_0_r.
  - cbn. by rewrite Z.add_0_r.
  - rewrite cstr_cons in Hs. destruct Hs as (H0 & Hc & Hs). cbn [strncat_loop]. unfold load. rewrite H0.
    cbn [mbind option_bind]. pose proof Hc as Hc'. unfold is_char in Hc'. zb_simpl.
    rewrite store_mapped by (apply Hd; lia). cbn [mbind option_bind]. rewrite u8_char by done.
    rewrite IH; [f_equal; f_equal; lia| | |lia].
    + apply cstr_write_disjoint; [|done]. unfold disjoint. simpl. lia.
    + apply mapped_write. eapply mapped_weaken; [done|lia|lia].
Qed.

Lemma strncat_ok m dst src s t (n : nat) :
  cstr m dst s → cstr m src t → is_u32 (Z.of_nat (length s)) →
  mapped m (dst + Z.of_nat (length s)) (Z.of_nat (n `min` length t) + 1) →
  (dst + Z.of_nat (length s) + Z.of_nat (n `min` length t) < src ∨
   src + Z.of_nat (length t) < dst + Z.of_nat (length s)) →
  strncat m dst src (Z.of_nat n) =
  Some (dst, write m (dst + Z.of_nat (length s)) (take n t ++ [0])).
Proof.
  intros Hs Ht Hl Hm Hov. unfold strncat. rewrite (strlen_ok _ _ s) by done. cbn [mbind option_bind].
  rewrite Nat2Z.id, (strncat_loop_spec _ _ _ _ t); [|done|eapply mapped_weaken; [done|lia|lia]|lia].
  cbn [mbind option_bind]. rewrite store_mapped.
  - cbn [mbind option_bind]. rewrite write_app, length_take. done.
  - apply (mapped_write m _ _ _ _ Hm). lia.
Qed.

(** [strxfrm] with a real buffer: at most [n - 1] bytes and a terminator. *)
Lemma strxfrm_ok m dst src s (n : nat) :
  cstr m src s → is_u32 (Z.of_nat (length s)) → dst ≠ 0 → (0 < n)%nat →
  mapped m dst (Z.of_nat n) →
  (dst + Z.of_nat n ≤ src ∨ src + Z.of_nat (length s) < dst) →
  strxfrm m dst src (Z.of_nat n) =
  Some (Z.of_nat (length s), write m dst (take (n - 1) s ++ [0])).
Proof.
  intros Hs Hl Hd Hn Hm Hov. unfold strxfrm. rewrite (strlen_ok _ _ s) by done. cbn [mbind option_bind].
  zb_simpl. cbn [negb andb].
  assert (cstr m src (s) → seg m src (take (n - 1) s)) as Hseg.
  { intros [H _]. rewrite <- (take_drop (n-1) s), <- app_assoc, seg_app in H. tauto. }
  replace (if _ <? _ then _ else _) with (Z.of_nat (length (take (n - 1) s))).
  2:{ rewrite length_take. destruct (Z.ltb_spec (Z.of_nat (length s)) (Z.of_nat n - 1)); lia. }
  rewrite memcpy_ok; [|by apply Hseg|..].
  - cbn [mbind option_bind]. rewrite store_mapped.
    + cbn [mbind option_bind]. by rewrite write_app.
    + apply (mapped_write m _ _ _ _ Hm). rewrite length_take. lia.
  - rewrite length_take. eapply mapped_weaken; [done|lia|lia].
  - destruct Hs as [_ Hs]. apply Forall_take. by eapply Forall_impl; [|apply is_char_u8].
  - rewrite length_take. lia.
Qed.
End string_copies.

(** ** Searches *)

Section string_searches.
Implicit Types (m : mem) (p q d a b c : Z) (s t D : list Z).

Lemma addr_of_S p o : addr_of (p + 1) o = addr_of p (S <$> o).
Proof. destruct o; cbn; lia. Qed.

Lemma strchr_loop_spec f m p c s :
  cstr m p s → (length s < f)%nat →
  strchr_loop f m p c = Some (addr_of p (find_idx (Z.eqb (u8 c)) (s ++ [0]))).
Proof.
  revert f p. induction s as [|x s IH]; intros [|f] p Hs Hf; cbn [length] in *; try lia.
  - rewrite cstr_nil in Hs. cbn. unfold load. rewrite Hs. cbn [mbind option_bind].
    rewrite (Z.eqb_sym 0). destruct (u8 c =? 0); cbn; [f_equal; lia|done].
  - rewrite cstr_cons in Hs. destruct Hs as (H0 & Hc & Hs). cbn. unfold load. rewrite H0. cbn.
    rewrite (Z.eqb_sym x (u8 c)). destruct (Z.eqb_spec (u8 c) x); cbn; [f_equal; lia|].
    unfold is_char in Hc. zb_simpl. rewrite IH by (done || lia). by rewrite addr_of_S.
Qed.

Lemma strchr_ok m p c s :
  cstr m p s → strchr m p c = Some (addr_of p (find_idx (Z.eqb (u8 c)) (s ++ [0]))).
Proof. intros. apply strchr_loop_spec; [done|by eapply cstr_fuel]. Qed.

(** Index of the last byte satisfying [P]. *)
Fixpoint last_idx (P : Z → bool) (s : list Z) : option nat :=
  match s with
  | [] => None
  | x :: s' =>
      match last_idx P s' with
      | Some i => Some (S i)
      | None => if P x then Some O else None
      end
  end.

Lemma strrchr_loop_spec f m p c found s :
  cstr m p s → (length s < f)%nat →
  strrchr_loop f m p c found =
  Some (match last_idx (Z.eqb (u8 c)) (s ++ [0]) with
        | Some i => p + Z.of_nat i
        | None => found
        end).
Proof.
  revert f p found. induction s as [|x s IH]; intros [|f] p found Hs Hf; cbn [length] in *; try lia.
  - rewrite cstr_nil in Hs. cbn. unfold load. rewrite Hs. cbn [mbind option_bind].
    rewrite Z.eqb_refl, (Z.eqb_sym 0 (u8 c)). destruct (u8 c =? 0); cbn; [f_equal; lia|done].
  - rewrite cstr_cons in Hs. destruct Hs as (H0 & Hc & Hs). cbn [strrchr_loop]. unfold load.
    rewrite H0. cbn [mbind option_bind]. unfold is_char in Hc. zb_simpl. rewrite IH by (done || lia).
    cbn [app last_idx]. rewrite (Z.eqb_sym x (u8 c)). destruct (last_idx _ (s ++ [0])); [f_equal; lia|].
    destruct (u8 c =? x); [f_equal; lia|done].
Qed.

Lemma strrchr_ok m p c s :
  cstr m p s → strrchr m p c = Some (addr_of p (last_idx (Z.eqb (u8 c)) (s ++ [0]))).
Proof.
  intros. unfold strrchr. rewrite (strrchr_loop_spec _ _ _ _ _ s); [|done|by eapply cstr_fuel].
  by destruct (last_idx _ _).
Qed.

(** [strncmp] against a whole needle decides the prefix relation. *)
Lemma lexdiff_prefix s t :
  Forall is_char s → Forall is_char t →
  (lexdiff (take (length t) (s ++ [0])) (take (length t) (t ++ [0])) =? 0) = is_prefix t s.
Proof.
  intros Hs. revert t. induction Hs as [|x s Hx Hs IH]; intros [|y t] Ht; try done.
  - apply Forall_cons in Ht as [Hy _]. unfold is_char in Hy. cbn [app take length lexdiff is_prefix].
    zb_simpl. done.
  - apply Forall_cons in Ht as [Hy Ht]. cbn [app take length lexdiff is_prefix].
    rewrite (Z.eqb_sym y). destruct (Z.eqb_spec x y); [by apply IH|]. apply Z.eqb_neq. lia.
Qed.

Lemma strstr_loop_spec f m hay needle s t :
  cstr m hay s → cstr m needle t → t ≠ [] → (length s < f)%nat →
  strstr_loop f m hay needle (Z.of_nat (length t)) = Some (addr_of hay (find_sub t s)).
Proof.
  intros Hs Ht Hne. revert f hay Hs. induction s as [|x s IH]; intros [|f] hay Hs Hf; cbn [length] in *; try lia.
  - rewrite cstr_nil in Hs. cbn. unfold load. by rewrite Hs.
  - pose proof Hs as Hs'. rewrite cstr_cons in Hs. destruct Hs as (H0 & Hc & Hs).
    destruct t as [|y t]; [done|]. pose proof Ht as Ht'. rewrite cstr_cons in Ht'. destruct Ht' as (Hn0 & Hy & _).
    cbn [strstr_loop]. unfold load. rewrite H0, Hn0. cbn [mbind option_bind]. pose proof Hc as Hc'. unfold is_char in Hc'. zb_simpl.
    unfold strncmp. rewrite Nat2Z.id, (strncmp_loop_spec _ _ _ _ (x :: s) (y :: t)) by done.
    cbn [mbind option_bind]. rewrite lexdiff_prefix by (by destruct Hs', Ht).
    cbn [find_sub is_prefix]. rewrite (Z.eqb_sym y x). destruct (x =? y); cbn.
    + destruct (is_prefix t s); cbn [addr_of]; [f_equal; lia|]. rewrite IH by (done || lia). by rewrite addr_of_S.
    + rewrite IH by (done || lia). by rewrite addr_of_S.
Qed.

Lemma strstr_ok m hay needle s t :
  cstr m hay s → cstr m needle t → is_u32 (Z.of_nat (length t)) →
  strstr m hay needle = Some (if bool_decide (t = []) then hay else addr_of hay (find_sub t s)).
Proof.
  intros Hs Ht Hl. unfold strstr. destruct t as [|y t].
  - rewrite cstr_nil in Ht. unfold load. rewrite Ht. done.
  - pose proof Ht as Ht'. rewrite cstr_cons in Ht'. destruct Ht' as (H0 & Hy & _).
    unfold load. rewrite H0. cbn [mbind option_bind]. unfold is_char in Hy. zb_simpl.
    rewrite (strlen_ok _ _ (y :: t)) by done. cbn [mbind option_bind].
    rewrite (strstr_loop_spec _ _ _ _ s); [|done|done|done|by eapply cstr_fuel].
    by rewrite bool_decide_eq_false_2.
Qed.

(** Membership in a delimiter set, as the [strchr] test sees it. *)
Lemma find_idx_memb c D : is_Some (find_idx (Z.eqb c) D) ↔ memb c D = true.
Proof.
  induction D as [|x D IH]; cbn; [split; [by intros [??]|done]|].
  destruct (c =? x); cbn; [split; eauto|]. rewrite fmap_is_Some. done.
Qed.

Lemma find_idx_app P s t :
  find_idx P (s ++ t) =
  match find_idx P s with Some i => Some i | None => Nat.add (length s) <$> find_idx P t end.
Proof.
  induction s as [|x s IH]; cbn; [by destruct (find_idx P t)|].
  destruct (P x); [done|]. rewrite IH. destruct (find_idx P s); cbn; [done|].
  by destruct (find_idx P t).
Qed.

Lemma strchr_memb m p c D :
  cstr m p D → 0 < p → is_char c →
  ∃ r, strchr m p c = Some r ∧ negb (r =? 0) = memb c D.
Proof.
  intros HD Hp Hc. rewrite (strchr_ok _ _ _ D) by done. eexists. split; [done|].
  rewrite u8_char by done. rewrite find_idx_app. pose proof (find_idx_memb c D) as Hm.
  unfold is_char in Hc. destruct (find_idx (Z.eqb c) D) as [i|]; cbn.
  - destruct Hm as [Hm _]. rewrite Hm by eauto. zb_simpl. done.
  - zb_simpl. cbn. destruct (memb c D); [|done]. destruct Hm as [_ Hm]. by destruct Hm.
Qed.

Lemma span_spec P s : let '(a, b) := span P s in
  s = a ++ b ∧ Forall (λ c, P c = true) a ∧ (∀ c r, b = c :: r → P c = false).
Proof.
  induction s as [|x s IH]; cbn; [repeat split; try done; naive_solver|].
  destruct (P x) eqn:HP.
  - destruct (span P s) as [a b]. destruct IH as (-> & Ha & Hb). repeat split; [|done].
    by constructor.
  - repeat split; [done|]. naive_solver.
Qed.

Lemma span_length P s : length s = (length (span P s).1 + length (span P s).2)%nat.
Proof.
  pose proof (span_spec P s). destruct (span P s) as [a b]. destruct H as (-> & _).
  by rewrite length_app.
Qed.

Lemma span_loop_spec inside f m p d k s D :
  cstr m (p + Z.of_nat k) s → cstr m d D → 0 < d → (length s < f)%nat →
  is_u32 (Z.of_nat (k + length s)) →
  span_loop inside f m p d (Z.of_nat k) =
  Some (Z.of_nat (k + length (span (λ c, Bool.eqb (memb c D) inside) s).1)).
Proof.
  intros Hs HD Hd. revert k f Hs. induction s as [|x s IH]; intros k [|f] Hs Hf Hl; cbn [length] in *; try lia.
  - rewrite cstr_nil in Hs. cbn. unfold load. rewrite Hs. cbn. by rewrite Nat.add_0_r.
  - rewrite cstr_cons in Hs. destruct Hs as (H0 & Hc & Hs). cbn [span_loop]. unfold load. rewrite H0.
    cbn [mbind option_bind]. destruct (strchr_memb m d x D) as (r & Hr & Hm); [done..|].
    unfold is_char in Hc. zb_simpl. rewrite Hr. cbn [mbind option_bind]. rewrite Hm. cbn [span].
    destruct (Bool.eqb (memb x D) inside); [|by rewrite Nat.add_0_r].
    replace (u32 (Z.of_nat k + 1)) with (Z.of_nat (S k)) by (rewrite u32_small; unfold is_u32 in *; lia).
    rewrite IH; [| |lia|].
    + destruct (span _ s) as [u v]. cbn. f_equal. lia.
    + by replace (p + Z.of_nat (S k)) with (p + Z.of_nat k + 1) by lia.
    + by replace (S k + length s)%nat with (k + S (length s))%nat by lia.
Qed.

Lemma strspn_ok m p d s D :
  cstr m p s → cstr m d D → 0 < d → is_u32 (Z.of_nat (length s)) →
  strspn m p d = Some (Z.of_nat (length (span (λ c, memb c D) s).1)).
Proof.
  intros Hs HD Hd Hl. unfold strspn. change 0 with (Z.of_nat 0).
  rewrite (span_loop_spec true _ _ _ _ _ s D); [|by rewrite Z.add_0_r|done|done|by eapply cstr_fuel|done].
  rewrite Nat.add_0_l. do 4 f_equal. clear. induction s as [|x s IH]; cbn; [done|]. rewrite IH. by destruct (memb x D).
Qed.

Lemma strcspn_ok m p d s D :
  cstr m p s → cstr m d D → 0 < d → is_u32 (Z.of_nat (length s)) →
  strcspn m p d = Some (Z.of_nat (length (span (λ c, negb (memb c D)) s).1)).
Proof.
  intros Hs HD Hd Hl. unfold strcspn. change 0 with (Z.of_nat 0).
  rewrite (span_loop_spec false _ _ _ _ _ s D); [|by rewrite Z.add_0_r|done|done|by eapply cstr_fuel|done].
  done.
Qed.

Lemma strpbrk_loop_spec f m p d s D :
  cstr m p s → cstr m d D → 0 < d → (length s < f)%nat →
  strpbrk_loop f m p d = Some (addr_of p (find_idx (λ c, memb c D) s)).
Proof.
  intros Hs HD Hd. revert f p Hs. induction s as [|x s IH]; intros [|f] p Hs Hf; cbn [length] in *; try lia.
  - rewrite cstr_nil in Hs. cbn. unfold load. by rewrite Hs.
  - rewrite cstr_cons in Hs. destruct Hs as (H0 & Hc & Hs). cbn [strpbrk_loop]. unfold load. rewrite H0.
    cbn [mbind option_bind]. destruct (strchr_memb m d x D) as (r & Hr & Hm); [done..|].
    unfold is_char in Hc. zb_simpl. rewrite Hr. cbn [mbind option_bind]. rewrite Hm. cbn [find_idx].
    destruct (memb x D); [cbn; f_equal; lia|]. rewrite IH by (done || lia). by rewrite addr_of_S.
Qed.
End string_searches.

(** ** Tokens *)

(** The maximal runs of bytes outside the delimiter set, in order. *)
Fixpoint tokens_acc (D : list Z) (cur s : list Z) : list (list Z) :=
  match s with
  | [] => if bool_decide (cur = []) then [] else [cur]
  | c :: s' =>
      if memb c D then
        if bool_decide (cur = []) then tokens_acc D [] s' else cur :: tokens_acc D [] s'
      else tokens_acc D (cur ++ [c]) s'
  end.

Definition tokens (D s : list Z) : list (list Z) := tokens_acc D [] s.

Section tokenizer.
Implicit Types (m : mem) (p q d a : Z) (s t D : list Z).

Lemma tokens_skip D s : tokens D (span (λ c, memb c D) s).2 = tokens D s.
Proof.
  unfold tokens. induction s as [|x s IH]; [done|]. cbn [span].
  destruct (memb x D) eqn:Hx; [|done].
  destruct (span _ s) as [u v] eqn:E. cbn in *. rewrite Hx. done.
Qed.

Lemma tokens_acc_span D cur s :
  cur ≠ [] →
  tokens_acc D cur s =
  (cur ++ (span (λ c, negb (memb c D)) s).1) ::
  match (span (λ c, negb (memb c D)) s).2 with [] => [] | _ :: r => tokens D r end.
Proof.
  revert cur. induction s as [|x s IH]; intros cur Hc; cbn [tokens_acc span].
  - rewrite bool_decide_eq_false_2 by done. cbn. by rewrite app_nil_r.
  - destruct (memb x D) eqn:Hx; cbn.
    + rewrite bool_decide_eq_false_2 by done. by rewrite app_nil_r.
    + rewrite IH by (by destruct cur). destruct (span _ s) as [u v]. cbn. by rewrite <- app_assoc.
Qed.

Lemma tokens_take D c s :
  memb c D = false →
  tokens D (c :: s) =
  (span (λ c, negb (memb c D)) (c :: s)).1 ::
  match (span (λ c, negb (memb c D)) (c :: s)).2 with [] => [] | _ :: r => tokens D r end.
Proof.
  intros Hc. unfold tokens at 1. cbn [tokens_acc]. rewrite Hc. rewrite tokens_acc_span by done.
  cbn [span]. rewrite Hc. cbn. destruct (span _ s) as [u v]. done.
Qed.

(** One call: the state it leaves and the token it returns. *)
Lemma strtok_r_step m d q s D (str save : Z) skip r tok r2 :
  (if negb (str =? 0) then str else save) = q →
  cstr m q s → cstr m d D → 0 < q → 0 < d → is_u32 (Z.of_nat (length s)) →
  span (λ c, memb c D) s = (skip, r) →
  span (λ c, negb (memb c D)) r = (tok, r2) →
  let tp := q + Z.of_nat (length skip) in
  let stop := tp + Z.of_nat (length tok) in
  strtok_r m str d save =
  Some (match r, r2 with
        | [], _ => (0, 0, m)
        | _, [] => (tp, 0, m)
        | _, _ :: _ => (tp, stop + 1, write m stop [0])
        end).
Proof.
  intros Hq Hs HD Hq0 Hd Hl E E2 tp stop. unfold strtok_r. rewrite Hq. zb_simpl.
  rewrite (strspn_ok _ _ _ s D) by done. cbn [mbind option_bind].
  pose proof (span_spec (λ c, memb c D) s) as Hsp. rewrite E in *. destruct Hsp as (Hs_eq & _ & _).
  cbn [fst]. fold tp.
  assert (cstr m tp r) as Hr.
  { unfold tp. replace r with (drop (length skip) s) by (rewrite Hs_eq at 1; by rewrite drop_app_length).
    apply cstr_drop; [|done]. rewrite Hs_eq, length_app. lia. }
  destruct r as [|c r'].
  { rewrite cstr_nil in Hr. unfold load. by rewrite Hr. }
  pose proof Hr as Hr0. rewrite cstr_cons in Hr0. destruct Hr0 as (Hc0 & Hc & _).
  assert (load m tp = Some c) as -> by done. cbn [mbind option_bind]. unfold is_char in Hc. zb_simpl.
  rewrite (strcspn_ok _ _ _ (c :: r') D); [|done..|].
  2:{ unfold is_u32 in *. rewrite Hs_eq, length_app in Hl. lia. }
  pose proof (span_spec (λ c, negb (memb c D)) (c :: r')) as Hsp2. rewrite E2 in *.
  destruct Hsp2 as (Heq2 & _ & _). cbn [mbind option_bind fst]. fold stop.
  assert (cstr m stop r2) as Hr2.
  { unfold stop. replace r2 with (drop (length tok) (c :: r')) by (rewrite Heq2; by rewrite drop_app_length).
    apply cstr_drop; [rewrite Heq2, length_app; lia|done]. }
  destruct r2 as [|e r2].
  - rewrite cstr_nil in Hr2. unfold load. by rewrite Hr2.
  - rewrite cstr_cons in Hr2. destruct Hr2 as (He0 & He & _). unfold load. rewrite He0. cbn [mbind option_bind].
    unfold is_char in He. zb_simpl. cbn [negb]. rewrite store_mapped by eauto. done.
Qed.

Lemma strtok_r_null m d : strtok_r m 0 d 0 = Some (0, 0, m).
Proof. done. Qed.

Lemma cstr_prefix_write m p s t c r :
  s = t ++ c :: r → cstr m p s → cstr (write m (p + Z.of_nat (length t)) [0]) p t.
Proof.
  intros -> [Hs Hc]. apply Forall_app in Hc as [Hc _]. split; [|done].
  rewrite <- app_assoc, seg_app in Hs. destruct Hs as [Hs _].
  rewrite seg_app. split; [|apply seg_write]. apply seg_write_disjoint; [|done]. unfold disjoint. lia.
Qed.

Lemma cstr_agree m m' p s :
  (∀ a, p ≤ a ≤ p + Z.of_nat (length s) → m' !! a = m !! a) → cstr m p s → cstr m' p s.
Proof.
  intros He [H1 H2]. split; [|done]. eapply seg_lookup_eq; [|done].
  intros a Ha. rewrite length_app in Ha. simpl in Ha. apply He. lia.
Qed.

(** What the calls after a given state produce: the tokens of the rest of the
    string, each terminated in place, with nothing outside the string touched. *)
Definition toks_ok (m m' : mem) (q : Z) (s : list Z) (ptrs : list Z) (toks : list (list Z)) : Prop :=
  Forall2 (cstr m') ptrs toks ∧ (∀ a, ¬ (q ≤ a < q + Z.of_nat (length s)) → m' !! a = m !! a).

Lemma strtok_chain f m d q s D (str save : Z) :
  (if negb (str =? 0) then str else save) = q →
  cstr m q s → cstr m d D → 0 < q → 0 < d → is_u32 (Z.of_nat (length s)) →
  disjoint q (Z.of_nat (length s) + 1) d (Z.of_nat (length D) + 1) →
  (length s < f)%nat →
  ∃ tok save' m1 ptrs m', strtok_r m str d save = Some (tok, save', m1) ∧
    (if tok =? 0 then Some ([], m1)
     else '(toks, m'') ← strtok_rest f m1 d save'; Some (tok :: toks, m'')) = Some (ptrs, m') ∧
    toks_ok m m' q s ptrs (tokens D s).
Proof.
  revert m q s str save. induction f as [|f IH]; intros m q s str save Hq Hs HD Hq0 Hd Hl Hdis Hf; [lia|].
  pose proof (span_spec (λ c, memb c D) s) as Hsp.
  rewrite <- (tokens_skip D s).
  destruct (span (λ c, memb c D) s) as [skip r] eqn:E. cbn [fst snd] in *.
  destruct Hsp as (Hs_eq & _ & Hr_hd).
  destruct (span (λ c, negb (memb c D)) r) as [tok r2] eqn:E2.
  pose proof (strtok_r_step m d q s D str save _ _ _ _ Hq Hs HD Hq0 Hd Hl E E2) as Hstep. cbn zeta in Hstep.
  set (tp := q + Z.of_nat (length skip)) in *.
  destruct r as [|c r].
  { exists 0, 0, m, [], m. split; [exact Hstep|]. split; [done|]. split; [constructor|done]. }
  rewrite tokens_take by (by eapply Hr_hd).
  pose proof (span_spec (λ c, negb (memb c D)) (c :: r)) as Hsp2. rewrite E2 in *.
  destruct Hsp2 as (Heq2 & _ & _). cbn [fst snd].
  assert (cstr m tp (c :: r)) as Hr.
  { unfold tp. replace (c :: r) with (drop (length skip) s) by (rewrite Hs_eq at 1; by rewrite drop_app_length).
    apply cstr_drop; [|done]. rewrite Hs_eq, length_app. lia. }
  destruct r2 as [|e r2].
  - rewrite app_nil_r in Heq2. exists tp, 0, m, [tp], m. split; [exact Hstep|].
    assert ((tp =? 0) = false) as -> by (apply Z.eqb_neq; unfold tp; lia).
    cbn [strtok_rest mbind option_bind]. rewrite strtok_r_null. cbn. split; [done|].
    split; [|done]. constructor; [|done]. by rewrite <- Heq2.
  - set (stop := tp + Z.of_nat (length tok)) in *.
    assert (length s = length skip + length tok + S (length r2))%nat as Hlen.
    { rewrite Hs_eq, Heq2, !length_app. simpl. lia. }
    destruct (IH (write m stop [0]) (stop + 1) r2 0 (stop + 1)) as (tok' & save' & m1 & ptrs & m' & H1 & H2 & H3 & H4).
    + done.
    + apply cstr_write_disjoint; [unfold disjoint; simpl; lia|].
      replace r2 with (drop (length tok + 1) (c :: r)).
      2:{ rewrite Heq2. rewrite <- drop_drop, drop_app_length. done. }
      replace (stop + 1) with (tp + Z.of_nat (length tok + 1)) by (unfold stop; lia).
      apply cstr_drop; [|done]. rewrite Heq2, length_app. simpl. lia.
    + apply cstr_write_disjoint; [|done]. unfold disjoint in *. simpl. unfold stop, tp. lia.
    + unfold stop, tp. lia.
    + done.
    + unfold is_u32 in *. lia.
    + unfold disjoint in *. unfold stop, tp. lia.
    + lia.
    + exists tp, (stop + 1), (write m stop [0]), (tp :: ptrs), m'. split; [exact Hstep|].
      assert ((tp =? 0) = false) as -> by (apply Z.eqb_neq; unfold tp; lia).
      split.
      * cbn [strtok_rest]. rewrite H1. cbn [mbind option_bind].
        destruct (tok' =? 0); [by injection H2 as <- <-|].
        destruct (strtok_rest f m1 d save') as [[??]|]; [|done]. cbn in *. by injection H2 as <- <-.
      * split.
        -- constructor; [|done]. apply (cstr_agree (write m stop [0])).
           { intros a Ha. apply H4. unfold stop in *. lia. }
           by eapply (cstr_prefix_write m tp (c :: r)).
        -- intros a Ha. rewrite H4 by (unfold stop, tp in *; lia).
           apply lookup_write_out. simpl. unfold stop, tp in *. lia.
Qed.
End tokenizer.

(** ** The contracts *)

(** Byte-wise lexicographic order on strings. *)
Fixpoint lexlt (s t : list Z) : bool :=
  match s, t with
  | [], [] => false
  | [], _ :: _ => true
  | _ :: _, [] => false
  | x :: s', y :: t' => (x <? y) || ((x =? y) && lexlt s' t')
  end.

Lemma lexdiff_lexlt s t :
  Forall is_char s → Forall is_char t → lexdiff (s ++ [0]) (t ++ [0]) < 0 ↔ lexlt s t = true.
Proof.
  intros Hs. revert t. induction Hs as [|x s Hx Hs IH]; intros [|y t] Ht;
    try apply Forall_cons in Ht as [Hy Ht]; cbn [app lexdiff lexlt]; unfold is_char in *;
    bool_cases; try (split; (done || lia)). by apply IH.
Qed.

(** [memmove] copies [n] bytes correctly whatever the overlap of source and
    destination: every destination byte ends up with the source byte as it was
    before the call, and no other byte of memory changes. *)
Theorem memmove_correct m dst src bs :
  seg m src bs → mapped m dst (Z.of_nat (length bs)) → Forall is_u8 bs →
  ∃ m', memmove m dst src (Z.of_nat (length bs)) = Some (dst, m') ∧
        seg m' dst bs ∧
        (∀ a, ¬ (dst ≤ a < dst + Z.of_nat (length bs)) → m' !! a = m !! a).
Proof.
  intros. eexists. split; [by apply memmove_ok|]. split; [apply seg_write|].
  intros. by apply lookup_write_out.
Qed.

(** The overlapping copy that the kernel module's self test makes. *)
Lemma memmove_correct_witness :
  ∃ m', memmove (mem_of 100 (lit "abcdefghijkl")) 101 100 11 = Some (101, m') ∧
        seg m' 101 (lit "abcdefghijk").
Proof.
  destruct (memmove_correct (mem_of 100 (lit "abcdefghijkl")) 101 100 (lit "abcdefghijk"))
    as (m' & H1 & H2 & _).
  - apply segb_seg. vm_compute. reflexivity.
  - apply mappedb_mapped. vm_compute. reflexivity.
  - repeat constructor; vm_compute; intros; discriminate.
  - exists m'. split; [exact H1|exact H2].
Defined.

(** [strcmp] is the byte-wise lexicographic order of the two strings: it
    returns (without reading past either terminator) a value that is 0 exactly
    on equal strings, negative exactly when the first sorts before the second,
    and the comparison the other way round returns the opposite value. *)
Theorem strcmp_order m a b s t :
  cstr m a s → cstr m b t →
  ∃ r, strcmp m a b = Some r ∧ strcmp m b a = Some (- r) ∧
       (r = 0 ↔ s = t) ∧ (r < 0 ↔ lexlt s t = true) ∧ (0 < r ↔ lexlt t s = true).
Proof.
  intros Hs Ht. exists (lexdiff (s ++ [0]) (t ++ [0])).
  rewrite (strcmp_ok _ _ _ s t), (strcmp_ok _ _ _ t s) by done.
  rewrite (lexdiff_antisym (s ++ [0]) (t ++ [0])). destruct Hs as [_ Hs], Ht as [_ Ht].
  split; [done|]. split; [done|]. split; [by apply lexdiff_eq_0|]. split; [by apply lexdiff_lexlt|].
  rewrite <- lexdiff_lexlt, (lexdiff_antisym (s ++ [0]) (t ++ [0])) by done. lia.
Qed.

Lemma strcmp_order_witness :
  ∃ r, strcmp (mem_of 16 (lit "abc" ++ [0] ++ lit "abd" ++ [0])) 16 20 = Some r ∧ r < 0.
Proof.
  destruct (strcmp_order (mem_of 16 (lit "abc" ++ [0] ++ lit "abd" ++ [0])) 16 20 (lit "abc") (lit "abd"))
    as (r & H1 & _ & _ & H4 & _).
  - apply cstrb_cstr. vm_compute. reflexivity.
  - apply cstrb_cstr. vm_compute. reflexivity.
  - exists r. split; [exact H1|]. apply H4. vm_compute. reflexivity.
Defined.

(** Calling [strtok_r] until it returns NULL yields exactly the maximal runs
    of non-delimiter characters, in order, each one a string of its own in the
    caller's buffer; it terminates, and nothing outside the string is written. *)
Theorem strtok_all_tokens m p d s D :
  cstr m p s → cstr m d D → 0 < p → 0 < d → is_u32 (Z.of_nat (length s)) →
  disjoint p (Z.of_nat (length s) + 1) d (Z.of_nat (length D) + 1) →
  ∃ ptrs m', strtok_all m p d = Some (ptrs, m') ∧
             Forall2 (cstr m') ptrs (tokens D s) ∧
             (∀ a, ¬ (p ≤ a < p + Z.of_nat (length s)) → m' !! a = m !! a).
Proof.
  intros Hs HD Hp Hd Hl Hdis.
  destruct (strtok_chain (fuel m) m d p s D p 0) as (tok & save' & m1 & ptrs & m' & H1 & H2 & H3 & H4);
    try done; [zb_simpl; done|by eapply cstr_fuel|].
  exists ptrs, m'. unfold strtok_all. rewrite H1. done.
Qed.

Lemma strtok_all_tokens_witness :
  ∃ ptrs m', strtok_all (mem_of 64 (lit "  a bc,d" ++ [0] ++ lit " ," ++ [0])) 64 73 = Some (ptrs, m') ∧
             Forall2 (cstr m') ptrs [lit "a"; lit "bc"; lit "d"].
Proof.
  destruct (strtok_all_tokens (mem_of 64 (lit "  a bc,d" ++ [0] ++ lit " ," ++ [0])) 64 73
              (lit "  a bc,d") (lit " ,")) as (ptrs & m' & H1 & H2 & _).
  - apply cstrb_cstr. vm_compute. reflexivity.
  - apply cstrb_cstr. vm_compute. reflexivity.
  - lia.
  - lia.
  - vm_compute. split; [discriminate|reflexivity].
  - unfold disjoint. left. vm_compute. discriminate.
  - exists ptrs, m'. split; [exact H1|exact H2].
Defined.

Lemma is_prefix_spec t s : is_prefix t s = true ↔ ∃ r, s = t ++ r.
Proof.
  revert s. induction t as [|x t IH]; intros s; cbn; [split; [eauto|done]|].
  destruct s as [|y s]; [split; [done|by intros [??]]|].
  rewrite andb_true_iff, Z.eqb_eq, IH. split.
  - intros [-> [r ->]]. eauto.
  - intros [r [= -> ->]]. eauto.
Qed.

Lemma find_sub_spec t s :
  match find_sub t s with
  | Some i => is_prefix t (drop i s) = true ∧ (∀ j, (j < i)%nat → is_prefix t (drop j s) = false)
  | None => ∀ j, (j < length s)%nat → is_prefix t (drop j s) = false
  end.
Proof.
  induction s as [|x s IH]; [intros; cbn in *; lia|]. cbn [find_sub].
  destruct (is_prefix t (x :: s)) eqn:Hp.
  - split; [done|]. intros; lia.
  - destruct (find_sub t s) as [i|]; cbn.
    + destruct IH as [IH1 IH2]. split; [done|]. intros [|j] Hj; [done|]. apply IH2. lia.
    + intros [|j] Hj; [done|]. apply IH. lia.
Qed.

(** [strstr] finds the first occurrence: when it returns an address, the
    needle is a prefix of the haystack there and at no earlier position; when it
    returns NULL, the needle occurs at no position at all. *)
Theorem strstr_first m hay needle s t :
  cstr m hay s → cstr m needle t → t ≠ [] → 0 < hay → is_u32 (Z.of_nat (length t)) →
  ∃ r, strstr m hay needle = Some r ∧
    (if r =? 0 then ∀ i rest, (i < length s)%nat → drop i s ≠ t ++ rest
     else ∃ i rest, r = hay + Z.of_nat i ∧ drop i s = t ++ rest ∧
          ∀ j rest', (j < i)%nat → drop j s ≠ t ++ rest').
Proof.
  intros Hs Ht Hne Hh Hl. rewrite (strstr_ok _ _ _ s t) by done.
  rewrite bool_decide_eq_false_2 by done. eexists. split; [done|].
  pose proof (find_sub_spec t s) as H. destruct (find_sub t s) as [i|]; cbn [addr_of].
  - zb_simpl. destruct H as [[rest Hr]%is_prefix_spec H2]. exists i, rest. repeat split; [done|].
    intros j rest' Hj Heq. specialize (H2 j Hj).
    assert (is_prefix t (drop j s) = true) by (apply is_prefix_spec; eauto). congruence.
  - cbn. intros i rest Hi Heq. specialize (H i Hi).
    assert (is_prefix t (drop i s) = true) by (apply is_prefix_spec; eauto). congruence.
Qed.

Lemma strstr_first_witness :
  ∃ r, strstr (mem_of 8 (lit "ababc" ++ [0] ++ lit "abc" ++ [0])) 8 14 = Some r ∧ r = 10.
Proof.
  destruct (strstr_first (mem_of 8 (lit "ababc" ++ [0] ++ lit "abc" ++ [0])) 8 14 (lit "ababc") (lit "abc"))
    as (r & H1 & _).
  - apply cstrb_cstr. vm_compute. reflexivity.
  - apply cstrb_cstr. vm_compute. reflexivity.
  - discriminate.
  - lia.
  - vm_compute. split; [discriminate|reflexivity].
  - exists r. split; [exact H1|]. vm_compute in H1. congruence.
Defined.

(** [strncpy] fills exactly [n] bytes: the characters of the source that
    fit, then zeros, with nothing else changed. *)
Theorem strncpy_exact m dst src s (n : nat) :
  cstr m src s → mapped m dst (Z.of_nat n) →
  (dst + Z.of_nat n ≤ src ∨ src + Z.of_nat (length s) < dst) →
  ∃ m', strncpy m dst src (Z.of_nat n) = Some (dst, m') ∧
        seg m' dst (padded n s) ∧ length (padded n s) = n ∧
        (∀ a, ¬ (dst ≤ a < dst + Z.of_nat n) → m' !! a = m !! a).
Proof.
  intros Hs Hd Hov. eexists. split; [by apply (strncpy_ok _ _ _ s)|].
  assert (length (padded n s) = n) as Hl.
  { unfold padded. rewrite length_app, length_take, length_replicate. lia. }
  split; [apply seg_write|]. split; [done|]. intros. apply lookup_write_out. by rewrite Hl.
Qed.

Lemma strncpy_exact_witness :
  ∃ m', strncpy (mem_of 32 (lit "hello" ++ [0] ++ lit "########")) 38 32 8 = Some (38, m') ∧
        seg m' 38 (lit "hello" ++ [0; 0; 0]).
Proof.
  destruct (strncpy_exact (mem_of 32 (lit "hello" ++ [0] ++ lit "########")) 38 32 (lit "hello") 8)
    as (m' & H1 & H2 & _).
  - apply cstrb_cstr. vm_compute. reflexivity.
  - apply mappedb_mapped. vm_compute. reflexivity.
  - right. vm_compute. reflexivity.
  - exists m'. split; [exact H1|exact H2].
Defined.
