(* ===== verification/Utf.v ===== *)
(** * [c/rt/utf.c]: the Unicode boundary

    UTF-8 is what the system stores, UTF-16 what the boundary passes.  The
    decoder and the encoder are translated over the byte memory, with the bit
    operations of the source; the conversions read and write UTF-16 units in a
    memory of their own ([mem16]: the [u16] objects a [u16 *] points into, by
    unit index).

    [wf_utf8 cps bs] says that [bs] is the UTF-8 encoding of the scalar values
    [cps]; [utf16_of] is the UTF-16 encoding of a scalar value. *)

From S2P Require Import Prelude CMem CString.

Definition MV_REPLACEMENT : Z := 65533.
Definition MV_UTF8_MAX : Z := 4.

(** ** Decoding one code point *)

(** [for (i = 1; i <= need; i++)]: [None] in the inner option is
    [goto malformed]. *)
Fixpoint utf8_tail (need : nat) (m : mem) (p cp : Z) : option (option Z) :=
  match need with
  | O => Some (Some cp)
  | S k =>
      b ← load m p;
      if negb (Z.land b 192 =? 128) then Some None
      else utf8_tail k m (p + 1) (Z.lor (Z.shiftl cp 6) (Z.land b 63))
  end.

(** The code point and the number of bytes it took. *)
Definition mv_utf8_decode (m : mem) (s : Z) : option (Z * Z) :=
  b0 ← load m s;
  let malformed := Some (MV_REPLACEMENT, 1) in
  if b0 <? 128 then Some (b0, 1)
  else
    let head :=
      if Z.land b0 224 =? 192 then
        let cp := Z.land b0 31 in if cp <? 2 then None else Some (cp, 1%nat)
      else if Z.land b0 240 =? 224 then Some (Z.land b0 15, 2%nat)
      else if Z.land b0 248 =? 240 then Some (Z.land b0 7, 3%nat)
      else None in
    match head with
    | None => malformed
    | Some (cp0, need) =>
        r ← utf8_tail need m (s + 1) cp0;
        match r with
        | None => malformed
        | Some cp =>
            if (Nat.eqb need 2 && (cp <? 2048)) || (Nat.eqb need 3 && (cp <? 65536))
               || (1114111 <? cp) || ((55296 <=? cp) && (cp <=? 57343))
            then malformed
            else Some (cp, Z.of_nat need + 1)
        end
    end.

(** ** Encoding one code point: the bytes written at [out], their number being
    the return value *)
Definition mv_utf8_encode (cp : Z) : list Z :=
  if cp <? 128 then [u8 cp]
  else if cp <? 2048 then
    [u8 (Z.lor 192 (Z.shiftr cp 6)); u8 (Z.lor 128 (Z.land cp 63))]
  else if cp <? 65536 then
    [u8 (Z.lor 224 (Z.shiftr cp 12)); u8 (Z.lor 128 (Z.land (Z.shiftr cp 6) 63));
     u8 (Z.lor 128 (Z.land cp 63))]
  else
    [u8 (Z.lor 240 (Z.shiftr cp 18)); u8 (Z.lor 128 (Z.land (Z.shiftr cp 12) 63));
     u8 (Z.lor 128 (Z.land (Z.shiftr cp 6) 63)); u8 (Z.lor 128 (Z.land cp 63))].

(** ** Strings *)

(** The loop of [mv_utf16_len], up to the terminator. *)
Fixpoint utf16_len_loop (f : nat) (m : mem) (s units : Z) : option Z :=
  match f with
  | O => None
  | S f' =>
      b ← load m s;
      if b =? 0 then Some units
      else
        '(cp, used) ← mv_utf8_decode m s;
        utf16_len_loop f' m (s + used) (u32 (units + (if 65535 <? cp then 2 else 1)))
  end.

Definition mv_utf16_len (m : mem) (utf8 : Z) : option Z := utf16_len_loop (fuel m) m utf8 0.

Abbreviation mem16 := (gmap Z Z).

Definition store16 (w : mem16) (i v : Z) : option mem16 :=
  match w !! i with
  | Some _ => Some (<[i := u16 v]> w)
  | None => None
  end.

(** [out] is the index of the first unit of the output array. *)
Fixpoint utf8_to_utf16_loop (f : nat) (m : mem) (s : Z) (w : mem16) (out cap written : Z)
  : option (Z * mem16) :=
  match f with
  | O => None
  | S f' =>
      b ← load m s;
      if b =? 0 then Some (written, w)
      else
        '(cp, used) ← mv_utf8_decode m s;
        if 65535 <? cp then
          if cap <=? u32 (written + 2) then Some (written, w)
          else
            let cp' := cp - 65536 in
            w1 ← store16 w (out + written) (55296 + Z.shiftr cp' 10);
            w2 ← store16 w1 (out + (written + 1)) (56320 + Z.land cp' 1023);
            utf8_to_utf16_loop f' m (s + used) w2 out cap (written + 2)
        else
          if cap <=? u32 (written + 1) then Some (written, w)
          else
            w1 ← store16 w (out + written) cp;
            utf8_to_utf16_loop f' m (s + used) w1 out cap (written + 1)
  end.

Definition mv_utf8_to_utf16 (m : mem) (utf8 : Z) (w : mem16) (out cap : Z) : option (Z * mem16) :=
  '(written, w1) ← utf8_to_utf16_loop (fuel m) m utf8 w out cap 0;
  if negb (cap =? 0) then w2 ← store16 w1 (out + written) 0; Some (written, w2)
  else Some (written, w1).

(** The next code point of a wide string and how many units it took; shared by
    [mv_utf16_to_utf8] and [mv_printw]. *)
Definition utf16_next (w : mem16) (wide cp : Z) : option (Z * Z) :=
  if (55296 <=? cp) && (cp <=? 56319) then
    low ← w !! (wide + 1);
    if (56320 <=? low) && (low <=? 57343) then
      Some (65536 + Z.shiftl (cp - 55296) 10 + (low - 56320), 2)
    else Some (MV_REPLACEMENT, 1)
  else if (56320 <=? cp) && (cp <=? 57343) then Some (MV_REPLACEMENT, 1)
  else Some (cp, 1).

(** [for (i = 0; i < size; i++) out[written++] = buf[i];] *)
Fixpoint put_bytes (m : mem) (p : Z) (bs : list Z) : option mem :=
  match bs with
  | [] => Some m
  | b :: bs' => m' ← store m p b; put_bytes m' (p + 1) bs'
  end.

Fixpoint utf16_to_utf8_loop (f : nat) (w : mem16) (wide : Z) (m : mem) (out cap written : Z)
  : option (Z * mem) :=
  match f with
  | O => None
  | S f' =>
      u ← w !! wide;
      if u =? 0 then Some (written, m)
      else
        '(cp, used) ← utf16_next w wide u;
        let buf := mv_utf8_encode cp in
        let size := Z.of_nat (length buf) in
        if cap <=? u32 (written + size) then Some (written, m)
        else
          m' ← put_bytes m (out + written) buf;
          utf16_to_utf8_loop f' w (wide + used) m' out cap (written + size)
  end.

Definition mv_utf16_to_utf8 (w : mem16) (wide : Z) (m : mem) (out cap : Z) : option (Z * mem) :=
  '(written, m1) ← utf16_to_utf8_loop (S (size w)) w wide m out cap 0;
  if negb (cap =? 0) then m2 ← store m1 (out + written) 0; Some (written, m2)
  else Some (written, m1).

(** [mv_printw] collects the encoded text in a 128-byte buffer and hands it to
    [printf("%s", buf)] whenever the next code point would not fit; the result
    is the list of strings printed. *)
Fixpoint printw_loop (f : nat) (w : mem16) (wide : Z) (buf : list Z) : option (list (list Z)) :=
  match f with
  | O => None
  | S f' =>
      u ← w !! wide;
      if u =? 0 then Some [buf]
      else
        '(cp, used) ← utf16_next w wide u;
        let one := mv_utf8_encode cp in
        if 128 <=? Z.of_nat (length buf + length one) then
          rest ← printw_loop f' w (wide + used) one; Some (buf :: rest)
        else printw_loop f' w (wide + used) (buf ++ one)
  end.

Definition mv_printw (w : mem16) (wide : Z) : option (list (list Z)) :=
  printw_loop (S (size w)) w wide [].

(** The bytes [mv_putwc] passes to [putchar], one by one. *)
Definition mv_putwc (cp : Z) : list Z := mv_utf8_encode cp.

(** ** Reference decoder on byte lists (RFC 3629) *)

Definition is_scalar (cp : Z) : Prop := 0 ≤ cp ≤ 1114111 ∧ ¬ (55296 ≤ cp ≤ 57343).

#[export] Instance is_scalar_dec cp : Decision (is_scalar cp).
Proof. unfold is_scalar. apply _. Defined.

Definition is_cont (b : Z) : bool := (128 <=? b) && (b <? 192).

Fixpoint tail_ref (need : nat) (r : list Z) (cp : Z) : option Z :=
  match need, r with
  | O, _ => Some cp
  | S k, b :: r' => if is_cont b then tail_ref k r' (cp * 64 + (b - 128)) else None
  | S k, [] => None
  end.

(** Payload of the lead byte and the number of bytes that follow it. *)
Definition lead_ref (b0 : Z) : option (Z * nat) :=
  if (194 <=? b0) && (b0 <? 224) then Some (b0 - 192, 1%nat)
  else if (224 <=? b0) && (b0 <? 240) then Some (b0 - 224, 2%nat)
  else if (240 <=? b0) && (b0 <? 248) then Some (b0 - 240, 3%nat)
  else None.

(** The least code point that needs that many continuation bytes. *)
Definition min_cp (need : nat) : Z :=
  match need with O => 0 | 1%nat => 128 | 2%nat => 2048 | _ => 65536 end.

Definition dec (s : list Z) : Z * nat :=
  match s with
  | [] => (0, 1%nat)
  | b0 :: r =>
      if b0 <? 128 then (b0, 1%nat)
      else
        match lead_ref b0 with
        | None => (MV_REPLACEMENT, 1%nat)
        | Some (cp0, need) =>
            match tail_ref need r cp0 with
            | None => (MV_REPLACEMENT, 1%nat)
            | Some cp =>
                if bool_decide (min_cp need ≤ cp ∧ is_scalar cp) then (cp, S need)
                else (MV_REPLACEMENT, 1%nat)
            end
        end
  end.

(** The code points of a byte string, malformed bytes replaced one by one. *)
Fixpoint cps_fuel (f : nat) (s : list Z) : list Z :=
  match f, s with
  | O, _ => []
  | _, [] => []
  | S f', _ => let '(cp, n) := dec s in cp :: cps_fuel f' (drop n s)
  end.

Definition cps (s : list Z) : list Z := cps_fuel (length s) s.

(** ** The decoder is the reference decoder *)

Section decoder.
Implicit Types (m : mem) (p cp b : Z) (s r : list Z).

Lemma land_cont b : is_u8 b → (Z.land b 192 =? 128) = is_cont b.
Proof.
  intros Hb. apply eqb_true_iff. unfold is_u8, is_cont in *. by_range b 256.
Qed.

Lemma land_lead b :
  128 ≤ b < 256 →
  (if Z.land b 224 =? 192 then
     let cp := Z.land b 31 in if cp <? 2 then None else Some (cp, 1%nat)
   else if Z.land b 240 =? 224 then Some (Z.land b 15, 2%nat)
   else if Z.land b 248 =? 240 then Some (Z.land b 7, 3%nat)
   else None) = lead_ref b.
Proof.
  intros Hb.
  assert (bool_decide (128 ≤ b → (if Z.land b 224 =? 192 then
     let cp := Z.land b 31 in if cp <? 2 then None else Some (cp, 1%nat)
   else if Z.land b 240 =? 224 then Some (Z.land b 15, 2%nat)
   else if Z.land b 248 =? 240 then Some (Z.land b 7, 3%nat)
   else None) = lead_ref b) = true) as H.
  { unfold lead_ref. by_range b 256. }
  apply bool_decide_eq_true in H. apply H. lia.
Qed.

Lemma tail_step cp b : is_cont b = true → Z.lor (Z.shiftl cp 6) (Z.land b 63) = cp * 64 + (b - 128).
Proof.
  unfold is_cont. rewrite andb_true_iff, Z.leb_le, Z.ltb_lt. intros Hb.
  rewrite land_63, lor_shiftl_add; [|lia|dlia]. f_equal. dlia.
Qed.

Lemma utf8_tail_spec need m p cp r :
  cstr m p r → utf8_tail need m p cp = Some (tail_ref need r cp).
Proof.
  revert p cp r. induction need as [|k IH]; intros p cp r Hr; [done|]. cbn [utf8_tail tail_ref].
  destruct r as [|b r].
  - rewrite cstr_nil in Hr. unfold load. by rewrite Hr.
  - rewrite cstr_cons in Hr. destruct Hr as (H0 & Hb & Hr). unfold load. rewrite H0. cbn [mbind option_bind].
    rewrite land_cont by (by apply is_char_u8). destruct (is_cont b) eqn:Hc; [|done]. cbn [negb].
    rewrite tail_step by done. by apply IH.
Qed.

Lemma tail_ref_ge need r cp cp' : 0 ≤ cp → tail_ref need r cp = Some cp' → cp * 64 ^ Z.of_nat need ≤ cp'.
Proof.
  revert r cp. induction need as [|k IH]; intros r cp Hcp; cbn [tail_ref].
  - intros [= <-]. change (64 ^ Z.of_nat 0) with 1. lia.
  - destruct r as [|b r]; [done|]. destruct (is_cont b) eqn:Hb; [|done].
    unfold is_cont in Hb. rewrite andb_true_iff, Z.leb_le, Z.ltb_lt in Hb.
    intros H. apply IH in H; [|lia]. rewrite Nat2Z.inj_succ, Z.pow_succ_r by lia.
    assert (0 ≤ 64 ^ Z.of_nat k) by (apply Z.pow_nonneg; lia). nia.
Qed.

Lemma mv_utf8_decode_dec m p s :
  cstr m p s → s ≠ [] →
  mv_utf8_decode m p = Some ((dec s).1, Z.of_nat (dec s).2).
Proof.
  intros Hs Hne. destruct s as [|b0 r]; [done|]. rewrite cstr_cons in Hs. destruct Hs as (H0 & Hb & Hr).
  unfold mv_utf8_decode, dec, load. rewrite H0. cbn [mbind option_bind]. unfold is_char in Hb.
  destruct (Z.ltb_spec b0 128); [done|]. rewrite land_lead by lia.
  destruct (lead_ref b0) as [[cp0 need]|] eqn:El; [|done].
  rewrite (utf8_tail_spec _ _ _ _ r) by done. cbn [mbind option_bind].
  destruct (tail_ref need r cp0) as [cp|] eqn:Et; [|done].
  assert (0 ≤ cp ∧ (need = 1%nat ∧ 128 ≤ cp ∨ need = 2%nat ∨ need = 3%nat)) as [Hcp0 Hneed].
  { unfold lead_ref in El. bool_hyps; simplify_eq; apply tail_ref_ge in Et; cbn in Et; lia. }
  replace (bool_decide _) with
    (negb ((Nat.eqb need 2 && (cp <? 2048)) || (Nat.eqb need 3 && (cp <? 65536))
             || (1114111 <? cp) || ((55296 <=? cp) && (cp <=? 57343)))).
  { destruct ((_ || _) || _); cbn; [done|]. do 2 f_equal. lia. }
  symmetry.
  unfold is_scalar, min_cp.
  destruct Hneed as [ [-> ?] | [ -> | -> ] ]; cbn [Nat.eqb]; case_bool_decide; bool_cases; lia || done.
Qed.
End decoder.

(** ** The encoder and the round trips on byte lists *)

Section encoder.
Implicit Types (cp b : Z) (s r : list Z).

(** The encoder in arithmetic form. *)
Definition enc (cp : Z) : list Z :=
  if cp <? 128 then [cp]
  else if cp <? 2048 then [192 + cp `div` 64; 128 + cp `mod` 64]
  else if cp <? 65536 then
    [224 + cp `div` 4096; 128 + (cp `div` 64) `mod` 64; 128 + cp `mod` 64]
  else [240 + cp `div` 262144; 128 + (cp `div` 4096) `mod` 64;
        128 + (cp `div` 64) `mod` 64; 128 + cp `mod` 64].

Lemma lor_128 y : 0 ≤ y < 64 → Z.lor 128 y = 128 + y.
Proof. intros. apply Z.eqb_eq. by_range y 64. Qed.
Lemma lor_192 y : 0 ≤ y < 32 → Z.lor 192 y = 192 + y.
Proof. intros. apply Z.eqb_eq. by_range y 32. Qed.
Lemma lor_224 y : 0 ≤ y < 16 → Z.lor 224 y = 224 + y.
Proof. intros. apply Z.eqb_eq. by_range y 16. Qed.
Lemma lor_240 y : 0 ≤ y < 8 → Z.lor 240 y = 240 + y.
Proof. intros. apply Z.eqb_eq. by_range y 8. Qed.

Lemma mv_utf8_encode_enc cp : 0 ≤ cp ≤ 1114111 → mv_utf8_encode cp = enc cp.
Proof.
  intros Hcp. unfold mv_utf8_encode, enc. rewrite !land_63, !shiftr_div by lia.
  change (2 ^ 6) with 64. change (2 ^ 12) with 4096. change (2 ^ 18) with 262144.
  destruct (Z.ltb_spec cp 128); [rewrite u8_small by (unfold is_u8; lia); done|].
  destruct (Z.ltb_spec cp 2048).
  { rewrite lor_192, lor_128 by dlia. rewrite !u8_small by (unfold is_u8; dlia). done. }
  destruct (Z.ltb_spec cp 65536).
  { rewrite lor_224, !lor_128 by dlia. rewrite !u8_small by (unfold is_u8; dlia). done. }
  rewrite lor_240, !lor_128 by dlia. rewrite !u8_small by (unfold is_u8; dlia). done.
Qed.

Lemma is_cont_128 y : 0 ≤ y < 64 → is_cont (128 + y) = true.
Proof. intros. unfold is_cont. zb_simpl. done. Qed.

Lemma dec_scalar cp need : min_cp need ≤ cp → is_scalar cp →
  bool_decide (min_cp need ≤ cp ∧ is_scalar cp) = true.
Proof. intros. by apply bool_decide_eq_true_2. Qed.

Lemma dec_enc cp r : is_scalar cp → dec (enc cp ++ r) = (cp, length (enc cp)).
Proof.
  intros Hcp. pose proof Hcp as [Hr Hs]. unfold enc.
  destruct (Z.ltb_spec cp 128); [cbn; by zb_simpl|].
  destruct (Z.ltb_spec cp 2048).
  { cbn [app dec length]. assert (2 ≤ cp `div` 64 < 32) by dlia. unfold lead_ref. zb_simpl.
    cbn [andb tail_ref]. rewrite is_cont_128 by dlia.
    replace ((192 + cp `div` 64 - 192) * 64 + (128 + cp `mod` 64 - 128)) with cp by dlia.
    rewrite dec_scalar by (cbn; done || lia). done. }
  destruct (Z.ltb_spec cp 65536).
  { cbn [app dec length]. assert (0 ≤ cp `div` 4096 < 16) by dlia. unfold lead_ref. zb_simpl.
    cbn [andb tail_ref]. rewrite !is_cont_128 by dlia.
    replace (((224 + cp `div` 4096 - 224) * 64 + (128 + (cp `div` 64) `mod` 64 - 128)) * 64
             + (128 + cp `mod` 64 - 128)) with cp by dlia.
    rewrite dec_scalar by (cbn; done || lia). done. }
  cbn [app dec length]. assert (0 ≤ cp `div` 262144 < 5) by dlia. unfold lead_ref. zb_simpl.
  cbn [andb tail_ref]. rewrite !is_cont_128 by dlia.
  replace ((((240 + cp `div` 262144 - 240) * 64 + (128 + (cp `div` 4096) `mod` 64 - 128)) * 64
             + (128 + (cp `div` 64) `mod` 64 - 128)) * 64 + (128 + cp `mod` 64 - 128)) with cp by dlia.
  rewrite dec_scalar by (cbn; done || lia). done.
Qed.

Lemma is_cont_inv b : is_cont b = true → 128 ≤ b < 192.
Proof. unfold is_cont. rewrite andb_true_iff, Z.leb_le, Z.ltb_lt. done. Qed.

(** The bytes the decoder accepted are the encoding of what it returned. *)
Lemma enc_dec s : Forall is_char s → s ≠ [] →
  let '(cp, n) := dec s in
  is_scalar cp ∧ (1 ≤ n ≤ length s)%nat ∧ (n ≤ 4)%nat ∧
  (take n s = enc cp ∨ cp = MV_REPLACEMENT ∧ n = 1%nat).
Proof.
  intros Hs Hne. destruct s as [|b0 r]; [done|]. apply Forall_cons in Hs as [Hb Hs].
  unfold is_char in Hb. cbn [dec].
  assert (is_scalar MV_REPLACEMENT ∧ (1 ≤ 1 ≤ length (b0 :: r))%nat ∧ (1 ≤ 4)%nat ∧
          (take 1 (b0 :: r) = enc MV_REPLACEMENT ∨ MV_REPLACEMENT = MV_REPLACEMENT ∧ 1%nat = 1%nat)) as Hbad.
  { split; [by apply (bool_decide_unpack _)|]. cbn [length]. split; [lia|]. split; [lia|]. by right. }
  destruct (Z.ltb_spec b0 128) as [H128|H128].
  { unfold is_scalar, enc. cbn [length]. zb_simpl. repeat split; try lia. by left. }
  destruct (lead_ref b0) as [[cp0 need]|] eqn:El; [|exact Hbad].
  destruct (tail_ref need r cp0) as [cp|] eqn:Et; [|exact Hbad].
  case_bool_decide as Hcond; [|exact Hbad].
  destruct Hcond as [Hmin Hsc]. split; [done|]. unfold lead_ref in El.
  bool_hyps; simplify_eq; try (exfalso; lia); cbn [min_cp] in Hmin; unfold is_scalar in Hsc;
    repeat (let c := fresh "c" in destruct r as [|c r]; cbn [tail_ref] in Et; [done|];
            destruct (is_cont c) eqn:?; [|done]); simplify_eq;
    repeat match goal with H : is_cont _ = true |- _ => apply is_cont_inv in H end;
    cbn [length take]; (split; [lia|]); (split; [lia|]); left; unfold enc; zb_simpl.
  all: repeat (apply (f_equal2 cons); [dlia|]); done.
Qed.
End encoder.

(** ** The conversions *)

Definition utf16_of (cp : Z) : list Z :=
  if 65535 <? cp then [55296 + (cp - 65536) `div` 1024; 56320 + (cp - 65536) `mod` 1024]
  else [cp].

(** A NUL-terminated string of UTF-16 units. *)
Definition wstr (w : mem16) (p : Z) (us : list Z) : Prop :=
  seg w p (us ++ [0]) ∧ Forall (λ u, 0 < u < 65536) us.

Definition is_high (u : Z) : bool := (55296 <=? u) && (u <=? 56319).
Definition is_low (u : Z) : bool := (56320 <=? u) && (u <=? 57343).

(** Code points of a wide string, lone surrogates replaced. *)
Fixpoint cps16 (us : list Z) : list Z :=
  match us with
  | [] => []
  | u :: us' =>
      if is_high u then
        match us' with
        | l :: us'' =>
            if is_low l then (65536 + (u - 55296) * 1024 + (l - 56320)) :: cps16 us''
            else MV_REPLACEMENT :: cps16 us'
        | [] => [MV_REPLACEMENT]
        end
      else if is_low u then MV_REPLACEMENT :: cps16 us'
      else u :: cps16 us'
  end.

(** The longest prefix of [cs] whose encoding by [e] leaves room for the
    terminator in [cap] units, [written] of them being taken already. *)
Fixpoint fit (e : Z → list Z) (cap written : Z) (cs : list Z) : list Z :=
  match cs with
  | [] => []
  | c :: cs' =>
      let n := Z.of_nat (length (e c)) in
      if cap <=? written + n then [] else c :: fit e cap (written + n) cs'
  end.

Section conversions.
Implicit Types (m : mem) (w : mem16) (p out cap cp : Z) (s us cs : list Z).

Lemma cps_fuel_enough f s : Forall is_char s → (length s ≤ f)%nat → cps_fuel f s = cps s.
Proof.
  unfold cps. remember (length s) as n eqn:Hn. assert (length s ≤ n)%nat as Hle by lia. clear Hn.
  revert f s Hle. induction n as [|n IH]; intros f s Hle Hs Hf.
  - destruct s; [|simpl in Hle; lia]. by destruct f.
  - destruct s as [|b s]; [by destruct f|]. destruct f as [|f]; [lia|]. cbn [cps_fuel].
    pose proof (enc_dec (b :: s) Hs ltac:(done)) as Hd. destruct (dec (b :: s)) as [cp k].
    destruct Hd as (_ & Hk & _). f_equal. simpl in Hle, Hk.
    rewrite (IH f); [|rewrite length_drop; simpl; lia|by apply Forall_drop|lia]. done.
Qed.

Lemma cps_cons s : Forall is_char s → s ≠ [] → cps s = (dec s).1 :: cps (drop (dec s).2 s).
Proof.
  intros Hs Hne. destruct s as [|b s]; [done|].
  pose proof (enc_dec (b :: s) Hs ltac:(done)) as Hd. unfold cps at 1. cbn [length cps_fuel].
  destruct (dec (b :: s)) as [cp k]. cbn [fst snd]. destruct Hd as (_ & Hk & _). f_equal.
  apply cps_fuel_enough; [by apply Forall_drop|]. rewrite length_drop. simpl in *. lia.
Qed.

Lemma cps_scalar s : Forall is_char s → Forall is_scalar (cps s).
Proof.
  remember (length s) as n eqn:Hn. revert s Hn. induction n as [n IH] using lt_wf_ind. intros s Hn Hs.
  destruct (decide (s = [])) as [->|Hne]; [constructor|]. rewrite cps_cons by done.
  pose proof (enc_dec s Hs Hne) as Hd. destruct (dec s) as [cp k]. destruct Hd as (Hsc & Hk & _).
  constructor; [done|]. cbn [snd]. eapply IH; [|done|by apply Forall_drop]. rewrite length_drop. lia.
Qed.

(** One decoding step of a loop over the string at [p]. *)
Lemma decode_step m p s :
  cstr m p s → s ≠ [] →
  ∃ cp k, dec s = (cp, k) ∧ mv_utf8_decode m p = Some (cp, Z.of_nat k) ∧ is_scalar cp ∧
    (1 ≤ k ≤ length s)%nat ∧ cstr m (p + Z.of_nat k) (drop k s) ∧
    (∃ b, load m p = Some b ∧ (b =? 0) = false).
Proof.
  intros Hs Hne. pose proof (enc_dec s ltac:(by destruct Hs) Hne) as Hd.
  rewrite (mv_utf8_decode_dec m p s) by done. destruct (dec s) as [cp k]. destruct Hd as (? & Hk & _).
  exists cp, k. split_and!; try done; try lia.
  - by apply cstr_drop; [lia|].
  - destruct s as [|b s]; [done|]. rewrite cstr_cons in Hs. destruct Hs as (? & Hb & _).
    exists b. split; [done|]. unfold is_char in Hb. apply Z.eqb_neq. lia.
Qed.

Lemma utf16_len_loop_spec f m p units s :
  cstr m p s → (length s < f)%nat → 0 ≤ units →
  utf16_len_loop f m p (u32 units) =
  Some (u32 (units + Z.of_nat (length (flat_map utf16_of (cps s))))).
Proof.
  revert m p units s. induction f as [|f IH]; intros m p units s Hs Hf Hu; [lia|].
  destruct (decide (s = [])) as [->|Hne].
  { rewrite cstr_nil in Hs. cbn. unfold load. rewrite Hs. cbn. by rewrite Z.add_0_r. }
  destruct (decode_step m p s Hs Hne) as (cp & k & Hd & Hdec & _ & Hk & Hs' & b & Hb & Hb0).
  cbn [utf16_len_loop]. rewrite Hb. cbn [mbind option_bind]. rewrite Hb0, Hdec. cbn [mbind option_bind].
  rewrite u32_add_l. rewrite (IH _ _ _ _ Hs'); [|rewrite length_drop; lia|destruct (65535 <? cp); lia].
  rewrite (cps_cons s) by (done || by destruct Hs). rewrite Hd. cbn [fst snd flat_map].
  rewrite length_app, Nat2Z.inj_add. f_equal. f_equal. unfold utf16_of. destruct (65535 <? cp); simpl; lia.
Qed.

Lemma store16_mapped w i v : is_Some (w !! i) → store16 w i v = Some (write w i [u16 v]).
Proof. intros [b Hb]. unfold store16. by rewrite Hb. Qed.

Lemma utf8_to_utf16_loop_spec f m p w out cap written s :
  cstr m p s → (length s < f)%nat → mapped w out cap → 0 ≤ written < cap → is_u32 (cap + 1) →
  utf8_to_utf16_loop f m p w out cap written =
  let units := flat_map utf16_of (fit utf16_of cap written (cps s)) in
  Some (written + Z.of_nat (length units), write w (out + written) units).
Proof.
  revert m p w written s. induction f as [|f IH]; intros m p w written s Hs Hf Hw Hwr Hcap; [lia|].
  destruct (decide (s = [])) as [->|Hne].
  { rewrite cstr_nil in Hs. cbn. unfold load. rewrite Hs. cbn. by rewrite Z.add_0_r. }
  destruct (decode_step m p s Hs Hne) as (cp & k & Hd & Hdec & Hsc & Hk & Hs' & b & Hb & Hb0).
  cbn [utf8_to_utf16_loop]. rewrite Hb. cbn [mbind option_bind]. rewrite Hb0, Hdec. cbn [mbind option_bind].
  rewrite (cps_cons s) by (done || by destruct Hs). rewrite Hd. cbn [fst snd fit].
  unfold is_u32 in Hcap. unfold is_scalar in Hsc.
  destruct (Z.ltb_spec 65535 cp) as [Hbig|Hbig]; rewrite u32_small by (unfold is_u32; lia).
  - assert (utf16_of cp = [55296 + (cp - 65536) `div` 1024; 56320 + (cp - 65536) `mod` 1024]) as Hu
      by (unfold utf16_of; zb_simpl; done).
    rewrite !Hu. cbn [length]. change (Z.of_nat 2) with 2.
    destruct (Z.leb_spec cap (written + 2)); [cbn; by rewrite Z.add_0_r|].
    rewrite shiftr_div, land_1023 by lia. change (2 ^ 10) with 1024.
    rewrite store16_mapped by (apply Hw; lia). cbn [mbind option_bind].
    rewrite store16_mapped by (apply mapped_write with (1 := Hw); lia). cbn [mbind option_bind].
    rewrite !u16_small by (unfold is_u16; dlia).
    rewrite (IH _ _ _ _ _ Hs'); [|rewrite length_drop; lia|by repeat apply mapped_write|lia|done].
    cbn [flat_map]. rewrite Hu. cbn [app length write].
    f_equal. f_equal; [lia|]. replace (out + written + 1) with (out + (written + 1)) by lia.
    f_equal. lia.
  - assert (utf16_of cp = [cp]) as Hu by (unfold utf16_of; zb_simpl; done).
    rewrite !Hu. cbn [length]. change (Z.of_nat 1) with 1.
    destruct (Z.leb_spec cap (written + 1)); [cbn; by rewrite Z.add_0_r|].
    rewrite store16_mapped by (apply Hw; lia). cbn [mbind option_bind].
    rewrite !u16_small by (unfold is_u16; lia).
    rewrite (IH _ _ _ _ _ Hs'); [|rewrite length_drop; lia|by repeat apply mapped_write|lia|done].
    cbn [flat_map]. rewrite Hu. cbn [app length write].
    f_equal. f_equal; [lia|]. f_equal. lia.
Qed.

Lemma fit_bound e cap written cs :
  written < cap → written + Z.of_nat (length (flat_map e (fit e cap written cs))) < cap.
Proof.
  revert written. induction cs as [|c cs IH]; intros written Hw; cbn [fit flat_map length]; [lia|].
  destruct (Z.leb_spec cap (written + Z.of_nat (length (e c)))); cbn [flat_map length]; [lia|].
  specialize (IH (written + Z.of_nat (length (e c))) ltac:(lia)). rewrite length_app. lia.
Qed.

Lemma fit_prefix e cap written cs : ∃ rest, cs = fit e cap written cs ++ rest.
Proof.
  revert written. induction cs as [|c cs IH]; intros written; cbn [fit]; [by exists []|].
  destruct (cap <=? _); [by exists (c :: cs)|]. destruct (IH (written + Z.of_nat (length (e c)))) as [rest Hr].
  exists rest. cbn. by f_equal.
Qed.

Lemma fit_all e cap written cs :
  written + Z.of_nat (length (flat_map e cs)) < cap → fit e cap written cs = cs.
Proof.
  revert written. induction cs as [|c cs IH]; intros written; cbn [fit flat_map]; [done|].
  rewrite length_app. intros H. zb_simpl. f_equal. apply IH. lia.
Qed.

Lemma mv_utf8_to_utf16_ok m p w out cap s :
  cstr m p s → mapped w out cap → 0 < cap → is_u32 (cap + 1) →
  mv_utf8_to_utf16 m p w out cap =
  let units := flat_map utf16_of (fit utf16_of cap 0 (cps s)) in
  Some (Z.of_nat (length units), write w out (units ++ [0])).
Proof.
  intros Hs Hw Hc Hcap. unfold mv_utf8_to_utf16.
  rewrite (utf8_to_utf16_loop_spec _ _ _ _ _ _ _ s); [|done|by eapply cstr_fuel|done|lia|done].
  cbn [mbind option_bind]. rewrite Z.add_0_l, Z.add_0_r. zb_simpl. cbn [negb].
  pose proof (fit_bound utf16_of cap 0 (cps s) ltac:(lia)) as Hb.
  rewrite store16_mapped by (apply mapped_write with (1 := Hw); lia). cbn [mbind option_bind].
  by rewrite write_app.
Qed.
End conversions.

Section to_utf8.
Implicit Types (m : mem) (w : mem16) (p out cap cp u : Z) (s us cs : list Z).

Lemma wstr_cons w p u us :
  wstr w p (u :: us) ↔ w !! p = Some u ∧ 0 < u < 65536 ∧ wstr w (p + 1) us.
Proof. unfold wstr. cbn [app]. rewrite seg_cons, Forall_cons. tauto. Qed.

Lemma wstr_nil w p : wstr w p [] ↔ w !! p = Some 0.
Proof.
  unfold wstr. cbn [app]. rewrite seg_cons. split; [by intros [[] _]|].
  intros. split_and!; [done|apply seg_nil|done].
Qed.

Lemma wstr_fuel w p us : wstr w p us → (length us < S (size w))%nat.
Proof. intros [H%seg_fuel _]. rewrite length_app in H. unfold fuel in H. simpl in H. lia. Qed.

Lemma is_high_spec u : is_high u = true ↔ 55296 ≤ u ≤ 56319.
Proof. unfold is_high. rewrite andb_true_iff, !Z.leb_le. done. Qed.
Lemma is_low_spec u : is_low u = true ↔ 56320 ≤ u ≤ 57343.
Proof. unfold is_low. rewrite andb_true_iff, !Z.leb_le. done. Qed.
Lemma is_high_false u : is_high u = false ↔ ¬ 55296 ≤ u ≤ 56319.
Proof. rewrite <- is_high_spec. by destruct (is_high u). Qed.
Lemma is_low_false u : is_low u = false ↔ ¬ 56320 ≤ u ≤ 57343.
Proof. rewrite <- is_low_spec. by destruct (is_low u). Qed.

Lemma replacement_scalar : is_scalar MV_REPLACEMENT ∧ 0 < MV_REPLACEMENT.
Proof. split; [by apply (bool_decide_unpack _)|done]. Qed.

(** One step of a loop over the wide string at [p]. *)
Lemma utf16_step w p us :
  wstr w p us → us ≠ [] →
  ∃ u cp k, w !! p = Some u ∧ (u =? 0) = false ∧ utf16_next w p u = Some (cp, Z.of_nat k) ∧
    (1 ≤ k ≤ length us)%nat ∧ cps16 us = cp :: cps16 (drop k us) ∧
    wstr w (p + Z.of_nat k) (drop k us) ∧ (is_scalar cp ∧ 0 < cp).
Proof.
  intros Hw Hne. destruct us as [|u us]; [done|]. rewrite wstr_cons in Hw. destruct Hw as (H0 & Hu & Hw).
  exists u. unfold utf16_next. fold (is_high u) (is_low u). cbn [cps16].
  assert ((u =? 0) = false) as Hu0 by (apply Z.eqb_neq; lia).
  destruct (is_high u) eqn:Hh.
  - apply is_high_spec in Hh. destruct us as [|l us].
    + rewrite wstr_nil in Hw. rewrite Hw. cbn [mbind option_bind]. exists MV_REPLACEMENT, 1%nat.
      cbn. split_and!; try done; try lia; try (by rewrite wstr_nil). apply replacement_scalar.
    + pose proof Hw as Hw'. rewrite wstr_cons in Hw. destruct Hw as (H1 & Hl & Hw). rewrite H1.
      cbn [mbind option_bind]. fold (is_low l). destruct (is_low l) eqn:Hlo.
      * apply is_low_spec in Hlo. exists (65536 + (u - 55296) * 1024 + (l - 56320)), 2%nat.
        rewrite Z.shiftl_mul_pow2 by lia. change (2 ^ 10) with 1024. cbn [length drop].
        split_and!; try done; try lia; [by replace (p + Z.of_nat 2) with (p + 1 + 1) by lia|].
        unfold is_scalar. lia.
      * exists MV_REPLACEMENT, 1%nat. cbn [length drop]. split_and!; try done; try lia; apply replacement_scalar.
  - apply is_high_false in Hh. destruct (is_low u) eqn:Hlo.
    + exists MV_REPLACEMENT, 1%nat. cbn [length drop]. split_and!; try done; try lia; apply replacement_scalar.
    + apply is_low_false in Hlo. exists u, 1%nat. cbn [length drop]. unfold is_scalar.
      split_and!; try done; lia.
Qed.

Lemma cps16_scalar us : Forall (λ u, 0 < u < 65536) us → Forall (λ cp, is_scalar cp ∧ 0 < cp) (cps16 us).
Proof.
  remember (length us) as n eqn:Hn. revert us Hn. induction n as [n IH] using lt_wf_ind. intros us Hn Hus.
  destruct (decide (us = [])) as [->|Hne]; [constructor|].
  destruct (utf16_step (write ∅ 0 (us ++ [0])) 0 us) as (u & cp & k & _ & _ & _ & Hk & Hc & _ & Hsc);
    [split; [apply seg_write|done]|done|]. rewrite Hc. constructor; [done|].
  eapply IH; [|done|by apply Forall_drop]. rewrite length_drop. lia.
Qed.

Lemma put_bytes_ok m p bs :
  mapped m p (Z.of_nat (length bs)) → Forall is_u8 bs → put_bytes m p bs = Some (write m p bs).
Proof.
  revert m p. induction bs as [|b bs IH]; intros m p Hm Hb; [done|]. cbn [put_bytes].
  apply Forall_cons in Hb as [Hb Hbs]. cbn [length] in Hm.
  rewrite store_mapped by (apply Hm; lia). cbn [mbind option_bind]. rewrite u8_small by done.
  apply IH; [|done]. apply mapped_write. eapply mapped_weaken; [done|lia|lia].
Qed.

Lemma enc_bytes cp : is_scalar cp → 0 < cp → Forall is_char (enc cp).
Proof.
  intros [Hcp _] H0. unfold enc, is_char. bool_cases; repeat constructor; dlia.
Qed.

Lemma enc_bytes_u8 cp : is_scalar cp → 0 < cp → Forall is_u8 (enc cp).
Proof. intros. eapply Forall_impl; [by apply enc_bytes|]. apply is_char_u8. Qed.

Lemma enc_length cp : (1 ≤ length (enc cp) ≤ 4)%nat.
Proof. unfold enc. bool_cases; lia. Qed.

Lemma utf16_to_utf8_loop_spec f w p m out cap written us :
  wstr w p us → (length us < f)%nat → mapped m out cap → 0 ≤ written < cap → is_u32 (cap + 3) →
  utf16_to_utf8_loop f w p m out cap written =
  let bs := flat_map enc (fit enc cap written (cps16 us)) in
  Some (written + Z.of_nat (length bs), write m (out + written) bs).
Proof.
  revert p m written us. induction f as [|f IH]; intros p m written us Hs Hf Hm Hwr Hcap; [lia|].
  destruct (decide (us = [])) as [->|Hne].
  { rewrite wstr_nil in Hs. cbn. rewrite Hs. cbn. by rewrite Z.add_0_r. }
  destruct (utf16_step w p us Hs Hne) as (u & cp & k & Hu & Hu0 & Hnext & Hk & Hcps & Hs' & Hsc & Hcp0).
  cbn [utf16_to_utf8_loop]. rewrite Hu. cbn [mbind option_bind]. rewrite Hu0, Hnext. cbn [mbind option_bind].
  rewrite mv_utf8_encode_enc by (by destruct Hsc). pose proof (enc_length cp) as Hl.
  unfold is_u32 in Hcap. rewrite u32_small by (unfold is_u32; lia). rewrite Hcps. cbn [fit].
  destruct (Z.leb_spec cap (written + Z.of_nat (length (enc cp)))); [cbn; by rewrite Z.add_0_r|].
  rewrite put_bytes_ok; [|eapply mapped_weaken; [done|lia|lia]|by apply enc_bytes_u8].
  cbn [mbind option_bind].
  rewrite (IH _ _ _ _ Hs'); [|rewrite length_drop; lia|by apply mapped_write|lia|done].
  cbn [flat_map]. rewrite length_app, write_app. f_equal. f_equal; [lia|]. f_equal. lia.
Qed.

Lemma mv_utf16_to_utf8_ok w p m out cap us :
  wstr w p us → mapped m out cap → 0 < cap → is_u32 (cap + 3) →
  mv_utf16_to_utf8 w p m out cap =
  let bs := flat_map enc (fit enc cap 0 (cps16 us)) in
  Some (Z.of_nat (length bs), write m out (bs ++ [0])).
Proof.
  intros Hs Hm Hc Hcap. unfold mv_utf16_to_utf8.
  rewrite (utf16_to_utf8_loop_spec _ _ _ _ _ _ _ us); [|done|by eapply wstr_fuel|done|lia|done].
  cbn [mbind option_bind]. rewrite Z.add_0_l, Z.add_0_r. zb_simpl. cbn [negb].
  pose proof (fit_bound enc cap 0 (cps16 us) ltac:(lia)) as Hb.
  rewrite store_mapped by (apply mapped_write with (1 := Hm); lia). cbn [mbind option_bind].
  by rewrite write_app.
Qed.

(** [mv_printw]: every string handed to [printf] fits the 128-byte buffer with
    its terminator, and together they are the whole text. *)
Lemma printw_loop_spec f w p us buf :
  wstr w p us → (length us < f)%nat → (length buf < 128)%nat →
  ∃ (chunks : list (list Z)), printw_loop f w p buf = Some chunks ∧ concat chunks = buf ++ flat_map enc (cps16 us) ∧
         Forall (λ c, (length c < 128)%nat) chunks.
Proof.
  revert p us buf. induction f as [|f IH]; intros p us buf Hs Hf Hb; [lia|].
  destruct (decide (us = [])) as [->|Hne].
  { rewrite wstr_nil in Hs. cbn. rewrite Hs. cbn. eexists. split_and!; [done|done|by apply Forall_singleton]. }
  destruct (utf16_step w p us Hs Hne) as (u & cp & k & Hu & Hu0 & Hnext & Hk & Hcps & Hs' & Hsc & Hcp0).
  cbn [printw_loop]. rewrite Hu. cbn [mbind option_bind]. rewrite Hu0, Hnext. cbn [mbind option_bind].
  rewrite mv_utf8_encode_enc by (by destruct Hsc). pose proof (enc_length cp) as Hl. rewrite Hcps. cbn [flat_map].
  destruct (Z.leb_spec 128 (Z.of_nat (length buf + length (enc cp)))).
  - destruct (IH _ _ (enc cp) Hs') as (out & Ho & Hcat & Hfa); [rewrite length_drop; lia|lia|].
    rewrite Ho. cbn. eexists. split_and!; [done| |by constructor]. cbn. by rewrite Hcat.
  - destruct (IH _ _ (buf ++ enc cp) Hs') as (out & Ho & Hcat & Hfa);
      [rewrite length_drop; lia|rewrite length_app; lia|].
    exists out. split_and!; [done| |done]. by rewrite Hcat, <- app_assoc.
Qed.

(** Both directions are inverse on scalar values. *)
Lemma cps16_utf16_of cp us : is_scalar cp → cps16 (utf16_of cp ++ us) = cp :: cps16 us.
Proof.
  intros [H1 H2]. unfold utf16_of. destruct (Z.ltb_spec 65535 cp); cbn [app cps16].
  - assert (is_high (55296 + (cp - 65536) `div` 1024) = true) as -> by (apply is_high_spec; dlia).
    assert (is_low (56320 + (cp - 65536) `mod` 1024) = true) as -> by (apply is_low_spec; dlia).
    f_equal. dlia.
  - assert (is_high cp = false) as -> by (apply is_high_false; lia).
    by assert (is_low cp = false) as -> by (apply is_low_false; lia).
Qed.

Lemma cps16_flat_map cs : Forall is_scalar cs → cps16 (flat_map utf16_of cs) = cs.
Proof. induction 1; cbn [flat_map]; [done|]. rewrite cps16_utf16_of by done. by f_equal. Qed.

Lemma utf16_of_units cp : is_scalar cp → 0 < cp → Forall (λ u, 0 < u < 65536) (utf16_of cp).
Proof. intros [H1 H2] H0. unfold utf16_of. bool_cases; repeat constructor; dlia. Qed.

Lemma cps_flat_map cs : Forall (λ cp, is_scalar cp ∧ 0 < cp) cs → cps (flat_map enc cs) = cs.
Proof.
  induction 1 as [|cp cs [Hsc Hcp] Hcs IH]; [done|]. cbn [flat_map].
  assert (Forall is_char (flat_map enc cs)) as Hch.
  { clear IH. induction Hcs as [|c cs [??] ? IH]; [constructor|]. apply Forall_app. split; [by apply enc_bytes|done]. }
  rewrite cps_cons; [|apply Forall_app; split; [by apply enc_bytes|done]|].
  - rewrite dec_enc by done. cbn [fst snd]. by rewrite drop_app_length, IH.
  - pose proof (enc_length cp). by destruct (enc cp); cbn in *; [lia|].
Qed.
End to_utf8.

(** ** The contracts *)

(** Decoding what the encoder wrote gives the code point back, and consumes
    exactly the bytes written, for every Unicode scalar value. *)
Theorem utf8_roundtrip m p cp rest :
  is_scalar cp → cp ≠ 0 → cstr m p (mv_utf8_encode cp ++ rest) →
  mv_utf8_decode m p = Some (cp, Z.of_nat (length (mv_utf8_encode cp))).
Proof.
  intros Hsc H0 Hs. rewrite mv_utf8_encode_enc in * by (by destruct Hsc).
  rewrite (mv_utf8_decode_dec m p _ Hs); [by rewrite dec_enc|].
  pose proof (enc_length cp). by destruct (enc cp); cbn in *; [lia|].
Qed.

(** U+1F9A1, the badger. *)
Lemma utf8_roundtrip_witness :
  mv_utf8_decode (mem_of 4096 [240; 159; 166; 161; 0]) 4096 = Some (129441, 4).
Proof.
  apply (utf8_roundtrip (mem_of 4096 [240; 159; 166; 161; 0]) 4096 129441 []).
  - apply (bool_decide_unpack _). vm_compute. exact I.
  - discriminate.
  - apply cstrb_cstr. vm_compute. reflexivity.
Defined.

(** On any NUL-terminated byte string, well-formed or not, the decoder
    returns without reading past the terminator, yields a scalar value (never a
    surrogate, never above U+10FFFF), consumes between 1 and 4 bytes of the
    string, and whenever it does not report the replacement character for a
    single bad byte, the bytes it consumed are the canonical encoding of its
    result: overlong forms are refused. *)
Theorem utf8_decode_progress m p s :
  cstr m p s → s ≠ [] →
  ∃ cp n, mv_utf8_decode m p = Some (cp, Z.of_nat n) ∧ is_scalar cp ∧
          (1 ≤ n ≤ 4)%nat ∧ (n ≤ length s)%nat ∧
          (take n s = mv_utf8_encode cp ∨ cp = MV_REPLACEMENT ∧ n = 1%nat).
Proof.
  intros Hs Hne. rewrite (mv_utf8_decode_dec m p s) by done.
  pose proof (enc_dec s ltac:(by destruct Hs) Hne) as Hd. destruct (dec s) as [cp n].
  destruct Hd as (Hsc & Hn & H4 & Henc). exists cp, n. cbn [fst snd].
  rewrite mv_utf8_encode_enc by (by destruct Hsc). split_and!; try done; lia.
Qed.

(** A truncated three-byte sequence at the end of the string. *)
Lemma utf8_decode_progress_witness :
  ∃ cp n, mv_utf8_decode (mem_of 8 [226; 130; 0]) 8 = Some (cp, Z.of_nat n) ∧ cp = MV_REPLACEMENT.
Proof.
  destruct (utf8_decode_progress (mem_of 8 [226; 130; 0]) 8 [226; 130]) as (cp & n & H & _).
  - apply cstrb_cstr. vm_compute. reflexivity.
  - discriminate.
  - exists cp, n. split; [exact H|]. vm_compute in H. injection H as <- _. reflexivity.
Defined.

(** The conversion to UTF-16 writes the encoding of the longest run of whole
    code points that fits with the terminator: at most [cap] units are touched,
    a surrogate pair is never split, and when the whole text fits nothing is
    lost. *)
Theorem utf8_to_utf16_whole_chars m p w out cap s :
  cstr m p s → mapped w out cap → 0 < cap → is_u32 (cap + 1) →
  ∃ cs rest w', cps s = cs ++ rest ∧
    mv_utf8_to_utf16 m p w out cap = Some (Z.of_nat (length (flat_map utf16_of cs)), w') ∧
    seg w' out (flat_map utf16_of cs ++ [0]) ∧
    Z.of_nat (length (flat_map utf16_of cs)) < cap ∧
    (∀ a, ¬ (out ≤ a < out + cap) → w' !! a = w !! a) ∧
    (Z.of_nat (length (flat_map utf16_of (cps s))) < cap → rest = []).
Proof.
  intros Hs Hw Hc Hcap. destruct (fit_prefix utf16_of cap 0 (cps s)) as [rest Hr].
  eexists _, rest, _. split; [exact Hr|].
  split; [exact (mv_utf8_to_utf16_ok m p w out cap s Hs Hw Hc Hcap)|].
  pose proof (fit_bound utf16_of cap 0 (cps s) ltac:(lia)) as Hb.
  split; [apply seg_write|]. split; [lia|]. split.
  - intros a Ha. apply lookup_write_out. rewrite length_app. simpl. lia.
  - intros Hall. rewrite (fit_all utf16_of cap 0 (cps s)) in Hr by lia.
    rewrite <- (app_nil_r (cps s)) in Hr at 1. by apply app_inv_head in Hr.
Qed.

(** A badger and a letter into three units: the letter no longer fits. *)
Lemma utf8_to_utf16_whole_chars_witness :
  ∃ w', mv_utf8_to_utf16 (mem_of 8 [240; 159; 166; 161; 65; 0]) 8 (mem_of 0 [7; 7; 7]) 0 3 = Some (2, w').
Proof.
  destruct (utf8_to_utf16_whole_chars (mem_of 8 [240; 159; 166; 161; 65; 0]) 8 (mem_of 0 [7; 7; 7]) 0 3
              [240; 159; 166; 161; 65]) as (cs & rest & w' & _ & H & _).
  - apply cstrb_cstr. vm_compute. reflexivity.
  - apply mappedb_mapped. vm_compute. reflexivity.
  - lia.
  - vm_compute. split; [discriminate|reflexivity].
  - exists w'.
    assert (fst <$> mv_utf8_to_utf16 (mem_of 8 [240; 159; 166; 161; 65; 0]) 8 (mem_of 0 [7; 7; 7]) 0 3 = Some 2)
      as E by (vm_compute; reflexivity).
    rewrite H in E. injection E as E. rewrite H, E. reflexivity.
Defined.

(** Whatever units a wide string holds, the UTF-8 it is converted to is
    well formed (the encoding of scalar values: a lone surrogate becomes U+FFFD,
    never a broken sequence), terminated, and within the [cap] bytes given. *)
Theorem utf16_to_utf8_wellformed w p m out cap us :
  wstr w p us → mapped m out cap → 0 < cap → is_u32 (cap + 3) →
  ∃ cs rest m', cps16 us = cs ++ rest ∧ Forall is_scalar cs ∧
    mv_utf16_to_utf8 w p m out cap = Some (Z.of_nat (length (flat_map enc cs)), m') ∧
    cstr m' out (flat_map enc cs) ∧ cps (flat_map enc cs) = cs ∧
    Z.of_nat (length (flat_map enc cs)) < cap ∧
    (∀ a, ¬ (out ≤ a < out + cap) → m' !! a = m !! a).
Proof.
  intros Hs Hm Hc Hcap. destruct (fit_prefix enc cap 0 (cps16 us)) as [rest Hr].
  set (cs := fit enc cap 0 (cps16 us)) in *.
  assert (Forall (λ cp, is_scalar cp ∧ 0 < cp) cs) as Hcs.
  { pose proof (cps16_scalar us ltac:(by destruct Hs)) as H. rewrite Hr in H. by apply Forall_app in H as [H _]. }
  pose proof (fit_bound enc cap 0 (cps16 us) ltac:(lia)) as Hb. fold cs in Hb.
  eexists cs, rest, _. split; [exact Hr|]. split; [eapply Forall_impl; [exact Hcs|by intros ? []]|].
  split; [exact (mv_utf16_to_utf8_ok w p m out cap us Hs Hm Hc Hcap)|].
  split; [|split; [by apply cps_flat_map|split; [lia|]]].
  - apply cstr_write. clear -Hcs. induction Hcs as [|c l [??] ? IH]; [constructor|].
    apply Forall_app. split; [by apply enc_bytes|done].
  - intros a Ha. apply lookup_write_out. rewrite length_app. simpl. fold cs. lia.
Qed.

(** A lone high surrogate between two letters. *)
Lemma utf16_to_utf8_wellformed_witness :
  ∃ m', mv_utf16_to_utf8 (mem_of 0 [65; 55296; 66; 0]) 0 (mem_of 100 (replicate 8 1)) 100 8 = Some (5, m') ∧
        cstr m' 100 [65; 239; 191; 189; 66].
Proof.
  destruct (utf16_to_utf8_wellformed (mem_of 0 [65; 55296; 66; 0]) 0 (mem_of 100 (replicate 8 1)) 100 8
              [65; 55296; 66]) as (cs & rest & m' & _ & _ & H & Hs & _).
  - split; [apply segb_seg; vm_compute; reflexivity|repeat constructor; lia].
  - apply mappedb_mapped. vm_compute. reflexivity.
  - lia.
  - vm_compute. split; [discriminate|reflexivity].
  - exists m'.
    assert (mv_utf16_to_utf8 (mem_of 0 [65; 55296; 66; 0]) 0 (mem_of 100 (replicate 8 1)) 100 8
            = Some (5, write (mem_of 100 (replicate 8 1)) 100 [65; 239; 191; 189; 66; 0]))
      as E by (vm_compute; reflexivity).
    rewrite H in E. injection E as E1 E2. rewrite H, E1. split; [reflexivity|].
    rewrite E2. apply cstrb_cstr. vm_compute. reflexivity.
Defined.

(** [C29] A well-formed UTF-8 string survives the crossing: converted to UTF-16
    and back, with room enough on both sides, it is the same byte string. *)
Theorem utf_crossing_roundtrip m p w out1 cap1 m2 out2 cap2 cs :
  Forall (λ cp, is_scalar cp ∧ 0 < cp) cs →
  cstr m p (flat_map mv_utf8_encode cs) →
  mapped w out1 cap1 → 0 < cap1 → is_u32 (cap1 + 1) →
  mapped m2 out2 cap2 → 0 < cap2 → is_u32 (cap2 + 3) →
  Z.of_nat (length (flat_map utf16_of cs)) < cap1 →
  Z.of_nat (length (flat_map mv_utf8_encode cs)) < cap2 →
  ∃ n w' k m', mv_utf8_to_utf16 m p w out1 cap1 = Some (n, w') ∧
    mv_utf16_to_utf8 w' out1 m2 out2 cap2 = Some (k, m') ∧
    cstr m' out2 (flat_map mv_utf8_encode cs).
Proof.
  intros Hcs Hs Hw Hc1 Hu1 Hm Hc2 Hu2 Hf1 Hf2.
  assert (flat_map mv_utf8_encode cs = flat_map enc cs) as He.
  { clear -Hcs. induction Hcs as [|c l [[??] ?] ? IH]; cbn; [done|]. by rewrite IH, mv_utf8_encode_enc. }
  rewrite He in *. eexists _, _, _, _.
  split; [exact (mv_utf8_to_utf16_ok m p w out1 cap1 _ Hs Hw Hc1 Hu1)|].
  rewrite cps_flat_map by done. rewrite (fit_all utf16_of) by lia.
  split.
  { refine (mv_utf16_to_utf8_ok _ out1 m2 out2 cap2 (flat_map utf16_of cs) _ Hm Hc2 Hu2).
    split; [apply seg_write|]. clear -Hcs. induction Hcs as [|c l [??] ? IH]; [constructor|].
    apply Forall_app. split; [by apply utf16_of_units|done]. }
  rewrite cps16_flat_map by (eapply Forall_impl; [exact Hcs|by intros ? []]).
  rewrite (fit_all enc) by lia. apply cstr_write. by destruct Hs.
Qed.

(** "é" and the badger. *)
Lemma utf_crossing_roundtrip_witness :
  ∃ n w' k m', mv_utf8_to_utf16 (mem_of 8 [195; 169; 240; 159; 166; 161; 0]) 8 (mem_of 0 (replicate 4 0)) 0 4
                 = Some (n, w') ∧
    mv_utf16_to_utf8 w' 0 (mem_of 50 (replicate 8 9)) 50 8 = Some (k, m') ∧
    cstr m' 50 [195; 169; 240; 159; 166; 161].
Proof.
  apply (utf_crossing_roundtrip (mem_of 8 [195; 169; 240; 159; 166; 161; 0]) 8 (mem_of 0 (replicate 4 0)) 0 4
           (mem_of 50 (replicate 8 9)) 50 8 [233; 129441]).
  - repeat constructor; try (vm_compute; congruence); intros [? ?]; vm_compute in *; congruence.
  - apply cstrb_cstr. vm_compute. reflexivity.
  - apply mappedb_mapped. vm_compute. reflexivity.
  - lia.
  - vm_compute. split; [discriminate|reflexivity].
  - apply mappedb_mapped. vm_compute. reflexivity.
  - lia.
  - vm_compute. split; [discriminate|reflexivity].
  - vm_compute. reflexivity.
  - vm_compute. reflexivity.
Defined.

(** [mv_utf16_len] counts the UTF-16 units of the text and does not count a
    terminator: the buffer a caller allocates needs one unit more than the
    value returned (the header says the result already includes it). *)
Theorem utf16_len_units m p s :
  cstr m p s → is_u32 (Z.of_nat (length (flat_map utf16_of (cps s)))) →
  mv_utf16_len m p = Some (Z.of_nat (length (flat_map utf16_of (cps s)))).
Proof.
  intros Hs Hl. unfold mv_utf16_len. change 0 with (u32 0).
  rewrite (utf16_len_loop_spec _ _ _ _ s); [|done|by eapply cstr_fuel|lia].
  by rewrite u32_small.
Qed.

Lemma utf16_len_units_witness : mv_utf16_len (mem_of 8 (lit "abc" ++ [0])) 8 = Some 3.
Proof.
  apply (utf16_len_units (mem_of 8 (lit "abc" ++ [0])) 8 (lit "abc")).
  - apply cstrb_cstr. vm_compute. reflexivity.
  - vm_compute. split; [discriminate|reflexivity].
Defined.
