(* ===== verification/Heap.v ===== *)
(** * [c/rt/malloc.c]: the first-fit heap over [SYS_SBRK]

    A block header ([blk_t]) is a record; the headers lie in a finite map from
    addresses ([hdr]), linked through their [next] fields into the free list
    the way the source links them.  Payload bytes are the memory [ram].  The
    kernel is an interface ([Sbrk]): what [SYS_SBRK] promises; the instance
    [task_sbrk] is the kernel's own routine.

    A field of a header is written with [upd]: C stores into the 16 bytes at the
    address whether or not they held a header before, and every field is
    written before it is read ([SYS_SBRK] hands out zeroed bytes, which is
    [blk0]).

    In the program headers and payloads are the same bytes.  The model keeps
    them apart and stays true to that by letting a header stand only as long as
    its 16 bytes are a header: when a merge absorbs a block, the place becomes
    payload of the joined block, which the program may write once it is handed
    out, so the model forgets the header there ([forget]).  Reading a header
    where none stands is a fault ([None]): what the program would find are
    bytes of its own.  [HeapSpec] proves that the headers that stand are those
    of the tiles, none of which meets a payload.

    [HeapSpec] has the abstract heap and the refinement theorems. *)

From S2P Require Import Prelude CMem CString.

Definition BLK_USED : Z := 1515870810.  (* 0x5A5A5A5A *)
Definition BLK_FREE : Z := 0.
Definition HDR_SIZE : Z := 16.
Definition MIN_SPLIT : Z := 24.
Definition GROW_MIN : Z := 4096.

Record blk := Blk { b_size : Z; b_magic : Z; b_next : Z; b_pad : Z }.
Definition blk0 : blk := Blk 0 0 0 0.

#[export] Instance blk_eq_dec : EqDecision blk.
Proof. solve_decision. Defined.

Definition set_size (v : Z) (b : blk) : blk := Blk v (b_magic b) (b_next b) (b_pad b).
Definition set_magic (v : Z) (b : blk) : blk := Blk (b_size b) v (b_next b) (b_pad b).
Definition set_next (v : Z) (b : blk) : blk := Blk (b_size b) (b_magic b) v (b_pad b).
Definition set_pad (v : Z) (b : blk) : blk := Blk (b_size b) (b_magic b) (b_next b) v.

(** ** The kernel's side *)

(** What [SYS_SBRK] promises for a positive increment: the old break on success,
    with the break moved up, or a negative value and nothing changed. *)
Class Sbrk (K : Type) := {
  brk : K → Z;
  sbrk_limit : Z;
  sbrk : K → Z → Z * K;
  sbrk_limit_i32 : sbrk_limit ≤ 2147483647;
  sbrk_law : ∀ k n old k', 0 < n < 2147483648 → 0 ≤ brk k ≤ sbrk_limit → sbrk k n = (old, k') →
    (old = brk k ∧ brk k' = brk k + n ∧ brk k + n ≤ sbrk_limit) ∨ (old < 0 ∧ k' = k)
}.

(** [sys_sbrk] of kernel/syscall.inc: the break of the task, kept between the
    program window and the stack region. *)
Definition HEAP_FLOOR : Z := 5246976.     (* PROGRAM_BASE + 0x1000 = 0x501000 *)
Definition USER_STACK_BASE : Z := 6029312. (* 0x5C0000 *)

Definition sys_sbrk (tcb_brk incr : Z) : Z * Z :=
  let old := if tcb_brk =? 0 then HEAP_FLOOR else tcb_brk in
  let new := u32 (old + incr) in
  if (new <? HEAP_FLOOR) || (USER_STACK_BASE <? new) then (-1, tcb_brk)
  else (old, new).

Definition task_brk (tcb_brk : Z) : Z := if tcb_brk =? 0 then HEAP_FLOOR else tcb_brk.

(** ** The heap *)

Section heap.
Context {K : Type} `{Sbrk K}.

Record heap := Heap { hdr : gmap Z blk; free_list : Z; ram : mem; kern : K }.

Definition with_hdr (s : heap) (h : gmap Z blk) : heap := Heap h (free_list s) (ram s) (kern s).
Definition with_free_list (s : heap) (p : Z) : heap := Heap (hdr s) p (ram s) (kern s).
Definition with_ram (s : heap) (m : mem) : heap := Heap (hdr s) (free_list s) m (kern s).

Definition upd (s : heap) (a : Z) (f : blk → blk) : heap :=
  with_hdr s (<[a := f (default blk0 (hdr s !! a))]> (hdr s)).

(** The header of a block that another block has absorbed: its bytes are payload
    from here on. *)
Definition forget (s : heap) (a : Z) : heap := with_hdr s (delete a (hdr s)).

Definition align8 (n : Z) : Z := Z.land (u32 (n + 7)) 4294967288.

(** [at] is the place a link is stored: the list head (0) or the [next] field
    of the block [prev]. *)
Definition set_link (s : heap) (prev v : Z) : heap :=
  if prev =? 0 then with_free_list s v else upd s prev (set_next v).

(** Ask the kernel for [bytes] more heap: the address, or 0 when there is no
    room; the bytes the kernel exposes are zero. *)
Definition grow_heap (s : heap) (bytes : Z) : Z * heap :=
  let '(old, k') := sbrk (kern s) (i32 bytes) in
  if old <? 0 then (0, Heap (hdr s) (free_list s) (ram s) k')
  else (old, Heap (hdr s) (free_list s) (write (ram s) old (replicate (Z.to_nat (i32 bytes)) 0)) k').

(** The walk of [list_insert]: [at] moves to the next link as long as the
    pointer stored there is neither NULL nor beyond [block]. *)
Fixpoint insert_walk (f : nat) (h : gmap Z blk) (prev cur block : Z) : option (Z * Z) :=
  match f with
  | O => None
  | S f' =>
      if negb (cur =? 0) && (cur <? block) then
        b ← h !! cur; insert_walk f' h cur (b_next b) block
      else Some (prev, cur)
  end.

Definition hfuel (s : heap) : nat := S (S (size (hdr s))).

Definition list_insert (s : heap) (block : Z) : option heap :=
  let s1 := upd s block (set_magic BLK_FREE) in
  '(prev, cur) ← insert_walk (hfuel s1) (hdr s1) 0 (free_list s1) block;
  let s2 := upd s1 block (set_next cur) in
  Some (set_link s2 prev block).

Definition merge_forward (s : heap) (block : Z) : option heap :=
  b ← hdr s !! block;
  let next := b_next b in
  if negb (next =? 0) && (block + HDR_SIZE + b_size b =? next) then
    n ← hdr s !! next;
    let s1 := upd s block (set_size (u32 (b_size b + (HDR_SIZE + b_size n)))) in
    Some (forget (upd s1 block (set_next (b_next n))) next)
  else Some s.

(** First fit: the block before, and the first block large enough (0 = none). *)
Fixpoint find_fit (f : nat) (h : gmap Z blk) (prev cur need : Z) : option (Z * Z) :=
  match f with
  | O => None
  | S f' =>
      if cur =? 0 then Some (prev, 0)
      else
        b ← h !! cur;
        if b_size b <? need then find_fit f' h cur (b_next b) need else Some (prev, cur)
  end.

(** The part of [malloc] after the search: split or take the whole block. *)
Definition carve (s : heap) (prev block need : Z) : option (Z * heap) :=
  b ← hdr s !! block;
  s1 ←
    (if u32 (need + MIN_SPLIT) <=? b_size b then
       let rest := block + HDR_SIZE + need in
       let t := upd s rest (set_size (u32 (b_size b - need - HDR_SIZE))) in
       let t := upd t rest (set_pad 0) in
       let t := upd t block (set_size need) in
       let t := set_link t prev rest in
       b' ← hdr t !! block;
       let t := upd t rest (set_next (b_next b')) in
       let t := upd t rest (set_magic BLK_FREE) in
       merge_forward t rest
     else Some (set_link s prev (b_next b)));
  let s2 := upd s1 block (set_next 0) in
  let s3 := upd s2 block (set_magic BLK_USED) in
  Some (block + HDR_SIZE, s3).

(** One round of the [for (;;)]. *)
Definition malloc_body (need : Z) (s : heap) : option (heap + Z * heap) :=
  '(prev, block) ← find_fit (hfuel s) (hdr s) 0 (free_list s) need;
  if negb (block =? 0) then inr <$> carve s prev block need
  else
    let grow := u32 (need + HDR_SIZE) in
    let grow := if grow <? GROW_MIN then GROW_MIN else grow in
    let grow := align8 grow in
    let '(fresh, s1) := grow_heap s grow in
    if fresh =? 0 then Some (inr (0, s1))
    else
      let s2 := upd s1 fresh (set_size (u32 (grow - HDR_SIZE))) in
      s3 ← list_insert s2 fresh;
      Some (inl s3).

(** A round that goes on either inserts a block the next round takes, or (when
    [need + HDR_SIZE] wraps) moves the break up by a page; the break is below
    2^32, so 2^21 rounds are more than the loop can make. *)
Definition MALLOC_ROUNDS : positive := 2097152.

Definition malloc (s : heap) (sz : Z) : option (Z * heap) :=
  let need := align8 (if sz =? 0 then 1 else sz) in
  r ← loop MALLOC_ROUNDS (malloc_body need) s;
  match r with inr x => Some x | inl _ => None end.

(** [while (walk != NULL && walk != block)] of [free]. *)
Fixpoint free_walk (f : nat) (h : gmap Z blk) (prev walk block : Z) : option Z :=
  match f with
  | O => None
  | S f' =>
      if negb (walk =? 0) && negb (walk =? block) then
        b ← h !! walk; free_walk f' h walk (b_next b) block
      else Some prev
  end.

Definition free (s : heap) (ptr : Z) : option heap :=
  if ptr =? 0 then Some s
  else
    let block := ptr - HDR_SIZE in
    b ← hdr s !! block;
    if negb (b_magic b =? BLK_USED) then Some s
    else
      s1 ← list_insert s block;
      prev ← free_walk (hfuel s1) (hdr s1) 0 (free_list s1) block;
      joined ←
        (if prev =? 0 then Some None
         else p ← hdr s1 !! prev;
              if prev + HDR_SIZE + b_size p =? block then Some (Some p) else Some None);
      match joined with
      | Some p =>
          b1 ← hdr s1 !! block;
          let t := upd s1 prev (set_size (u32 (b_size p + (HDR_SIZE + b_size b1)))) in
          let t := upd t prev (set_next (b_next b1)) in
          merge_forward (forget t block) prev
      | None => merge_forward s1 block
      end.

Definition calloc (s : heap) (count sz : Z) : option (Z * heap) :=
  if negb (count =? 0) && (4294967295 `div` count <? sz) then Some (0, s)
  else
    let bytes := u32 (count * sz) in
    '(p, s1) ← malloc s bytes;
    if negb (p =? 0) then
      '(_, m) ← memset (ram s1) p 0 bytes; Some (p, with_ram s1 m)
    else Some (p, s1).

Definition realloc (s : heap) (ptr sz : Z) : option (Z * heap) :=
  if ptr =? 0 then malloc s sz
  else if sz =? 0 then s1 ← free s ptr; Some (0, s1)
  else
    let block := ptr - HDR_SIZE in
    b ← hdr s !! block;
    if negb (b_magic b =? BLK_USED) then Some (0, s)
    else if align8 sz <=? b_size b then Some (ptr, s)
    else
      '(fresh, s1) ← malloc s sz;
      if fresh =? 0 then Some (0, s1)
      else
        b1 ← hdr s1 !! block;
        '(_, m) ← memcpy (ram s1) fresh ptr (if b_size b1 <? sz then b_size b1 else sz);
        s2 ← free (with_ram s1 m) ptr;
        Some (fresh, s2).

End heap.

Arguments heap K : clear implicits.
#[global] Arguments upd : simpl never.
#[global] Arguments malloc : simpl never.
#[global] Arguments free : simpl never.
#[global] Arguments set_link : simpl never.

(** ** The kernel's break keeps the promise *)

#[export] Program Instance task_sbrk : Sbrk Z := {|
  brk := task_brk;
  sbrk_limit := USER_STACK_BASE;
  sbrk := sys_sbrk
|}.
Next Obligation. unfold USER_STACK_BASE. lia. Qed.
Next Obligation.
  unfold sys_sbrk, task_brk, USER_STACK_BASE, HEAP_FLOOR. intros k n old k' Hn Hb.
  destruct (Z.eqb_spec k 0); intros Hk; revert Hk; rewrite u32_small by word_lia;
    bool_cases; intros [= <- <-]; bool_cases; lia.
Qed.
