(* ===== verification/HeapSpec.v ===== *)
(** * The heap's contract: tiles

    The abstract heap is a list of tiles, used or free, that cover the whole
    range from the first break to the current one without gaps.  [rep] relates
    a concrete heap (headers, links, free-list head) to its tiles; [malloc] and
    [free] are shown to refine the operations on tiles ([first_fit],
    [take_tile], [give_tile]), and the guarantees a program relies on
    (alignment, size, separation, contents, coalescing) follow from the tiles. *)

From S2P Require Import Prelude CMem CString Heap.

(** ** The abstract heap

    A tile is a payload size and whether it is in use; [16 + size] bytes each,
    laid end to end from the first break to the current one. *)

Abbreviation tile := (Z * bool)%type.

Fixpoint tend (b : Z) (ts : list tile) : Z :=
  match ts with
  | [] => b
  | (sz, _) :: ts' => tend (b + HDR_SIZE + sz) ts'
  end.

(** The tiles with their header addresses. *)
Fixpoint cells (b : Z) (ts : list tile) : list (Z * Z * bool) :=
  match ts with
  | [] => []
  | (sz, u) :: ts' => (b, sz, u) :: cells (b + HDR_SIZE + sz) ts'
  end.

(** The header addresses of the free tiles, in address order. *)
Fixpoint frees (b : Z) (ts : list tile) : list Z :=
  match ts with
  | [] => []
  | (sz, u) :: ts' => (if u : bool then [] else [b]) ++ frees (b + HDR_SIZE + sz) ts'
  end.

(** The blocks the program holds: address and size of each used tile. *)
Fixpoint live (b : Z) (ts : list tile) : list (Z * Z) :=
  match ts with
  | [] => []
  | (sz, u) :: ts' => (if u : bool then [(b, sz)] else []) ++ live (b + HDR_SIZE + sz) ts'
  end.

Definition tile_ok (t : tile) : Prop := 0 < fst t ∧ fst t `mod` 8 = 0.

(** Put a free tile in front of [post], merged with a free neighbour. *)
Definition fuse (r : Z) (post : list tile) : list tile :=
  match post with
  | (sz, false) :: post' => (r + (HDR_SIZE + sz), false) :: post'
  | _ => (r, false) :: post
  end.

(** First fit, as a split of the tiles around the tile taken. *)
Fixpoint first_fit (need : Z) (ts : list tile) : option (list tile * Z * list tile) :=
  match ts with
  | [] => None
  | (sz, u) :: ts' =>
      if negb u && (need <=? sz) then Some ([], sz, ts')
      else '(pre, z, post) ← first_fit need ts'; Some ((sz, u) :: pre, z, post)
  end.

(** What allocation leaves of the tile of size [sz] between [pre] and [post]. *)
Definition take_tile (need : Z) (pre : list tile) (sz : Z) (post : list tile) : list tile :=
  if need + MIN_SPLIT <=? sz
  then pre ++ (need, true) :: fuse (sz - need - HDR_SIZE) post
  else pre ++ (sz, true) :: post.

(** What freeing the tile of size [sz] between [pre] and [post] leaves. *)
Definition give_tile (pre : list tile) (sz : Z) (post : list tile) : list tile :=
  match reverse pre with
  | (s0, false) :: pre' => reverse pre' ++ fuse (s0 + (HDR_SIZE + sz)) post
  | _ => pre ++ fuse sz post
  end.

(** No two neighbours are both free. *)
Fixpoint coalesced (ts : list tile) : Prop :=
  match ts with
  | (_, u1) :: (((_, u2) :: _) as ts') => (u1 = true ∨ u2 = true) ∧ coalesced ts'
  | _ => True
  end.

(** ** Facts about tiles *)

Lemma tend_app b t1 t2 : tend b (t1 ++ t2) = tend (tend b t1) t2.
Proof. revert b. induction t1 as [|[]]; intros; simpl; auto. Qed.
Lemma cells_app b t1 t2 : cells b (t1 ++ t2) = cells b t1 ++ cells (tend b t1) t2.
Proof. revert b. induction t1 as [|[] ? IH]; intros; simpl; [done|]. by rewrite IH. Qed.
Lemma frees_app b t1 t2 : frees b (t1 ++ t2) = frees b t1 ++ frees (tend b t1) t2.
Proof. revert b. induction t1 as [|[] ? IH]; intros; simpl; [done|]. by rewrite IH, app_assoc. Qed.
Lemma live_app b t1 t2 : live b (t1 ++ t2) = live b t1 ++ live (tend b t1) t2.
Proof. revert b. induction t1 as [|[] ? IH]; intros; simpl; [done|]. by rewrite IH, app_assoc. Qed.

Lemma tend_le b ts : Forall tile_ok ts → b ≤ tend b ts.
Proof.
  intros Hok. revert b. induction Hok as [|[sz u] ts [? _] _ IH]; intros b; simpl in *; [lia|].
  specialize (IH (b + HDR_SIZE + sz)). unfold HDR_SIZE in *. lia.
Qed.

Lemma cells_bounds b ts a sz u :
  Forall tile_ok ts → (a, sz, u) ∈ cells b ts → b ≤ a ∧ 0 < sz ∧ a + HDR_SIZE + sz ≤ tend b ts.
Proof.
  intros Hok. revert b. induction Hok as [|[sz' u'] ts [? _] Hok IH]; intros b; simpl in *.
  { by intros ?%elem_of_nil. }
  pose proof (tend_le (b + HDR_SIZE + sz') ts Hok). rewrite elem_of_cons. unfold HDR_SIZE in *.
  intros [[= -> -> ->]|Hin]; [lia|]. specialize (IH _ Hin). lia.
Qed.

Lemma frees_cells b ts a : a ∈ frees b ts ↔ ∃ sz, (a, sz, false) ∈ cells b ts.
Proof.
  revert b. induction ts as [|[sz []] ts IH]; intros b; simpl.
  - split; [by intros ?%elem_of_nil|by intros [? ?%elem_of_nil]].
  - rewrite IH. set_solver.
  - rewrite elem_of_cons, IH. set_solver.
Qed.

Lemma live_cells b ts a sz : (a, sz) ∈ live b ts ↔ (a, sz, true) ∈ cells b ts.
Proof.
  revert b. induction ts as [|[sz' []] ts IH]; intros b; simpl.
  - split; by intros ?%elem_of_nil.
  - rewrite !elem_of_cons, IH. set_solver.
  - rewrite IH, elem_of_cons. set_solver.
Qed.

Lemma frees_bounds b ts a : Forall tile_ok ts → a ∈ frees b ts → b ≤ a < tend b ts.
Proof.
  intros Hok (sz & Hin)%frees_cells. pose proof (cells_bounds _ _ _ _ _ Hok Hin).
  unfold HDR_SIZE in *. lia.
Qed.

(** Two tiles of one heap are the same or do not meet. *)
Lemma cells_disjoint b ts a1 z1 u1 a2 z2 u2 :
  Forall tile_ok ts → (a1, z1, u1) ∈ cells b ts → (a2, z2, u2) ∈ cells b ts →
  (a1, z1, u1) = (a2, z2, u2) ∨ disjoint a1 (HDR_SIZE + z1) a2 (HDR_SIZE + z2).
Proof.
  intros Hok. revert b. induction Hok as [|[sz u] ts [? _] Hok IH]; intros b; simpl in *.
  { by intros ?%elem_of_nil. }
  rewrite !elem_of_cons. unfold disjoint, HDR_SIZE in *.
  intros [[= -> -> ->]|H1] [[= -> -> ->]|H2]; [by left| | |by eapply IH].
  - apply cells_bounds in H2; [|done]. unfold HDR_SIZE in *. lia.
  - apply cells_bounds in H1; [|done]. unfold HDR_SIZE in *. lia.
Qed.

Lemma cells_split b ts a sz u :
  (a, sz, u) ∈ cells b ts → ∃ pre post, ts = pre ++ (sz, u) :: post ∧ a = tend b pre.
Proof.
  revert b. induction ts as [|[sz' u'] ts IH]; intros b; simpl; [by intros ?%elem_of_nil|].
  rewrite elem_of_cons. intros [[= -> -> ->]|Hin]; [by exists [], ts|].
  destruct (IH _ Hin) as (pre & post & -> & ->). by exists ((sz', u') :: pre), post.
Qed.

Lemma tend_mod b ts : b `mod` 8 = 0 → Forall tile_ok ts → tend b ts `mod` 8 = 0.
Proof.
  intros Hb Hok. revert b Hb.
  induction Hok as [|[sz u] ts [_ Hm] Hok IH]; intros b Hb; simpl in *; [done|].
  apply IH. unfold HDR_SIZE. dlia.
Qed.

Lemma first_fit_Some need ts pre sz post :
  first_fit need ts = Some (pre, sz, post) →
  ts = pre ++ (sz, false) :: post ∧ need ≤ sz ∧ Forall (λ t, snd t = true ∨ fst t < need) pre.
Proof.
  revert pre. induction ts as [|[z u] ts IH]; intros pre; simpl; [done|].
  destruct (negb u && (need <=? z)) eqn:E.
  - intros [= <- <- <-]. destruct u; [done|]. simpl in E. split_and!; [done|lia|done].
  - destruct (first_fit need ts) as [[[pre' z'] post']|]; [|done]. intros [= <- -> ->].
    destruct (IH _ eq_refl) as (-> & ? & ?). split_and!; [done|done|].
    constructor; [|done]. destruct u; simpl in *; [by left|right; lia].
Qed.

Lemma first_fit_None need ts :
  first_fit need ts = None → Forall (λ t, snd t = true ∨ fst t < need) ts.
Proof.
  induction ts as [|[z u] ts IH]; simpl; [done|].
  destruct (negb u && (need <=? z)) eqn:E; [done|]. intros Hn.
  constructor; [destruct u; simpl in *; [by left|right; lia]|]. apply IH.
  by destruct (first_fit need ts) as [[[]]|].
Qed.

Lemma frees_NoDup b ts : Forall tile_ok ts → NoDup (frees b ts).
Proof.
  intros Hok. revert b. induction Hok as [|[sz u] ts [? _] Hok IH]; intros b; simpl in *.
  { constructor. }
  destruct u; [apply IH|]. constructor; [|apply IH].
  intros Hin%frees_bounds; [|done]. unfold HDR_SIZE in *. lia.
Qed.

(** *** Live blocks under the operations on tiles *)

Lemma live_fuse b r post : live b (fuse r post) = live (b + HDR_SIZE + r) post.
Proof.
  destruct post as [|[z []] post]; [done|done|]. simpl. f_equal. lia.
Qed.

Lemma tend_fuse b r post : tend b (fuse r post) = tend (b + HDR_SIZE + r) post.
Proof. destruct post as [|[z []] post]; [done|done|]. simpl. f_equal. lia. Qed.

Lemma live_take base need pre sz post :
  need ≤ sz →
  ∃ n, need ≤ n ∧ live base (take_tile need pre sz post) ≡ₚ
    (tend base pre, n) :: live base (pre ++ (sz, false) :: post).
Proof.
  intros Hn. unfold take_tile. destruct (Z.leb_spec (need + MIN_SPLIT) sz).
  - exists need. split; [done|]. rewrite !live_app. cbn [live app]. rewrite live_fuse.
    replace (tend base pre + HDR_SIZE + need + HDR_SIZE + (sz - need - HDR_SIZE))
      with (tend base pre + HDR_SIZE + sz) by lia. by rewrite Permutation_middle.
  - exists sz. split; [done|]. rewrite !live_app. cbn [live app]. by rewrite Permutation_middle.
Qed.

Lemma live_give base pre sz post :
  live base (pre ++ (sz, true) :: post) ≡ₚ (tend base pre, sz) :: live base (give_tile pre sz post).
Proof.
  rewrite live_app. cbn [live app]. rewrite <- Permutation_middle. constructor.
  unfold give_tile. destruct pre as [|[z0 u0] pre _] using rev_ind; [cbn; by rewrite live_fuse|].
  rewrite reverse_snoc. destruct u0; [by rewrite (live_app _ _ (fuse _ _)), live_fuse|].
  rewrite reverse_involutive, !live_app, live_fuse, tend_app. cbn [live app tend]. rewrite app_nil_r.
  do 2 f_equiv. lia.
Qed.

(** *** Coalescing *)

Definition head_used (ts : list tile) : Prop :=
  match ts with (_, false) :: _ => False | _ => True end.
Definition last_used (ts : list tile) : Prop :=
  match last ts with Some (_, false) => False | _ => True end.

#[export] Instance last_used_dec ts : Decision (last_used ts).
Proof. unfold last_used. destruct (last ts) as [[? []]|]; apply _. Defined.

Lemma coalesced_app t1 t2 :
  coalesced (t1 ++ t2) ↔ coalesced t1 ∧ coalesced t2 ∧ (last_used t1 ∨ head_used t2).
Proof.
  induction t1 as [|[z u] t1 IH]; simpl.
  { unfold last_used. simpl. tauto. }
  destruct t1 as [|[z' u'] t1]; simpl in *.
  - unfold last_used. simpl. destruct t2 as [|[z2 []] t2], u; simpl; naive_solver.
  - assert (last_used ((z, u) :: (z', u') :: t1) = last_used ((z', u') :: t1)) as ->.
    { unfold last_used. by rewrite last_cons_cons. }
    rewrite IH. tauto.
Qed.

Lemma coalesced_cons t ts :
  coalesced (t :: ts) ↔ coalesced ts ∧ (snd t = true ∨ head_used ts).
Proof.
  destruct t as [z u], ts as [|[z2 u2] ts]; simpl; [tauto|]. destruct u2; naive_solver.
Qed.

Lemma coalesced_fuse r post : coalesced post → coalesced (fuse r post).
Proof.
  destruct post as [|[z []] post]; [done| |]; cbn [fuse]; rewrite !coalesced_cons; simpl; tauto.
Qed.

Lemma coalesced_take need pre sz post :
  coalesced pre → coalesced post → coalesced (take_tile need pre sz post).
Proof.
  intros H1 H2. unfold take_tile. case_match; apply coalesced_app; rewrite coalesced_cons; simpl.
  - split_and!; auto using coalesced_fuse.
  - split_and!; auto.
Qed.

Lemma coalesced_give pre sz post :
  coalesced (pre ++ (sz, true) :: post) → coalesced (give_tile pre sz post).
Proof.
  rewrite coalesced_app, coalesced_cons. intros (H1 & (H2 & _) & _). unfold give_tile.
  destruct pre as [|[z0 u0] pre _] using rev_ind; [by apply coalesced_fuse|].
  rewrite reverse_snoc. destruct u0.
  - apply coalesced_app in H1 as (? & _ & _). rewrite <- app_assoc. apply coalesced_app.
    cbn [app]. rewrite coalesced_cons. simpl. auto using coalesced_fuse.
  - rewrite reverse_involutive. apply coalesced_app. apply coalesced_app in H1 as (? & _ & Hs).
    split_and!; [done|by apply coalesced_fuse|]. left. destruct Hs; done.
Qed.

(** Once every block is given back a coalesced heap is one block. *)
Lemma coalesced_all_free base ts :
  coalesced ts → live base ts = [] → ts = [] ∨ ∃ sz, ts = [(sz, false)].
Proof.
  destruct ts as [|[z []] ts]; [by left|done|]. intros Hc Hl. right. exists z. f_equal.
  rewrite coalesced_cons in Hc. destruct Hc as [_ [?|Hh]]; [done|].
  destruct ts as [|[z2 []] ts]; [done|done|done].
Qed.

Section spec.
Context {K : Type} `{Sbrk K}.

(** ** Representation *)

(** [chain nx p l q]: following [nx] from [p] visits exactly [l], then [q]. *)
Fixpoint chain (nx : Z → option Z) (p : Z) (l : list Z) (q : Z) : Prop :=
  match l with
  | [] => p = q
  | a :: l' => p = a ∧ ∃ n, nx a = Some n ∧ chain nx n l' q
  end.

Definition nx (s : heap K) (a : Z) : option Z := b_next <$> hdr s !! a.
Definition info (s : heap K) (a : Z) : option (Z * Z) :=
  (λ b, (b_size b, b_magic b)) <$> hdr s !! a.
Definition magic_of (u : bool) : Z := if u then BLK_USED else BLK_FREE.

Record rep (base : Z) (s : heap K) (ts : list tile) : Prop := {
  rep_base : 0 < base ∧ base `mod` 8 = 0;
  rep_tiles : Forall tile_ok ts;
  rep_brk : tend base ts = brk (kern s) ∧ brk (kern s) ≤ sbrk_limit;
  rep_info : ∀ a sz u, (a, sz, u) ∈ cells base ts → info s a = Some (sz, magic_of u);
  rep_links : chain (nx s) (free_list s) (frees base ts) 0;
  rep_hdr : ∀ a z m, info s a = Some (z, m) → ∃ u, (a, z, u) ∈ cells base ts;
  rep_ram : mapped (ram s) base (tend base ts - base)
}.

Lemma rep_magic base (s : heap K) ts a sz :
  rep base s ts → info s a = Some (sz, BLK_USED) → (a, sz, true) ∈ cells base ts.
Proof.
  intros Hr Hi. destruct (rep_hdr _ _ _ Hr _ _ _ Hi) as [[] Hin]; [done|].
  apply (rep_info _ _ _ Hr) in Hin. rewrite Hi in Hin. discriminate.
Qed.

(** ** Headers, links and chains *)

Lemma hdr_upd (s : heap K) a f c :
  hdr (upd s a f) !! c =
  if decide (c = a) then Some (f (default blk0 (hdr s !! a))) else hdr s !! c.
Proof.
  unfold upd, with_hdr. simpl. case_decide; subst; [by rewrite lookup_insert_eq|].
  by rewrite lookup_insert_ne.
Qed.

Lemma hdr_forget (s : heap K) a c :
  hdr (forget s a) !! c = if decide (c = a) then None else hdr s !! c.
Proof.
  unfold forget, with_hdr. simpl. case_decide; subst; [by rewrite lookup_delete_eq|].
  by rewrite lookup_delete_ne.
Qed.

Lemma nx_forget (s : heap K) a c : c ≠ a → nx (forget s a) c = nx s c.
Proof. intros. unfold nx. rewrite hdr_forget. by rewrite decide_False. Qed.
Lemma info_forget (s : heap K) a c : c ≠ a → info (forget s a) c = info s c.
Proof. intros. unfold info. rewrite hdr_forget. by rewrite decide_False. Qed.

Lemma chain_app f p l1 l2 q :
  chain f p (l1 ++ l2) q ↔ ∃ m, chain f p l1 m ∧ chain f m l2 q.
Proof.
  revert p. induction l1 as [|a l1 IH]; intros p; simpl; [naive_solver|].
  split.
  - intros (-> & n & Hn & (m & ? & ?)%IH). eauto 10.
  - intros (m & (-> & n & Hn & ?) & ?). split; [done|]. exists n. split; [done|]. apply IH. eauto.
Qed.

Lemma chain_ext f g p l q : (∀ a, a ∈ l → f a = g a) → chain f p l q → chain g p l q.
Proof.
  revert p. induction l as [|a l IH]; intros p Hfg; simpl; [done|].
  intros (-> & n & Hn & Hc). split; [done|]. exists n.
  rewrite <- Hfg by apply list_elem_of_here. split; [done|]. apply IH; [|done].
  intros; apply Hfg. by apply list_elem_of_further.
Qed.

(** The last block of a list: where the link to what follows is kept. *)
Definition lastp (l : list Z) : Z := default 0 (last l).
Definition headp (l : list Z) : Z := default 0 (head l).

Lemma chain_head f p l : chain f p l 0 → p = headp l.
Proof. destruct l; simpl; [done|]. by intros [-> _]. Qed.

Lemma lastp_snoc l a : lastp (l ++ [a]) = a.
Proof. unfold lastp. by rewrite last_snoc. Qed.

Lemma nx_set_link (s : heap K) p v a : a ≠ p → nx (set_link s p v) a = nx s a.
Proof.
  intros. unfold set_link. destruct (p =? 0); [done|]. unfold nx. rewrite hdr_upd.
  by rewrite decide_False.
Qed.

Lemma info_set_link (s : heap K) p v a :
  is_Some (nx s p) ∨ p = 0 → info (set_link s p v) a = info s a.
Proof.
  intros Hp. unfold set_link. destruct (Z.eqb_spec p 0) as [|Hne]; [done|].
  unfold info. rewrite hdr_upd. case_decide; [|done]. subst.
  destruct Hp as [[m Hm]|]; [|done]. unfold nx in Hm. by destruct (hdr s !! p).
Qed.

Lemma chain_set_link (s : heap K) l1 m v :
  Forall (λ a, 0 < a) l1 → NoDup l1 → chain (nx s) (free_list s) l1 m →
  chain (nx (set_link s (lastp l1) v)) (free_list (set_link s (lastp l1) v)) l1 v.
Proof.
  destruct l1 as [|a l1 _] using rev_ind; [done|].
  rewrite lastp_snoc, Forall_app, Forall_singleton, NoDup_app. intros [Hp Ha] (_ & Hnd & _) Hc.
  apply chain_app in Hc as (m' & Hc & -> & n & Hn & ->). apply chain_app. exists a.
  assert (free_list (set_link s a v) = free_list s) as ->.
  { unfold set_link. by destruct (Z.eqb_spec a 0); [lia|]. }
  split.
  - eapply chain_ext, Hc. intros c Hin. rewrite nx_set_link; [done|].
    intros ->. apply (Hnd a Hin), list_elem_of_here.
  - split; [done|]. exists v. split; [|done]. unfold set_link.
    destruct (Z.eqb_spec a 0); [lia|]. unfold nx. rewrite hdr_upd. by rewrite decide_True.
Qed.

Lemma chain_lastp (s : heap K) p l q :
  chain (nx s) p l q → is_Some (nx s (lastp l)) ∨ lastp l = 0.
Proof.
  destruct l as [|a l _] using rev_ind; [by right|]. rewrite lastp_snoc. intros Hc. left.
  apply chain_app in Hc as (m & _ & _ & n & Hn & _). by exists n.
Qed.

Lemma chain_length (s : heap K) p l q :
  NoDup l → chain (nx s) p l q → (length l ≤ size (hdr s))%nat.
Proof.
  intros Hnd Hc. assert (∀ a, a ∈ l → a ∈ dom (hdr s)) as Hin.
  { clear Hnd. revert p Hc. induction l as [|c l IH]; intros p; simpl; [by intros _ ? ?%elem_of_nil|].
    intros (-> & n & Hn & Hc) a [->|Ha]%elem_of_cons; [|by eapply IH].
    apply elem_of_dom. unfold nx in Hn. by destruct (hdr s !! c). }
  rewrite <- size_dom, <- (size_list_to_set (C := gset Z) l) by done.
  apply subseteq_size. set_solver.
Qed.

(** ** The three walks over the free list *)

Lemma last_default (l : list Z) a d : default d (last (a :: l)) = default a (last l).
Proof. destruct l as [|b l]; [done|]. rewrite last_cons_cons. by destruct (last (b :: l)) eqn:E; [|apply last_None in E]. Qed.

Lemma insert_walk_ok (s : heap K) f p l1 l2 blk prev :
  chain (nx s) p (l1 ++ l2) 0 → Forall (λ a, 0 < a < blk) l1 → Forall (λ a, blk < a) l2 →
  (length l1 < f)%nat →
  insert_walk f (hdr s) prev p blk = Some (default prev (last l1), headp l2).
Proof.
  revert f p prev. induction l1 as [|a l1 IH]; intros [|f] p prev Hc H1 H2 Hf; simpl in *; try lia.
  - rewrite (chain_head _ _ _ Hc). destruct l2 as [|c l2]; [done|]. inv H2. simpl. cbn.
    zb_false (c <? blk). by rewrite andb_false_r.
  - destruct Hc as (-> & n & Hn & Hc). inv H1. zb_simpl. simpl. unfold nx in Hn.
    destruct (hdr s !! a) as [b|]; simplify_eq/=. rewrite last_default. apply IH; auto with lia.
Qed.

Lemma find_fit_ok (s : heap K) f p l1 l2 need prev :
  chain (nx s) p (l1 ++ l2) 0 → Forall (λ a, 0 < a ∧ ∃ z m, info s a = Some (z, m) ∧ z < need) l1 →
  match l2 with
  | [] => True
  | a :: _ => 0 < a ∧ ∃ z m, info s a = Some (z, m) ∧ need ≤ z
  end →
  (length l1 < f)%nat →
  find_fit f (hdr s) prev p need = Some (default prev (last l1), headp l2).
Proof.
  revert f p prev. induction l1 as [|a l1 IH]; intros [|f] p prev Hc H1 H2 Hf; simpl in *; try lia.
  - rewrite (chain_head _ _ _ Hc). destruct l2 as [|c l2]; [done|]. cbn.
    destruct H2 as (? & z & m & Hi & ?). zb_simpl. unfold info in Hi.
    destruct (hdr s !! c) as [b|]; simplify_eq/=. by zb_simpl.
  - destruct Hc as (-> & n & Hn & Hc). inv H1 as [|?? (? & z & m & Hi & ?)]. zb_simpl.
    unfold nx in Hn. unfold info in Hi.
    destruct (hdr s !! a) as [b|]; simplify_eq/=. zb_simpl. rewrite last_default.
    apply IH; auto with lia.
Qed.

Lemma free_walk_ok (s : heap K) f p l1 l2 blk prev :
  chain (nx s) p (l1 ++ blk :: l2) 0 → Forall (λ a, 0 < a ∧ a ≠ blk) l1 →
  (length l1 < f)%nat →
  free_walk f (hdr s) prev p blk = Some (default prev (last l1)).
Proof.
  revert f p prev. induction l1 as [|a l1 IH]; intros [|f] p prev Hc H1 Hf; simpl in *; try lia.
  - destruct Hc as (-> & _). rewrite Z.eqb_refl. by rewrite andb_false_r.
  - destruct Hc as (-> & n & Hn & Hc). inv H1 as [|?? [? ?]]. zb_simpl. simpl. unfold nx in Hn.
    destruct (hdr s !! a) as [b|]; simplify_eq/=. rewrite last_default. apply IH; auto with lia.
Qed.

(** ** Inserting a block into the sorted list *)

Lemma lastp_bound l b : Forall (λ a, 0 < a < b) l → 0 < b → 0 ≤ lastp l < b.
Proof.
  intros Hl Hb. destruct l as [|a l _] using rev_ind; [done|]. rewrite lastp_snoc.
  rewrite Forall_app, Forall_singleton in Hl. lia.
Qed.

Lemma list_insert_ok (s : heap K) l1 l2 blk :
  chain (nx s) (free_list s) (l1 ++ l2) 0 → NoDup (l1 ++ l2) →
  Forall (λ a, 0 < a < blk) l1 → Forall (λ a, blk < a) l2 → 0 < blk →
  ∃ s', list_insert s blk = Some s' ∧
    chain (nx s') (free_list s') (l1 ++ blk :: l2) 0 ∧
    (∀ a, a ≠ blk → info s' a = info s a) ∧
    info s' blk = Some (b_size (default blk0 (hdr s !! blk)), BLK_FREE) ∧
    ram s' = ram s ∧ kern s' = kern s.
Proof.
  intros Hc Hnd H1 H2 Hb. unfold list_insert.
  set (s1 := upd s blk (set_magic BLK_FREE)).
  assert (∀ a, a ≠ blk → nx s1 a = nx s a) as Hnx.
  { intros a Ha. unfold nx, s1. rewrite hdr_upd. by rewrite decide_False. }
  assert (chain (nx s1) (free_list s1) (l1 ++ l2) 0) as Hc1.
  { eapply chain_ext, Hc. intros a [Ha|Ha]%elem_of_app; rewrite Hnx; [done| |done|].
    - rewrite Forall_forall in H1. specialize (H1 a Ha). lia.
    - rewrite Forall_forall in H2. specialize (H2 a Ha). lia. }
  pose proof (chain_length _ _ _ _ Hnd Hc1) as Hlen. rewrite length_app in Hlen.
  rewrite (insert_walk_ok s1 (hfuel s1) _ l1 l2 blk 0 Hc1 H1 H2) by (unfold hfuel; lia). simpl.
  eexists. split; [done|]. fold (lastp l1). set (s2 := upd s1 blk (set_next (headp l2))).
  apply chain_app in Hc1 as (m & Hc1 & Hc2). pose proof (chain_head _ _ _ Hc2) as ->.
  apply NoDup_app in Hnd as (Hnd1 & _ & _).
  assert (∀ a, a ≠ blk → nx s2 a = nx s1 a) as Hnx2.
  { intros a Ha. unfold nx, s2. rewrite hdr_upd. by rewrite decide_False. }
  assert (chain (nx s2) (free_list s2) l1 (headp l2)) as Hc3.
  { eapply chain_ext, Hc1. intros a Ha. rewrite Hnx2; [done|].
    rewrite Forall_forall in H1. specialize (H1 a Ha). lia. }
  assert (lastp l1 < blk) as Hlt.
  { by apply lastp_bound. }
  split_and!.
  - apply chain_app. exists blk. split.
    + eapply chain_set_link; [|done..]. eapply Forall_impl; [done|]. simpl. lia.
    + split; [done|]. exists (headp l2). rewrite nx_set_link by lia. split.
      * unfold nx, s2. rewrite hdr_upd. by rewrite decide_True.
      * eapply chain_ext, Hc2. intros a Ha. rewrite Forall_forall in H2. specialize (H2 a Ha).
        rewrite nx_set_link, Hnx2 by lia. done.
  - intros a Ha. rewrite info_set_link by (eapply chain_lastp; done).
    unfold info, s2, s1. rewrite !hdr_upd. by rewrite !decide_False.
  - rewrite info_set_link by (eapply chain_lastp; done).
    unfold info, s2, s1. rewrite !hdr_upd. by rewrite !decide_True.
  - unfold set_link. by destruct (_ =? 0).
  - unfold set_link. by destruct (_ =? 0).
Qed.

(** ** Replacing a run of tiles *)

Lemma tiles_bounds base (s : heap K) pre mid post :
  rep base s (pre ++ mid ++ post) →
  0 < base ≤ tend base pre ∧ tend base pre ≤ tend (tend base pre) mid ∧
  tend (tend base pre) mid ≤ brk (kern s) ∧
  Forall tile_ok pre ∧ Forall tile_ok mid ∧ Forall tile_ok post.
Proof.
  intros [? Hok [Ht _] _ _ _ _]. rewrite !Forall_app in Hok. destruct Hok as (? & ? & Hp).
  rewrite <- Ht, !tend_app. pose proof (tend_le base pre). pose proof (tend_le (tend base pre) mid).
  pose proof (tend_le (tend (tend base pre) mid) _ Hp).
  split_and!; naive_solver lia.
Qed.

Lemma rep_hdr_mid base (s : heap K) pre mid post a z m :
  rep base s (pre ++ mid ++ post) → info s a = Some (z, m) →
  tend base pre ≤ a < tend (tend base pre) mid → ∃ u, (a, z, u) ∈ cells (tend base pre) mid.
Proof.
  intros Hr Hi Ha. destruct (tiles_bounds _ _ _ _ _ Hr) as (_ & _ & _ & H1 & H2 & H3).
  apply (rep_hdr _ _ _ Hr) in Hi as [u Hi]. rewrite !cells_app in Hi.
  apply elem_of_app in Hi as [Hi|[Hi|Hi]%elem_of_app]; [| by eauto |];
    apply cells_bounds in Hi; try done; unfold HDR_SIZE in *; lia.
Qed.

Lemma rep_replace base (s s' : heap K) pre mid mid' post :
  rep base s (pre ++ mid ++ post) →
  let A := tend base pre in
  let E := tend A mid in
  tend A mid' = E → Forall tile_ok mid' →
  (∀ a, a < A ∨ E ≤ a → info s' a = info s a) →
  (∀ a sz u, (a, sz, u) ∈ cells A mid' → info s' a = Some (sz, magic_of u)) →
  (∀ a z m, info s' a = Some (z, m) → A ≤ a < E → ∃ u, (a, z, u) ∈ cells A mid') →
  chain (nx s') (free_list s') (frees base pre ++ frees A mid' ++ frees E post) 0 →
  ram s' = ram s → kern s' = kern s →
  rep base s' (pre ++ mid' ++ post).
Proof.
  intros Hr A E HE Hok Hout Hin Hmag Hc Hram Hkern.
  destruct (tiles_bounds _ _ _ _ _ Hr) as (Hb & HA & HB & H1 & H2 & H3).
  pose proof (tend_le E post H3). destruct Hr as [Hbase Htok [Ht Hl] Hi _ Hm Hr].
  rewrite !tend_app in Ht. rewrite !tend_app in Hr. rewrite !cells_app in Hi. split.
  - done.
  - by rewrite !Forall_app.
  - rewrite !tend_app, Hkern. fold A. by rewrite HE.
  - intros a sz u. rewrite !cells_app. fold A. rewrite HE.
    intros [Ha|[Ha|Ha]%elem_of_app]%elem_of_app; [|by apply Hin|].
    + rewrite Hout. { apply Hi. set_solver. }
      apply cells_bounds in Ha; [|done]. unfold HDR_SIZE in *. lia.
    + rewrite Hout. { apply Hi. set_solver. }
      apply cells_bounds in Ha; [|done]. lia.
  - rewrite !frees_app. fold A. by rewrite HE.
  - intros a z m Ha. rewrite !cells_app. fold A. rewrite HE.
    destruct (decide (A ≤ a < E)) as [Hae|Hae].
    { destruct (Hmag a z m Ha Hae) as [u ?]. exists u. rewrite !elem_of_app. by right; left. }
    rewrite Hout in Ha by lia. apply Hm in Ha as [u Ha]. exists u. rewrite !cells_app in Ha.
    rewrite !elem_of_app in Ha |- *. fold A E in Ha. destruct Ha as [?|[Ha|?]]; [by left| |by right; right].
    apply cells_bounds in Ha; [|done]. unfold HDR_SIZE in *. lia.
  - rewrite Hram, !tend_app. fold A. rewrite HE. exact Hr.
Qed.

(** The links around a tile. *)
Lemma rep_chain_split base (s : heap K) pre t post :
  rep base s (pre ++ t :: post) →
  let A := tend base pre in
  let rest := frees (A + HDR_SIZE + fst t) post in
  (if snd t : bool then chain (nx s) (free_list s) (frees base pre) (headp rest)
   else chain (nx s) (free_list s) (frees base pre) A ∧ nx s A = Some (headp rest)) ∧
  chain (nx s) (headp rest) rest 0.
Proof.
  intros Hr A rest. pose proof (rep_links _ _ _ Hr) as Hc. rewrite frees_app in Hc.
  apply chain_app in Hc as (m & Hc & Hc'). destruct t as [sz []]; simpl in *; fold A in Hc'; fold rest in Hc'.
  - pose proof (chain_head _ _ _ Hc') as ->. done.
  - destruct Hc' as (-> & n & Hn & Hc'). pose proof (chain_head _ _ _ Hc') as ->. done.
Qed.

Lemma headp_frees b ts :
  0 < b → Forall tile_ok ts →
  match ts with
  | (_, false) :: _ => headp (frees b ts) = b
  | _ => headp (frees b ts) = 0 ∨ b < headp (frees b ts)
  end.
Proof.
  intros Hb Hok. destruct ts as [|[z []] ts]; [by left| |done].
  inv Hok as [|?? [Hz _] Hok']. simpl in *.
  destruct (frees (b + HDR_SIZE + z) ts) as [|c l] eqn:E; [by left|]. right. cbn.
  assert (c ∈ frees (b + HDR_SIZE + z) ts) as Hin by (rewrite E; apply list_elem_of_here).
  apply frees_bounds in Hin; [|done]. unfold HDR_SIZE in *. lia.
Qed.

(** ** Merging with the block that follows *)

Lemma nx_upd (s : heap K) a f c : c ≠ a → nx (upd s a f) c = nx s c.
Proof. intros. unfold nx. rewrite hdr_upd. by rewrite decide_False. Qed.
Lemma info_upd (s : heap K) a f c : c ≠ a → info (upd s a f) c = info s c.
Proof. intros. unfold info. rewrite hdr_upd. by rewrite decide_False. Qed.

(** Chains away from an address are not affected by a change at it. *)
Lemma chain_frees_agree (f g : Z → option Z) p q b ts lo hi :
  Forall tile_ok ts → lo ≤ b → tend b ts ≤ hi → (∀ a, lo ≤ a < hi → f a = g a) →
  chain f p (frees b ts) q → chain g p (frees b ts) q.
Proof.
  intros Hok Hlo Hhi Hfg. apply chain_ext. intros a Ha%frees_bounds; [|done]. apply Hfg. lia.
Qed.

Lemma rep_info_at base (s : heap K) pre sz u post :
  rep base s (pre ++ (sz, u) :: post) →
  ∃ b, hdr s !! tend base pre = Some b ∧ b_size b = sz ∧ b_magic b = magic_of u.
Proof.
  intros Hr. pose proof (rep_info _ _ _ Hr (tend base pre) sz u) as Hi.
  rewrite cells_app in Hi. specialize (Hi ltac:(set_solver)). unfold info in Hi.
  destruct (hdr s !! tend base pre) as [b|]; simplify_eq/=. eauto.
Qed.

Lemma merge_forward_skip (s : heap K) A b :
  hdr s !! A = Some b → b_next b = 0 ∨ A + HDR_SIZE + b_size b ≠ b_next b →
  merge_forward s A = Some s.
Proof.
  intros Hb Hn. unfold merge_forward. rewrite Hb. cbn.
  destruct (Z.eqb_spec (b_next b) 0); [done|].
  destruct (Z.eqb_spec (A + HDR_SIZE + b_size b) (b_next b)); [lia|done].
Qed.

Lemma merge_forward_join base (s : heap K) pre r z post :
  rep base s (pre ++ (r, false) :: (z, false) :: post) →
  ∃ s', merge_forward s (tend base pre) = Some s' ∧
    rep base s' (pre ++ (r + (HDR_SIZE + z), false) :: post) ∧ ram s' = ram s ∧ kern s' = kern s.
Proof.
  intros Hr. set (mid := [(r, false); (z, false)]).
  pose proof (tiles_bounds base s pre mid post Hr) as (Hb & HA & HB & H1 & H2 & H3).
  pose proof (rep_brk _ _ _ Hr) as [_ Hlim]. pose proof sbrk_limit_i32 as Hl32.
  unfold mid in H2. rewrite Forall_cons, Forall_singleton in H2. destruct H2 as [[HzA HmA] [HzN HmN]].
  destruct (rep_chain_split _ _ _ _ _ Hr) as [[Hc1 HnA] (_ & n2 & HnN & Hc2)].
  destruct (rep_info_at _ _ _ _ _ _ Hr) as (bA & EA & HsA & HgA).
  destruct (rep_info_at base s (pre ++ [(r, false)]) z false post) as (bN & EN & HsN & HgN).
  { by rewrite <- app_assoc. }
  rewrite tend_app in EN. simpl in *. remember (tend base pre) as A eqn:EqA.
  unfold nx in HnA, HnN. rewrite EA in HnA. rewrite EN in HnN. simplify_eq/=. cbn in HnA.
  unfold merge_forward. rewrite EA. cbn. rewrite HnA, EN. unfold HDR_SIZE in *. zb_simpl. cbn.
  rewrite u32_small by (unfold is_u32; lia).
  eexists. split; [done|]. split_and!; [|done|done]. change (?x :: post) with ([x] ++ post).
  set (N := tend base pre + 16 + b_size bA) in *.
  assert (∀ f g a, a ≠ tend base pre → a ≠ N →
    nx (forget (upd (upd s (tend base pre) f) (tend base pre) g) N) a = nx s a)
    as Hnx by (intros; by rewrite nx_forget, !nx_upd).
  assert (tend base pre < N) as HN by (unfold N; lia).
  eapply (rep_replace base s _ pre mid _ post Hr); unfold mid; simpl; unfold HDR_SIZE.
  - lia.
  - constructor; [|done]. split; simpl; [lia|dlia].
  - intros a Ha. rewrite info_forget, !info_upd by (unfold N; lia). done.
  - intros a sz u [= -> -> ->]%list_elem_of_singleton. rewrite info_forget by lia.
    unfold info. rewrite !hdr_upd. rewrite !decide_True, EA by done. cbn. by rewrite HgA.
  - intros a z m Ha Hin. destruct (decide (a = N)) as [->|HaN].
    { unfold info in Ha. rewrite hdr_forget, decide_True in Ha by done. discriminate. }
    rewrite info_forget in Ha by done. destruct (decide (a = tend base pre)) as [->|HaA].
    + unfold info in Ha. rewrite !hdr_upd, !decide_True, EA in Ha by done.
      cbn in Ha. simplify_eq. exists false. set_solver.
    + rewrite !info_upd in Ha by done. exfalso.
      pose proof (rep_hdr_mid base s pre mid post a z m Hr Ha) as Hx.
      simpl in Hx. specialize (Hx Hin). unfold mid in Hx. unfold N in HaN. set_solver.
  - apply chain_app. exists (tend base pre). split.
    + eapply chain_frees_agree with (lo := base) (hi := tend base pre), Hc1; [done|lia|done|].
      intros. rewrite Hnx by lia. done.
    + split; [done|]. eexists. split.
      { rewrite nx_forget by lia. unfold nx. rewrite !hdr_upd, !decide_True by done. done. }
      replace (tend base pre + 16 + (b_size bA + (16 + b_size bN)))
        with (tend base pre + 16 + b_size bA + 16 + b_size bN) in * by lia.
      eapply chain_frees_agree with (lo := N + 1), Hc2; [done|unfold N; lia|done|].
      intros. rewrite Hnx by lia. done.
  - done.
  - done.
Qed.

Lemma merge_forward_apart base (s : heap K) pre r post :
  rep base s (pre ++ (r, false) :: post) → head_used post →
  merge_forward s (tend base pre) = Some s.
Proof.
  intros Hr Hno.
  pose proof (tiles_bounds base s pre [(r, false)] post Hr) as (Hb & HA & HB & H1 & H2 & H3).
  destruct (rep_info_at _ _ _ _ _ _ Hr) as (bA & EA & HsA & HgA).
  destruct (rep_chain_split _ _ _ _ _ Hr) as [[Hc1 HnA] Hc2]. unfold nx in HnA. rewrite EA in HnA.
  pose proof (headp_frees (tend base pre + HDR_SIZE + r) post ltac:(simpl in *; lia) H3) as Hhd.
  simplify_eq/=. apply (merge_forward_skip s _ bA EA). rewrite HnA.
  destruct post as [|[z []] post]; [lia|lia|done].
Qed.

Lemma merge_forward_rep base (s : heap K) pre r post :
  rep base s (pre ++ (r, false) :: post) →
  ∃ s', merge_forward s (tend base pre) = Some s' ∧ rep base s' (pre ++ fuse r post) ∧
    ram s' = ram s ∧ kern s' = kern s.
Proof.
  intros Hr. destruct post as [|[z []] post].
  1,2: exists s; by rewrite (merge_forward_apart _ _ _ _ _ Hr).
  by apply merge_forward_join.
Qed.

(** ** Carving a block out of a free tile *)

Lemma upd_comm (s : heap K) a c f g : a ≠ c → upd (upd s a f) c g = upd (upd s c g) a f.
Proof.
  intros Hne. unfold upd, with_hdr. simpl. rewrite !lookup_insert_ne by done.
  by rewrite insert_insert_ne.
Qed.

Lemma upd_forget (s : heap K) a c f : a ≠ c → upd (forget s c) a f = forget (upd s a f) c.
Proof.
  intros Hne. unfold upd, forget, with_hdr. simpl. rewrite lookup_delete_ne by done.
  by rewrite delete_insert_ne.
Qed.

Lemma merge_forward_upd (s s' : heap K) A R f :
  A ≠ R → (∀ b, hdr s !! R = Some b → b_next b ≠ A) →
  merge_forward (upd s A f) R = Some s' →
  ∃ s0, merge_forward s R = Some s0 ∧ upd s0 A f = s'.
Proof.
  intros Hne Hnx. unfold merge_forward. rewrite hdr_upd, decide_False by done.
  destruct (hdr s !! R) as [b|]; [|done]. specialize (Hnx b eq_refl). cbn.
  destruct (negb _ && _); [|intros [= <-]; by eauto].
  rewrite hdr_upd, decide_False by done. destruct (hdr s !! b_next b) as [c|]; [|done]. cbn.
  intros [= <-]. eexists. split; [done|]. by rewrite upd_forget, !(upd_comm _ A R).
Qed.

Lemma frees_lastp base pre : 0 < base → Forall tile_ok pre →
  Forall (λ a, 0 < a) (frees base pre) ∧ NoDup (frees base pre) ∧
  0 ≤ lastp (frees base pre) < tend base pre.
Proof.
  intros Hb Hok. pose proof (tend_le base pre Hok).
  assert (Forall (λ a, 0 < a < tend base pre) (frees base pre)) as Hf.
  { apply Forall_forall. intros a Ha%frees_bounds; [lia|done]. }
  destruct (lastp_bound _ _ Hf) as [? ?]; [lia|].
  split_and!; [|by apply frees_NoDup|lia|lia]. eapply Forall_impl; [done|]. simpl. lia.
Qed.

(** The links once the block at [A] is out of the list and its place taken by
    [v]: nothing before [A] or from [lo] on has changed but the one link. *)
Lemma rep_relink base (s t : heap K) pre sz post v lo :
  rep base s (pre ++ (sz, false) :: post) →
  let A := tend base pre in
  free_list t = free_list s → A < lo ≤ A + HDR_SIZE + sz →
  (∀ a, a < A ∨ A + HDR_SIZE + sz ≤ a → nx t a = nx s a) →
  (∀ a, a < A ∨ A + HDR_SIZE + sz ≤ a → info t a = info s a) →
  let t' := set_link t (lastp (frees base pre)) v in
  chain (nx t') (free_list t') (frees base pre) v ∧
  (∀ a, A ≤ a → nx t' a = nx t a) ∧ (∀ a, info t' a = info t a) ∧ ram t' = ram t ∧ kern t' = kern t.
Proof.
  intros Hr A Hfl Hlo Hnx Hinfo t'.
  pose proof (tiles_bounds base s pre [(sz, false)] post Hr) as (Hb & HA & HB & H1 & H2 & H3).
  destruct (frees_lastp base pre ltac:(lia) H1) as (Hpos & Hnd & Hlast).
  destruct (rep_chain_split _ _ _ _ _ Hr) as [[Hc1 _] _].
  assert (chain (nx t) (free_list t) (frees base pre) A) as Hc.
  { rewrite Hfl. eapply chain_frees_agree with (lo := base) (hi := A), Hc1; [done|lia|done|].
    intros. symmetry. apply Hnx. lia. }
  split_and!.
  - by eapply chain_set_link.
  - intros a Ha. apply nx_set_link. unfold A in Ha. lia.
  - intros a. apply info_set_link. by eapply chain_lastp.
  - unfold t', set_link. by destruct (_ =? 0).
  - unfold t', set_link. by destruct (_ =? 0).
Qed.

Definition take_state (s : heap K) (A : Z) : heap K :=
  upd (upd s A (set_next 0)) A (set_magic BLK_USED).

Lemma take_state_other (s : heap K) A a : a ≠ A →
  nx (take_state s A) a = nx s a ∧ info (take_state s A) a = info s a.
Proof. intros. unfold take_state. by rewrite !nx_upd, !info_upd by done. Qed.

Lemma take_state_info (s : heap K) A z m :
  info s A = Some (z, m) → info (take_state s A) A = Some (z, BLK_USED).
Proof.
  unfold take_state, info. rewrite !hdr_upd, !decide_True by done.
  destruct (hdr s !! A); naive_solver.
Qed.

(** Taking a whole free tile. *)
Lemma take_whole_rep base (s : heap K) pre sz post b :
  rep base s (pre ++ (sz, false) :: post) → hdr s !! tend base pre = Some b →
  rep base (take_state (set_link s (lastp (frees base pre)) (b_next b)) (tend base pre))
    (pre ++ (sz, true) :: post).
Proof.
  intros Hr Eb. set (s1 := set_link s _ _).
  pose proof (tiles_bounds base s pre [(sz, false)] post Hr) as (Hb & HA & HB & H1 & H2 & H3).
  rewrite Forall_singleton in H2. destruct H2 as [Hz Hm]. simpl in *. unfold HDR_SIZE in *.
  destruct (rep_info_at _ _ _ _ _ _ Hr) as (b' & Eb' & Hs & Hg). simplify_eq.
  destruct (rep_chain_split _ _ _ _ _ Hr) as [[_ Hn] Hc2]. unfold nx in Hn. rewrite Eb in Hn.
  simplify_eq/=. unfold HDR_SIZE in *. rewrite <- Hn in Hc2.
  destruct (rep_relink base s s pre (b_size b) post (b_next b) (tend base pre + 1) Hr)
    as (Hc1 & Hnx & Hinf & Hram & Hk); try done; [unfold HDR_SIZE; lia|]. fold s1 in Hc1, Hnx, Hinf, Hram, Hk.
  assert (info s1 (tend base pre) = Some (b_size b, BLK_FREE)) as HiA.
  { rewrite Hinf. unfold info. rewrite Eb. cbn. by rewrite Hg. }
  eapply (rep_replace base s _ pre [(b_size b, false)] [(b_size b, true)] post Hr);
    simpl; unfold HDR_SIZE; [done| | | | | |done|done].
  - by constructor.
  - intros a Ha. rewrite (proj2 (take_state_other s1 (tend base pre) a ltac:(lia))). apply Hinf.
  - intros a sz u [= -> -> ->]%list_elem_of_singleton. by eapply take_state_info.
  - intros a z m Ha Hin. destruct (decide (a = tend base pre)) as [->|HaA].
    + erewrite take_state_info in Ha by done. simplify_eq. exists true. set_solver.
    + rewrite (proj2 (take_state_other s1 (tend base pre) a ltac:(lia))), Hinf in Ha. exfalso.
      pose proof (rep_hdr_mid base s pre [(b_size b, false)] post a z m Hr Ha Hin). set_solver.
  - apply chain_app. exists (b_next b). split.
    + eapply chain_frees_agree with (lo := base) (hi := tend base pre), Hc1; [done|lia|done|].
      intros a Ha. by rewrite (proj1 (take_state_other s1 (tend base pre) a ltac:(lia))).
    + eapply chain_frees_agree with (lo := tend base pre + 1), Hc2; [done|lia|done|].
      intros a Ha. rewrite (proj1 (take_state_other s1 (tend base pre) a ltac:(lia))). symmetry. apply Hnx. lia.
Qed.

(** Splitting a free tile: the state [carve] has before it merges the rest. *)
Definition split_state (s : heap K) (prev A need sz nxt : Z) : heap K :=
  let R := A + HDR_SIZE + need in
  let t := upd (upd s R (set_size (sz - need - HDR_SIZE))) R (set_pad 0) in
  let t := set_link (upd t A (set_size need)) prev R in
  upd (upd t R (set_next nxt)) R (set_magic BLK_FREE).

Lemma split_state_views base (s : heap K) pre sz post need nxt :
  rep base s (pre ++ (sz, false) :: post) → 0 < need → need + MIN_SPLIT ≤ sz →
  let A := tend base pre in
  let R := A + HDR_SIZE + need in
  let t := split_state s (lastp (frees base pre)) A need sz nxt in
  info t A = Some (need, BLK_FREE) ∧ info t R = Some (sz - need - HDR_SIZE, BLK_FREE) ∧
  nx t R = Some nxt ∧ nx t A = nx s A ∧
  (∀ a, a ≠ A → a ≠ R → info t a = info s a) ∧
  (∀ a, A < a → a ≠ R → nx t a = nx s a) ∧
  chain (nx t) (free_list t) (frees base pre) R ∧ ram t = ram s ∧ kern t = kern s.
Proof.
  intros Hr Hn Hsz A R.
  pose proof (tiles_bounds base s pre [(sz, false)] post Hr) as (Hb & HA & HB & H1 & H2 & H3).
  destruct (rep_info_at _ _ _ _ _ _ Hr) as (b & Eb & Hs & Hg). fold A in Eb.
  unfold split_state. fold A R.
  set (t0 := upd (upd s R _) R _). set (t1 := upd t0 A _).
  assert (∀ a, a ≠ A → a ≠ R → nx t1 a = nx s a ∧ info t1 a = info s a) as Hout.
  { intros. unfold t1, t0. by rewrite !nx_upd, !info_upd by done. }
  unfold MIN_SPLIT, HDR_SIZE in *. simpl in *.
  assert (A ≠ R) as HAR by (unfold R; lia).
  destruct (rep_relink base s t1 pre sz post R (A + 1) Hr) as (Hc & Hnx & Hinf & Hram & Hk); try done.
  { unfold HDR_SIZE. fold A. lia. }
  1,2: intros a Ha; apply Hout; fold A in Ha; unfold R, HDR_SIZE in *; lia.
  fold A in Hnx. set (t2 := set_link t1 _ R) in *.
  assert (hdr t1 !! A = Some (set_size need b)) as EA.
  { unfold t1, t0. rewrite !hdr_upd, decide_True, !decide_False by done. by rewrite Eb. }
  split_and!.
  - rewrite !info_upd by done. rewrite Hinf. unfold info. rewrite EA. cbn. by rewrite Hg.
  - unfold info. rewrite !hdr_upd, !decide_True by done. cbn.
    pose proof (Hinf R) as Hi. unfold info at 2 in Hi. unfold t1, t0 in Hi.
    rewrite !hdr_upd, decide_False, !decide_True in Hi by done. unfold info in Hi.
    destruct (hdr t2 !! R) as [c|]; simplify_eq/=. congruence.
  - unfold nx. by rewrite !hdr_upd, !decide_True by done.
  - rewrite !nx_upd, Hnx by (done || lia). unfold nx. by rewrite EA, Eb.
  - intros a HaA HaR. rewrite !info_upd by done. rewrite Hinf. by apply Hout.
  - intros a HaA HaR. rewrite !nx_upd, Hnx by (done || lia). apply Hout; lia.
  - eapply chain_frees_agree with (lo := base) (hi := A), Hc; [done|lia|done|].
    intros. rewrite !nx_upd by (unfold R; lia). done.
  - done.
  - done.
Qed.

Lemma take_split_rep base (s : heap K) pre sz post need :
  rep base s (pre ++ (sz, false) :: post) → 0 < need → need `mod` 8 = 0 → need + MIN_SPLIT ≤ sz →
  let A := tend base pre in
  let nxt := headp (frees (A + HDR_SIZE + sz) post) in
  rep base (take_state (split_state s (lastp (frees base pre)) A need sz nxt) A)
    (pre ++ (need, true) :: (sz - need - HDR_SIZE, false) :: post).
Proof.
  intros Hr Hn Hn8 Hsz A nxt.
  pose proof (tiles_bounds base s pre [(sz, false)] post Hr) as (Hb & HA & HB & H1 & H2 & H3).
  rewrite Forall_singleton in H2. destruct H2 as [Hz Hm].
  destruct (rep_chain_split _ _ _ _ _ Hr) as [[_ _] Hc2]. fold A nxt in Hc2.
  destruct (split_state_views base s pre sz post need nxt Hr Hn Hsz)
    as (HiA & HiR & HnR & _ & Hinf & Hnx & Hc & Hram & Hk).
  fold A in HiA, HiR, HnR, Hinf, Hnx, Hc, Hram, Hk. set (t := split_state s _ A need sz nxt) in *.
  simpl in *. unfold MIN_SPLIT, HDR_SIZE in *.
  pose proof (λ a H, proj1 (take_state_other t A a H)) as Tnx.
  pose proof (λ a H, proj2 (take_state_other t A a H)) as Tinf.
  assert (info (take_state t A) A = Some (need, BLK_USED)) as TiA by (by eapply take_state_info).
  set (R := A + 16 + need) in *.
  assert (A + 16 + sz = R + 16 + (sz - need - 16)) as HE by (unfold R; lia).
  eapply (rep_replace base s _ pre [(sz, false)] [(need, true); (sz - need - 16, false)] post Hr);
    simpl; unfold HDR_SIZE; fold A; fold R; [lia| | | | | |done|done].
  - constructor; [done|]. constructor; [|done]. split; simpl; [lia|dlia].
  - intros a Ha. rewrite Tinf, Hinf by (unfold R; lia). done.
  - intros a z u. rewrite elem_of_cons, list_elem_of_singleton.
    intros [[= -> -> ->]|[= -> -> ->]]; [done|]. rewrite Tinf by (unfold R; lia). done.
  - intros a z m Ha Hin. destruct (decide (a = A)) as [->|HaA]; [simplify_eq; exists true; set_solver|].
    rewrite Tinf in Ha by done. destruct (decide (a = R)) as [->|HaR].
    { rewrite HiR in Ha. simplify_eq. exists false. set_solver. }
    rewrite Hinf in Ha by done. exfalso.
    pose proof (rep_hdr_mid base s pre [(sz, false)] post a z m Hr Ha Hin). set_solver.
  - apply chain_app. exists R. split.
    + eapply chain_frees_agree with (lo := base) (hi := A), Hc; [done|lia|done|].
      intros a Ha. symmetry. apply Tnx. lia.
    + split; [done|]. exists nxt. rewrite Tnx by (unfold R; lia). split; [done|].
      eapply chain_frees_agree with (lo := R + 1), Hc2; [done|lia|done|].
      intros a Ha. rewrite Tnx, Hnx by (unfold R in *; lia). done.
Qed.

Lemma hdr_set_link (s : heap K) p v a : a ≠ p → hdr (set_link s p v) !! a = hdr s !! a.
Proof.
  intros. unfold set_link. destruct (p =? 0); [done|]. rewrite hdr_upd. by rewrite decide_False.
Qed.

(** [carve] is: split (and merge the rest) or unlink, then take. *)
Lemma carve_split (s : heap K) prev A need b :
  hdr s !! A = Some b → prev ≠ A → 0 < need → is_u32 (need + MIN_SPLIT) → is_u32 (b_size b) →
  carve s prev A need =
  (s1 ← (if need + MIN_SPLIT <=? b_size b
         then merge_forward (split_state s prev A need (b_size b) (b_next b)) (A + HDR_SIZE + need)
         else Some (set_link s prev (b_next b)));
   Some (A + HDR_SIZE, take_state s1 A)).
Proof.
  intros Eb Hp Hn Hu Hb. unfold carve. rewrite Eb. cbn [mbind option_bind].
  rewrite (u32_small (need + MIN_SPLIT)) by done.
  destruct (Z.leb_spec (need + MIN_SPLIT) (b_size b)) as [Hge|Hlt]; [|done].
  unfold MIN_SPLIT, is_u32 in *.
  rewrite hdr_set_link, hdr_upd, decide_True by done.
  rewrite (u32_small (b_size b - need - HDR_SIZE)) by (unfold is_u32, HDR_SIZE; lia).
  cbn [mbind option_bind]. rewrite !hdr_upd, !decide_False by (unfold HDR_SIZE; lia).
  rewrite Eb. done.
Qed.

Lemma merge_forward_take (t s' : heap K) A R n :
  A ≠ R → nx t R = Some n → n ≠ A → merge_forward (take_state t A) R = Some s' →
  ∃ s0, merge_forward t R = Some s0 ∧ take_state s0 A = s'.
Proof.
  intros HAR Hn HnA Hm. unfold nx in Hn.
  assert (∀ f b, hdr (upd t A f) !! R = Some b → b_next b ≠ A) as Hno.
  { intros f b. rewrite hdr_upd, decide_False by done. intros Eb. rewrite Eb in Hn. by simplify_eq/=. }
  unfold take_state in Hm. apply merge_forward_upd in Hm as (s2 & Hm & <-); [|done|apply Hno].
  apply merge_forward_upd in Hm as (s3 & Hm & <-); [by eauto|done|].
  intros b Eb. rewrite Eb in Hn. by simplify_eq/=.
Qed.

Lemma carve_rep base (s : heap K) pre sz post need :
  rep base s (pre ++ (sz, false) :: post) → 0 < need ≤ sz → need `mod` 8 = 0 →
  ∃ s', carve s (lastp (frees base pre)) (tend base pre) need = Some (tend base pre + HDR_SIZE, s') ∧
    rep base s' (take_tile need pre sz post) ∧ ram s' = ram s ∧ kern s' = kern s.
Proof.
  intros Hr Hn Hn8.
  pose proof (tiles_bounds base s pre [(sz, false)] post Hr) as (Hb & HA & HB & H1 & H2 & H3).
  pose proof (rep_brk _ _ _ Hr) as [_ Hlim]. pose proof sbrk_limit_i32 as Hl32.
  destruct (rep_info_at _ _ _ _ _ _ Hr) as (b & Eb & Hs & Hg).
  destruct (frees_lastp base pre ltac:(lia) H1) as (_ & _ & Hlast).
  destruct (rep_chain_split _ _ _ _ _ Hr) as [[_ HnA] _]. simpl in HA, HB, HnA.
  assert (b_next b = headp (frees (tend base pre + HDR_SIZE + sz) post)) as Hnxt.
  { unfold nx in HnA. rewrite Eb in HnA. by simplify_eq/=. }
  unfold HDR_SIZE in HA, HB.
  rewrite (carve_split _ _ _ _ _ Eb) by (unfold is_u32, MIN_SPLIT; lia). rewrite Hs.
  unfold take_tile. destruct (Z.leb_spec (need + MIN_SPLIT) sz) as [Hge|Hlt].
  2:{ eexists. split; [done|]. split; [by apply take_whole_rep|].
      destruct (rep_relink base s s pre sz post (b_next b) (tend base pre + 1) Hr)
        as (_ & _ & _ & Hram & Hk); try done. unfold HDR_SIZE; lia. }
  pose proof (take_split_rep base s pre sz post need Hr ltac:(lia) Hn8 Hge) as Hrep.
  cbv zeta in Hrep. rewrite <- Hnxt in Hrep. set (t := split_state _ _ _ _ _ _) in *.
  destruct (split_state_views base s pre sz post need (b_next b) Hr ltac:(lia) Hge)
    as (_ & HiR & HnR & _ & _ & _ & _ & Hram & Hk). fold t in HiR, HnR, Hram, Hk.
  destruct (merge_forward_rep base (take_state t (tend base pre)) (pre ++ [(need, true)])
              (sz - need - HDR_SIZE) post) as (s' & Hm & Hrep' & Hram' & Hk').
  { by rewrite <- app_assoc. }
  rewrite tend_app in Hm. rewrite <- app_assoc in Hrep'. cbn [tend] in Hm.
  eapply merge_forward_take in Hm as (s0 & Hm & <-); [|unfold HDR_SIZE; lia|done|].
  - rewrite Hm. exists (take_state s0 (tend base pre)). split_and!; [done|done| |].
    + rewrite Hram'. unfold take_state. exact Hram.
    + rewrite Hk'. unfold take_state. exact Hk.
  - rewrite Hnxt. intros Heq. pose proof (headp_frees (tend base pre + HDR_SIZE + sz) post) as Hh.
    unfold HDR_SIZE in *. specialize (Hh ltac:(lia) H3). destruct post as [|[? []] ?]; lia.
Qed.

(** ** One round of [malloc] *)

Lemma align8_eq n : 0 ≤ n ≤ 4294967288 → align8 n = (n + 7) `div` 8 * 8.
Proof.
  intros Hn. unfold align8. rewrite u32_small by (unfold is_u32; lia).
  change 4294967288 with (Z.ldiff (Z.ones 32) (Z.ones 3)).
  rewrite Z.ldiff_land, Z.land_assoc, Z.land_ones, Z.mod_small by lia.
  rewrite <- Z.ldiff_land, Z.ldiff_ones_r, Z.shiftl_mul_pow2, Z.shiftr_div_pow2 by lia. done.
Qed.

Lemma align8_ok n : 0 ≤ n ≤ 4294967288 → n ≤ align8 n < n + 8 ∧ align8 n `mod` 8 = 0.
Proof. intros Hn. rewrite align8_eq by done. dlia. Qed.

Lemma rep_fuel base (s : heap K) ts : rep base s ts → (length (frees base ts) < hfuel s)%nat.
Proof.
  intros Hr. pose proof (chain_length _ _ _ _ (frees_NoDup base ts (rep_tiles _ _ _ Hr)) (rep_links _ _ _ Hr)).
  unfold hfuel. lia.
Qed.

(** The free tiles that are too small, as the search sees them. *)
Lemma rep_small base (s : heap K) ts pre post need :
  rep base s ts → ts = pre ++ post → Forall (λ t, snd t = true ∨ fst t < need) pre →
  Forall (λ a, 0 < a ∧ ∃ z m, info s a = Some (z, m) ∧ z < need) (frees base pre).
Proof.
  intros Hr -> Hsm. apply Forall_forall. intros a (z & Hin)%frees_cells.
  pose proof (rep_base _ _ _ Hr) as [? _]. pose proof (rep_tiles _ _ _ Hr) as [Hok _]%Forall_app.
  pose proof (cells_bounds _ _ _ _ _ Hok Hin). split; [lia|]. exists z, BLK_FREE. split.
  - apply (rep_info _ _ _ Hr a z false). rewrite cells_app. set_solver.
  - apply cells_split in Hin as (p1 & p2 & -> & _).
    rewrite Forall_app, Forall_cons in Hsm. destruct Hsm as (_ & [?|?] & _); simpl in *; [done|lia].
Qed.

Lemma malloc_body_fit base (s : heap K) ts need pre sz post :
  rep base s ts → 0 < need → need `mod` 8 = 0 → first_fit need ts = Some (pre, sz, post) →
  ∃ s', malloc_body need s = Some (inr (tend base pre + HDR_SIZE, s')) ∧
    rep base s' (take_tile need pre sz post) ∧ ram s' = ram s ∧ kern s' = kern s.
Proof.
  intros Hr Hn Hn8 Hf. apply first_fit_Some in Hf as (-> & Hsz & Hsm). unfold malloc_body.
  pose proof (rep_links _ _ _ Hr) as Hc. pose proof (rep_fuel _ _ _ Hr) as Hfu.
  pose proof (tiles_bounds base s pre [(sz, false)] post Hr) as (Hb & _).
  rewrite frees_app in Hc, Hfu. cbn [frees app] in Hc, Hfu. rewrite length_app in Hfu.
  destruct (rep_info_at _ _ _ _ _ _ Hr) as (b & Eb & Hs & Hg).
  erewrite find_fit_ok; [|exact Hc|by eapply rep_small| |lia].
  2:{ split; [lia|]. exists sz, BLK_FREE. unfold info. rewrite Eb. cbn. by rewrite Hs, Hg. }
  cbn. zb_false (tend base pre =? 0). cbn. fold (lastp (frees base pre)).
  destruct (carve_rep base s pre sz post need Hr) as (s' & -> & ?); [lia|done|]. cbn. eauto.
Qed.

Lemma mapped_extend m p n g :
  mapped m p n → mapped (write m (p + n) (replicate (Z.to_nat g) 0)) p (n + g).
Proof.
  intros Hm a Ha. rewrite lookup_write, length_replicate. case_bool_decide; [|apply Hm; lia].
  apply lookup_lt_is_Some_2. rewrite length_replicate. lia.
Qed.

(** The number of bytes a request makes the heap grow by. *)
Definition grow_size (need : Z) : Z := align8 (Z.max GROW_MIN (need + HDR_SIZE)).

Lemma grow_rep base (s : heap K) ts g k' :
  rep base s ts → 16 < g < 2147483648 → g `mod` 8 = 0 → sbrk (kern s) g = (brk (kern s), k') →
  ∃ s', list_insert (upd (Heap (hdr s) (free_list s) (write (ram s) (brk (kern s)) (replicate (Z.to_nat g) 0)) k')
                         (brk (kern s)) (set_size (g - HDR_SIZE))) (brk (kern s)) = Some s' ∧
    rep base s' (ts ++ [(g - HDR_SIZE, false)]) ∧
    ram s' = write (ram s) (brk (kern s)) (replicate (Z.to_nat g) 0) ∧ kern s' = k'.
Proof.
  intros Hr Hg Hg8 Hk. set (B := brk (kern s)) in *.
  destruct (rep_base _ _ _ Hr) as [Hb Hb8]. destruct (rep_brk _ _ _ Hr) as [Ht Hlim]. fold B in Ht, Hlim.
  pose proof (rep_tiles _ _ _ Hr) as Hok. pose proof (tend_le base ts Hok). pose proof sbrk_limit_i32.
  assert (brk k' = B + g ∧ B + g ≤ sbrk_limit) as [Hk1 Hk2].
  { edestruct (sbrk_law (kern s) g) as [?|?]; [..|exact Hk| |]; unfold B in *; lia. }
  set (s2 := upd _ B _).
  assert (∀ a, a ≠ B → nx s2 a = nx s a ∧ info s2 a = info s a) as Hout.
  { intros a Ha. unfold s2. by rewrite nx_upd, info_upd by done. }
  destruct (list_insert_ok s2 (frees base ts) [] B) as (s' & Hs' & Hc & Hinf & HiB & Hram & Hkern).
  - rewrite app_nil_r. eapply chain_frees_agree with (lo := base) (hi := B), (rep_links _ _ _ Hr); [done|lia|lia|].
    intros a Ha. symmetry. apply Hout. lia.
  - rewrite app_nil_r. by apply frees_NoDup.
  - apply Forall_forall. intros a Ha%frees_bounds; [lia|done].
  - done.
  - lia.
  - exists s'. split_and!; [done| |done|done]. split; unfold HDR_SIZE.
    + done.
    + apply Forall_app. split; [done|]. apply Forall_singleton. split; simpl; [lia|dlia].
    + rewrite tend_app, Hkern. simpl. unfold HDR_SIZE. lia.
    + intros a z u. rewrite cells_app, elem_of_app. cbn [cells]. rewrite list_elem_of_singleton.
      intros [Hin|[= -> -> ->]].
      * pose proof (cells_bounds _ _ _ _ _ Hok Hin). unfold HDR_SIZE in *.
        rewrite Hinf by lia. rewrite (proj2 (Hout a ltac:(lia))). by apply (rep_info _ _ _ Hr).
      * rewrite Ht, HiB. unfold s2. by rewrite hdr_upd, decide_True by done.
    + rewrite frees_app, Ht. done.
    + intros a z m Ha. rewrite cells_app, Ht. destruct (decide (a = B)) as [->|HaB].
      { rewrite HiB in Ha. unfold s2 in Ha. rewrite hdr_upd, decide_True in Ha by done.
        simplify_eq/=. exists false. unfold HDR_SIZE. set_solver. }
      rewrite Hinf, (proj2 (Hout a HaB)) in Ha by done.
      apply (rep_hdr _ _ _ Hr) in Ha as [u ?]. exists u. set_solver.
    + rewrite Hram, tend_app. simpl. pose proof (rep_ram _ _ _ Hr) as Hm. rewrite Ht in Hm |- *.
      replace (B + HDR_SIZE + (g - 16) - base) with (B - base + g) by (unfold HDR_SIZE; lia).
      replace B with (base + (B - base)) at 1 by lia. by apply mapped_extend.
Qed.

Lemma malloc_body_grow base (s : heap K) ts need :
  rep base s ts → 0 < need ≤ 2147483600 → need `mod` 8 = 0 → first_fit need ts = None →
  let g := grow_size need in
  let B := brk (kern s) in
  let '(old, k') := sbrk (kern s) g in
  if 0 <=? old then
    ∃ s', malloc_body need s = Some (inl s') ∧ rep base s' (ts ++ [(g - HDR_SIZE, false)]) ∧
      ram s' = write (ram s) B (replicate (Z.to_nat g) 0) ∧ kern s' = k'
  else malloc_body need s = Some (inr (0, s)).
Proof.
  intros Hr Hn Hn8 Hf g B. apply first_fit_None in Hf.
  pose proof (rep_links _ _ _ Hr) as Hc. pose proof (rep_fuel _ _ _ Hr) as Hfu.
  destruct (rep_base _ _ _ Hr) as [Hb _]. destruct (rep_brk _ _ _ Hr) as [Ht Hlim].
  pose proof (tend_le base ts (rep_tiles _ _ _ Hr)).
  assert (16 < g < 2147483648 ∧ g `mod` 8 = 0) as [Hg Hg8].
  { unfold g, grow_size, GROW_MIN, HDR_SIZE in *.
    destruct (align8_ok (4096 `max` (need + 16))) as [? ?]; [lia|]. split; [|done].
    assert (align8 (4096 `max` (need + 16)) < 2147483648); [|lia].
    rewrite align8_eq by lia. dlia. }
  assert (malloc_body need s =
    let '(fresh, s1) := grow_heap s g in
    if fresh =? 0 then Some (inr (0, s1))
    else s3 ← list_insert (upd s1 fresh (set_size (g - HDR_SIZE))) fresh; Some (inl s3)) as ->.
  { unfold malloc_body. rewrite <- (app_nil_r (frees base ts)) in Hc.
    erewrite find_fit_ok; [|exact Hc|eapply rep_small with (post := []); [done| |done]|done|lia].
    2:{ by rewrite app_nil_r. }
    cbn. unfold g, grow_size, GROW_MIN, HDR_SIZE in *.
    rewrite (u32_small (need + 16)) by (unfold is_u32; lia).
    replace (if need + 16 <? 4096 then 4096 else need + 16) with (4096 `max` (need + 16))
      by (destruct (Z.ltb_spec (need + 16) 4096); lia).
    rewrite (u32_small (align8 _ - 16)) by (unfold is_u32; lia). done. }
  unfold grow_heap. rewrite !i32_small by (unfold is_i32; lia).
  destruct (sbrk (kern s) g) as [old k'] eqn:Ek.
  destruct (sbrk_law (kern s) g old k') as [(-> & Hk1 & Hk2)|(Hold & ->)]; [lia|lia|done| |].
  - zb_simpl. destruct (grow_rep base s ts g k' Hr Hg Hg8 Ek) as (s' & Hs' & ?).
    rewrite Hs'. cbn. eauto.
  - zb_simpl. cbn. by destruct s.
Qed.

(** ** [malloc] *)

(** What a request for [sz] bytes needs, and the abstract allocation: first
    fit, else one fresh tile at the end when the kernel has room. *)
Definition need_of (sz : Z) : Z := align8 (if sz =? 0 then 1 else sz).

Definition has_room (s : heap K) (sz : Z) : bool := 0 <=? fst (sbrk (kern s) (grow_size (need_of sz))).

Definition alloc_tiles (base need : Z) (room : bool) (ts : list tile) : option (Z * list tile) :=
  match first_fit need ts with
  | Some (pre, z, post) => Some (tend base pre + HDR_SIZE, take_tile need pre z post)
  | None =>
      if room then Some (tend base ts + HDR_SIZE, take_tile need ts (grow_size need - HDR_SIZE) [])
      else None
  end.

Definition MAX_REQUEST : Z := 2147483592.

Lemma need_of_ok sz : 0 ≤ sz ≤ MAX_REQUEST →
  0 < need_of sz ≤ 2147483600 ∧ sz ≤ need_of sz ∧ need_of sz `mod` 8 = 0.
Proof.
  unfold need_of, MAX_REQUEST. intros Hs. destruct (Z.eqb_spec sz 0) as [->|].
  - rewrite align8_eq by lia. done.
  - destruct (align8_ok sz) as [? ?]; [lia|]. split; [|lia].
    rewrite align8_eq in * by lia. dlia.
Qed.

Lemma first_fit_app_None need ts z :
  first_fit need ts = None → need ≤ z → first_fit need (ts ++ [(z, false)]) = Some (ts, z, []).
Proof.
  induction ts as [|[y u] ts IH]; simpl.
  - intros _ ?. by zb_true (need <=? z).
  - destruct (negb u && (need <=? y)); [done|]. intros Hn Hz.
    destruct (first_fit need ts) as [[[]]|] eqn:E; [done|]. by rewrite IH.
Qed.

Lemma grow_size_ok need : 0 < need ≤ 2147483600 →
  need ≤ grow_size need - HDR_SIZE ∧ 0 < grow_size need < 2147483648.
Proof. intros Hn. unfold grow_size, GROW_MIN, HDR_SIZE. rewrite align8_eq by lia. dlia. Qed.

Lemma sbrk_room base (s : heap K) ts g old k' :
  rep base s ts → 0 < g < 2147483648 → sbrk (kern s) g = (old, k') → 0 ≤ old → brk k' = brk (kern s) + g.
Proof.
  intros Hr Hg Hk Hold. pose proof (rep_brk _ _ _ Hr). pose proof (rep_base _ _ _ Hr).
  pose proof (tend_le base ts (rep_tiles _ _ _ Hr)).
  destruct (sbrk_law (kern s) g old k') as [?|?]; lia || done.
Qed.

Lemma malloc_rep base (s : heap K) ts sz :
  rep base s ts → 0 ≤ sz ≤ MAX_REQUEST →
  match alloc_tiles base (need_of sz) (has_room s sz) ts with
  | Some (p, ts') => ∃ s', malloc s sz = Some (p, s') ∧ rep base s' ts' ∧
      (∀ a, a < brk (kern s) → ram s' !! a = ram s !! a)
  | None => malloc s sz = Some (0, s)
  end.
Proof.
  intros Hr Hs. destruct (need_of_ok sz Hs) as (Hn & Hsn & Hn8). destruct (rep_brk _ _ _ Hr) as [Ht _].
  unfold malloc, alloc_tiles, has_room. cbv zeta. fold (need_of sz). set (need := need_of sz) in *.
  destruct (first_fit need ts) as [[[pre z] post]|] eqn:Ef.
  { destruct (malloc_body_fit base s ts need pre z post Hr ltac:(lia) Hn8 Ef)
      as (s' & Hm & Hr' & Hram & Hk).
    exists s'. rewrite (loop_exit1 _ _ _ _ Hm). cbn [mbind option_bind]. by rewrite Hram. }
  pose proof (malloc_body_grow base s ts need Hr Hn Hn8 Ef) as Hg. cbv zeta in Hg.
  destruct (sbrk (kern s) (grow_size need)) as [old k'] eqn:Ek. cbn [fst].
  destruct (0 <=? old) eqn:Eo; [|rewrite (loop_exit1 _ _ _ _ Hg); done].
  destruct Hg as (s1 & Hm1 & Hr1 & Hram1 & Hk1).
  destruct (grow_size_ok need Hn) as [Hfit Hg32].
  destruct (malloc_body_fit base s1 (ts ++ [(grow_size need - HDR_SIZE, false)]) need ts
              (grow_size need - HDR_SIZE) [] Hr1) as (s2 & Hm2 & Hr2 & Hram2 & Hk2);
    [lia|done|by apply first_fit_app_None|].
  exists s2. rewrite (loop_exit2 _ MALLOC_ROUNDS _ _ _ ltac:(unfold MALLOC_ROUNDS; lia) Hm1 Hm2).
  split_and!; [done|done|]. intros a Ha. rewrite Hram2, Hram1. by rewrite lookup_write_out by lia.
Qed.

(** ** [free] *)

Lemma insert_rep base (s : heap K) pre sz post :
  rep base s (pre ++ (sz, true) :: post) →
  ∃ s', list_insert s (tend base pre) = Some s' ∧ rep base s' (pre ++ (sz, false) :: post) ∧
    ram s' = ram s ∧ kern s' = kern s.
Proof.
  intros Hr. pose proof (tiles_bounds base s pre [(sz, true)] post Hr) as (Hb & HA & HB & H1 & H2 & H3).
  rewrite Forall_singleton in H2. destruct H2 as [Hz Hm]. simpl in *.
  destruct (rep_info_at _ _ _ _ _ _ Hr) as (b & Eb & Hs & Hg).
  pose proof (rep_links _ _ _ Hr) as Hc. pose proof (frees_NoDup base _ (rep_tiles _ _ _ Hr)) as Hnd.
  rewrite frees_app in Hc, Hnd. cbn [frees app] in Hc, Hnd.
  destruct (list_insert_ok s _ _ (tend base pre) Hc Hnd) as (s' & Hs' & Hc' & Hinf & HiA & Hram & Hk).
  - apply Forall_forall. intros a Ha%frees_bounds; [lia|done].
  - apply Forall_forall. intros a Ha%frees_bounds; [unfold HDR_SIZE in *; lia|done].
  - lia.
  - exists s'. split_and!; [done| |done|done]. rewrite Eb in HiA. simpl in HiA. rewrite Hs in HiA.
    eapply (rep_replace base s _ pre [(sz, true)] [(sz, false)] post Hr); simpl; unfold HDR_SIZE in *;
      [done|by constructor| | | |done|done|done].
    + intros a Ha. apply Hinf. lia.
    + intros a z u [= -> -> ->]%list_elem_of_singleton. done.
    + intros a z m Ha Hin. destruct (decide (a = tend base pre)) as [->|HaA].
      { rewrite HiA in Ha. simplify_eq. exists false. set_solver. }
      rewrite Hinf in Ha by done. exfalso.
      pose proof (rep_hdr_mid base s pre [(sz, true)] post a z m Hr Ha Hin). set_solver.
Qed.

(** The last free block before a tile ends there only when it is the
    neighbour. *)
Lemma lastp_frees_apart base (s : heap K) pre t post :
  rep base s (pre ++ t :: post) → last_used pre → lastp (frees base pre) ≠ 0 →
  ∃ b, hdr s !! lastp (frees base pre) = Some b ∧
    lastp (frees base pre) + HDR_SIZE + b_size b < tend base pre.
Proof.
  intros Hr Hu Hne.
  assert (lastp (frees base pre) ∈ frees base pre) as Hin.
  { unfold lastp in *. destruct (last (frees base pre)) as [a|] eqn:E; [|done].
    apply last_Some in E as [l ->]. set_solver. }
  apply frees_cells in Hin as (z & Hin). apply cells_split in Hin as (p1 & p2 & -> & Heq).
  rewrite Heq. rewrite <- app_assoc in Hr. cbn [app] in Hr.
  destruct (rep_info_at _ _ _ _ _ _ Hr) as (b & Eb & Hs & _). exists b. split; [done|].
  rewrite Hs, tend_app. cbn [tend].
  destruct p2 as [|[z2 u2] p2].
  { unfold last_used in Hu. rewrite last_snoc in Hu. done. }
  pose proof (rep_tiles _ _ _ Hr) as Hok. rewrite !Forall_app, Forall_cons, Forall_app, Forall_cons in Hok.
  destruct Hok as (_ & _ & ([Hz2 _] & Hp2) & _). cbn [tend].
  pose proof (tend_le (tend base p1 + HDR_SIZE + z + HDR_SIZE + z2) p2 Hp2).
  simpl in Hz2. unfold HDR_SIZE in *. lia.
Qed.

Lemma merge_forward_touch (s : heap K) A p :
  hdr s !! A = Some p → b_next p = A + HDR_SIZE + b_size p → b_next p ≠ 0 →
  merge_forward s A =
  (n ← hdr s !! b_next p;
   Some (forget (upd (upd s A (set_size (u32 (b_size p + (HDR_SIZE + b_size n))))) A (set_next (b_next n)))
           (b_next p))).
Proof.
  intros Ep Hn H0. unfold merge_forward. rewrite Ep. cbn [mbind option_bind].
  rewrite (proj2 (Z.eqb_neq (b_next p) 0)) by done. by rewrite <- Hn, Z.eqb_refl.
Qed.

Lemma free_steps base (s : heap K) pre sz post s1 :
  rep base s (pre ++ (sz, true) :: post) →
  list_insert s (tend base pre) = Some s1 → rep base s1 (pre ++ (sz, false) :: post) →
  free s (tend base pre + HDR_SIZE) =
  match last pre with
  | Some (_, false) =>
      t ← merge_forward s1 (lastp (frees base pre)); merge_forward t (lastp (frees base pre))
  | _ => merge_forward s1 (tend base pre)
  end.
Proof.
  intros Hr Hs1 Hr1.
  pose proof (tiles_bounds base s pre [(sz, true)] post Hr) as (Hb & HA & HB & H1 & H2 & H3).
  destruct (rep_info_at _ _ _ _ _ _ Hr) as (b & Eb & Hs & Hg).
  pose proof (rep_links _ _ _ Hr1) as Hc. pose proof (rep_fuel _ _ _ Hr1) as Hfu.
  rewrite frees_app in Hc, Hfu. cbn [frees app] in Hc, Hfu. rewrite length_app in Hfu.
  unfold free. rewrite (proj2 (Z.eqb_neq (tend base pre + HDR_SIZE) 0)) by (unfold HDR_SIZE; lia).
  replace (tend base pre + HDR_SIZE - HDR_SIZE) with (tend base pre) by lia.
  rewrite Eb. cbn [mbind option_bind]. rewrite Hg, Hs1. change (negb _) with false. cbn iota.
  cbn [mbind option_bind]. erewrite free_walk_ok; [|exact Hc| |lia].
  2:{ apply Forall_forall. intros a Ha%frees_bounds; [lia|done]. }
  cbn [mbind option_bind]. fold (lastp (frees base pre)).
  destruct (decide (last_used pre)) as [Hu|Hu].
  - destruct (Z.eqb_spec (lastp (frees base pre)) 0) as [E0|E0]; cbn [mbind option_bind].
    + unfold last_used in Hu. by destruct (last pre) as [[? []]|].
    + destruct (lastp_frees_apart _ _ _ _ _ Hr1 Hu E0) as (p & Ep & Hlt). rewrite Ep.
      cbn [mbind option_bind]. rewrite (proj2 (Z.eqb_neq _ _)) by lia. cbn [mbind option_bind].
      unfold last_used in Hu. by destruct (last pre) as [[? []]|].
  - destruct pre as [|[z0 u0] pre0 _] using rev_ind; [done|]. unfold last_used in Hu.
    rewrite last_snoc in Hu |- *. destruct u0; [done|]. rewrite frees_app in *. cbn [frees app] in *.
    rewrite lastp_snoc in *. rewrite <- app_assoc in Hr1. cbn [app] in Hr1.
    rewrite tend_app in *. cbn [tend] in *.
    destruct (rep_info_at _ _ _ _ _ _ Hr1) as (p & Ep & Hsp & _).
    pose proof (tiles_bounds base s1 pre0 [(z0, false)] ((sz, false) :: post) Hr1) as (Hb1 & _).
    rewrite Ep. zb_false (tend base pre0 =? 0). cbn [mbind option_bind].
    rewrite Hsp, Z.eqb_refl. cbn [mbind option_bind].
    destruct (rep_chain_split _ _ _ _ _ Hr1) as [[_ Hnx] _]. unfold nx in Hnx. rewrite Ep in Hnx.
    cbn in Hnx. simplify_eq.
    rewrite (merge_forward_touch s1 _ p Ep) by (unfold HDR_SIZE in *; lia). rewrite Hnx.
    by destruct (hdr s1 !! (tend base pre0 + HDR_SIZE + b_size p)).
Qed.

(** [free] on a block the program holds: the tile is given back, merged with
    its free neighbours. *)
Lemma free_rep base (s : heap K) pre sz post :
  rep base s (pre ++ (sz, true) :: post) →
  ∃ s', free s (tend base pre + HDR_SIZE) = Some s' ∧ rep base s' (give_tile pre sz post) ∧
    ram s' = ram s ∧ kern s' = kern s.
Proof.
  intros Hr. destruct (insert_rep _ _ _ _ _ Hr) as (s1 & Hs1 & Hr1 & Hram1 & Hk1).
  rewrite (free_steps _ _ _ _ _ _ Hr Hs1 Hr1). unfold give_tile. rewrite <- Hram1, <- Hk1.
  destruct pre as [|[z0 u0] pre _] using rev_ind; [by apply merge_forward_rep|].
  rewrite last_snoc, reverse_snoc. destruct u0; [by apply merge_forward_rep|].
  rewrite reverse_involutive, frees_app. cbn [frees app]. rewrite lastp_snoc.
  rewrite <- app_assoc in Hr1. cbn [app] in Hr1.
  destruct (merge_forward_join _ _ _ _ _ _ Hr1) as (t & -> & Hrt & Hramt & Hkt).
  cbn [mbind option_bind]. rewrite <- Hramt, <- Hkt. by apply merge_forward_rep.
Qed.

(** ** What the program sees *)

Lemma live_NoDup b ts : Forall tile_ok ts → NoDup (live b ts).
Proof.
  intros Hok. revert b. induction Hok as [|[sz u] ts [? _] Hok IH]; intros b; simpl in *.
  { constructor. }
  destruct u; [|apply IH]. constructor; [|apply IH].
  intros Hin%live_cells. apply cells_bounds in Hin; [|done]. unfold HDR_SIZE in *. lia.
Qed.

(** A block the program holds: aligned, inside the heap, its bytes mapped, and
    away from every other block. *)
Lemma live_block base (s : heap K) ts a n :
  rep base s ts → (a, n) ∈ live base ts →
  a `mod` 8 = 0 ∧ base ≤ a ∧ 0 < n ∧ a + HDR_SIZE + n ≤ brk (kern s) ∧
  mapped (ram s) (a + HDR_SIZE) n ∧ info s a = Some (n, BLK_USED).
Proof.
  intros Hr Hin%live_cells. pose proof (cells_bounds _ _ _ _ _ (rep_tiles _ _ _ Hr) Hin) as Hbd.
  destruct (rep_brk _ _ _ Hr) as [Ht _]. rewrite Ht in Hbd. split_and!; try lia.
  - apply cells_split in Hin as (pre & post & -> & ->). apply tend_mod; [apply (rep_base _ _ _ Hr)|].
    pose proof (rep_tiles _ _ _ Hr) as Hok. rewrite Forall_app in Hok. apply Hok.
  - eapply mapped_weaken; [apply (rep_ram _ _ _ Hr)|unfold HDR_SIZE in *; lia|lia].
  - by apply (rep_info _ _ _ Hr a n true).
Qed.

Lemma live_disjoint base (s : heap K) ts p n l :
  rep base s ts → live base ts ≡ₚ (p, n) :: l →
  ∀ a z, (a, z) ∈ l → disjoint p (HDR_SIZE + n) a (HDR_SIZE + z).
Proof.
  intros Hr Hp a z Hin. pose proof (live_NoDup base ts (rep_tiles _ _ _ Hr)) as Hnd.
  rewrite Hp in Hnd. apply NoDup_cons in Hnd as [Hnin _].
  destruct (cells_disjoint base ts p n true a z true) as [Heq|?]; [apply Hr| | | |done].
  - apply live_cells. rewrite Hp. set_solver.
  - apply live_cells. rewrite Hp. set_solver.
  - simplify_eq. done.
Qed.

Lemma malloc_good base (s : heap K) ts sz :
  rep base s ts → coalesced ts → 0 ≤ sz ≤ MAX_REQUEST →
  (malloc s sz = Some (0, s) ∧ first_fit (need_of sz) ts = None ∧ has_room s sz = false) ∨
  ∃ p s' n ts', malloc s sz = Some (p, s') ∧ rep base s' ts' ∧ coalesced ts' ∧ sz ≤ n ∧
    live base ts' ≡ₚ (p - HDR_SIZE, n) :: live base ts ∧
    (∀ a, a < brk (kern s) → ram s' !! a = ram s !! a).
Proof.
  intros Hr Hco Hs. pose proof (malloc_rep base s ts sz Hr Hs) as Hm.
  destruct (need_of_ok sz Hs) as (Hn & Hsn & Hn8). unfold alloc_tiles in Hm.
  destruct (first_fit (need_of sz) ts) as [[[pre z] post]|] eqn:Ef.
  - apply first_fit_Some in Ef as (-> & Hz & _). destruct Hm as (s' & Hm & Hr' & Hram).
    destruct (live_take base (need_of sz) pre z post Hz) as (n & Hnn & Hl).
    right. exists (tend base pre + HDR_SIZE), s', n, (take_tile (need_of sz) pre z post).
    rewrite coalesced_app, coalesced_cons in Hco. destruct Hco as (? & (? & _) & _).
    split_and!; [done|done|by apply coalesced_take|lia| |done].
    rewrite Hl. do 2 f_equiv. unfold HDR_SIZE. lia.
  - destruct (has_room s sz); [|by left]. destruct Hm as (s' & Hm & Hr' & Hram).
    destruct (grow_size_ok _ Hn) as [Hg _].
    destruct (live_take base (need_of sz) ts (grow_size (need_of sz) - HDR_SIZE) [] Hg) as (n & Hnn & Hl).
    right. eexists _, s', n, _. split_and!; [done|done|by apply coalesced_take|lia| |done].
    rewrite Hl, live_app. cbn [live app]. rewrite app_nil_r. do 2 f_equiv. unfold HDR_SIZE. lia.
Qed.

Lemma free_good base (s : heap K) ts a n :
  rep base s ts → coalesced ts → (a, n) ∈ live base ts →
  ∃ s' ts', free s (a + HDR_SIZE) = Some s' ∧ rep base s' ts' ∧ coalesced ts' ∧
    live base ts ≡ₚ (a, n) :: live base ts' ∧ ram s' = ram s ∧ kern s' = kern s.
Proof.
  intros Hr Hco Hin%live_cells. apply cells_split in Hin as (pre & post & -> & ->).
  destruct (free_rep _ _ _ _ _ Hr) as (s' & Hf & Hr' & Hram & Hk).
  exists s', (give_tile pre n post). split_and!; try done.
  - by apply coalesced_give.
  - apply live_give.
Qed.

(** Memory the program may read while it allocates: inside a block it holds, or
    below the heap (static data). *)
Definition owned (base : Z) (ts : list tile) (p n : Z) : Prop :=
  (∃ a z, (a, z) ∈ live base ts ∧ a + HDR_SIZE ≤ p ∧ p + n ≤ a + HDR_SIZE + z) ∨ p + n ≤ base.

(** A block allocated now is away from memory that was owned before. *)
Lemma owned_apart base (s s' : heap K) ts ts' q n p len :
  rep base s ts → rep base s' ts' → live base ts' ≡ₚ (q - HDR_SIZE, n) :: live base ts →
  owned base ts p len → 0 ≤ len → disjoint q n p len ∧ p + len ≤ brk (kern s).
Proof.
  intros Hr Hr' Hl Hown Hlen. destruct (rep_brk _ _ _ Hr) as [Ht _].
  pose proof (tend_le base ts (rep_tiles _ _ _ Hr)). unfold disjoint.
  destruct (live_block base s' ts' (q - HDR_SIZE) n Hr') as (_ & Hqlo & _ & _ & _ & _).
  { rewrite Hl. set_solver. }
  destruct Hown as [(a & z & Hin & ? & ?)|?]; [|unfold HDR_SIZE in *; lia].
  pose proof (live_disjoint _ _ _ _ _ _ Hr' Hl a z Hin).
  destruct (live_block _ _ _ _ _ Hr Hin) as (_ & _ & _ & ? & _).
  unfold disjoint, HDR_SIZE in *. lia.
Qed.

Lemma rep_with_ram base (s : heap K) ts p bs :
  rep base s ts → rep base (with_ram s (write (ram s) p bs)) ts.
Proof. intros [? ? ? ? ? ? ?]. split; try done. by apply mapped_write. Qed.

(** ** The claims *)

(** [C1] Refinement: on every represented heap [malloc] does exactly the
    abstract allocation (the first free tile that fits, split when the rest can
    hold a block and the rest merged with its free neighbour; else one fresh
    tile at the break; else NULL and an unchanged heap), and [free] of a block
    gives its tile back merged with both free neighbours. *)
Theorem heap_refines base (s : heap K) ts :
  rep base s ts →
  (∀ sz, 0 ≤ sz ≤ MAX_REQUEST →
    match alloc_tiles base (need_of sz) (has_room s sz) ts with
    | Some (p, ts') => ∃ s', malloc s sz = Some (p, s') ∧ rep base s' ts'
    | None => malloc s sz = Some (0, s)
    end) ∧
  (∀ pre n post, ts = pre ++ (n, true) :: post →
    ∃ s', free s (tend base pre + HDR_SIZE) = Some s' ∧ rep base s' (give_tile pre n post)).
Proof.
  intros Hr. split.
  - intros sz Hs. pose proof (malloc_rep base s ts sz Hr Hs) as Hm.
    destruct (alloc_tiles _ _ _ _) as [[p ts']|]; naive_solver.
  - intros pre n post ->. destruct (free_rep _ _ _ _ _ Hr) as (s' & ? & ? & _). eauto.
Qed.

(** [C2] What a caller of [malloc] gets: the call returns; NULL only when no free
    block fits and the kernel refuses to grow the heap, with nothing changed;
    otherwise an 8-aligned block of at least the size asked for, inside the
    heap, away from every block already handed out (headers included), with
    the contents of the existing heap untouched and exactly this block added. *)
Theorem malloc_block base (s : heap K) ts sz :
  rep base s ts → coalesced ts → 0 ≤ sz ≤ MAX_REQUEST →
  ∃ p s', malloc s sz = Some (p, s') ∧
    ((p = 0 ∧ s' = s ∧ first_fit (need_of sz) ts = None ∧ has_room s sz = false) ∨
     ∃ n ts', sz ≤ n ∧ p `mod` 8 = 0 ∧ base + HDR_SIZE ≤ p ∧ p + n ≤ brk (kern s') ∧
       mapped (ram s') p n ∧
       (∀ a z, (a, z) ∈ live base ts → disjoint (p - HDR_SIZE) (HDR_SIZE + n) a (HDR_SIZE + z)) ∧
       rep base s' ts' ∧ coalesced ts' ∧ live base ts' ≡ₚ (p - HDR_SIZE, n) :: live base ts ∧
       (∀ a, a < brk (kern s) → ram s' !! a = ram s !! a)).
Proof.
  intros Hr Hco Hs. destruct (malloc_good base s ts sz Hr Hco Hs)
    as [(Hm & ? & ?)|(p & s' & n & ts' & Hm & Hr' & Hco' & Hsz & Hl & Hram)].
  - exists 0, s. auto 10.
  - exists p, s'. split; [done|]. right. exists n, ts'.
    destruct (live_block base s' ts' (p - HDR_SIZE) n Hr') as (H8 & Hlo & Hpos & Hhi & Hmap & _).
    { rewrite Hl. set_solver. }
    replace (p - HDR_SIZE + HDR_SIZE) with p in * by lia. unfold HDR_SIZE in *.
    split_and!; try done; [dlia|lia|]. by eapply live_disjoint.
Qed.

(** The headers that stand never meet a payload: what the program writes into
    its blocks leaves them as they are, so keeping them apart from [ram] loses
    nothing. *)
Theorem headers_apart base (s : heap K) ts a b c n :
  rep base s ts → hdr s !! a = Some b → (c, n) ∈ live base ts →
  disjoint a HDR_SIZE (c + HDR_SIZE) n.
Proof.
  intros Hr Eb Hin%live_cells.
  destruct (rep_hdr _ _ _ Hr a (b_size b) (b_magic b)) as [u Ha]; [unfold info; by rewrite Eb|].
  pose proof (rep_tiles _ _ _ Hr) as Hok.
  pose proof (cells_bounds _ _ _ _ _ Hok Ha). pose proof (cells_bounds _ _ _ _ _ Hok Hin).
  destruct (cells_disjoint _ _ _ _ _ _ _ _ Hok Ha Hin) as [?|?]; simplify_eq;
    unfold disjoint, HDR_SIZE in *; lia.
Qed.

(** An address strictly inside a tile holds no header. *)
Lemma no_header_inside base (s : heap K) ts a sz u c :
  rep base s ts → (a, sz, u) ∈ cells base ts → a < c < a + HDR_SIZE + sz → hdr s !! c = None.
Proof.
  intros Hr Hin Hc. destruct (hdr s !! c) as [b|] eqn:Eb; [|done]. exfalso.
  destruct (rep_hdr _ _ _ Hr c (b_size b) (b_magic b)) as [v Hv]; [unfold info; by rewrite Eb|].
  pose proof (rep_tiles _ _ _ Hr) as Hok. pose proof (cells_bounds _ _ _ _ _ Hok Hv).
  destruct (cells_disjoint _ _ _ _ _ _ _ _ Hok Hin Hv) as [?|?]; simplify_eq;
    unfold disjoint, HDR_SIZE in *; lia.
Qed.

(** A second [free] of the same pointer: nothing happens when the block before
    is in use, since the header still stands and says the block is free; when
    the block was merged into the one before, its header is gone and the call
    reads bytes that are payload of the joined block by now. *)
Theorem double_free base (s s' : heap K) pre n post :
  rep base s (pre ++ (n, true) :: post) →
  free s (tend base pre + HDR_SIZE) = Some s' →
  free s' (tend base pre + HDR_SIZE) = if bool_decide (last_used pre) then Some s' else None.
Proof.
  intros Hr Hf. destruct (free_rep _ _ _ _ _ Hr) as (s2 & Hf2 & Hr2 & _). simplify_eq.
  destruct (tiles_bounds base s pre [(n, true)] post Hr) as (Hb & _ & _ & H1 & H2 & H3).
  rewrite Forall_singleton in H2. destruct H2 as [Hn _]. simpl in Hn.
  unfold free. rewrite (proj2 (Z.eqb_neq _ _)) by (unfold HDR_SIZE; lia).
  replace (tend base pre + HDR_SIZE - HDR_SIZE) with (tend base pre) by lia.
  unfold give_tile in Hr2. case_bool_decide as Hu.
  - assert (∃ z post', fuse n post = (z, false) :: post') as (z & post' & Ez).
    { destruct post as [|[? []] ?]; simpl; eauto. }
    assert (rep base s' (pre ++ (z, false) :: post')) as Hr3.
    { rewrite <- Ez. destruct pre as [|[z0 u0] pre _] using rev_ind; [done|].
      rewrite reverse_snoc in Hr2. unfold last_used in Hu. rewrite last_snoc in Hu. by destruct u0. }
    destruct (rep_info_at _ _ _ _ _ _ Hr3) as (b & -> & _ & Hg). cbn [mbind option_bind].
    by rewrite Hg.
  - destruct pre as [|[z0 u0] pre _] using rev_ind; [by destruct Hu|].
    unfold last_used in Hu. rewrite last_snoc in Hu. destruct u0; [by destruct Hu|].
    rewrite reverse_snoc, reverse_involutive in Hr2.
    assert (∃ z post', fuse (z0 + (HDR_SIZE + n)) post = (z, false) :: post' ∧ z0 + (HDR_SIZE + n) ≤ z)
      as (z & post' & Ez & Hz).
    { destruct post as [|[z' []] ?]; simpl; eexists _, _; (split; [done|]); [lia|lia|].
      apply Forall_cons in H3 as [[? _] _]. simpl in *. unfold HDR_SIZE. lia. }
    rewrite Ez in Hr2. rewrite tend_app. cbn [tend].
    apply Forall_app in H1 as [_ [[Hz0 _] _]%Forall_cons]. simpl in Hz0.
    rewrite (no_header_inside base s' _ (tend base pre) z false _ Hr2); [done| |].
    + rewrite cells_app, elem_of_app. right. apply list_elem_of_here.
    + unfold HDR_SIZE in *. lia.
Qed.

(** *** The heap over the life of a program *)

Definition heap_init (k : K) : heap K := Heap ∅ 0 ∅ k.

(** What a program can do to its heap: ask for a block, hand a pointer back (a
    live one, NULL, or one it already freed whose header still stands: [free]
    of a pointer whose header a merge has absorbed returns no state here), write
    into a block it holds. *)
Inductive reach (s0 : heap K) : heap K → Prop :=
  | reach_init : reach s0 s0
  | reach_malloc s sz p s' :
      reach s0 s → 0 ≤ sz ≤ MAX_REQUEST → malloc s sz = Some (p, s') → reach s0 s'
  | reach_free s p s' : reach s0 s → free s p = Some s' → reach s0 s'
  | reach_write s a n bs i :
      reach s0 s → info s a = Some (n, BLK_USED) → 0 ≤ i → i + Z.of_nat (length bs) ≤ n →
      reach s0 (with_ram s (write (ram s) (a + HDR_SIZE + i) bs)).

Lemma heap_init_rep k :
  0 < brk k ≤ sbrk_limit → brk k `mod` 8 = 0 → rep (brk k) (heap_init k) [].
Proof.
  intros Hb H8. split; simpl; [lia|done|lia|by intros a sz u ?%elem_of_nil|done| |].
  - done.
  - intros a Ha. lia.
Qed.

(** [free] of any pointer with a readable header keeps the heap well formed. *)
Lemma free_any base (s s' : heap K) ts p :
  rep base s ts → coalesced ts → free s p = Some s' → ∃ ts', rep base s' ts' ∧ coalesced ts'.
Proof.
  intros Hr Hco Hf. pose proof Hf as Hf0. unfold free in Hf.
  destruct (p =? 0); [simplify_eq; eauto|]. apply bind_Some in Hf as (b & Eb & Hf).
  destruct (Z.eqb_spec (b_magic b) BLK_USED) as [E|]; simpl in Hf; [|simplify_eq; eauto].
  assert ((p - HDR_SIZE, b_size b) ∈ live base ts) as Hin.
  { apply live_cells, (rep_magic _ _ _ _ _ Hr). unfold info. rewrite Eb. cbn. by rewrite E. }
  destruct (free_good _ _ _ _ _ Hr Hco Hin) as (s2 & ts' & Hf2 & ? & ? & _).
  replace (p - HDR_SIZE + HDR_SIZE) with p in Hf2 by lia. rewrite Hf2 in Hf0. simplify_eq. eauto.
Qed.

(** [C3] Over any sequence of allocations, frees (of NULL, of held blocks, and
    again of a block already freed as long as no merge has absorbed its header)
    and writes into held blocks, the heap stays a gapless run of tiles with no two
    free neighbours; so once the program holds nothing, the whole arena is one
    free block again. *)
Theorem heap_invariant k (s : heap K) :
  0 < brk k ≤ sbrk_limit → brk k `mod` 8 = 0 → reach (heap_init k) s →
  ∃ ts, rep (brk k) s ts ∧ coalesced ts ∧
    (live (brk k) ts = [] → ts = [] ∨ ts = [(brk (kern s) - brk k - HDR_SIZE, false)]).
Proof.
  intros Hb H8 Hreach.
  assert (∃ ts, rep (brk k) s ts ∧ coalesced ts) as (ts & Hr & Hco).
  { induction Hreach as [|s sz p s' _ (ts & Hr & Hco) Hs Hm|s p s' _ (ts & Hr & Hco) Hf
                        |s a n bs i _ (ts & Hr & Hco) _ _ _].
    - exists []. split; [by apply heap_init_rep|done].
    - destruct (malloc_good _ _ _ _ Hr Hco Hs) as [(Hm' & _)|(? & ? & ? & ? & Hm' & ? & ? & _)];
        rewrite Hm' in Hm; simplify_eq; eauto.
    - by eapply free_any.
    - exists ts. split; [by apply rep_with_ram|done]. }
  exists ts. split_and!; [done|done|]. intros Hl.
  destruct (coalesced_all_free _ _ Hco Hl) as [->|[sz ->]]; [by left|right].
  destruct (rep_brk _ _ _ Hr) as [Ht _]. simpl in Ht. rewrite <- Ht. do 2 f_equal. lia.
Qed.

(** *** [calloc] and [realloc] *)

(** [calloc] refuses exactly the products that do not fit 32 bits, and
    otherwise behaves as [malloc] of the product with the block zeroed and no
    other byte of the heap changed. *)
Theorem calloc_zeroed base (s : heap K) ts count sz :
  rep base s ts → coalesced ts → is_u32 count → is_u32 sz →
  (4294967296 ≤ count * sz → calloc s count sz = Some (0, s)) ∧
  (count * sz ≤ MAX_REQUEST →
   calloc s count sz = Some (0, s) ∨
   ∃ p s' n ts', calloc s count sz = Some (p, s') ∧ p ≠ 0 ∧ count * sz ≤ n ∧
     rep base s' ts' ∧ coalesced ts' ∧ live base ts' ≡ₚ (p - HDR_SIZE, n) :: live base ts ∧
     seg (ram s') p (replicate (Z.to_nat (count * sz)) 0) ∧
     (∀ a, a < brk (kern s) → ¬ (p ≤ a < p + count * sz) → ram s' !! a = ram s !! a)).
Proof.
  intros Hr Hco Hc Hs. unfold calloc, is_u32, MAX_REQUEST in *.
  assert (negb (count =? 0) && (4294967295 `div` count <? sz) = bool_decide (4294967296 ≤ count * sz)) as ->.
  { destruct (Z.eqb_spec count 0) as [->|]; simpl.
    { done. }
    destruct (Z.ltb_spec (4294967295 `div` count) sz); symmetry.
    - apply bool_decide_eq_true_2.
      pose proof (Z.mul_succ_div_gt 4294967295 count). nia.
    - apply bool_decide_eq_false_2. pose proof (Z.mul_div_le 4294967295 count). nia. }
  split; intros Hb; [by rewrite bool_decide_eq_true_2|]. rewrite bool_decide_eq_false_2 by lia.
  rewrite u32_small by (unfold is_u32; nia).
  destruct (malloc_good base s ts (count * sz) Hr Hco) as [(-> & _)|(p & s' & n & ts' & -> & Hr' & Hco' & Hsz & Hl & Hram)].
  { unfold MAX_REQUEST. nia. }
  { by left. }
  right. destruct (live_block base s' ts' (p - HDR_SIZE) n Hr') as (H8 & Hlo & Hpos & Hhi & Hmap & _).
  { rewrite Hl. set_solver. }
  replace (p - HDR_SIZE + HDR_SIZE) with p in Hmap by lia.
  pose proof (rep_base _ _ _ Hr). cbn [mbind option_bind].
  rewrite (proj2 (Z.eqb_neq p 0)) by (unfold HDR_SIZE in *; lia). cbn [negb].
  rewrite memset_ok; [|nia|eapply mapped_weaken; [done|lia|lia]]. cbn [mbind option_bind].
  eexists p, _, n, ts'. split_and!; [done|unfold HDR_SIZE in *; lia|done|by apply rep_with_ram|done|done| |].
  - apply seg_write.
  - intros a Ha Hout. cbn [ram with_ram]. rewrite lookup_write_out; [by apply Hram|].
    rewrite length_replicate. nia.
Qed.

(** The block grows in place when its payload already covers the request. *)
Lemma realloc_in_place (s : heap K) a n sz :
  0 < a → 0 < sz ≤ MAX_REQUEST → info s a = Some (n, BLK_USED) → align8 sz ≤ n →
  realloc s (a + HDR_SIZE) sz = Some (a + HDR_SIZE, s).
Proof.
  intros Ha Hs Hi Hle. unfold realloc. rewrite (proj2 (Z.eqb_neq _ 0)) by (unfold HDR_SIZE; lia).
  zb_false (sz =? 0). replace (a + HDR_SIZE - HDR_SIZE) with a by lia. unfold info in Hi.
  destruct (hdr s !! a) as [b|]; [|done]. injection Hi as <- Hm.
  cbn [mbind option_bind]. rewrite Hm. zb_true (align8 sz <=? b_size b). reflexivity.
Qed.

Lemma realloc_moves (s : heap K) a n sz :
  0 < a → 0 < sz ≤ MAX_REQUEST → info s a = Some (n, BLK_USED) → n < align8 sz →
  realloc s (a + HDR_SIZE) sz =
  ('(fresh, s1) ← malloc s sz;
   if fresh =? 0 then Some (0, s1)
   else
     b1 ← hdr s1 !! a;
     '(_, m) ← memcpy (ram s1) fresh (a + HDR_SIZE) (if b_size b1 <? sz then b_size b1 else sz);
     s2 ← free (with_ram s1 m) (a + HDR_SIZE);
     Some (fresh, s2)).
Proof.
  intros Ha Hs Hi Hlt. unfold realloc. rewrite (proj2 (Z.eqb_neq _ 0)) by (unfold HDR_SIZE; lia).
  zb_false (sz =? 0). replace (a + HDR_SIZE - HDR_SIZE) with a by lia. unfold info in Hi.
  destruct (hdr s !! a) as [b|]; [|done]. injection Hi as <- Hm.
  cbn [mbind option_bind]. rewrite Hm. zb_false (align8 sz <=? b_size b). reflexivity.
Qed.

Lemma realloc_good base (s : heap K) ts a n sz bs :
  rep base s ts → coalesced ts → (a, n) ∈ live base ts → 0 < sz ≤ MAX_REQUEST →
  seg (ram s) (a + HDR_SIZE) bs → length bs = Z.to_nat n →
  realloc s (a + HDR_SIZE) sz = Some (0, s) ∨
  ∃ p s' m ts' rest, realloc s (a + HDR_SIZE) sz = Some (p, s') ∧ sz ≤ m ∧
    rep base s' ts' ∧ coalesced ts' ∧
    (∀ i b, bs !! i = Some b → is_u8 b → Z.of_nat i < sz → ram s' !! (p + Z.of_nat i) = Some b) ∧
    live base ts ≡ₚ (a, n) :: rest ∧ live base ts' ≡ₚ (p - HDR_SIZE, m) :: rest ∧
    (∀ q len, owned base ts q len → 0 ≤ len → disjoint (a + HDR_SIZE) n q len →
       ∀ x, q ≤ x < q + len → ram s' !! x = ram s !! x).
Proof.
  intros Hr Hco Hin Hs Hseg Hlen.
  destruct (live_block _ _ _ _ _ Hr Hin) as (_ & Hlo & Hpos & Hhi & _ & Hi).
  pose proof (rep_base _ _ _ Hr) as [Hb _]. assert (0 < a) as Ha by lia.
  destruct (elem_of_Permutation (live base ts) (a, n)) as [[rest Hrest] _]; [done|].
  destruct (Z.le_gt_cases (align8 sz) n) as [Hle|Hlt].
  { right. exists (a + HDR_SIZE), s, n, ts, rest. rewrite (realloc_in_place s a n sz Ha Hs Hi Hle).
    destruct (align8_ok sz) as [? _]; [unfold MAX_REQUEST in *; lia|].
    replace (a + HDR_SIZE - HDR_SIZE) with a by lia. split_and!; try done; [lia|]. intros i b Hib _ _. by apply Hseg. }
  rewrite (realloc_moves s a n sz Ha Hs Hi Hlt).
  destruct (malloc_good base s ts sz Hr Hco ltac:(lia))
    as [(-> & _)|(p & s1 & m & ts1 & -> & Hr1 & Hco1 & Hsz & Hl1 & Hram1)]; [by left|]. right.
  assert ((a, n) ∈ live base ts1) as Hin1 by (rewrite Hl1; set_solver).
  destruct (live_block base s1 ts1 (p - HDR_SIZE) m Hr1) as (_ & Hplo & _ & _ & Hpmap & _).
  { rewrite Hl1. set_solver. }
  destruct (live_block _ _ _ _ _ Hr1 Hin1) as (_ & _ & _ & _ & _ & Hi1).
  pose proof (live_disjoint _ _ _ _ _ _ Hr1 Hl1 a n Hin) as Hdis.
  replace (p - HDR_SIZE + HDR_SIZE) with p in Hpmap by lia.
  assert (0 < p) as Hp by (unfold HDR_SIZE in *; lia). cbn [mbind option_bind].
  zb_false (p =? 0). unfold info in Hi1. destruct (hdr s1 !! a) as [b1|] eqn:Eb1; simplify_eq/=.
  set (n := b_size b1) in *. set (cs := take (Z.to_nat (Z.min n sz)) bs).
  assert (Z.of_nat (length cs) = Z.min n sz) as Hcs by (unfold cs; rewrite length_take; lia).
  replace (if n <? sz then n else sz) with (Z.of_nat (length cs)) by (destruct (Z.ltb_spec n sz); lia).
  rewrite memcpy_apart; cbn [mbind option_bind].
  2:{ intros i b [Hib _]%lookup_take_Some. rewrite Hram1; [by apply Hseg|].
      apply lookup_lt_Some in Hib. unfold HDR_SIZE in *. lia. }
  2:{ eapply mapped_weaken; [exact Hpmap|lia|lia]. }
  2:{ unfold disjoint, HDR_SIZE in *. lia. }
  set (s2 := with_ram s1 _).
  destruct (free_good base s2 ts1 a n) as (s3 & ts3 & -> & Hr3 & Hco3 & Hl3 & Hram3 & _);
    [by apply rep_with_ram|done|done|].
  exists p, s3, m, ts3, rest. cbn [mbind option_bind]. split_and!; try done.
  - intros i b Hib Hu Hlt'. rewrite Hram3. apply lookup_write_in. rewrite list_lookup_fmap.
    pose proof (lookup_lt_Some _ _ _ Hib). unfold cs. rewrite lookup_take_lt by lia. rewrite Hib. simpl. by rewrite u8_small.
  - rewrite Hrest in Hl1. rewrite Hl1 in Hl3. apply (Permutation_cons_inv (a := (a, n))).
    rewrite <- Hl3. constructor.
  - intros q len Hown Hq0 Hq x Hx. destruct (owned_apart base s s1 ts ts1 p m q len Hr Hr1 Hl1 Hown Hq0) as [Hd Hbr].
    rewrite Hram3. unfold s2. cbn [ram with_ram]. rewrite lookup_write_out; [apply Hram1; lia|].
    rewrite length_map. unfold disjoint in *. lia.
Qed.

(** [C4] [realloc] to a size other than 0: NULL with the heap and the old block
    untouched, or a block of at least the new size that starts with the old
    contents (as much of them as fits both sizes), in exchange for the old
    block; every other block is kept. *)
Theorem realloc_keeps base (s : heap K) ts a n sz bs :
  rep base s ts → coalesced ts → (a, n) ∈ live base ts → 0 < sz ≤ MAX_REQUEST →
  seg (ram s) (a + HDR_SIZE) bs → length bs = Z.to_nat n → Forall is_u8 bs →
  realloc s (a + HDR_SIZE) sz = Some (0, s) ∨
  ∃ p s' m ts' rest, realloc s (a + HDR_SIZE) sz = Some (p, s') ∧ sz ≤ m ∧
    rep base s' ts' ∧ coalesced ts' ∧ seg (ram s') p (take (Z.to_nat (Z.min n sz)) bs) ∧
    live base ts ≡ₚ (a, n) :: rest ∧ live base ts' ≡ₚ (p - HDR_SIZE, m) :: rest.
Proof.
  intros Hr Hco Hin Hs Hseg Hlen Hu8.
  destruct (realloc_good base s ts a n sz bs Hr Hco Hin Hs Hseg Hlen)
    as [?|(p & s' & m & ts' & rest & Hre & Hm & Hr' & Hco' & Hk & Hl & Hl' & _)]; [by left|]. right.
  exists p, s', m, ts', rest. split_and!; try done.
  intros i b [Hib Hlt]%lookup_take_Some. apply Hk; [done|by eapply Forall_lookup_1|lia].
Qed.

End spec.

(** ** The heap of a task: runs and witnesses

    The kernel's routine [sys_sbrk] (a task whose break is not recorded yet
    starts at [HEAP_FLOOR]). *)

Definition task0 : heap Z := heap_init 0.

Lemma task_init_rep : rep HEAP_FLOOR task0 [].
Proof.
  pose proof (heap_init_rep (K := Z) 0) as Hr. apply Hr; [|done]. vm_compute; split; congruence.
Qed.

(** The heap after a first request of 100 bytes, as tiles. *)
Lemma task_first_block : ∃ s,
  malloc task0 100 = Some (5246992, s) ∧ rep HEAP_FLOOR s [(104, true); (3960, false)].
Proof.
  pose proof (malloc_rep HEAP_FLOOR task0 [] 100 task_init_rep ltac:(unfold MAX_REQUEST; lia)) as Hm.
  destruct Hm as (s & Hm & Hr & _). exists s. split; [exact Hm|exact Hr].
Qed.

(** A heap with one block of at least 100 bytes held. *)
Lemma task_one_block : ∃ s ts a n,
  rep HEAP_FLOOR s ts ∧ coalesced ts ∧ (a, n) ∈ live HEAP_FLOOR ts ∧ 100 ≤ n ∧
  reach task0 s.
Proof.
  destruct (malloc_good (K := Z) HEAP_FLOOR task0 [] 100 task_init_rep I)
    as [(_ & _ & Hroom)|(p & s & n & ts & Hm & Hr & Hco & Hn & Hl & _)];
    [unfold MAX_REQUEST; lia|vm_compute in Hroom; discriminate|].
  exists s, ts, (p - HDR_SIZE), n. split_and!; [exact Hr|exact Hco| |exact Hn|].
  - rewrite Hl. apply list_elem_of_here.
  - eapply reach_malloc; [constructor|unfold MAX_REQUEST|done]. lia.
Qed.

Lemma heap_refines_witness :
  rep HEAP_FLOOR task0 [] ∧
  ∃ s', malloc task0 100 = Some (5246992, s') ∧
        rep HEAP_FLOOR s' [(104, true); (3960, false)].
Proof.
  split; [exact task_init_rep|].
  destruct (heap_refines HEAP_FLOOR task0 [] task_init_rep) as [Hm _].
  specialize (Hm 100 ltac:(unfold MAX_REQUEST; lia)). exact Hm.
Defined.

Lemma malloc_block_witness :
  rep HEAP_FLOOR task0 [] ∧ coalesced [] ∧
  ∃ p s', malloc task0 100 = Some (p, s') ∧ p ≠ 0 ∧ p `mod` 8 = 0.
Proof.
  split; [exact task_init_rep|]. split; [exact I|].
  destruct (malloc_block HEAP_FLOOR task0 [] 100 task_init_rep I)
    as (p & s' & Hm & [(_ & _ & _ & Hroom)|(n & ts' & _ & H8 & Hlo & _)]).
  - unfold MAX_REQUEST. lia.
  - vm_compute in Hroom. discriminate.
  - exists p, s'. unfold HEAP_FLOOR, HDR_SIZE in Hlo. split_and!; [done|lia|done].
Defined.

(** Both outcomes on the task's heap: [a], [b] and [c] are held; after [free(a)],
    a second [free(a)] does nothing; after [free(b)], which merges [b] into [a],
    a second [free(b)] reads bytes that are no header any more. *)
Theorem double_free_outcomes :
  (r ← malloc task0 8; r2 ← malloc (snd r) 8; r3 ← malloc (snd r2) 8;
   s1 ← free (snd r3) (fst r); s2 ← free s1 (fst r); s3 ← free s2 (fst r2);
   Some (bool_decide (hdr s1 = hdr s2), fst r2,
         bool_decide (is_Some (hdr s3 !! (fst r2 - HDR_SIZE))), bool_decide (free s3 (fst r2) = None)))
  = Some (true, 5247016, false, true).
Proof. vm_compute. reflexivity. Qed.

Lemma heap_invariant_witness : ∃ s : heap Z, reach task0 s ∧ s ≠ task0 ∧
  ∃ ts, rep HEAP_FLOOR s ts ∧ coalesced ts.
Proof.
  destruct task_one_block as (s & ts & a & n & Hr & Hco & Hin & _ & Hreach).
  exists s. split; [done|]. split.
  - intros ->. destruct (live_block _ _ _ _ _ Hr Hin) as (_ & _ & _ & _ & _ & Hi). done.
  - destruct (heap_invariant (0 : Z) s) as (ts' & ? & ? & _); [vm_compute; split; congruence|done|done|].
    by exists ts'.
Defined.

Lemma calloc_zeroed_witness :
  calloc task0 65536 65536 = Some (0, task0) ∧
  ∃ p s', calloc task0 10 10 = Some (p, s') ∧ p ≠ 0 ∧ seg (ram s') p (replicate 100 0).
Proof.
  split.
  - apply (calloc_zeroed HEAP_FLOOR task0 [] 65536 65536 task_init_rep I); unfold is_u32; lia.
  - destruct (calloc_zeroed HEAP_FLOOR task0 [] 10 10 task_init_rep I) as [_ Hc];
      [unfold is_u32; lia..|].
    destruct (Hc ltac:(unfold MAX_REQUEST; lia)) as [Hn|(p & s' & n & ts' & Hm & Hp & _ & _ & _ & _ & Hz & _)].
    + exfalso. assert (fst <$> calloc task0 10 10 = Some 5246992) as Hv by (vm_compute; reflexivity).
      rewrite Hn in Hv. discriminate.
    + exists p, s'. split_and!; [exact Hm|exact Hp|exact Hz].
Defined.

Lemma realloc_keeps_witness : ∃ (s : heap Z) a n bs,
  seg (ram s) (a + HDR_SIZE) bs ∧ length bs = Z.to_nat n ∧ 100 ≤ n ∧
  (realloc s (a + HDR_SIZE) 5000 = Some (0, s) ∨
   ∃ p s', realloc s (a + HDR_SIZE) 5000 = Some (p, s') ∧
     seg (ram s') p (take (Z.to_nat (Z.min n 5000)) bs)).
Proof.
  destruct task_one_block as (s & ts & a & n & Hr & Hco & Hin & Hn & _).
  set (bs := replicate (Z.to_nat n) 7). set (s2 := with_ram s (write (ram s) (a + HDR_SIZE) bs)).
  assert (seg (ram s2) (a + HDR_SIZE) bs) as Hseg by apply seg_write.
  assert (length bs = Z.to_nat n) as Hlen by apply length_replicate.
  exists s2, a, n, bs. split; [exact Hseg|]. split; [exact Hlen|]. split; [exact Hn|].
  destruct (realloc_keeps HEAP_FLOOR s2 ts a n 5000 bs) as [?|(p & s' & _ & _ & _ & ? & _ & _ & _ & ? & _)];
    [by apply rep_with_ram|done|done|unfold MAX_REQUEST; lia|done|done| |by left|right; eauto].
  apply Forall_replicate. unfold is_u8. lia.
Defined.

(** ** Requests the 32-bit arithmetic does not survive *)

Lemma malloc_size_wraps :
  (λ r, (fst r, info (snd r) (fst r - HDR_SIZE))) <$> malloc task0 4294967295
  = Some (5246992, Some (0, BLK_USED)).
Proof. vm_compute. reflexivity. Qed.

Lemma malloc_eats_the_window :
  (λ r, (fst r, kern (snd r))) <$> malloc (heap_init 6012928) 4294967280 = Some (0, USER_STACK_BASE).
Proof. vm_compute. reflexivity. Qed.

Lemma malloc_shrinks_the_break :
  (r ← malloc task0 5000;
   (λ r', (fst r, info (snd r) (fst r - HDR_SIZE), fst r', brk (kern (snd r')))) <$> malloc (snd r) 4294963200)
  = Some (5246992, Some (5000, BLK_USED), 5252008, 5247912).
Proof. vm_compute. reflexivity. Qed.

(** Three requests above [MAX_REQUEST] that are not refused cleanly.
    [align8] wraps for the seven largest sizes, so [malloc(0xFFFFFFFF)] hands out
    a block with no payload.  [need + HDR_SIZE] wraps for [malloc(0xFFFFFFF0)]:
    every round asks the kernel for a page that can never satisfy the request,
    and the call fails with the window used up.  [malloc(0xFFFFF000)] is a
    negative increment for the kernel: once the heap has grown by a page, the
    break moves down below the live block and a pointer is returned. *)
Theorem malloc_huge_requests :
  (λ r, (fst r, info (snd r) (fst r - HDR_SIZE))) <$> malloc task0 4294967295
    = Some (5246992, Some (0, BLK_USED)) ∧
  (λ r, (fst r, kern (snd r))) <$> malloc (heap_init 6012928) 4294967280 = Some (0, USER_STACK_BASE) ∧
  (r ← malloc task0 5000;
   (λ r', (fst r, info (snd r) (fst r - HDR_SIZE), fst r', brk (kern (snd r')))) <$> malloc (snd r) 4294963200)
    = Some (5246992, Some (5000, BLK_USED), 5252008, 5247912).
Proof.
  split; [exact malloc_size_wraps|]. split; [exact malloc_eats_the_window|exact malloc_shrinks_the_break].
Qed.
