(* ===== verification/Alloc.v ===== *)
(** * The interface the rest of the library has to the heap

    The streams ([c/rt/stdio.c]) hold blocks of the heap for their buffers.
    [Allocator] has the three operations they call, [AllocatorLaws] what they
    rely on: a block handed out is the holder's alone, keeps its contents until
    it is given back, and [realloc] carries them over.  Clients are proved
    against the laws; the heap of [c/rt/malloc.c] is the instance. *)

From S2P Require Import Prelude CMem CString Heap HeapSpec.

Class Allocator (H : Type) := {
  a_mem : H → mem;
  a_set : H → mem → H;
  a_malloc : H → Z → option (Z * H);
  a_realloc : H → Z → Z → option (Z * H);
  a_free : H → Z → option H
}.

(** The blocks [l] and everything below [base] read the same in both heaps. *)
Definition keeps {H} `{Allocator H} (base : Z) (l : list (Z * Z)) (h h' : H) : Prop :=
  ∀ x, (x < base ∨ ∃ p n, (p, n) ∈ l ∧ p ≤ x < p + n) → a_mem h' !! x = a_mem h !! x.

Class AllocatorLaws (H : Type) `{Allocator H} := {
  a_base : Z;                         (* static data lies below *)
  held : H → list (Z * Z) → Prop;     (* the blocks in use: address, size *)
  a_mem_set : ∀ h m, a_mem (a_set h m) = m;
  held_perm : ∀ h l l', l ≡ₚ l' → held h l → held h l';
  held_block : ∀ h l p n, held h l → (p, n) ∈ l →
    a_base ≤ p ∧ 0 < p ∧ 0 < n ∧ p + n ≤ 2147483647 ∧ mapped (a_mem h) p n;
  held_disjoint : ∀ h l p n q k, held h ((p, n) :: l) → (q, k) ∈ l → disjoint p n q k;
  held_write : ∀ h l p bs, held h l → held (a_set h (write (a_mem h) p bs)) l;
  malloc_law : ∀ h l sz, held h l → 0 ≤ sz ≤ MAX_REQUEST →
    a_malloc h sz = Some (0, h) ∨
    ∃ p n h', a_malloc h sz = Some (p, h') ∧ sz ≤ n ∧ held h' ((p, n) :: l) ∧ keeps a_base l h h';
  realloc_law : ∀ h l p n sz, held h ((p, n) :: l) → 0 < sz ≤ MAX_REQUEST →
    a_realloc h p sz = Some (0, h) ∨
    ∃ q k h', a_realloc h p sz = Some (q, h') ∧ sz ≤ k ∧ held h' ((q, k) :: l) ∧ keeps a_base l h h' ∧
      (∀ i b, 0 ≤ i < n → i < sz → a_mem h !! (p + i) = Some b → is_u8 b → a_mem h' !! (q + i) = Some b);
  free_law : ∀ h l p n, held h ((p, n) :: l) →
    ∃ h', a_free h p = Some h' ∧ held h' l ∧ a_mem h' = a_mem h
}.

(** ** The heap of [malloc.c] *)

#[export] Instance heap_allocator {K} `{Sbrk K} : Allocator (heap K) := {|
  a_mem := ram;
  a_set := with_ram;
  a_malloc := malloc;
  a_realloc := realloc;
  a_free := free
|}.

Section laws.
Context {K : Type} `{Sbrk K} (base : Z).

Definition payload (x : Z * Z) : Z * Z := (fst x - HDR_SIZE, snd x).

Definition heap_held (s : heap K) (l : list (Z * Z)) : Prop :=
  ∃ ts, rep base s ts ∧ coalesced ts ∧ live base ts ≡ₚ map payload l.

Lemma heap_held_in s l p n : heap_held s l → (p, n) ∈ l →
  ∃ ts, rep base s ts ∧ coalesced ts ∧ (p - HDR_SIZE, n) ∈ live base ts.
Proof.
  intros (ts & Hr & Hc & Hl) Hin. exists ts. split_and!; [done|done|]. rewrite Hl.
  apply list_elem_of_fmap. by exists (p, n).
Qed.

Lemma heap_held_block s l p n : heap_held s l → (p, n) ∈ l →
  base ≤ p ∧ 0 < p ∧ 0 < n ∧ p + n ≤ 2147483647 ∧ mapped (ram s) p n.
Proof.
  intros Hh Hin. destruct (heap_held_in _ _ _ _ Hh Hin) as (ts & Hr & _ & Hl).
  destruct (live_block _ _ _ _ _ Hr Hl) as (_ & ? & ? & ? & Hm & _). pose proof (rep_base _ _ _ Hr) as [? _].
  pose proof (rep_brk _ _ _ Hr) as [_ ?]. pose proof sbrk_limit_i32.
  replace (p - HDR_SIZE + HDR_SIZE) with p in * by lia. unfold HDR_SIZE in *. split_and!; first [done|lia].
Qed.

(** A block of the list, or an address below the heap, is owned. *)
Lemma heap_owned ts l x : live base ts ≡ₚ map payload l →
  (x < base ∨ ∃ p n, (p, n) ∈ l ∧ p ≤ x < p + n) → owned base ts x 1.
Proof.
  intros Hl [Hx|(p & n & Hin & Hx)]; [right; lia|]. left. exists (p - HDR_SIZE), n.
  split; [|lia]. rewrite Hl. apply list_elem_of_fmap. by exists (p, n).
Qed.

Lemma heap_malloc_law s l sz : heap_held s l → 0 ≤ sz ≤ MAX_REQUEST →
  malloc s sz = Some (0, s) ∨
  ∃ p n s', malloc s sz = Some (p, s') ∧ sz ≤ n ∧ heap_held s' ((p, n) :: l) ∧ keeps base l s s'.
Proof.
  intros (ts & Hr & Hc & Hl) Hs.
  destruct (malloc_good base s ts sz Hr Hc Hs) as [(E & _)|(p & s' & n & ts' & E & Hr' & Hc' & Hn & Hl' & Hram)]; [by left|].
  right. exists p, n, s'. split_and!; [done|done| |].
  - exists ts'. split_and!; [done|done|]. rewrite Hl', Hl. done.
  - intros x Hx. apply Hram.
    destruct (owned_apart base s s' ts ts' p n x 1 Hr Hr' Hl') as [_ ?]; [by eapply heap_owned|lia|lia].
Qed.

Lemma heap_held_disjoint s l p n q k : heap_held s ((p, n) :: l) → (q, k) ∈ l → disjoint p n q k.
Proof.
  intros (ts & Hr & _ & Hl) Hin.
  pose proof (live_disjoint _ _ _ _ _ _ Hr Hl (q - HDR_SIZE) k) as Hd. unfold disjoint, HDR_SIZE in *.
  assert ((q - 16, k) ∈ map payload l) as Hi by (apply list_elem_of_fmap; by exists (q, k)).
  specialize (Hd Hi). simpl in Hd.
  destruct (live_block base s ts (q - HDR_SIZE) k Hr) as (_ & _ & ? & _); [rewrite Hl; set_solver|].
  destruct (live_block base s ts (p - HDR_SIZE) n Hr) as (_ & _ & ? & _); [rewrite Hl; set_solver|]. lia.
Qed.

Lemma heap_realloc_law s l p n sz : heap_held s ((p, n) :: l) → 0 < sz ≤ MAX_REQUEST →
  realloc s p sz = Some (0, s) ∨
  ∃ q k s', realloc s p sz = Some (q, s') ∧ sz ≤ k ∧ heap_held s' ((q, k) :: l) ∧ keeps base l s s' ∧
    (∀ i b, 0 ≤ i < n → i < sz → ram s !! (p + i) = Some b → is_u8 b → ram s' !! (q + i) = Some b).
Proof.
  intros Hh Hs. destruct (heap_held_block s _ p n Hh ltac:(set_solver)) as (Hpb & _ & Hn & _ & Hm).
  pose proof (heap_held_disjoint s l p n) as Hdis. destruct (mapped_seg _ _ _ Hm) as (bs & Hlen & Hseg).
  destruct Hh as (ts & Hr & Hc & Hl). assert ((p - HDR_SIZE, n) ∈ live base ts) as Hin by (rewrite Hl; set_solver).
  pose proof (realloc_good base s ts (p - HDR_SIZE) n sz bs Hr Hc Hin Hs) as Hgood.
  replace (p - HDR_SIZE + HDR_SIZE) with p in Hgood by lia.
  destruct (Hgood Hseg ltac:(lia))
    as [E|(q & s' & m & ts' & rest & E & Hm' & Hr' & Hc' & Hk & Hl1 & Hl2 & Hkeep)]; [by left|]. right.
  assert (map payload l ≡ₚ rest) as Hrest.
  { apply (Permutation_cons_inv (a := (p - HDR_SIZE, n))). rewrite <- Hl1. symmetry. exact Hl. }
  exists q, m, s'. split_and!; [done|done| | |].
  - exists ts'. split_and!; [done|done|]. rewrite Hl2, <- Hrest. done.
  - intros x Hx. apply (Hkeep x 1); [eapply heap_owned; [exact Hl|]| | |]; [|lia| |lia].
    + destruct Hx as [?|(a & z & ? & ?)]; [by left|]. right. exists a, z. split; [set_solver|done].
    + destruct Hx as [?|(a & z & Ha & Hz)]; [unfold disjoint; lia|].
      assert (disjoint p n a z) as Hd by (apply Hdis; [by exists ts|done]). unfold disjoint in *. lia.
  - intros i b Hi Hlt Hb Hu. replace i with (Z.of_nat (Z.to_nat i)) by lia. apply Hk; [|done|lia].
    destruct (lookup_lt_is_Some_2 bs (Z.to_nat i)) as [c Hc2]; [lia|]. rewrite Hc2. f_equal.
    apply Hseg in Hc2. replace (Z.of_nat (Z.to_nat i)) with i in Hc2 by lia. congruence.
Qed.

Lemma heap_free_law s l p n : heap_held s ((p, n) :: l) →
  ∃ s', free s p = Some s' ∧ heap_held s' l ∧ ram s' = ram s.
Proof.
  intros (ts & Hr & Hc & Hl).
  destruct (free_good base s ts (p - HDR_SIZE) n Hr Hc) as (s' & ts' & E & Hr' & Hc' & Hl' & Hram & _); [rewrite Hl; set_solver|].
  replace (p - HDR_SIZE + HDR_SIZE) with p in E by lia. exists s'. split_and!; [done| |done].
  exists ts'. split_and!; [done|done|]. apply (Permutation_cons_inv (a := (p - HDR_SIZE, n))). rewrite <- Hl'. exact Hl.
Qed.

Definition heap_laws : AllocatorLaws (heap K).
Proof using base.
  refine {| a_base := base; held := heap_held |}; cbn [a_mem a_set a_malloc a_realloc a_free heap_allocator].
  - done.
  - intros h l l' Hp (ts & ? & ? & Hl). exists ts. split_and!; [done|done|]. rewrite Hl. by apply Permutation_map.
  - exact heap_held_block.
  - exact heap_held_disjoint.
  - intros h l p bs (ts & ? & ? & ?). exists ts. split_and!; [|done|done]. by apply rep_with_ram.
  - exact heap_malloc_law.
  - exact heap_realloc_law.
  - exact heap_free_law.
Defined.
End laws.
