(* ===== verification/Sys.v ===== *)
(** * System calls and the state of a process

    [syscall] has one constructor per call the C library makes (the numbers of
    [mv/syscall_numbers.h]), carrying what the kernel takes: a byte range it
    reads is the list of the bytes, a path is the string found at the pointer
    ([None]: no string there).  The answer is EAX as a signed number and the
    bytes the kernel stores through the pointer argument.  The kernel itself is
    assembly and stays a parameter: [Kernel].

    [proc] is what the library's routines work on: the heap (and with it the
    memory), the kernel, and [errno]. *)

From S2P Require Import Prelude CMem CString Alloc.

Inductive syscall :=
  | SYS_GETERRNO
  | SYS_OPEN (path : option (list Z)) (oflag : Z)
  | SYS_READ (fd count : Z)
  | SYS_WRITE (fd : Z) (bytes : list Z)
  | SYS_PRINT (text : list Z)
  | SYS_PUTCHAR (c : Z)
  | SYS_CLOSE (fd : Z)
  | SYS_SEEK (fd offset whence : Z)
  | SYS_DUP (fd : Z)
  | SYS_DUP2 (fd fd2 : Z)
  | SYS_FCNTL (fd cmd arg : Z)
  | SYS_DELETE (path : option (list Z))
  | SYS_ACCESS (path : option (list Z)) (mode : Z)
  | SYS_CHDIR (path : option (list Z))
  | SYS_GETCWD
  | SYS_PIPE2
  | SYS_ISATTY (fd : Z)
  | SYS_STAT (path : option (list Z))
  | SYS_FSTAT (fd : Z)
  | SYS_MKDIR (path : option (list Z))
  | SYS_CHMOD (path : option (list Z)) (mode : Z)
  | SYS_RENAME (from to : option (list Z))
  | SYS_FREAD (path : option (list Z))
  | SYS_FWRITE (path : list Z) (bytes : list Z) (type : Z)
  | SYS_STDIN_READ
  | SYS_FORK
  | SYS_EXECVE (path : option (list Z)) (argv : list Z) (envp : Z)
  | SYS_GETPID
  | SYS_GETPPID
  | SYS_GETUID
  | SYS_GETEUID
  | SYS_GETGID
  | SYS_SLEEP (ticks : Z)
  | SYS_WAITPID (pid : Z)
  | SYS_SIGACTION (sig func : Z)
  | SYS_KILL (pid sig : Z).

(** [int $0x80]: the result, and the bytes stored through a pointer argument. *)
Class Kernel (K : Type) := {
  int80 : syscall → K → Z * list Z * K
}.

Section proc.
Context {H K : Type} `{Allocator H} `{Kernel K}.

Record proc := Proc { p_heap : H; p_kern : K; p_errno : Z }.

Definition p_mem (p : proc) : mem := a_mem (p_heap p).
Definition with_heap (h : H) (p : proc) : proc := Proc h (p_kern p) (p_errno p).
Definition with_errno (e : Z) (p : proc) : proc := Proc (p_heap p) (p_kern p) e.
Definition with_mem (m : mem) (p : proc) : proc := with_heap (a_set (p_heap p) m) p.

(** ** What the routines do to the state *)

Definition mv_syscall (c : syscall) : M proc (Z * list Z) := λ p,
  let '(r, bs, k) := int80 c (p_kern p) in
  Some ((i32 r, bs), Proc (p_heap p) k (p_errno p)).

Definition get_errno : M proc Z := λ p, Some (p_errno p, p).
Definition set_errno (e : Z) : M proc unit := λ p, Some (tt, with_errno e p).

Definition peekb (a : Z) : M proc Z := λ p, c ← load (p_mem p) a; Some (c, p).
Definition pokeb (a c : Z) : M proc unit := λ p, m ← store (p_mem p) a c; Some (tt, with_mem m p).

(** [n] bytes at [a]. *)
Fixpoint loads (m : mem) (a : Z) (n : nat) : option (list Z) :=
  match n with
  | O => Some []
  | S n' => c ← load m a; cs ← loads m (a + 1) n'; Some (c :: cs)
  end.
Definition peeks (a n : Z) : M proc (list Z) := λ p, bs ← loads (p_mem p) a (Z.to_nat n); Some (bs, p).

(** The bytes stored at [a], one after the other. *)
Fixpoint stores (m : mem) (a : Z) (bs : list Z) : option mem :=
  match bs with
  | [] => Some m
  | b :: bs' => m ← store m a b; stores m (a + 1) bs'
  end.
Definition pokes (a : Z) (bs : list Z) : M proc unit := λ p, m ← stores (p_mem p) a bs; Some (tt, with_mem m p).

(** The string a pointer argument stands for: [None] when the scan leaves the
    memory before a terminator. *)
Fixpoint cstring_loop (f : nat) (m : mem) (a : Z) : option (list Z) :=
  match f with
  | O => None
  | S f' => c ← load m a; if c =? 0 then Some [] else t ← cstring_loop f' m (a + 1); Some (c :: t)
  end.
Definition cstring (m : mem) (a : Z) : option (list Z) := cstring_loop (fuel m) m a.

Definition path_at (a : Z) : M proc (option (list Z)) := λ p, Some (cstring (p_mem p) a, p).

Definition c_malloc (n : Z) : M proc Z := λ p, '(a, h) ← a_malloc (p_heap p) n; Some (a, with_heap h p).
Definition c_realloc (a n : Z) : M proc Z := λ p, '(b, h) ← a_realloc (p_heap p) a n; Some (b, with_heap h p).
Definition c_free (a : Z) : M proc unit := λ p, h ← a_free (p_heap p) a; Some (tt, with_heap h p).
End proc.
Arguments proc H K : clear implicits.

(** ** Lemmas *)

Lemma loads_ok m a bs : seg m a bs → loads m a (length bs) = Some bs.
Proof.
  revert a. induction bs as [|b bs IH]; intros a; [done|]. rewrite seg_cons. intros [Hb Hs].
  cbn [length loads]. unfold load. rewrite Hb. bind_step. by rewrite IH.
Qed.

Lemma loads_seg m a n bs : loads m a n = Some bs → seg m a bs ∧ length bs = n.
Proof.
  revert a bs. induction n as [|n IH]; intros a bs; cbn [loads]; [intros [= <-]; split; [apply seg_nil|done]|].
  unfold load. destruct (m !! a) as [c|] eqn:Ec; [|done]. simpl. destruct (loads m (a + 1) n) as [cs|] eqn:El; [|done].
  intros [= <-]. destruct (IH _ _ El) as [? <-]. by rewrite seg_cons.
Qed.

Lemma stores_ok m a bs : mapped m a (Z.of_nat (length bs)) → stores m a bs = Some (write m a (map u8 bs)).
Proof.
  revert m a. induction bs as [|b bs IH]; intros m a Hm; [done|]. cbn [length stores] in *.
  apply mapped_cons in Hm as [H0 Hm]; [|lia]. rewrite store_mapped by done. bind_step.
  rewrite IH; [done|]. apply mapped_write. by replace (Z.of_nat (length bs)) with (Z.of_nat (S (length bs)) - 1) by lia.
Qed.


Lemma cstring_ok m a s : cstr m a s → cstring m a = Some s.
Proof.
  intros Hs. unfold cstring. pose proof (cstr_fuel _ _ _ Hs) as Hf. revert a Hs Hf. generalize (fuel m) as f.
  induction s as [|c s IH]; intros [|f] a Hs Hf; simpl in Hf; try lia; cbn [cstring_loop].
  - rewrite cstr_nil in Hs. unfold load. rewrite Hs. done.
  - rewrite cstr_cons in Hs. destruct Hs as (Hc & Hch & Hs). unfold load. rewrite Hc. bind_step.
    unfold is_char in Hch. zb_false (c =? 0). by rewrite IH by (done || lia).
Qed.
