(* ===== verification/CStdlib.v ===== *)
(** * [c/rt/stdlib.c]: conversions, random numbers, heap strings, process end

    (with [atoi] and [exit] of [c/rt/malloc.c]; sorting and searching are in
    [QSort].)  The pointer conversions are compared with functions on the list
    of characters of the string; [errno] is threaded as a value. *)

From S2P Require Import Prelude CMem CString Heap HeapSpec.

(** ** Conversions *)

Definition EINVAL : Z := 22.

Definition digit_value (c : Z) : Z :=
  if (chr "0" <=? c) && (c <=? chr "9") then c - chr "0"
  else if (chr "a" <=? c) && (c <=? chr "z") then c - chr "a" + 10
  else if (chr "A" <=? c) && (c <=? chr "Z") then c - chr "A" + 10
  else 99.

(** The characters [skip_space] passes: space and tab, newline, vertical tab,
    form feed, carriage return. *)
Definition is_blank (c : Z) : bool := (c =? 32) || ((9 <=? c) && (c <=? 13)).

Fixpoint skip_space_loop (f : nat) (m : mem) (s : Z) : option Z :=
  match f with
  | O => None
  | S f' => c ← load m s; if is_blank c then skip_space_loop f' m (s + 1) else Some s
  end.

Definition skip_space (m : mem) (s : Z) : option Z := skip_space_loop (fuel m) m s.

(** [for (;; p++)] of [strtol]: the digits, their value and the end. *)
Fixpoint strtol_digits (f : nat) (m : mem) (p base value digits : Z) : option (Z * Z * Z) :=
  match f with
  | O => None
  | S f' =>
      c ← load m p;
      let d := digit_value (i8 c) in
      if base <=? d then Some (value, digits, p)
      else strtol_digits f' m (p + 1) base (u32 (u32 (value * base) + d)) (digits + 1)
  end.

(** [(base == 0 || base == 16) && p[0] == '0' && ...], read left to right. *)
Definition strtol_is_hex (m : mem) (p base : Z) : option bool :=
  if negb ((base =? 0) || (base =? 16)) then Some false
  else
    c0 ← load m p;
    if negb (c0 =? chr "0") then Some false
    else
      c1 ← load m (p + 1);
      if negb ((c1 =? chr "x") || (c1 =? chr "X")) then Some false
      else c2 ← load m (p + 2); Some (digit_value (i8 c2) <? 16).

(** Result: value, [*endptr], [errno] after the call. *)
Definition strtol (m : mem) (s base errno : Z) : option (Z * Z * Z) :=
  p ← skip_space m s;
  c ← load m p;
  let signed := (c =? chr "+") || (c =? chr "-") in
  let negative := signed && (c =? chr "-") in
  let p := if signed then p + 1 else p in
  hex ← strtol_is_hex m p base;
  c0 ← load m p;
  let '(p, base) :=
    if hex : bool then (p + 2, 16)
    else if (base =? 0) && (c0 =? chr "0") then (p, 8)
    else if base =? 0 then (p, 10)
    else (p, base) in
  '(value, digits, p) ← strtol_digits (fuel m) m p base 0 0;
  if digits =? 0 then Some (0, s, EINVAL)
  else Some (if negative : bool then i32 (- i32 value) else i32 value, p, errno).

Definition strtoul (m : mem) (s base errno : Z) : option (Z * Z * Z) :=
  '(v, e, errno) ← strtol m s base errno; Some (u32 v, e, errno).
Definition strtoll (m : mem) (s base errno : Z) : option (Z * Z * Z) :=
  '(v, e, errno) ← strtol m s base errno; Some (i64 v, e, errno).
Definition strtoull (m : mem) (s base errno : Z) : option (Z * Z * Z) :=
  '(v, e, errno) ← strtol m s base errno; Some (u64 v, e, errno).
Definition atol (m : mem) (s errno : Z) : option (Z * Z) :=
  '(v, _, errno) ← strtol m s 10 errno; Some (v, errno).
Definition atoll (m : mem) (s errno : Z) : option (Z * Z) :=
  '(v, _, errno) ← strtol m s 10 errno; Some (i64 v, errno).

(** [atoi] of malloc.c. *)
Fixpoint atoi_skip (f : nat) (m : mem) (s : Z) : option Z :=
  match f with
  | O => None
  | S f' => c ← load m s; if (c =? 32) || (c =? 9) then atoi_skip f' m (s + 1) else Some s
  end.

Fixpoint atoi_digits (f : nat) (m : mem) (s value : Z) : option Z :=
  match f with
  | O => None
  | S f' =>
      c ← load m s;
      if (chr "0" <=? i8 c) && (i8 c <=? chr "9")
      then atoi_digits f' m (s + 1) (i32 (i32 (value * 10) + (i8 c - chr "0")))
      else Some value
  end.

Definition atoi (m : mem) (s : Z) : option Z :=
  s ← atoi_skip (fuel m) m s;
  c ← load m s;
  let sign := if c =? chr "-" then -1 else 1 in
  let s := if (c =? chr "-") || (c =? chr "+") then s + 1 else s in
  value ← atoi_digits (fuel m) m s 0;
  Some (i32 (sign * value)).

Definition abs (v : Z) : Z := if v <? 0 then i32 (- v) else v.
Definition labs (v : Z) : Z := if v <? 0 then i32 (- v) else v.
Definition llabs (v : Z) : Z := if v <? 0 then i64 (- v) else v.

Record div_t := Div { d_quot : Z; d_rem : Z }.
Definition div (num den : Z) : option div_t :=
  if den =? 0 then None else Some (Div (num /c den) (num %c den)).
Definition ldiv (num den : Z) : option div_t :=
  if den =? 0 then None else Some (Div (num /c den) (num %c den)).

(** ** Random numbers *)

Definition RAND_MAX : Z := 2147483647.
Definition srand (seed : Z) : Z := if seed =? 0 then 1 else seed.
Definition rand (rand_state : Z) : Z * Z :=
  let rand_state := u32 (u32 (rand_state * 1664525) + 1013904223) in
  (Z.land (Z.shiftr rand_state 1) RAND_MAX, rand_state).

(** ** Strings on the heap *)

Section heap_strings.
Context {K : Type} `{Sbrk K}.

Definition strdup (s : heap K) (p : Z) : option (Z * heap K) :=
  len ← strlen (ram s) p;
  let n := u32 (len + 1) in
  '(copy, s1) ← malloc s n;
  if copy =? 0 then Some (0, s1)
  else '(_, m) ← memcpy (ram s1) copy p n; Some (copy, with_ram s1 m).

Definition strndup (s : heap K) (p n : Z) : option (Z * heap K) :=
  len ← strnlen (ram s) p n;
  '(copy, s1) ← malloc s (u32 (len + 1));
  if copy =? 0 then Some (0, s1)
  else
    '(_, m) ← memcpy (ram s1) copy p len;
    m ← store m (copy + len) 0;
    Some (copy, with_ram s1 m).
End heap_strings.

(** ** The environment

    [slot i] is what [SYS_GETENV_SLOT] copies out for slot [i]: the 128 bytes of
    an occupied entry, or nothing.  [entry] and [value] are the addresses of the
    two static buffers. *)

Section getenv.
Context (slot : Z → option (list Z)) (entry value : Z).

Definition ENTRY_SIZE : Z := 128.

Fixpoint getenv_loop (k : nat) (m : mem) (i name name_len : Z) : option (Z * mem) :=
  match k with
  | O => Some (0, m)
  | S k' =>
      match slot i with
      | None => getenv_loop k' m (i + 1) name name_len
      | Some bytes =>
          let m := write m entry bytes in
          r ← strncmp m entry name name_len;
          if negb (r =? 0) then getenv_loop k' m (i + 1) name name_len
          else
            c ← load m (entry + name_len);
            if negb (c =? chr "=") then getenv_loop k' m (i + 1) name name_len
            else '(_, m) ← strcpy m value (entry + name_len + 1); Some (value, m)
      end
  end.

Definition getenv (m : mem) (name : Z) : option (Z * mem) :=
  if name =? 0 then Some (0, m)
  else
    c ← load m name;
    if c =? 0 then Some (0, m)
    else name_len ← strlen m name; getenv_loop 32 m 0 name name_len.
End getenv.

(** ** The process end

    A handler is a function on the table and the world of type [W] (a handler
    may itself call [atexit]). *)

Section atexit.
Context {W : Type}.

Definition ATEXIT_MAX_FUNCS : nat := 8.

(** [atexit_funcs[0 .. atexit_count)], oldest first; [fn : Z] is a function
    pointer, 0 is NULL. *)
Definition atexit (funcs : list Z) (fn : Z) : Z * list Z :=
  if (fn =? 0) || (ATEXIT_MAX_FUNCS <=? length funcs)%nat then (-1, funcs)
  else (0, funcs ++ [fn]).

(** What calling a function pointer does to the table and the world. *)
Context (call : Z → list Z → W → list Z * W).

(** [while (atexit_count > 0)]: take the newest handler off the table, call it;
    [None] when the handlers keep registering new ones beyond [fuel] rounds. *)
Fixpoint mv_run_atexit (f : nat) (funcs : list Z) (w : W) : option W :=
  match last funcs with
  | None => Some w
  | Some fn =>
      match f with
      | O => None
      | S f' => let '(funcs', w') := call fn (removelast funcs) w in mv_run_atexit f' funcs' w'
      end
  end.

(** [exit] and [abort]: the handlers, then [SYS_EXIT] with the status. *)
Definition exit (f : nat) (funcs : list Z) (w : W) (status : Z) : option (W * Z) :=
  w ← mv_run_atexit f funcs w; Some (w, status).
Definition abort (f : nat) (funcs : list Z) (w : W) : option (W * Z) := exit f funcs w 134.
End atexit.

(** ** Reference: the conversion on a list of characters *)

Fixpoint blanks (t : list Z) : nat :=
  match t with
  | c :: t' => if is_blank c then S (blanks t') else O
  | [] => O
  end.

(** The longest run of digits of the base, as digit values. *)
Fixpoint digits_of (base : Z) (t : list Z) : list Z :=
  match t with
  | c :: t' =>
      let d := digit_value (i8 c) in
      if base <=? d then [] else d :: digits_of base t'
  | [] => []
  end.

Definition num (base : Z) (ds : list Z) : Z := foldl (λ v d, v * base + d) 0 ds.

Definition hex_prefixed (base : Z) (t : list Z) : bool :=
  ((base =? 0) || (base =? 16)) &&
  match t with
  | c0 :: c1 :: c2 :: _ =>
      (c0 =? chr "0") && ((c1 =? chr "x") || (c1 =? chr "X")) && (digit_value (i8 c2) <? 16)
  | _ => false
  end.

Definition sign_len (t : list Z) : nat :=
  match t with c :: _ => if (c =? chr "+") || (c =? chr "-") then 1 else 0 | [] => 0 end.
Definition is_negative (t : list Z) : bool :=
  match t with c :: _ => c =? chr "-" | [] => false end.
Definition starts_zero (t : list Z) : bool :=
  match t with c :: _ => c =? chr "0" | [] => false end.

(** The base that applies and the length of the prefix that says so. *)
Definition effective_base (base : Z) (t : list Z) : nat * Z :=
  if hex_prefixed base t then (2%nat, 16)
  else if (base =? 0) && starts_zero t then (0%nat, 8)
  else if base =? 0 then (0%nat, 10)
  else (0%nat, base).

(** The number a string denotes and the characters it takes; [None]: no digits. *)
Definition strtol_ref (t : list Z) (base : Z) : option (Z * nat) :=
  let t1 := drop (blanks t) t in
  let t2 := drop (sign_len t1) t1 in
  let '(k, b) := effective_base base t2 in
  match digits_of b (drop k t2) with
  | [] => None
  | ds => Some ((if is_negative t1 then - num b ds else num b ds),
                (blanks t + sign_len t1 + k + length ds)%nat)
  end.

(** ** Lemmas *)

Section conversions.
Implicit Types (m : mem) (s p : Z) (t : list Z).

Lemma blanks_le t : (blanks t ≤ length t)%nat.
Proof. induction t; simpl; [lia|]. case_match; lia. Qed.

Lemma sign_len_le t : (sign_len t ≤ length t)%nat.
Proof. destruct t; simpl; [lia|]. case_match; lia. Qed.

Lemma effective_base_le base t : (fst (effective_base base t) ≤ length t)%nat.
Proof.
  unfold effective_base. destruct (hex_prefixed base t) eqn:E; [|repeat case_match; simpl; lia].
  unfold hex_prefixed in E. apply andb_true_iff in E as [_ E]. destruct t as [|? [|? [|? ?]]]; simpl; lia || done.
Qed.

Lemma skip_space_ok m s t : cstr m s t → skip_space m s = Some (s + Z.of_nat (blanks t)).
Proof.
  intros Hs. unfold skip_space. pose proof (cstr_fuel _ _ _ Hs) as Hf. revert Hf. generalize (fuel m).
  revert s Hs. induction t as [|c t IH]; intros s Hs [|f] Hf; simpl in *; try lia.
  - apply cstr_nil in Hs. assert (load m s = Some 0) as -> by done. cbn. f_equal. lia.
  - apply cstr_cons in Hs as (Hc & _ & Hs). assert (load m s = Some c) as -> by done. cbn [mbind option_bind].
    destruct (is_blank c); [|f_equal; lia]. rewrite (IH _ Hs) by lia. f_equal. lia.
Qed.

(** Reading the first characters of a string, the terminator included. *)
Definition char_at (t : list Z) (i : nat) : Z := default 0 (t !! i).

Lemma load_cstr m s t i :
  cstr m s t → (i ≤ length t)%nat → load m (s + Z.of_nat i) = Some (char_at t i).
Proof.
  intros [Hs _] Hi. unfold load, char_at. apply Hs.
  destruct (decide (i = length t)) as [->|].
  - rewrite lookup_app_r, Nat.sub_diag by lia.
    by rewrite (lookup_ge_None_2 t) by lia.
  - rewrite lookup_app_l by lia. destruct (lookup_lt_is_Some_2 t i) as [c Hc]; [lia|]. by rewrite Hc.
Qed.

Lemma load_cstr0 m s t : cstr m s t → load m s = Some (char_at t 0).
Proof. intros Hs. rewrite <- (Z.add_0_r s). apply (load_cstr _ _ _ 0 Hs). lia. Qed.

Lemma strtol_is_hex_ok m p t base :
  cstr m p t → strtol_is_hex m p base = Some (hex_prefixed base t).
Proof.
  intros Hs. unfold strtol_is_hex, hex_prefixed.
  destruct ((base =? 0) || (base =? 16)); cbn [negb andb]; [|done].
  rewrite (load_cstr0 _ _ _ Hs). cbn [mbind option_bind].
  destruct t as [|c0 t]; [done|]. cbn [char_at lookup list_lookup default].
  unfold char_at. simpl. destruct (c0 =? chr "0") eqn:E0; cbn [negb andb]; [|by destruct t as [|? [|? ?]]].
  change (p + 1) with (p + Z.of_nat 1). rewrite (load_cstr _ _ _ 1 Hs) by (simpl; lia). cbn [mbind option_bind].
  destruct t as [|c1 t]; [done|]. unfold char_at. simpl.
  destruct ((c1 =? chr "x") || (c1 =? chr "X")) eqn:E1; cbn [negb andb]; [|by destruct t].
  change (p + 2) with (p + Z.of_nat 2). rewrite (load_cstr _ _ _ 2 Hs) by (simpl; lia). cbn [mbind option_bind]. by destruct t.
Qed.

Lemma num_snoc base ds d : num base (ds ++ [d]) = num base ds * base + d.
Proof. unfold num. by rewrite foldl_app. Qed.

Lemma digit_value_range c : 0 ≤ digit_value c.
Proof.
  unfold digit_value. change (chr "0") with 48. change (chr "9") with 57. change (chr "a") with 97.
  change (chr "z") with 122. change (chr "A") with 65. change (chr "Z") with 90.
  bool_cases; lia.
Qed.

Lemma strtol_digits_ok m p t base f value digits :
  cstr m p t → 2 ≤ base ≤ 36 → (length t < f)%nat →
  strtol_digits f m p base (u32 value) digits =
  Some (u32 (foldl (λ v d, v * base + d) value (digits_of base t)),
        digits + Z.of_nat (length (digits_of base t)), p + Z.of_nat (length (digits_of base t))).
Proof.
  intros Hs Hb. revert p f value digits Hs.
  induction t as [|c t IH]; intros p [|f] value digits Hs Hf; cbn [length] in Hf; try lia; cbn [strtol_digits].
  - rewrite (load_cstr0 _ _ _ Hs). cbn [mbind option_bind].
    change (digit_value (i8 (char_at [] 0))) with 99. zb_true (base <=? 99). simpl. tuple_eq.
  - rewrite (load_cstr0 _ _ _ Hs). cbn [mbind option_bind char_at lookup list_lookup default]. simpl.
    unfold char_at. simpl. destruct (base <=? digit_value (i8 c)) eqn:E; simpl; [tuple_eq|].
    apply cstr_cons in Hs as (_ & _ & Hs).
    replace (u32 (u32 (u32 value * base) + digit_value (i8 c)))
      with (u32 (value * base + digit_value (i8 c))) by (by autorewrite with word).
    rewrite IH by (done || lia). tuple_eq.
Qed.

Lemma strtol_ok m s t base errno :
  cstr m s t → base = 0 ∨ 2 ≤ base ≤ 36 →
  strtol m s base errno =
  Some (match strtol_ref t base with
        | Some (v, n) => (i32 v, s + Z.of_nat n, errno)
        | None => (0, s, EINVAL)
        end).
Proof.
  intros Hs Hb. unfold strtol, strtol_ref. rewrite (skip_space_ok _ _ _ Hs). cbn [mbind option_bind].
  pose proof (cstr_drop _ _ _ _ (blanks_le t) Hs) as Hs1. set (t1 := drop (blanks t) t) in *.
  set (p1 := s + Z.of_nat (blanks t)) in *.
  rewrite (load_cstr0 _ _ _ Hs1). cbn [mbind option_bind].
  pose proof (cstr_drop _ _ _ _ (sign_len_le t1) Hs1) as Hs2. set (t2 := drop (sign_len t1) t1) in *.
  assert (∀ c, c = char_at t1 0 →
    (if (c =? chr "+") || (c =? chr "-") then p1 + 1 else p1) = p1 + Z.of_nat (sign_len t1) ∧
    ((c =? chr "+") || (c =? chr "-")) && (c =? chr "-") = is_negative t1) as Hsg.
  { intros c ->. unfold char_at. destruct t1 as [|c t']; simpl; [split; [lia|done]|].
    destruct (c =? chr "+"), (c =? chr "-"); simpl; split; lia || done. }
  destruct (Hsg _ eq_refl) as [-> ->]. set (p2 := p1 + Z.of_nat (sign_len t1)) in *.
  rewrite (strtol_is_hex_ok _ _ _ _ Hs2), (load_cstr0 _ _ _ Hs2). cbn [mbind option_bind].
  assert ((char_at t2 0 =? chr "0") = starts_zero t2) as -> by (by destruct t2).
  pose proof (cstr_drop _ _ _ _ (effective_base_le base t2) Hs2) as Hs3.
  assert ((if hex_prefixed base t2 then (p2 + 2, 16)
           else if (base =? 0) && starts_zero t2 then (p2, 8)
           else if base =? 0 then (p2, 10) else (p2, base))
          = (p2 + Z.of_nat (fst (effective_base base t2)), snd (effective_base base t2))
          ∧ 2 ≤ snd (effective_base base t2) ≤ 36) as [-> Hbb].
  { unfold effective_base. destruct (hex_prefixed base t2); [simpl; split; [tuple_eq|lia]|].
    destruct (Z.eqb_spec base 0), (starts_zero t2); simpl; split; try tuple_eq; lia. }
  destruct (effective_base base t2) as [k b]. cbn [fst snd] in *.
  pose proof (strtol_digits_ok m (p2 + Z.of_nat k) (drop k t2) b (fuel m) 0 0 Hs3 Hbb (cstr_fuel _ _ _ Hs3)) as Hd.
  change (u32 0) with 0 in Hd. rewrite Hd. cbn [mbind option_bind]. fold (num b (digits_of b (drop k t2))).
  destruct (digits_of b (drop k t2)) as [|d ds] eqn:E; [done|].
  rewrite (proj2 (Z.eqb_neq _ 0)) by (simpl; lia). f_equal. apply f_equal2; [apply f_equal2|done].
  - destruct (is_negative t1); [word_lia|]. by autorewrite with word.
  - unfold p2, p1. lia.
Qed.

(** *** [atoi] *)

Lemma digit_value_dec c : is_char c →
  ((chr "0" <=? i8 c) && (i8 c <=? chr "9") = negb (10 <=? digit_value (i8 c))) ∧
  ((chr "0" <=? i8 c) && (i8 c <=? chr "9") = true → digit_value (i8 c) = i8 c - chr "0").
Proof.
  intros _. unfold digit_value. change (chr "0") with 48. change (chr "9") with 57.
  destruct ((48 <=? i8 c) && (i8 c <=? 57)) eqn:E.
  - apply andb_true_iff in E as [E1%Z.leb_le E2%Z.leb_le]. split; [|done]. by zb_simpl.
  - split; [|done]. symmetry. apply negb_false_iff, Z.leb_le. change (chr "a") with 97.
    change (chr "z") with 122. change (chr "A") with 65. change (chr "Z") with 90. bool_cases; lia.
Qed.

Lemma atoi_digits_ok m p t f value :
  cstr m p t → (length t < f)%nat →
  atoi_digits f m p (i32 value) = Some (i32 (foldl (λ v d, v * 10 + d) value (digits_of 10 t))).
Proof.
  revert p f value. induction t as [|c t IH]; intros p [|f] value Hs Hf; cbn [length] in Hf; try lia;
    cbn [atoi_digits]; rewrite (load_cstr0 _ _ _ Hs); cbn [mbind option_bind].
  - done.
  - unfold char_at. cbn [lookup list_lookup default]. simpl. pose proof Hs as (_ & Hc & Hs')%cstr_cons.
    destruct (digit_value_dec c Hc) as [E1 E2]. rewrite E1 in E2 |- *.
    destruct (10 <=? digit_value (i8 c)); cbn [negb] in *; [done|].
    rewrite <- E2 by done.
    replace (i32 (i32 (i32 value * 10) + digit_value (i8 c)))
      with (i32 (value * 10 + digit_value (i8 c))) by word_lia.
    rewrite IH by (done || lia). done.
Qed.

Lemma atoi_skip_ok m p t f :
  cstr m p t → (length t < f)%nat →
  Forall (λ c, c = 32 ∨ c = 9) (take (blanks t) t) →
  atoi_skip f m p = Some (p + Z.of_nat (blanks t)).
Proof.
  revert p f. induction t as [|c t IH]; intros p [|f] Hs Hf Hb; cbn [length] in Hf; try lia;
    cbn [atoi_skip]; rewrite (load_cstr0 _ _ _ Hs); cbn [mbind option_bind].
  - simpl. tuple_eq.
  - unfold char_at. cbn [lookup list_lookup default]. simpl in *. apply cstr_cons in Hs as (_ & _ & Hs).
    destruct (is_blank c) eqn:E.
    + cbn [take] in Hb. apply Forall_cons in Hb as [Hc Hb].
      assert ((c =? 32) || (c =? 9) = true) as -> by (destruct Hc as [->| ->]; done).
      rewrite (IH _ _ Hs) by (done || lia). tuple_eq.
    + assert ((c =? 32) || (c =? 9) = false) as ->.
      { unfold is_blank in E. bool_cases; bool_hyps; lia || done. }
      tuple_eq.
Qed.

(** [atoi] computes what [strtol] computes in base 10 on every string whose
    leading blanks are spaces and tabs, and 0 where [strtol] finds no number. *)
Theorem atoi_is_strtol m s t errno :
  cstr m s t → Forall (λ c, c = 32 ∨ c = 9) (take (blanks t) t) →
  atoi m s = fst ∘ fst <$> strtol m s 10 errno.
Proof.
  intros Hs Hb. rewrite (strtol_ok _ _ _ 10 errno Hs) by lia. unfold atoi, strtol_ref.
  rewrite (atoi_skip_ok _ _ _ _ Hs (cstr_fuel _ _ _ Hs) Hb). cbn [mbind option_bind].
  pose proof (cstr_drop _ _ _ _ (blanks_le t) Hs) as Hs1. set (t1 := drop (blanks t) t) in *.
  set (p1 := s + Z.of_nat (blanks t)) in *. rewrite (load_cstr0 _ _ _ Hs1). cbn [mbind option_bind].
  pose proof (cstr_drop _ _ _ _ (sign_len_le t1) Hs1) as Hs2.
  assert ((if (char_at t1 0 =? chr "-") || (char_at t1 0 =? chr "+") then p1 + 1 else p1)
          = p1 + Z.of_nat (sign_len t1)) as ->.
  { unfold char_at. destruct t1 as [|c t']; simpl; [lia|].
    destruct (c =? chr "+"), (c =? chr "-"); simpl; lia. }
  assert ((char_at t1 0 =? chr "-") = is_negative t1) as -> by (by destruct t1).
  set (t2 := drop (sign_len t1) t1) in *.
  assert (effective_base 10 t2 = (0%nat, 10)) as -> by done.
  pose proof (atoi_digits_ok m _ t2 (fuel m) 0 Hs2 (cstr_fuel _ _ _ Hs2)) as Hd.
  change (i32 0) with 0 in Hd. rewrite Hd. cbn [mbind option_bind]. rewrite drop_0.
  fold (num 10 (digits_of 10 t2)).
  destruct (digits_of 10 t2) as [|d ds]; [by destruct (is_negative t1)|].
  simpl. f_equal. destruct (is_negative t1); [word_lia|].
  rewrite Z.mul_1_l. apply i32_small, i32_bound.
Qed.
End conversions.

(** ** Positional notation *)

(** The digits of [n] in base [b], least significant first; the length of [n]
    in binary is enough rounds for any base. *)
Fixpoint digits_rev_loop (f : nat) (b n : Z) : list Z :=
  match f with
  | O => [n `mod` b]
  | S f' => if n <? b then [n] else (n `mod` b) :: digits_rev_loop f' b (n `div` b)
  end.

Definition digits_rev (b n : Z) : list Z := digits_rev_loop (Z.to_nat (Z.log2 n)) b n.
Definition digits (b n : Z) : list Z := reverse (digits_rev b n).

Definition digit_char (d : Z) : Z := if d <? 10 then 48 + d else 97 + (d - 10).
Definition dec_text (z : Z) : list Z :=
  (if z <? 0 then lit "-" else []) ++ map digit_char (digits 10 (Z.abs z)).

Section positional.

Lemma digits_rev_loop_num b f n :
  2 ≤ b → 0 ≤ n → Z.log2 n < Z.of_nat f + 1 →
  num b (reverse (digits_rev_loop f b n)) = n ∧ Forall (λ d, 0 ≤ d < b) (digits_rev_loop f b n).
Proof.
  intros Hb. revert n. induction f as [|f IH]; intros n Hn Hl; simpl.
  - assert (n < 2) by (destruct (Z.lt_ge_cases n 2); [done|]; pose proof (Z.log2_le_mono 2 n); simpl in *; lia).
    rewrite Z.mod_small by lia. split; [done|]. constructor; [lia|done].
  - destruct (Z.ltb_spec n b); [split; [done|constructor; [lia|done]]|].
    assert (Z.log2 (n `div` b) < Z.of_nat f + 1) as Hl'.
    { assert (n `div` b ≤ n `div` 2) by (apply Z.div_le_compat_l; lia).
      pose proof (Z.log2_le_mono _ _ H0). rewrite <- Z.div2_div, Z.div2_spec, Z.log2_shiftr in H1 by lia. lia. }
    destruct (IH (n `div` b)) as [IH1 IH2]; [apply Z.div_pos; lia|done|].
    rewrite reverse_cons, num_snoc, IH1. split; [dlia || (pose proof (Z.div_mod n b); lia)|].
    constructor; [apply Z.mod_pos_bound; lia|done].
Qed.

Lemma log2_div b n : 2 ≤ b → b ≤ n → Z.log2 (n `div` b) < Z.log2 n.
Proof.
  intros Hb Hn. assert (n `div` b ≤ n `div` 2) as Hd by (apply Z.div_le_compat_l; lia).
  pose proof (Z.log2_le_mono _ _ Hd) as Hl. rewrite <- Z.div2_div, Z.div2_spec, Z.log2_shiftr in Hl by lia.
  assert (0 < Z.log2 n) by (apply Z.log2_pos; lia). lia.
Qed.

Lemma digits_rev_fuel b f g n : 2 ≤ b → 0 ≤ n → Z.log2 n ≤ Z.of_nat f → Z.log2 n ≤ Z.of_nat g →
  digits_rev_loop f b n = digits_rev_loop g b n.
Proof.
  intros Hb. revert g n. assert (∀ n, 0 ≤ n → Z.log2 n ≤ 0 → n < b) as Hs.
  { intros n Hn Hl. destruct (Z.lt_ge_cases n 2); [lia|].
    pose proof (Z.log2_le_mono 2 n). change (Z.log2 2) with 1 in *. lia. }
  induction f as [|f IH]; intros [|g] n Hn Hf Hg; cbn [digits_rev_loop]; [done| | |].
  - rewrite Z.mod_small by (split; [lia|apply Hs; lia]). by rewrite (proj2 (Z.ltb_lt n b)) by (apply Hs; lia).
  - rewrite Z.mod_small by (split; [lia|apply Hs; lia]). by rewrite (proj2 (Z.ltb_lt n b)) by (apply Hs; lia).
  - destruct (Z.ltb_spec n b); [done|]. pose proof (log2_div b n Hb ltac:(lia)). f_equal.
    apply IH; [apply Z.div_pos; lia|lia|lia].
Qed.

Lemma digits_rev_unfold b n : 2 ≤ b → 0 ≤ n →
  digits_rev b n = if n <? b then [n] else (n `mod` b) :: digits_rev b (n `div` b).
Proof.
  intros Hb Hn. unfold digits_rev. pose proof (Z.log2_nonneg n).
  rewrite (digits_rev_fuel b (Z.to_nat (Z.log2 n)) (S (Z.to_nat (Z.log2 n))) n) by lia.
  cbn [digits_rev_loop]. destruct (Z.ltb_spec n b); [done|]. f_equal.
  pose proof (log2_div b n Hb ltac:(lia)). pose proof (Z.log2_nonneg (n `div` b)).
  apply digits_rev_fuel; [done|apply Z.div_pos; lia|lia|lia].
Qed.

Lemma digits_num b n : 2 ≤ b → 0 ≤ n → num b (digits b n) = n ∧ Forall (λ d, 0 ≤ d < b) (digits b n).
Proof.
  intros Hb Hn. unfold digits, digits_rev. pose proof (Z.log2_nonneg n).
  destruct (digits_rev_loop_num b (Z.to_nat (Z.log2 n)) n) as [H1 H2]; [done|done|lia|].
  split; [done|]. by apply Forall_reverse.
Qed.

(** The digits a loop [while (n > 0) { ... n % 10 ...; n /= 10; }] finds. *)
Definition dec_rev (n : Z) : list Z := if n <=? 0 then [] else digits_rev 10 n.

Lemma dec_rev_step n : 0 < n → dec_rev n = n `mod` 10 :: dec_rev (n `div` 10).
Proof.
  intros Hn. unfold dec_rev. zb_false (n <=? 0). rewrite digits_rev_unfold by lia. destruct (Z.ltb_spec n 10).
  - rewrite Z.mod_small, Z.div_small by lia. done.
  - assert (0 < n `div` 10) by dlia. by zb_false (n `div` 10 <=? 0).
Qed.

Lemma dec_rev_length k n : n < 10 ^ Z.of_nat k → (length (dec_rev n) ≤ k)%nat.
Proof.
  revert n. induction k as [|k IH]; intros n Hn.
  - unfold dec_rev. zb_true (n <=? 0). done.
  - destruct (Z.leb_spec n 0); [unfold dec_rev; zb_true (n <=? 0); simpl; lia|]. rewrite dec_rev_step by done. simpl.
    rewrite Nat2Z.inj_succ, Z.pow_succ_r in Hn by lia. pose proof (IH (n `div` 10) ltac:(dlia)). lia.
Qed.

Lemma dec_rev_range n : Forall (λ d, 0 ≤ d < 10) (dec_rev n).
Proof.
  unfold dec_rev. destruct (Z.leb_spec n 0); [done|]. destruct (digits_num 10 n) as [_ Hd]; [lia|lia|].
  unfold digits in Hd. by rewrite Forall_reverse in Hd.
Qed.

Lemma dec_text_rev n : 0 < n → dec_text n = reverse (map (λ d, 48 + d) (dec_rev n)).
Proof.
  intros Hn. pose proof (dec_rev_range n) as Hr. unfold dec_text, digits. unfold dec_rev in *. zb_false (n <? 0).
  destruct (Z.leb_spec n 0); [lia|]. rewrite Z.abs_eq by lia. cbn [app]. etransitivity; [apply (fmap_reverse digit_char)|]. f_equal.
  induction Hr as [|d l Hd _ IH]; [done|]. cbn. rewrite <- IH. unfold digit_char. by zb_true (d <? 10).
Qed.

Lemma digits_rev_ne b n : digits_rev b n ≠ [].
Proof. unfold digits_rev. destruct (Z.to_nat (Z.log2 n)); simpl; [done|]. by case_match. Qed.

Lemma digits_ne b n : digits b n ≠ [].
Proof. unfold digits. intros H. apply (f_equal reverse) in H. rewrite reverse_involutive in H. by apply digits_rev_ne in H. Qed.

Lemma digit_char_ok d : 0 ≤ d < 36 → is_char (digit_char d) ∧ digit_value (i8 (digit_char d)) = d.
Proof.
  intros Hd. unfold is_char.
  assert ((0 <? digit_char d) && (digit_char d <? 256) && (digit_value (i8 (digit_char d)) =? d) = true) as Hx
    by (by_range d 36).
  rewrite !andb_true_iff, !Z.ltb_lt, Z.eqb_eq in Hx. tauto.
Qed.

Lemma digits_of_chars b ds rest :
  2 ≤ b ≤ 36 → Forall (λ d, 0 ≤ d < b) ds → digits_of b rest = [] →
  digits_of b (map digit_char ds ++ rest) = ds.
Proof.
  intros Hb Hds Hr. induction Hds as [|d ds Hd _ IH]; simpl; [done|].
  destruct (digit_char_ok d) as [_ ->]; [lia|]. zb_false (b <=? d). by rewrite IH.
Qed.

Lemma dec_digit_char d : 0 ≤ d < 10 → 48 ≤ digit_char d ≤ 57.
Proof. intros. unfold digit_char. zb_true (d <? 10). lia. Qed.

(** The shape of decimal text: no blanks, a sign only when negative. *)
Lemma dec_text_ref z rest :
  digits_of 10 rest = [] →
  strtol_ref (dec_text z ++ rest) 10 = Some (z, length (dec_text z)).
Proof.
  intros Hr. destruct (digits_num 10 (Z.abs z)) as [Hn Hd]; [lia|lia|].
  pose proof (digits_ne 10 (Z.abs z)) as Hne. unfold dec_text.
  destruct (digits 10 (Z.abs z)) as [|d ds] eqn:E; [done|].
  assert (48 ≤ digit_char d ≤ 57) as Hc by (apply Forall_cons in Hd as [? _]; by apply dec_digit_char).
  pose proof (digits_of_chars 10 (d :: ds) rest ltac:(lia) Hd Hr) as Hdig.
  assert (is_blank (digit_char d) = false) as Hb by (unfold is_blank; bool_cases; lia || done).
  unfold strtol_ref. destruct (Z.ltb_spec z 0) as [Hz|Hz].
  - change (lit "-") with [45]. cbn [app map blanks]. change (is_blank 45) with false. cbn iota.
    cbn [drop sign_len is_negative]. change ((45 =? chr "+") || (45 =? chr "-")) with true. cbn iota.
    cbn [drop]. cbn [map app] in Hdig.
    change (effective_base 10 (digit_char d :: (map digit_char ds ++ rest))) with (0%nat, 10).
    cbn iota. rewrite drop_0, Hdig. change (45 =? chr "-") with true. cbn iota.
    rewrite Hn. simpl. rewrite length_map. tuple_eq.
  - cbn [app map blanks]. rewrite Hb. cbn [drop sign_len is_negative].
    change (chr "+") with 43. change (chr "-") with 45.
    rewrite (proj2 (Z.eqb_neq (digit_char d) 43)), (proj2 (Z.eqb_neq (digit_char d) 45)) by lia.
    cbn [orb drop map app] in *.
    change (effective_base 10 (digit_char d :: (map digit_char ds ++ rest))) with (0%nat, 10).
    cbn iota. rewrite drop_0, Hdig, Hn. simpl. rewrite length_map. tuple_eq.
Qed.

Lemma dec_text_chars z : Forall is_char (dec_text z).
Proof.
  unfold dec_text. destruct (digits_num 10 (Z.abs z)) as [_ Hd]; [lia|lia|]. apply Forall_app. split.
  - destruct (z <? 0); [|done]. constructor; [|done]. by vm_compute.
  - apply Forall_map. eapply Forall_impl; [done|]. intros d Hr. simpl in Hr. apply digit_char_ok. lia.
Qed.
End positional.

(** ** Strings on the heap and the environment *)

Section heap_strings_ok.
Context {K : Type} `{Sbrk K}.

(** Allocating and filling a block with the bytes at an owned address. *)
Lemma malloc_fill base (s : heap K) ts p bs size :
  rep base s ts → coalesced ts → 0 ≤ size ≤ MAX_REQUEST → Z.of_nat (length bs) ≤ size →
  seg (ram s) p bs → Forall is_u8 bs → owned base ts p (Z.of_nat (length bs)) →
  malloc s size = Some (0, s) ∨
  ∃ q s1 n ts1, malloc s size = Some (q, s1) ∧ q ≠ 0 ∧ size ≤ n ∧ mapped (ram s1) q n ∧
    memcpy (ram s1) q p (Z.of_nat (length bs)) = Some (q, write (ram s1) q bs) ∧
    rep base s1 ts1 ∧ coalesced ts1 ∧ live base ts1 ≡ₚ (q - HDR_SIZE, n) :: live base ts ∧
    (∀ a, a < brk (kern s) → ram s1 !! a = ram s !! a).
Proof.
  intros Hr Hco Hsz Hlen Hseg Hu8 Hown.
  destruct (malloc_good base s ts size Hr Hco Hsz)
    as [(-> & _)|(q & s1 & n & ts1 & -> & Hr1 & Hco1 & Hn & Hl1 & Hram1)]; [by left|]. right.
  destruct (live_block base s1 ts1 (q - HDR_SIZE) n Hr1) as (_ & Hqlo & _ & _ & Hmap & _).
  { rewrite Hl1. set_solver. }
  replace (q - HDR_SIZE + HDR_SIZE) with q in Hmap by lia. pose proof (rep_base _ _ _ Hr).
  destruct (owned_apart base s s1 ts ts1 q n p (Z.of_nat (length bs)) Hr Hr1 Hl1 Hown ltac:(lia)) as [Hdis Hhi].
  exists q, s1, n, ts1. split_and!; try done; [unfold HDR_SIZE in *; lia|].
  apply memcpy_ok; [|eapply mapped_weaken; [done|lia|lia]|done|unfold disjoint in *; lia].
  intros i b Hib. rewrite Hram1; [by apply Hseg|]. apply lookup_lt_Some in Hib. lia.
Qed.

(** [strdup]: NULL with the heap unchanged, or a fresh block that holds a
    copy of the string, with every byte that was there before (the string and
    the held blocks among them) intact. *)
Theorem strdup_copies base (s : heap K) ts p t :
  rep base s ts → coalesced ts → cstr (ram s) p t → Z.of_nat (length t) < MAX_REQUEST →
  owned base ts p (Z.of_nat (length t) + 1) →
  strdup s p = Some (0, s) ∨
  ∃ q s' n ts', strdup s p = Some (q, s') ∧ cstr (ram s') q t ∧ rep base s' ts' ∧ coalesced ts' ∧
    Z.of_nat (length t) < n ∧ live base ts' ≡ₚ (q - HDR_SIZE, n) :: live base ts ∧
    (∀ a, a < brk (kern s) → ¬ (q ≤ a < q + n) → ram s' !! a = ram s !! a).
Proof.
  intros Hr Hco Ht Hlen Hown. unfold strdup, MAX_REQUEST in *.
  rewrite (strlen_ok _ _ _ Ht) by (unfold is_u32; lia). bind_step.
  rewrite u32_small by (unfold is_u32; lia). destruct Ht as [Hseg Hch].
  assert (Z.of_nat (length t) + 1 = Z.of_nat (length (t ++ [0]))) as Hl by (rewrite length_app; simpl; lia).
  rewrite Hl in *.
  destruct (malloc_fill base s ts p (t ++ [0]) (Z.of_nat (length (t ++ [0]))) Hr Hco)
    as [->|(q & s1 & n & ts1 & -> & Hq & Hn & Hmap & Hcpy & Hr1 & Hco1 & Hl1 & Hram1)];
    [unfold MAX_REQUEST; lia|lia|done| |done|by left|].
  { apply Forall_app. split; [eapply Forall_impl; [done|apply is_char_u8]|]. by repeat constructor. }
  right. bind_step. rewrite (proj2 (Z.eqb_neq q 0)), Hcpy by done. bind_step.
  exists q, (with_ram s1 (write (ram s1) q (t ++ [0]))), n, ts1. split_and!; try done.
  - by apply cstr_write.
  - by apply rep_with_ram.
  - lia.
  - intros a Ha Hout. cbn [ram with_ram]. rewrite lookup_write_out by lia. by apply Hram1.
Qed.
End heap_strings_ok.

(** The text of a kernel entry: what precedes the first NUL. *)
Fixpoint text_of (bs : list Z) : list Z :=
  match bs with
  | [] => []
  | b :: bs' => if b =? 0 then [] else b :: text_of bs'
  end.

(** The value of the first of [k] slots from [i] on that reads "NAME=value". *)
Fixpoint env_find (slot : Z → option (list Z)) (k : nat) (i : Z) (name : list Z) : option (list Z) :=
  match k with
  | O => None
  | S k' =>
      match slot i with
      | Some bs =>
          if is_prefix (name ++ lit "=") (text_of bs)
          then Some (drop (length name + 1) (text_of bs))
          else env_find slot k' (i + 1) name
      | None => env_find slot k' (i + 1) name
      end
  end.

Section getenv_ok.
Context (slot : Z → option (list Z)) (entry value : Z).

(** What the kernel copies: 128 bytes of which one is the terminator. *)
Hypothesis slot_entry : ∀ i bs, slot i = Some bs →
  length bs = Z.to_nat ENTRY_SIZE ∧ 0 ∈ bs ∧ Forall is_u8 bs.
Hypothesis buffers_apart : entry + ENTRY_SIZE ≤ value.

Lemma text_of_split bs : 0 ∈ bs → Forall is_u8 bs →
  ∃ pad, bs = text_of bs ++ 0 :: pad ∧ Forall is_char (text_of bs).
Proof.
  intros H0 Hu. induction Hu as [|b bs Hb _ IH]; [by apply elem_of_nil in H0|]. simpl.
  destruct (Z.eqb_spec b 0) as [->|Hne]; [by exists bs|].
  apply elem_of_cons in H0 as [?|H0]; [done|]. destruct (IH H0) as (pad & Heq & Hch).
  exists pad. simpl. rewrite <- Heq. split; [done|]. constructor; [|done]. unfold is_u8, is_char in *. lia.
Qed.

Lemma entry_cstr m bs i :
  slot i = Some bs → cstr (write m entry bs) entry (text_of bs) ∧ (length (text_of bs) < 128)%nat.
Proof using slot_entry.
  intros Hs. destruct (slot_entry _ _ Hs) as (Hlen & H0 & Hu).
  destruct (text_of_split bs H0 Hu) as (pad & Heq & Hch). split.
  - split; [|done]. pose proof (seg_write m entry bs) as Hseg. rewrite Heq in Hseg at 2.
    change (0 :: pad) with ([0] ++ pad) in Hseg. rewrite app_assoc in Hseg. by apply seg_app in Hseg as [? _].
  - apply (f_equal length) in Heq. rewrite length_app in Heq. simpl in Heq. unfold ENTRY_SIZE in Hlen. lia.
Qed.

Lemma is_prefix_app t u s : is_prefix (t ++ u) s = is_prefix t s && is_prefix u (drop (length t) s).
Proof.
  revert s. induction t as [|x t IH]; intros [|y s]; simpl; try done.
  rewrite IH. by rewrite andb_assoc.
Qed.

Lemma is_prefix_len t s : is_prefix t s = true → (length t ≤ length s)%nat.
Proof.
  revert s. induction t as [|x t IH]; intros [|y s]; simpl; try lia.
  intros [_ ?%IH]%andb_true_iff. lia.
Qed.

Lemma getenv_loop_ok m (k : nat) i name t :
  cstr m name t → disjoint entry ENTRY_SIZE name (Z.of_nat (length t) + 1) →
  mapped m entry ENTRY_SIZE → mapped m value ENTRY_SIZE →
  match env_find slot k i t with
  | None => ∃ m', getenv_loop slot entry value k m i name (Z.of_nat (length t)) = Some (0, m')
  | Some v => ∃ m', getenv_loop slot entry value k m i name (Z.of_nat (length t)) = Some (value, m') ∧
      cstr m' value v
  end.
Proof using slot_entry buffers_apart.
  revert m i. induction k as [|k IH]; intros m i Ht Hd He Hv; simpl; [by eauto|].
  destruct (slot i) as [bs|] eqn:Es; [|by apply IH].
  destruct (entry_cstr m bs i Es) as [Hce Hlt]. destruct (slot_entry _ _ Es) as (Hlen & _).
  set (m1 := write m entry bs) in *.
  assert (cstr m1 name t) as Ht1.
  { apply cstr_write_disjoint; [|done]. rewrite Hlen. unfold ENTRY_SIZE in *. simpl. done. }
  assert (mapped m1 entry ENTRY_SIZE ∧ mapped m1 value ENTRY_SIZE) as [He1 Hv1]
    by (split; by apply mapped_write).
  unfold strncmp. rewrite Nat2Z.id, (strncmp_loop_spec _ _ _ _ _ _ Hce Ht1). cbn [mbind option_bind].
  rewrite lexdiff_prefix by (by destruct Hce, Ht1). rewrite is_prefix_app.
  destruct (is_prefix t (text_of bs)) eqn:Ep; cbn [negb andb]; [|by apply IH].
  pose proof (is_prefix_len _ _ Ep) as Hle. rewrite (load_cstr _ _ _ _ Hce Hle). cbn [mbind option_bind].
  pose proof (cstr_drop _ _ _ _ Hle Hce) as Hcd.
  assert (char_at (text_of bs) (length t) = char_at (drop (length t) (text_of bs)) 0) as ->.
  { unfold char_at. rewrite lookup_drop, Nat.add_0_r. done. }
  rewrite <- drop_drop. destruct (drop (length t) (text_of bs)) as [|c v] eqn:Edrop.
  { change (negb (char_at [] 0 =? chr "=")) with true. cbn. by apply IH. }
  assert (is_prefix (lit "=") (c :: v) = (c =? chr "=")) as ->.
  { change (lit "=") with [chr "="]. cbn [is_prefix]. rewrite andb_true_r. apply Z.eqb_sym. }
  change (char_at (c :: v) 0) with c. change (drop 1 (c :: v)) with (drop 0 v). rewrite drop_0.
  destruct (c =? chr "="); cbn [negb]; [|by apply IH].
  apply cstr_cons in Hcd as (_ & _ & Hcv).
  assert (length v < 128)%nat as Hvl.
  { apply (f_equal length) in Edrop. rewrite length_drop in Edrop. simpl in Edrop. lia. }
  assert (length t + S (length v) < 128)%nat as Htv.
  { apply (f_equal length) in Edrop. rewrite length_drop in Edrop. simpl in Edrop. lia. }
  rewrite (strcpy_ok m1 value (entry + Z.of_nat (length t) + 1) v); [|done| |].
  - cbn [mbind option_bind]. eexists. split; [done|]. apply cstr_write. by destruct Hcv.
  - eapply mapped_weaken; [exact Hv1|lia|unfold ENTRY_SIZE; lia].
  - right. unfold ENTRY_SIZE in *. lia.
Qed.

(** [getenv] returns the value of the first of the 32 kernel slots that
    reads "NAME=value" (the value alone, as a string in the static buffer), and
    NULL exactly when no slot does; a name that is only a prefix of a slot's
    name does not match. *)
Theorem getenv_first m name t :
  name ≠ 0 → t ≠ [] → cstr m name t → disjoint entry ENTRY_SIZE name (Z.of_nat (length t) + 1) →
  is_u32 (Z.of_nat (length t)) → mapped m entry ENTRY_SIZE → mapped m value ENTRY_SIZE →
  match env_find slot 32 0 t with
  | None => ∃ m', getenv slot entry value m name = Some (0, m')
  | Some v => ∃ m', getenv slot entry value m name = Some (value, m') ∧ cstr m' value v
  end.
Proof using slot_entry buffers_apart.
  intros Hn Hne Ht Hd Hu He Hv. unfold getenv. rewrite (proj2 (Z.eqb_neq name 0)) by done.
  rewrite (load_cstr0 _ _ _ Ht). cbn [mbind option_bind].
  destruct t as [|c t]; [done|]. pose proof Ht as (_ & Hc & _)%cstr_cons.
  change (char_at (c :: t) 0) with c. unfold is_char in Hc. zb_false (c =? 0).
  rewrite (strlen_ok _ _ _ Ht Hu). cbn [mbind option_bind]. by apply getenv_loop_ok.
Qed.
End getenv_ok.

(** ** The process end *)

Section atexit_ok.
Context {W : Type} (run : Z → W → W).

(** At [exit] the registered handlers run newest first, each exactly once,
    before the process ends; a ninth registration and a NULL handler are
    refused with the table unchanged; a handler registered by a running
    handler runs next. *)
Theorem atexit_lifo (funcs : list Z) (w : W) fn status :
  let call := λ f fs w, (fs, run f w) in
  (exit call (length funcs) funcs w status = Some (foldl (λ w f, run f w) w (reverse funcs), status)) ∧
  (atexit funcs fn =
     if decide (fn = 0 ∨ (8 ≤ length funcs)%nat) then (-1, funcs) else (0, funcs ++ [fn])) ∧
  (∀ new f, (length funcs < 8)%nat → new ≠ 0 → new ≠ fn →
    let call' := λ g fs w, (if g =? fn then snd (atexit fs new) else fs, run g w) in
    mv_run_atexit call' (S (S f)) (funcs ++ [fn]) w = mv_run_atexit call' f funcs (run new (run fn w))).
Proof.
  assert (∀ fs w, mv_run_atexit (λ f fs w, (fs, run f w)) (length fs) fs w
                  = Some (foldl (λ w f, run f w) w (reverse fs))) as Hrun.
  { intros fs. induction fs as [|f fs IH] using rev_ind; intros w'; [done|].
    rewrite length_app, Nat.add_1_r. simpl. rewrite last_snoc.
    rewrite removelast_last, reverse_snoc. apply IH. }
  cbv zeta. split_and!.
  - unfold exit. by rewrite Hrun.
  - unfold atexit, ATEXIT_MAX_FUNCS. destruct (Z.eqb_spec fn 0), (Nat.leb_spec 8 (length funcs)); simpl;
      case_decide; done || lia.
  - intros new f Hl Hnew Hne. set (call' := λ g fs w, _).
    assert (call' fn funcs w = (funcs ++ [new], run fn w)) as E1.
    { unfold call', atexit, ATEXIT_MAX_FUNCS. rewrite Z.eqb_refl, (proj2 (Z.eqb_neq new 0)) by done.
      by rewrite (proj2 (Nat.leb_gt 8 _)) by lia. }
    assert (call' new funcs (run fn w) = (funcs, run new (run fn w))) as E2.
    { unfold call'. by rewrite (proj2 (Z.eqb_neq new fn)). }
    cbn [mv_run_atexit]. rewrite last_snoc, removelast_last, E1.
    cbn [mv_run_atexit]. rewrite last_snoc, removelast_last, E2. done.
Qed.
End atexit_ok.

(** ** The claims on conversions *)

Lemma strtol_ref_blanks ws t base :
  Forall (λ c, is_blank c = true) ws →
  strtol_ref (ws ++ t) base = (λ r, (fst r, length ws + snd r)%nat) <$> strtol_ref t base.
Proof.
  intros Hws. assert (blanks (ws ++ t) = length ws + blanks t ∧
                      drop (blanks (ws ++ t)) (ws ++ t) = drop (blanks t) t)%nat as [Hb Hd].
  { induction Hws as [|c ws Hc _ [IH1 IH2]]; [done|]. simpl. rewrite Hc. simpl. rewrite IH2, IH1. done. }
  unfold strtol_ref. rewrite Hd, Hb. cbv zeta.
  destruct (effective_base _ _) as [k b]. destruct (digits_of _ _); simpl; [done|]. tuple_eq.
Qed.

(** [C37] The conversion family: with base 0 or 2 to 36, on every string,
    [strtol] returns the number the text denotes (blanks, sign, 0x/0 prefix,
    digits of the base) reduced to 32 bits, stores the end of the digits, and
    leaves [errno]; with no digits it returns 0, the start and EINVAL.  The
    unsigned and 64-bit variants reinterpret that 32-bit result. *)
Theorem strtol_spec m s t base errno :
  cstr m s t → base = 0 ∨ 2 ≤ base ≤ 36 →
  let r := strtol_ref t base in
  let e := from_option (λ x, s + Z.of_nat (snd x)) s r in
  let err := from_option (λ _, errno) EINVAL r in
  let v := from_option (λ x, i32 (fst x)) 0 r in
  strtol m s base errno = Some (v, e, err) ∧ strtoul m s base errno = Some (u32 v, e, err) ∧
  strtoll m s base errno = Some (v, e, err) ∧ strtoull m s base errno = Some (u64 v, e, err).
Proof.
  intros Hs Hb. cbv zeta. pose proof (strtol_ok m s t base errno Hs Hb) as Hk.
  unfold strtoul, strtoll, strtoull. rewrite Hk. unfold from_option.
  destruct (strtol_ref t base) as [[v n]|]; simpl; split_and!; try done; tuple_eq.
  pose proof (i32_bound v). word_lia.
Qed.

(** Round trip: the decimal text of any 32-bit signed number, after any
    blanks and before any non-digit, is read back as that number by [strtol],
    with the end pointer just past the digits. *)
Theorem strtol_decimal m s ws z rest errno :
  is_i32 z → Forall (λ c, is_blank c = true) ws → digits_of 10 rest = [] →
  cstr m s (ws ++ dec_text z ++ rest) →
  strtol m s 10 errno = Some (z, s + Z.of_nat (length ws + length (dec_text z)), errno).
Proof.
  intros Hz Hws Hr Hs. rewrite (strtol_ok _ _ _ 10 errno Hs) by lia.
  rewrite strtol_ref_blanks, dec_text_ref by done. simpl. by rewrite i32_small.
Qed.

(** ** Witnesses *)

Definition num_mem : mem := mem_of 100 (lit "  -0x1F!" ++ [0] ++ lit " -42," ++ [0]).

Lemma strtol_spec_witness :
  cstr num_mem 100 (lit "  -0x1F!") ∧ strtol num_mem 100 0 0 = Some (-31, 107, 0).
Proof.
  assert (cstr num_mem 100 (lit "  -0x1F!")) as Hs by (apply cstrb_cstr; vm_compute; reflexivity).
  split; [exact Hs|]. exact (proj1 (strtol_spec num_mem 100 _ 0 0 Hs ltac:(lia))).
Defined.

Lemma strtol_decimal_witness :
  cstr num_mem 109 (lit " " ++ dec_text (-42) ++ lit ",") ∧
  strtol num_mem 109 10 5 = Some (-42, 113, 5).
Proof.
  assert (cstr num_mem 109 (lit " " ++ dec_text (-42) ++ lit ",")) as Hs
    by (apply cstrb_cstr; vm_compute; reflexivity).
  split; [exact Hs|].
  exact (strtol_decimal num_mem 109 (lit " ") (-42) (lit ",") 5 ltac:(unfold is_i32; lia)
           ltac:(by repeat constructor) eq_refl Hs).
Defined.

Lemma atoi_is_strtol_witness :
  cstr num_mem 109 (lit " -42,") ∧ atoi num_mem 109 = fst ∘ fst <$> strtol num_mem 109 10 0.
Proof.
  assert (cstr num_mem 109 (lit " -42,")) as Hs by (apply cstrb_cstr; vm_compute; reflexivity).
  split; [exact Hs|]. apply (atoi_is_strtol num_mem 109 (lit " -42,") 0 Hs).
  repeat constructor.
Defined.

(** A heap whose only memory besides is a string below the break. *)
Definition str_heap : heap Z := with_ram task0 (mem_of 4096 (lit "badger" ++ [0])).

Lemma str_heap_rep : rep HEAP_FLOOR str_heap [].
Proof. exact (rep_with_ram HEAP_FLOOR task0 [] 4096 (lit "badger" ++ [0]) task_init_rep). Qed.

Lemma strdup_copies_witness :
  cstr (ram str_heap) 4096 (lit "badger") ∧
  ∃ q s', strdup str_heap 4096 = Some (q, s') ∧ q ≠ 0 ∧ cstr (ram s') q (lit "badger").
Proof.
  assert (cstr (ram str_heap) 4096 (lit "badger")) as Hs by (apply cstrb_cstr; vm_compute; reflexivity).
  split; [exact Hs|].
  assert (fst <$> strdup str_heap 4096 = Some 5246992) as Hv by (vm_compute; reflexivity).
  destruct (strdup_copies HEAP_FLOOR str_heap [] 4096 (lit "badger") str_heap_rep I Hs)
    as [Hn|(q & s' & n & ts' & Hd & Hc & _)].
  - vm_compute. reflexivity.
  - right. vm_compute. congruence.
  - apply (f_equal (fmap fst)) in Hn. rewrite Hv in Hn. cbn [fmap option_fmap option_map fst] in Hn.
    congruence.
  - exists q, s'. pose proof Hd as Hq. apply (f_equal (fmap fst)) in Hq. rewrite Hv in Hq.
    cbn [fmap option_fmap option_map fst] in Hq. split; [exact Hd|]. split; [congruence|exact Hc].
Defined.

Definition env_slot (i : Z) : option (list Z) :=
  if i =? 3 then Some (lit "PATHEXT=no" ++ replicate 118 0)
  else if i =? 5 then Some (lit "PATH=/bin" ++ replicate 119 0)
  else None.
Definition env_mem : mem := mem_of 1000 (replicate 256 0 ++ lit "PATH" ++ [0]).

Lemma getenv_first_witness :
  ∃ m', getenv env_slot 1000 1128 env_mem 1256 = Some (1128, m') ∧ cstr m' 1128 (lit "/bin").
Proof.
  apply (getenv_first env_slot 1000 1128) with (t := lit "PATH").
  - intros i bs. unfold env_slot. destruct (i =? 3); [|destruct (i =? 5); [|discriminate]];
      intros [= <-]; (split; [reflexivity|split]).
    1,3: apply (bool_decide_eq_true_1 (0 ∈ _)); vm_compute; reflexivity.
    all: repeat constructor; unfold is_u8; vm_compute; congruence.
  - unfold ENTRY_SIZE. lia.
  - discriminate.
  - discriminate.
  - apply cstrb_cstr. vm_compute. reflexivity.
  - left. unfold ENTRY_SIZE. lia.
  - unfold is_u32. vm_compute. split; congruence.
  - apply mappedb_mapped. vm_compute. reflexivity.
  - apply mappedb_mapped. vm_compute. reflexivity.
Defined.

Lemma atexit_lifo_witness :
  exit (λ f fs w, (fs, f :: w)) 3 [10; 20; 30] [] 0 = Some ([10; 20; 30], 0).
Proof. exact (proj1 (atexit_lifo (λ f w, f :: w) [10; 20; 30] [] 1 0)). Defined.
