(* ===== verification/QSort.v ===== *)
(** * [bsearch] and [qsort] of [c/rt/stdlib.c]

    An array of [count] elements of [size] bytes lies in memory; the comparison
    function reads the bytes of two elements.  The bottom-up merge (with the
    scratch block of the heap) and the insertion sort it falls back to are both
    compared with [isort], the stable insertion sort on lists. *)

From S2P Require Import Prelude CMem CString Heap HeapSpec.

(** The [size] bytes of the element at [p]. *)
Fixpoint read (n : nat) (m : mem) (p : Z) : option (list Z) :=
  match n with
  | O => Some []
  | S n' => b ← load m p; bs ← read n' m (p + 1); Some (b :: bs)
  end.

(** ** [bsearch]: [order e] is [cmp(key, e)] *)

Fixpoint bsearch_loop (f : nat) (order : list Z → Z) (m : mem) (lo n size : Z) : option Z :=
  match f with
  | O => None
  | S f' =>
      if n =? 0 then Some 0
      else
        let half := n `div` 2 in
        let mid := lo + half * size in
        e ← read (Z.to_nat size) m mid;
        let order_ := order e in
        if order_ =? 0 then Some mid
        else if 0 <? order_ then bsearch_loop f' order m (mid + size) (n - (half + 1)) size
        else bsearch_loop f' order m lo half size
  end.

Definition bsearch (order : list Z → Z) (m : mem) (base count size : Z) : option Z :=
  bsearch_loop (S (S (Z.to_nat (Z.log2 count)))) order m base count size.

(** ** [qsort] *)

Section qsort.
Context (cmp : list Z → list Z → Z).

Definition cmp_at (m : mem) (p q size : Z) : option Z :=
  x ← read (Z.to_nat size) m p; y ← read (Z.to_nat size) m q; Some (cmp x y).

(** [for (k = 0; k < size; k++)]: swap two elements byte by byte. *)
Fixpoint swap_bytes (n : nat) (m : mem) (left right : Z) : option mem :=
  match n with
  | O => Some m
  | S n' =>
      t ← load m left; r ← load m right;
      m ← store m left r; m ← store m right t;
      swap_bytes n' m (left + 1) (right + 1)
  end.

(** [for (j = i; j > 0; j--)] of the insertion sort. *)
Fixpoint insert_down (j : nat) (m : mem) (a size : Z) : option mem :=
  match j with
  | O => Some m
  | S j' =>
      let left := a + Z.of_nat j' * size in
      let right := a + Z.of_nat j * size in
      c ← cmp_at m left right size;
      if c <=? 0 then Some m
      else m ← swap_bytes (Z.to_nat size) m left right; insert_down j' m a size
  end.

(** [for (i = 1; i < count; i++)], [n] rounds from [i] on. *)
Fixpoint insertion_loop (n : nat) (i : nat) (m : mem) (a size : Z) : option mem :=
  match n with
  | O => Some m
  | S n' => m ← insert_down i m a size; insertion_loop n' (S i) m a size
  end.

Definition insertion_sort (m : mem) (a count size : Z) : option mem :=
  insertion_loop (Z.to_nat (count - 1)) 1 m a size.

(** [while (i < mid && j < right)]: the result is the memory with [i], [j], [k]. *)
Fixpoint merge_both (f : nat) (m : mem) (src scratch size i mid j right k : Z)
    : option (mem * Z * Z * Z) :=
  if negb ((i <? mid) && (j <? right)) then Some (m, i, j, k)
  else
    match f with
    | O => None
    | S f' =>
        c ← cmp_at m (src + j * size) (src + i * size) size;
        if c <? 0 then
          '(_, m) ← memcpy m (scratch + k * size) (src + j * size) size;
          merge_both f' m src scratch size i mid (j + 1) right (k + 1)
        else
          '(_, m) ← memcpy m (scratch + k * size) (src + i * size) size;
          merge_both f' m src scratch size (i + 1) mid j right (k + 1)
    end.

(** [while (i < mid) memcpy(...)]. *)
Fixpoint merge_rest (f : nat) (m : mem) (src scratch size i mid k : Z) : option (mem * Z) :=
  if negb (i <? mid) then Some (m, k)
  else
    match f with
    | O => None
    | S f' =>
        '(_, m) ← memcpy m (scratch + k * size) (src + i * size) size;
        merge_rest f' m src scratch size (i + 1) mid (k + 1)
    end.

(** One round of the [for] over [start]: merge two neighbouring runs. *)
Definition merge_runs (m : mem) (src scratch size count width start : Z) : option mem :=
  let mid0 := start + width in
  let right0 := start + width * 2 in
  let mid := if count <? mid0 then count else mid0 in
  let right := if count <? right0 then count else right0 in
  let f := Z.to_nat (width * 2) in
  '(m, i, j, k) ← merge_both f m src scratch size start mid mid0 right start;
  '(m, k) ← merge_rest f m src scratch size i mid k;
  '(m, _) ← merge_rest f m src scratch size j right k;
  Some m.

Fixpoint merge_pass (f : nat) (m : mem) (src scratch size count width start : Z) : option mem :=
  if negb (start <? count) then Some m
  else
    match f with
    | O => None
    | S f' =>
        m ← merge_runs m src scratch size count width start;
        merge_pass f' m src scratch size count width (start + width * 2)
    end.

(** [while (width < count)]: a pass, then the two buffers change places. *)
Fixpoint merge_passes (f : nat) (m : mem) (src scratch size count width : Z)
    : option (mem * Z * Z) :=
  if negb (width <? count) then Some (m, src, scratch)
  else
    match f with
    | O => None
    | S f' =>
        m ← merge_pass (Z.to_nat count) m src scratch size count width 0;
        merge_passes f' m scratch src size count (width * 2)
    end.

(** The passes and the copy back; the second component is [src], the pointer the
    function frees at its end. *)
Definition qsort_merge (m : mem) (base scratch count size : Z) : option (mem * Z) :=
  '(m, src, _) ← merge_passes (Z.to_nat count) m base scratch size count 1;
  if negb (src =? base) then '(_, m) ← memcpy m base src (u32 (count * size)); Some (m, src)
  else Some (m, src).

Context {K : Type} `{Sbrk K}.

Definition qsort (s : heap K) (base count size : Z) : option (heap K) :=
  if (count <? 2) || (size =? 0) then Some s
  else
    '(scratch, s1) ← malloc s (u32 (count * size));
    if scratch =? 0 then m ← insertion_sort (ram s1) base count size; Some (with_ram s1 m)
    else
      '(m, src) ← qsort_merge (ram s1) base scratch count size;
      free (with_ram s1 m) src.
End qsort.

(** ** Reference: stable sorting of lists *)

(** A comparison function as C requires it: consistent and transitive. *)
Class Comparator {A} (cmp : A → A → Z) := {
  cmp_flip x y : cmp x y < 0 ↔ 0 < cmp y x;
  cmp_trans x y z : cmp x y ≤ 0 → cmp y z ≤ 0 → cmp x z ≤ 0
}.

Section lists.
Context {A : Type} (cmp : A → A → Z).

Fixpoint insert1 (x : A) (l : list A) : list A :=
  match l with
  | [] => [x]
  | y :: l' => if cmp y x <? 0 then y :: insert1 x l' else x :: l
  end.

Definition isort (l : list A) : list A := foldr insert1 [] l.

Fixpoint merge (l1 : list A) : list A → list A :=
  fix go (l2 : list A) : list A :=
    match l1, l2 with
    | [], _ => l2
    | _, [] => l1
    | x :: l1', y :: l2' => if cmp y x <? 0 then y :: go l2' else x :: merge l1' l2
    end.

Definition le (x y : A) : Prop := cmp x y ≤ 0.
Definition same (x y : A) : Prop := cmp x y = 0.

Lemma merge_nil_l l : merge [] l = l.
Proof. by destruct l. Qed.
Lemma merge_nil_r l : merge l [] = l.
Proof. by destruct l. Qed.
Lemma merge_cons x l1 y l2 :
  merge (x :: l1) (y :: l2) = if cmp y x <? 0 then y :: merge (x :: l1) l2 else x :: merge l1 (y :: l2).
Proof. done. Qed.

Lemma merge_perm l1 l2 : merge l1 l2 ≡ₚ l1 ++ l2.
Proof.
  revert l2. induction l1 as [|x l1 IH1]; intros l2; [by rewrite merge_nil_l|].
  induction l2 as [|y l2 IH2]; [by rewrite merge_nil_r, app_nil_r|].
  rewrite merge_cons. destruct (cmp y x <? 0); [|by rewrite IH1].
  by rewrite IH2, Permutation_middle.
Qed.

Context `{!Comparator cmp}.

Lemma cmp_total x y : cmp x y < 0 ∨ 0 ≤ cmp x y ∧ cmp y x ≤ 0.
Proof using Type*. pose proof (cmp_flip x y). lia. Qed.

Lemma cmp_refl x : cmp x x = 0.
Proof using Type*. pose proof (cmp_flip x x). lia. Qed.

Lemma cmp_le_flip x y : cmp x y ≤ 0 ↔ ¬ cmp y x < 0.
Proof using Type*. rewrite cmp_flip. lia. Qed.

Lemma cmp_lt_trans x y z : cmp x y < 0 → cmp y z ≤ 0 → cmp x z < 0.
Proof using Type*.
  intros H1 H2. destruct (cmp_total x z) as [?|[_ H3]]; [done|].
  pose proof (cmp_trans y z x H2 H3) as H4. apply cmp_flip in H1. lia.
Qed.

Lemma cmp_le_lt_trans x y z : cmp x y ≤ 0 → cmp y z < 0 → cmp x z < 0.
Proof using Type*.
  intros H1 H2. destruct (cmp_total x z) as [?|[_ H3]]; [done|].
  pose proof (cmp_trans z x y H3 H1) as H4. apply cmp_flip in H2. lia.
Qed.

Lemma merge_insert1 x l1 l2 : merge (insert1 x l1) l2 = insert1 x (merge l1 l2).
Proof using Type*.
  revert l2. induction l1 as [|a l1 IH1]; intros l2.
  { rewrite merge_nil_l. induction l2 as [|b l2 IH2]; [done|]. cbn [insert1].
    rewrite merge_cons, merge_nil_l. destruct (cmp b x <? 0); [|done]. by rewrite <- IH2. }
  induction l2 as [|b l2 IH2]; [by rewrite !merge_nil_r|]. cbn [insert1] in IH2 |- *.
  destruct (Z.ltb_spec (cmp a x) 0) as [Hax|Hax].
  - rewrite !merge_cons. destruct (Z.ltb_spec (cmp b a) 0) as [Hba|Hba]; cbn [insert1].
    + assert (cmp b x < 0) by (eapply cmp_lt_trans; [done|lia]).
      zb_true (cmp b x <? 0). by rewrite IH2.
    + zb_true (cmp a x <? 0). by rewrite IH1.
  - rewrite !merge_cons. destruct (Z.ltb_spec (cmp b x) 0) as [Hbx|Hbx].
    + assert (cmp b a < 0).
      { eapply cmp_lt_trans; [done|]. apply cmp_le_flip. lia. }
      zb_true (cmp b a <? 0). cbn [insert1]. zb_true (cmp b x <? 0). by rewrite IH2.
    + destruct (Z.ltb_spec (cmp b a) 0); cbn [insert1].
      * by zb_false (cmp b x <? 0).
      * by zb_false (cmp a x <? 0).
Qed.

Lemma merge_isort l1 l2 : merge (isort l1) (isort l2) = isort (l1 ++ l2).
Proof using Type*.
  induction l1 as [|x l1 IH]; simpl; [by rewrite merge_nil_l|]. by rewrite merge_insert1, IH.
Qed.

Lemma insert1_perm x l : insert1 x l ≡ₚ x :: l.
Proof.
  induction l as [|y l IH]; simpl; [done|]. destruct (cmp y x <? 0); [|done].
  rewrite IH. constructor.
Qed.

Lemma isort_perm l : isort l ≡ₚ l.
Proof. induction l as [|x l IH]; simpl; [done|]. by rewrite insert1_perm, IH. Qed.

Lemma isort_length l : length (isort l) = length l.
Proof. by rewrite isort_perm. Qed.

Lemma insert1_sorted x l : StronglySorted le l → StronglySorted le (insert1 x l).
Proof using Type*.
  induction 1 as [|y l Hs IH Hy]; simpl; [by repeat constructor|].
  destruct (Z.ltb_spec (cmp y x) 0) as [Hyx|Hyx].
  - constructor; [done|]. rewrite insert1_perm. constructor; [unfold le; lia|done].
  - assert (le x y) as Hxy by (apply cmp_le_flip; lia).
    constructor; [by constructor|]. constructor; [done|].
    eapply Forall_impl; [done|]. intros z Hz. by eapply cmp_trans.
Qed.

Lemma isort_sorted l : StronglySorted le (isort l).
Proof using Type*. induction l; simpl; [constructor|]. by apply insert1_sorted. Qed.

#[global] Instance same_dec x y : Decision (same x y).
Proof. unfold same. apply _. Defined.

(** Stability: the elements equal to any [k] keep their order. *)
Lemma insert1_stable k x l : StronglySorted le l →
  filter (same k) (insert1 x l) = filter (same k) (x :: l).
Proof using Type*.
  induction 1 as [|y l Hs IH Hy]; [done|]. cbn [insert1].
  destruct (Z.ltb_spec (cmp y x) 0) as [Hyx|Hyx]; [|done].
  rewrite filter_cons, IH, !filter_cons.
  destruct (decide (same k y)) as [Hky|], (decide (same k x)) as [Hkx|]; try done.
  exfalso. unfold same in *. assert (cmp x k ≤ 0) as Hxk by (apply cmp_le_flip; lia).
  pose proof (cmp_trans x k y Hxk ltac:(lia)) as Hxy. apply cmp_flip in Hyx. lia.
Qed.

Lemma isort_stable k l : filter (same k) (isort l) = filter (same k) l.
Proof using Type*.
  induction l as [|x l IH]; [done|]. cbn [isort foldr]. fold (isort l).
  rewrite insert1_stable by apply isort_sorted. by rewrite !filter_cons, IH.
Qed.

(** Inserting behind the elements that are not greater. *)
Lemma merge_snoc l1 l2 x :
  Forall (λ y, cmp y x ≤ 0) l1 → Forall (λ y, 0 < cmp y x) l2 →
  merge (l1 ++ l2) [x] = l1 ++ x :: l2.
Proof using Type*.
  intros H1 H2. induction H1 as [|y l1 Hy _ IH]; cbn [app].
  - destruct H2 as [|y l2 Hy _]; [done|]. rewrite merge_cons, merge_nil_r.
    apply cmp_flip in Hy. by zb_true (cmp x y <? 0).
  - rewrite merge_cons. apply cmp_le_flip in Hy. rewrite IH. by zb_false (cmp x y <? 0).
Qed.

(** *** The bottom-up passes on lists *)

(** The list as runs of [w] elements, each sorted. *)
Fixpoint runs_loop (f w : nat) (l : list A) : list A :=
  match f, l with
  | S f', _ :: _ => isort (take w l) ++ runs_loop f' w (drop w l)
  | _, _ => []
  end.
Definition runs (w : nat) (l : list A) : list A := runs_loop (length l) w l.

(** One pass: neighbouring runs of [w] elements merged. *)
Fixpoint mpass_loop (f w : nat) (l : list A) : list A :=
  match f, l with
  | S f', _ :: _ => merge (take w l) (take w (drop w l)) ++ mpass_loop f' w (drop (w * 2) l)
  | _, _ => []
  end.
Definition mpass (w : nat) (l : list A) : list A := mpass_loop (length l) w l.

Lemma runs_fuel f g w l : (0 < w)%nat → (length l ≤ f)%nat → (length l ≤ g)%nat →
  runs_loop f w l = runs_loop g w l.
Proof.
  intros Hw. revert g l. induction f as [|f IH]; intros [|g] [|x l] Hf Hg; cbn [length] in *; try done; try lia.
  cbn [runs_loop]. f_equal. apply IH; rewrite length_drop; simpl; lia.
Qed.

Lemma mpass_fuel f g w l : (0 < w)%nat → (length l ≤ f)%nat → (length l ≤ g)%nat →
  mpass_loop f w l = mpass_loop g w l.
Proof.
  intros Hw. revert g l. induction f as [|f IH]; intros [|g] [|x l] Hf Hg; cbn [length] in *; try done; try lia.
  cbn [mpass_loop]. f_equal. apply IH; rewrite length_drop; simpl; lia.
Qed.

Lemma runs_unfold w l : (0 < w)%nat → l ≠ [] → runs w l = isort (take w l) ++ runs w (drop w l).
Proof.
  intros Hw Hl. unfold runs. destruct l as [|x l]; [done|]. cbn [length runs_loop]. f_equal.
  apply runs_fuel; [done| |done]. rewrite length_drop. simpl. lia.
Qed.

Lemma mpass_unfold w l : (0 < w)%nat → l ≠ [] →
  mpass w l = merge (take w l) (take w (drop w l)) ++ mpass w (drop (w * 2) l).
Proof.
  intros Hw Hl. unfold mpass. destruct l as [|x l]; [done|]. cbn [length mpass_loop]. f_equal.
  apply mpass_fuel; [done| |done]. rewrite length_drop. simpl. lia.
Qed.

Lemma runs_nil w : runs w [] = [].
Proof. done. Qed.

(** The first run and the rest of the runs. *)
Lemma runs_take_drop w l : (0 < w)%nat →
  take w (runs w l) = isort (take w l) ∧ drop w (runs w l) = runs w (drop w l).
Proof.
  intros Hw. destruct (decide (l = [])) as [->|Hl]; [by rewrite runs_nil, take_nil, drop_nil|].
  rewrite runs_unfold by done. destruct (decide (w ≤ length l)%nat) as [Hle|Hgt].
  - assert (length (isort (take w l)) = w) as Hlen by (rewrite isort_length, length_take; lia).
    split; [by rewrite take_app_length'|by rewrite drop_app_length'].
  - rewrite (drop_ge l) by lia. rewrite runs_nil, app_nil_r.
    split; [apply take_ge|apply drop_ge]; rewrite isort_length, length_take; lia.
Qed.

Lemma runs_perm w l : (0 < w)%nat → runs w l ≡ₚ l.
Proof.
  intros Hw. induction l as [l IH] using (induction_ltof1 _ length). unfold ltof in IH.
  destruct (decide (l = [])) as [->|Hl]; [done|].
  rewrite runs_unfold, isort_perm, IH, take_drop by (done || (destruct l; [done|]; rewrite length_drop; simpl; lia)).
  done.
Qed.

Lemma mpass_runs w l : (0 < w)%nat → mpass w (runs w l) = runs (w * 2) l.
Proof using Type*.
  intros Hw. induction l as [l IH] using (induction_ltof1 _ length). unfold ltof in IH.
  destruct (decide (l = [])) as [->|Hl]; [done|].
  assert (runs w l ≠ []) as Hr.
  { intros E. apply Hl. apply Permutation_nil. by rewrite <- E, runs_perm. }
  assert (length (drop (w * 2) l) < length l)%nat.
  { destruct l; [done|]. rewrite length_drop. simpl. lia. }
  rewrite mpass_unfold by done. rewrite (runs_unfold (w * 2)) by (done || lia).
  destruct (runs_take_drop w l Hw) as [-> Hd]. rewrite Hd.
  replace (w * 2)%nat with (w + w)%nat by lia. rewrite <- (drop_drop (runs w l)), Hd.
  destruct (runs_take_drop w (drop w l) Hw) as [-> ->]. rewrite merge_isort, drop_drop.
  replace (w + w)%nat with (w * 2)%nat in * by lia. rewrite IH by done. do 2 f_equal.
  rewrite take_take_drop. f_equal. lia.
Qed.

Lemma runs_1 l : runs 1 l = l.
Proof.
  induction l as [|x l IH]; [done|]. rewrite runs_unfold by (done || lia).
  change (drop 1 (x :: l)) with (drop 0 l). by rewrite drop_0, IH.
Qed.

Lemma runs_all w l : (0 < w)%nat → (length l ≤ w)%nat → runs w l = isort l.
Proof.
  intros Hw Hl. destruct (decide (l = [])) as [->|Hne]; [done|]. rewrite runs_unfold by done.
  rewrite take_ge, drop_ge by done. by rewrite runs_nil, app_nil_r.
Qed.
End lists.

(** ** Arrays in memory *)

Section arrays.
Context (size : Z) (Hsize : 0 < size).

Definition elem_ok (e : list Z) : Prop := length e = Z.to_nat size ∧ Forall is_u8 e.

Lemma length_concat es : Forall elem_ok es → Z.of_nat (length (concat es)) = Z.of_nat (length es) * size.
Proof using Hsize.
  induction 1 as [|e es [He _] _ IH]; [done|]. cbn [concat length]. rewrite length_app, He. lia.
Qed.

Lemma arr_elem m p es (i : nat) e :
  seg m p (concat es) → Forall elem_ok es → es !! i = Some e →
  seg m (p + Z.of_nat i * size) e ∧ elem_ok e.
Proof using Hsize.
  intros Hs Hok Hi. pose proof (take_drop_middle _ _ _ Hi) as Hes.
  rewrite <- Hes, concat_app in Hs. apply seg_app in Hs as [_ Hs]. cbn [concat] in Hs.
  apply seg_app in Hs as [Hs _]. rewrite length_concat in Hs by (by apply Forall_take).
  rewrite length_take in Hs. apply lookup_lt_Some in Hi as Hlt. rewrite Nat.min_l in Hs by lia.
  split; [done|]. by eapply Forall_lookup_1.
Qed.

Lemma read_seg m p e : seg m p e → read (length e) m p = Some e.
Proof.
  revert p. induction e as [|b e IH]; intros p Hs; [done|]. apply seg_cons in Hs as [Hb Hs].
  cbn [length read]. unfold load. rewrite Hb. bind_step. by rewrite (IH _ Hs).
Qed.

Lemma read_elem m p es (i : nat) e :
  seg m p (concat es) → Forall elem_ok es → es !! i = Some e →
  read (Z.to_nat size) m (p + Z.of_nat i * size) = Some e.
Proof using Hsize.
  intros Hs Hok Hi. destruct (arr_elem _ _ _ _ _ Hs Hok Hi) as [He [Hl _]].
  rewrite <- Hl. by apply read_seg.
Qed.

(** [xs] is the part of [es] from index [i] on. *)
Definition slice (es : list (list Z)) (i : nat) (xs : list (list Z)) : Prop :=
  take (length xs) (drop i es) = xs.

Lemma slice_cons es i x xs : slice es i (x :: xs) → es !! i = Some x ∧ slice es (S i) xs.
Proof.
  unfold slice. intros Hs. cbn [length] in Hs. destruct (drop i es) as [|y l] eqn:E; [done|].
  cbn [take] in Hs. injection Hs as -> Hs. split.
  - by rewrite <- (Nat.add_0_r i), <- lookup_drop, E.
  - replace (S i) with (i + 1)%nat by lia. rewrite <- drop_drop, E. exact Hs.
Qed.

Lemma slice_lt es i x xs : slice es i (x :: xs) → (i < length es)%nat.
Proof. intros [Hi _]%slice_cons. by apply lookup_lt_Some in Hi. Qed.

(** One pass reads [es] at [src] and writes [dst], the other buffer. *)
Section pass.
Context (m0 : mem) (src dst : Z) (es : list (list Z)).
Context (Hes : Forall elem_ok es) (Hsrc : seg m0 src (concat es))
        (Hdst : mapped m0 dst (Z.of_nat (length es) * size))
        (Hdis : disjoint src (Z.of_nat (length es) * size) dst (Z.of_nat (length es) * size)).

(** The memory when the first elements of [dst] have been written. *)
Definition filled (out : list (list Z)) : mem := write m0 dst (concat out).

Lemma filled_src out : Forall elem_ok out → (length out ≤ length es)%nat → seg (filled out) src (concat es).
Proof using Hsrc Hes Hdis Hsize.
  intros Ho Hl. apply seg_write_disjoint; [|done]. rewrite !length_concat by done.
  unfold disjoint in *. nia.
Qed.

Lemma copy_elem out (j : nat) e :
  Forall elem_ok out → (length out < length es)%nat → es !! j = Some e →
  memcpy (filled out) (dst + Z.of_nat (length out) * size) (src + Z.of_nat j * size) size
  = Some (dst + Z.of_nat (length out) * size, filled (out ++ [e])).
Proof using Hsrc Hes Hdis Hdst Hsize.
  intros Ho Hl Hj. destruct (arr_elem _ _ _ _ _ (filled_src out Ho ltac:(lia)) Hes Hj) as [He [Hlen Hu8]].
  pose proof (lookup_lt_Some _ _ _ Hj) as Hjl.
  pose proof (memcpy_ok (filled out) (dst + Z.of_nat (length out) * size) _ e He) as Hm.
  replace (Z.of_nat (length e)) with size in Hm by lia.
  rewrite Hm; [|eapply mapped_weaken; [by apply mapped_write|nia|nia]|done|unfold disjoint in *; nia].
  do 2 f_equal. unfold filled. rewrite concat_app, write_app, length_concat by done.
  cbn [concat]. by rewrite app_nil_r.
Qed.

Lemma merge_rest_ok f xs out (i : nat) mid :
  slice es i xs → (xs = [] → mid ≤ Z.of_nat i) → (xs ≠ [] → mid = Z.of_nat i + Z.of_nat (length xs)) →
  Forall elem_ok out → (length out + length xs ≤ length es)%nat → (length xs ≤ f)%nat →
  merge_rest f (filled out) src dst size (Z.of_nat i) mid (Z.of_nat (length out))
  = Some (filled (out ++ xs), Z.of_nat (length out + length xs)).
Proof using Hsrc Hes Hdis Hdst Hsize.
  revert f out i. induction xs as [|x xs IH]; intros f out i Hsl Hnil Hcons Ho Hl Hf.
  - specialize (Hnil eq_refl). destruct f; cbn [merge_rest]; zb_false (Z.of_nat i <? mid); cbn;
      rewrite app_nil_r, Nat.add_0_r; done.
  - specialize (Hcons ltac:(done)). cbn [length] in *. destruct f as [|f]; [lia|]. cbn [merge_rest].
    zb_true (Z.of_nat i <? mid). cbn [negb]. apply slice_cons in Hsl as [Hi Hsl].
    rewrite (copy_elem out i x) by (done || lia). bind_step.
    replace (Z.of_nat i + 1) with (Z.of_nat (S i)) by lia.
    replace (Z.of_nat (length out) + 1) with (Z.of_nat (length (out ++ [x]))) by (rewrite length_app; simpl; lia).
    pose proof (Forall_lookup_1 _ _ _ _ Hes Hi) as Hx.
    rewrite IH; [|done|intros ->; simpl in *; lia|lia|by rewrite Forall_app, Forall_singleton| |lia].
    + rewrite <- app_assoc, length_app. cbn [app length]. do 3 f_equal. lia.
    + rewrite length_app. simpl. lia.
Qed.

Context (cmp : list Z → list Z → Z).

Lemma merge_both_ok f xs ys out (i j : nat) mid right :
  slice es i xs → slice es j ys →
  mid = Z.of_nat i + Z.of_nat (length xs) →
  (ys = [] → right ≤ Z.of_nat j) → (ys ≠ [] → right = Z.of_nat j + Z.of_nat (length ys)) →
  Forall elem_ok out → (length out + length xs + length ys ≤ length es)%nat →
  (length xs + length ys ≤ f)%nat →
  ∃ done xs' ys' i' j',
    merge_both cmp f (filled out) src dst size (Z.of_nat i) mid (Z.of_nat j) right (Z.of_nat (length out))
      = Some (filled (out ++ done), Z.of_nat i', Z.of_nat j', Z.of_nat (length out + length done)) ∧
    slice es i' xs' ∧ slice es j' ys' ∧ Forall elem_ok done ∧ (xs' = [] ∨ ys' = []) ∧
    merge cmp xs ys = done ++ xs' ++ ys' ∧
    mid = Z.of_nat i' + Z.of_nat (length xs') ∧
    (ys' = [] → right ≤ Z.of_nat j') ∧ (ys' ≠ [] → right = Z.of_nat j' + Z.of_nat (length ys')).
Proof using Hsrc Hes Hdis Hdst Hsize.
  revert xs ys out i j. induction f as [|f IH]; intros xs ys out i j Hx Hy Hmid Hr0 Hr1 Ho Hl Hf.
  { destruct xs, ys; simpl in Hf; try lia. cbn [merge_both]. rewrite (proj2 (Z.ltb_ge (Z.of_nat i) mid)) by (simpl in *; lia).
    cbn. exists [], [], [], i, j. rewrite app_nil_r, Nat.add_0_r. split_and!; done || auto. }
  destruct xs as [|x xs].
  { cbn [merge_both]. rewrite (proj2 (Z.ltb_ge (Z.of_nat i) mid)) by (simpl in *; lia). cbn [andb negb].
    exists [], [], ys, i, j. rewrite app_nil_r, Nat.add_0_r, merge_nil_l. split_and!; done || auto. }
  destruct ys as [|y ys].
  { cbn [merge_both]. rewrite (proj2 (Z.ltb_ge (Z.of_nat j) right)) by auto. rewrite andb_false_r. cbn [negb].
    exists [], (x :: xs), [], i, j. rewrite !app_nil_r, Nat.add_0_r, merge_nil_r. split_and!; done || auto. }
  specialize (Hr1 ltac:(done)). cbn [length] in *. cbn [merge_both].
  zb_true (Z.of_nat i <? mid). zb_true (Z.of_nat j <? right). cbn [andb negb].
  pose proof Hx as [Hi Hx']%slice_cons. pose proof Hy as [Hj Hy']%slice_cons.
  pose proof (filled_src out Ho ltac:(lia)) as Hsrc'. unfold cmp_at.
  rewrite (read_elem _ _ _ _ _ Hsrc' Hes Hj), (read_elem _ _ _ _ _ Hsrc' Hes Hi). bind_step.
  rewrite merge_cons. replace (Z.of_nat (length out) + 1) with (Z.of_nat (length out + 1)) by lia.
  destruct (cmp y x <? 0) eqn:E.
  - rewrite (copy_elem out j y) by (done || lia). bind_step.
    pose proof (Forall_lookup_1 _ _ _ _ Hes Hj) as Hyk.
    destruct (IH (x :: xs) ys (out ++ [y]) i (S j)) as (dn & xs' & ys' & i' & j' & Hm & H1 & H2 & H3 & H4 & H5 & H6 & H7 & H8);
      [done|done|done|intros ->; simpl in *; lia|lia|by rewrite Forall_app, Forall_singleton| | |].
    { rewrite length_app. simpl. lia. }
    { simpl. lia. }
    rewrite length_app in Hm. cbn [length] in Hm. replace (Z.of_nat j + 1) with (Z.of_nat (S j)) by lia.
    rewrite Hm. exists (y :: dn), xs', ys', i', j'. rewrite <- app_assoc. cbn [app].
    split_and!; try done; [cbn [length]; tuple_eq|by constructor|by rewrite H5].
  - rewrite (copy_elem out i x) by (done || lia). bind_step.
    pose proof (Forall_lookup_1 _ _ _ _ Hes Hi) as Hxk.
    destruct (IH xs (y :: ys) (out ++ [x]) (S i) j) as (dn & xs' & ys' & i' & j' & Hm & H1 & H2 & H3 & H4 & H5 & H6 & H7 & H8);
      [done|done|lia|done|done|by rewrite Forall_app, Forall_singleton| | |].
    { rewrite length_app. simpl. lia. }
    { simpl. lia. }
    rewrite length_app in Hm. cbn [length] in Hm. replace (Z.of_nat i + 1) with (Z.of_nat (S i)) by lia.
    rewrite Hm. exists (x :: dn), xs', ys', i', j'. rewrite <- app_assoc. cbn [app].
    split_and!; try done; [cbn [length]; tuple_eq|by constructor|by rewrite H5].
Qed.

Lemma slice_take i n : slice es i (take n (drop i es)).
Proof.
  unfold slice. rewrite length_take. destruct (Nat.min_spec n (length (drop i es))) as [[? ->]|[? ->]]; [done|].
  by rewrite !take_ge by lia.
Qed.

Lemma merge_runs_ok out (st w : nat) :
  (0 < w)%nat → Forall elem_ok out → length out = st → (st < length es)%nat →
  merge_runs cmp (filled out) src dst size (Z.of_nat (length es)) (Z.of_nat w) (Z.of_nat st)
  = Some (filled (out ++ merge cmp (take w (drop st es)) (take w (drop w (drop st es))))).
Proof using Hsrc Hes Hdis Hdst Hsize.
  intros Hw Ho Hlen Hst. rewrite drop_drop.
  set (xs := take w (drop st es)). set (ys := take w (drop (st + w) es)).
  assert (length xs = Nat.min w (length es - st) ∧ length ys = Nat.min w (length es - (st + w))) as [Hlx Hly].
  { unfold xs, ys. by rewrite !length_take, !length_drop. }
  unfold merge_runs. cbv zeta. set (mid := if _ <? Z.of_nat st + Z.of_nat w then _ else _).
  set (right := if _ <? Z.of_nat st + Z.of_nat w * 2 then _ else _). set (f := Z.to_nat (Z.of_nat w * 2)).
  assert (mid = Z.of_nat st + Z.of_nat (length xs)) as Hmid by (unfold mid; bool_cases; lia).
  replace (Z.of_nat st + Z.of_nat w) with (Z.of_nat (st + w)) by lia.
  assert (right ≤ Z.of_nat (st + w) ∨ right = Z.of_nat (st + w) + Z.of_nat (length ys)) as Hright
    by (unfold right; bool_cases; lia).
  assert (ys = [] → right ≤ Z.of_nat (st + w)) as Hr0.
  { intros E. rewrite E in Hly, Hright. simpl in *. unfold right in *. bool_hyps; bool_cases; lia. }
  assert (ys ≠ [] → right = Z.of_nat (st + w) + Z.of_nat (length ys)) as Hr1.
  { intros E. destruct ys; [done|]. simpl in *. unfold right in *. bool_hyps; bool_cases; lia. }
  destruct (merge_both_ok f xs ys out st (st + w) mid right) as
    (dn & xs' & ys' & i' & j' & Hm & H1 & H2 & H3 & H4 & H5 & H6 & H7 & H8); try done;
    [apply slice_take|apply slice_take|lia|unfold f; lia|].
  rewrite Hlen in Hm. rewrite Hm. bind_step.
  pose proof (Permutation_length (merge_perm cmp xs ys)) as Hpl. rewrite H5, !length_app in Hpl.
  rewrite <- Hlen, <- length_app.
  assert (Forall elem_ok (out ++ dn)) as Ho1 by (by apply Forall_app).
  rewrite (merge_rest_ok f xs' (out ++ dn) i' mid);
    [|done|intros ->; simpl in *; lia|done|done|rewrite length_app; lia|unfold f; lia]. bind_step.
  assert (Forall elem_ok xs') as Hxs'.
  { unfold slice in H1. rewrite <- H1. by apply Forall_take, Forall_drop. }
  rewrite <- length_app.
  rewrite (merge_rest_ok f ys' ((out ++ dn) ++ xs') j' right);
    [|done|done|done|by apply Forall_app|rewrite !length_app; lia|unfold f; lia]. bind_step.
  rewrite H5, !app_assoc. done.
Qed.

Lemma merge_pass_ok f out (st w : nat) :
  (0 < w)%nat → Forall elem_ok out → (st < length es → length out = st)%nat →
  (length es ≤ st + f)%nat →
  merge_pass cmp f (filled out) src dst size (Z.of_nat (length es)) (Z.of_nat w) (Z.of_nat st)
  = Some (filled (out ++ mpass cmp w (drop st es))).
Proof using Hsrc Hes Hdis Hdst Hsize.
  intros Hw. revert out st. induction f as [|f IH]; intros out st Ho Hlen Hf.
  { cbn [merge_pass]. rewrite (proj2 (Z.ltb_ge _ _)) by lia. cbn [negb].
    rewrite drop_ge by lia. unfold mpass. simpl. by rewrite app_nil_r. }
  cbn [merge_pass]. destruct (Z.ltb_spec (Z.of_nat st) (Z.of_nat (length es))) as [Hlt|Hge]; cbn [negb].
  2:{ rewrite drop_ge by lia. unfold mpass. simpl. by rewrite app_nil_r. }
  specialize (Hlen ltac:(lia)). rewrite merge_runs_ok by (done || lia). bind_step.
  replace (Z.of_nat st + Z.of_nat w * 2) with (Z.of_nat (st + w * 2)) by lia.
  set (mg := merge cmp _ _).
  assert (Forall elem_ok mg) as Hmg.
  { unfold mg. rewrite merge_perm. apply Forall_app.
    split; repeat (apply Forall_take || apply Forall_drop); done. }
  assert (length mg = Nat.min (w * 2) (length es - st)) as Hml.
  { unfold mg. rewrite merge_perm, length_app, !length_take, !length_drop. lia. }
  rewrite IH; [|by apply Forall_app|rewrite length_app; lia|lia].
  rewrite (mpass_unfold cmp w (drop st es)) by
    (done || (intros E; apply (f_equal length) in E; rewrite length_drop in E; simpl in E; lia)).
  rewrite <- app_assoc. fold mg. by rewrite drop_drop.
Qed.
End pass.

(** *** All passes *)

Context (cmp : list Z → list Z → Z) `{!Comparator cmp}.

Fixpoint npasses (f : nat) (width count : Z) : nat :=
  match f with
  | O => O
  | S f' => if width <? count then S (npasses f' (width * 2) count) else O
  end.

Lemma runs_elem_ok w es : (0 < w)%nat → Forall elem_ok es → Forall elem_ok (runs cmp w es).
Proof. intros Hw He. by rewrite runs_perm. Qed.

Lemma merge_passes_ok f m src dst es (w : nat) :
  let N := Z.of_nat (length es) * size in
  (0 < w)%nat → Forall elem_ok es → seg m src (concat (runs cmp w es)) →
  mapped m src N → mapped m dst N → disjoint src N dst N →
  Z.of_nat (length es) ≤ Z.of_nat w * 2 ^ Z.of_nat f →
  ∃ m', let n := npasses f (Z.of_nat w) (Z.of_nat (length es)) in
    merge_passes cmp f m src dst size (Z.of_nat (length es)) (Z.of_nat w)
      = Some (m', if Nat.even n then src else dst, if Nat.even n then dst else src) ∧
    seg m' (if Nat.even n then src else dst) (concat (isort cmp es)) ∧
    (∀ a, ¬ (src ≤ a < src + N) → ¬ (dst ≤ a < dst + N) → m' !! a = m !! a) ∧
    mapped m' src N ∧ mapped m' dst N.
Proof using Hsize Comparator0.
  intros N Hw He. revert m src dst w Hw. induction f as [|f IH]; intros m src dst w Hw Hs Hms Hmd Hd Hp.
  { exists m. cbn [merge_passes npasses Nat.even]. rewrite (proj2 (Z.ltb_ge _ _)) by lia. cbn [negb].
    rewrite runs_all in Hs by lia. done. }
  cbn [merge_passes npasses].
  destruct (Z.ltb_spec (Z.of_nat w) (Z.of_nat (length es))) as [Hlt|Hge]; cbn [negb].
  2:{ exists m. rewrite runs_all in Hs by lia. done. }
  pose proof (Permutation_length (runs_perm cmp w es Hw)) as Hrl.
  pose proof (merge_pass_ok m src dst (runs cmp w es) (runs_elem_ok w es Hw He) Hs) as Hpass.
  rewrite Hrl in Hpass. specialize (Hpass Hmd Hd cmp (Z.to_nat (Z.of_nat (length es))) [] 0%nat w Hw).
  change (filled m dst []) with m in Hpass. change (Z.of_nat 0) with 0 in Hpass.
  rewrite (Hpass ltac:(done) ltac:(done) ltac:(lia)). bind_step. cbn [app]. rewrite drop_0, mpass_runs by done.
  replace (Z.of_nat w * 2) with (Z.of_nat (w * 2)) by lia. set (m1 := filled m dst (runs cmp (w * 2) es)).
  assert (Z.of_nat (length (concat (runs cmp (w * 2) es))) = N) as HN.
  { rewrite length_concat by (apply runs_elem_ok; [lia|done]). by rewrite runs_perm by lia. }
  destruct (IH m1 dst src (w * 2)%nat) as (m' & Hm' & Hs' & Hfr & Hms' & Hmd'); try lia.
  { apply seg_write. }
  { by apply mapped_write. }
  { by apply mapped_write. }
  { unfold disjoint in *. lia. }
  { rewrite Nat2Z.inj_succ, Z.pow_succ_r in Hp by lia. lia. }
  exists m'. rewrite Hm', Nat.even_succ, <- Nat.negb_even.
  set (n := npasses f _ _) in *. split_and!; [by destruct (Nat.even n)|by destruct (Nat.even n)| |done|done].
  intros a Ha1 Ha2. rewrite Hfr by done. unfold m1, filled. by rewrite lookup_write_out by (rewrite HN; lia).
Qed.

Lemma pow2_gt n : 0 ≤ n → n < 2 ^ n.
Proof. intros. by apply Z.pow_gt_lin_r. Qed.

Lemma qsort_merge_ok m base scratch es :
  let N := Z.of_nat (length es) * size in
  Forall elem_ok es → seg m base (concat es) → mapped m scratch N → disjoint base N scratch N →
  is_u32 N →
  ∃ m', let even := Nat.even (npasses (length es) 1 (Z.of_nat (length es))) in
    qsort_merge cmp m base scratch (Z.of_nat (length es)) size = Some (m', if even then base else scratch) ∧
    seg m' base (concat (isort cmp es)) ∧
    (∀ a, ¬ (base ≤ a < base + N) → ¬ (scratch ≤ a < scratch + N) → m' !! a = m !! a) ∧
    (∀ a n, mapped m a n → mapped m' a n).
Proof using Hsize Comparator0.
  intros N He Hs Hms Hd Hu. pose proof (length_concat es He) as Hlc.
  assert (mapped m base N) as Hmb by (unfold N; rewrite <- Hlc; by apply seg_mapped).
  pose proof (pow2_gt (Z.of_nat (length es))).
  destruct (merge_passes_ok (length es) m base scratch es 1) as (m1 & Hm1 & Hs1 & Hfr & Hmb1 & Hms1);
    [lia|done|by rewrite runs_1|done|done|done|lia|].
  change (Z.of_nat 1) with 1 in *. unfold qsort_merge. rewrite Nat2Z.id, Hm1. bind_step.
  set (even := Nat.even _) in *.
  assert (∀ a n, mapped m a n → mapped m1 a n) as Hmap.
  { intros a n Hm c Hc. destruct (decide (base ≤ c < base + N)); [by apply Hmb1|].
    destruct (decide (scratch ≤ c < scratch + N)); [by apply Hms1|]. rewrite Hfr by done. by apply Hm. }
  destruct even.
  { exists m1. rewrite Z.eqb_refl. done. }
  destruct (Z.eqb_spec scratch base) as [->|Hne]; cbn [negb].
  { exists m1. split_and!; done. }
  assert (Forall elem_ok (isort cmp es)) as Hei by (by rewrite isort_perm).
  assert (Z.of_nat (length (concat (isort cmp es))) = N) as HN by (rewrite length_concat by done; by rewrite isort_length).
  rewrite (u32_small (_ * size)) by done. fold N. rewrite <- HN, memcpy_ok; [|done|by rewrite HN| |].
  - bind_step. eexists. split_and!; [done|apply seg_write| |].
    + intros a H1 H2. rewrite lookup_write_out by (rewrite HN; lia). apply Hfr; lia.
    + intros a n Hm. by apply mapped_write, Hmap.
  - apply Forall_concat. eapply Forall_impl; [done|]. by intros e [_ ?].
  - rewrite HN. unfold disjoint in *. destruct Hd; [left|right]; try lia.
Qed.

(** *** The insertion sort *)

Lemma swap_bytes_ok m l r a b :
  seg m l a → seg m r b → length a = length b → Forall is_u8 a → Forall is_u8 b →
  l + Z.of_nat (length a) ≤ r →
  swap_bytes (length a) m l r = Some (write (write m l b) r a).
Proof.
  revert m l r b. induction a as [|x a IH]; intros m l r [|y b] Hl Hr Hlen Ha Hb Hd; try done.
  apply Forall_cons in Ha as [Hx Ha]. apply Forall_cons in Hb as [Hy Hb].
  pose proof Hl as [Hl0 Hl']%seg_cons. pose proof Hr as [Hr0 Hr']%seg_cons. cbn [length] in *.
  cbn [swap_bytes]. unfold load. rewrite Hl0. bind_step. rewrite Hr0. bind_step.
  rewrite store_mapped by (by eexists). bind_step. rewrite (u8_small y) by done.
  rewrite store_mapped by (rewrite lookup_write_out by (simpl; lia); by eexists). bind_step. rewrite (u8_small x) by done.
  rewrite (IH _ (l + 1) (r + 1) b); try done; try lia.
  - apply f_equal. change (x :: a) with ([x] ++ a). change (y :: b) with ([y] ++ b).
    rewrite (write_app _ r [x] a), (write_app _ l [y] b). cbn [length].
    change (Z.of_nat 1) with 1. f_equal. apply write_comm. unfold disjoint. simpl. lia.
  - apply seg_write_disjoint; [unfold disjoint; simpl; lia|].
    apply seg_write_disjoint; [unfold disjoint; simpl; lia|done].
  - apply seg_write_disjoint; [unfold disjoint; simpl; lia|].
    apply seg_write_disjoint; [unfold disjoint; simpl; lia|done].
Qed.

(** Two neighbours of an array exchanged. *)
Lemma swap_elems m base p x y q :
  Forall elem_ok (p ++ y :: x :: q) → seg m base (concat (p ++ y :: x :: q)) →
  ∃ m', swap_bytes (Z.to_nat size) m (base + Z.of_nat (length p) * size)
          (base + Z.of_nat (S (length p)) * size) = Some m' ∧
    seg m' base (concat (p ++ x :: y :: q)) ∧
    (∀ a, ¬ (base ≤ a < base + Z.of_nat (length (p ++ y :: x :: q)) * size) → m' !! a = m !! a).
Proof using Hsize.
  intros He Hs. rewrite Forall_app, !Forall_cons in He. destruct He as (Hp & [Hyl Hyu] & [Hxl Hxu] & Hq).
  pose proof (length_concat p Hp) as Hpl. rewrite length_app. cbn [length].
  assert (Z.of_nat (length x) = size ∧ Z.of_nat (length y) = size) as [Hxs Hys] by lia.
  rewrite !concat_app in Hs. cbn [concat] in Hs. rewrite !seg_app in Hs.
  rewrite Hpl, Hys in Hs. destruct Hs as (Hs1 & Hs2 & Hs3 & Hs4).
  set (A := base + Z.of_nat (length p) * size) in *.
  replace (base + Z.of_nat (S (length p)) * size) with (A + size) by (unfold A; lia).
  rewrite <- Hyl, (swap_bytes_ok m A (A + size) y x) by (done || lia).
  eexists. split; [done|]. rewrite Hxs in Hs4.
  rewrite !concat_app. cbn [concat]. rewrite !seg_app, Hpl, Hxs, Hys. fold A.
  assert (∀ q l, seg m q l → q + Z.of_nat (length l) ≤ A ∨ A + size + size ≤ q →
          seg (write (write m A x) (A + size) y) q l) as Hout.
  { intros c l Hl Hd. apply seg_write_disjoint; [unfold disjoint; lia|].
    apply seg_write_disjoint; [unfold disjoint; lia|done]. }
  split_and!.
  - apply Hout; [done|]. left. unfold A. lia.
  - apply seg_write_disjoint; [unfold disjoint; lia|]. apply seg_write.
  - apply seg_write.
  - apply Hout; [done|]. lia.
  - intros a Ha. rewrite !lookup_write_out; [done|unfold A; nia|unfold A; nia].
Qed.

Lemma merge_snoc_gt p x y : 0 < cmp y x → merge cmp (p ++ [y]) [x] = merge cmp p [x] ++ [y].
Proof using Comparator0.
  intros Hyx. apply cmp_flip in Hyx. induction p as [|a p IH]; cbn [app].
  - rewrite merge_cons. by zb_true (cmp x y <? 0).
  - rewrite !merge_cons, !merge_nil_r. destruct (cmp x a <? 0); [done|]. by rewrite IH.
Qed.

Lemma sorted_snoc_le p x y :
  StronglySorted (le cmp) (p ++ [y]) → cmp y x ≤ 0 → Forall (λ a, cmp a x ≤ 0) (p ++ [y]).
Proof using Comparator0.
  intros Hso Hyx. apply Forall_app. split; [|by constructor]. apply Forall_forall. intros a Ha.
  eapply cmp_trans, Hyx. apply (StronglySorted_app_1_elem_of _ _ _ a y Hso Ha). by constructor.
Qed.

Lemma insert_down_ok m base p x q :
  StronglySorted (le cmp) p → Forall elem_ok (p ++ x :: q) → seg m base (concat (p ++ x :: q)) →
  ∃ m', insert_down cmp (length p) m base size = Some m' ∧
    seg m' base (concat (merge cmp p [x] ++ q)) ∧
    (∀ a, ¬ (base ≤ a < base + Z.of_nat (length (p ++ x :: q)) * size) → m' !! a = m !! a).
Proof using Hsize Comparator0.
  revert m q. induction p as [|y p IH] using rev_ind; intros m q Hso He Hs.
  { exists m. rewrite merge_nil_l. done. }
  rewrite length_app, Nat.add_1_r. cbn [insert_down]. unfold cmp_at.
  rewrite <- app_assoc in He, Hs. cbn [app] in He, Hs.
  rewrite (read_elem m base (p ++ y :: x :: q) (length p) y), (read_elem m base (p ++ y :: x :: q) (S (length p)) x);
    [|done|done| |done|done|by apply lookup_app_mid].
  2:{ rewrite lookup_app_r, Nat.sub_succ_l, Nat.sub_diag by lia. done. }
  bind_step. destruct (Z.leb_spec (cmp y x) 0) as [Hle|Hgt].
  - exists m. pose proof (merge_snoc cmp (p ++ [y]) [] x (sorted_snoc_le _ _ _ Hso Hle)) as Hms.
    rewrite app_nil_r in Hms. rewrite Hms by done. by rewrite <- !app_assoc.
  - rewrite merge_snoc_gt by done. destruct (swap_elems m base p x y q He Hs) as (m1 & Hm1 & Hs1 & Hfr1).
    rewrite Hm1. bind_step.
    destruct (IH m1 (y :: q)) as (m2 & Hm2 & Hs2 & Hfr2).
    + by apply StronglySorted_app_1_l in Hso.
    + rewrite Forall_app, !Forall_cons in *. tauto.
    + done.
    + exists m2. rewrite <- !app_assoc. split_and!; [done|done|]. intros a Ha.
      rewrite Hfr2; [apply Hfr1|]; revert Ha; rewrite !length_app; simpl; lia.
Qed.

Lemma insertion_loop_ok n m base p q :
  n = length q → Forall elem_ok (p ++ q) → seg m base (concat (isort cmp p ++ q)) →
  ∃ m', insertion_loop cmp n (length p) m base size = Some m' ∧
    seg m' base (concat (isort cmp (p ++ q))) ∧
    (∀ a, ¬ (base ≤ a < base + Z.of_nat (length (p ++ q)) * size) → m' !! a = m !! a).
Proof using Hsize Comparator0.
  revert m p q. induction n as [|n IH]; intros m p q Hn He Hs.
  { destruct q; [|done]. exists m. rewrite app_nil_r in *. done. }
  destruct q as [|x q]; [done|]. injection Hn as Hn. cbn [insertion_loop].
  assert (Forall elem_ok (isort cmp p ++ x :: q)) as He'.
  { rewrite Forall_app in He |- *. by rewrite isort_perm. }
  destruct (insert_down_ok m base (isort cmp p) x q (isort_sorted cmp p) He' Hs) as (m1 & Hm1 & Hs1 & Hfr1).
  rewrite isort_length in Hm1. rewrite Hm1. bind_step.
  change [x] with (isort cmp [x]) in Hs1. rewrite (merge_isort cmp) in Hs1.
  destruct (IH m1 (p ++ [x]) q) as (m2 & Hm2 & Hs2 & Hfr2); [done|by rewrite <- app_assoc|done|].
  rewrite length_app, Nat.add_1_r in Hm2. rewrite <- app_assoc in Hs2, Hfr2. cbn [app] in Hs2, Hfr2.
  exists m2. split_and!; [done|done|]. intros a Ha. rewrite Hfr2 by done. apply Hfr1.
  rewrite length_app, isort_length, <- length_app. done.
Qed.

Lemma insertion_sort_ok m base es :
  es ≠ [] → Forall elem_ok es → seg m base (concat es) →
  ∃ m', insertion_sort cmp m base (Z.of_nat (length es)) size = Some m' ∧
    seg m' base (concat (isort cmp es)) ∧
    (∀ a, ¬ (base ≤ a < base + Z.of_nat (length es) * size) → m' !! a = m !! a).
Proof using Hsize Comparator0.
  intros Hne He Hs. destruct es as [|e es]; [done|]. unfold insertion_sort.
  apply (insertion_loop_ok _ m base [e] es); [simpl; lia|done|done].
Qed.
End arrays.

(** ** The claims *)

Section claims.
Context {K : Type} `{Sbrk K}.
Context (cmp : list Z → list Z → Z) `{!Comparator cmp} (size : Z) (Hsize : 0 < size).

(** [es'] is the stable sort of [es]. *)
Definition stably_sorted (es es' : list (list Z)) : Prop :=
  StronglySorted (le cmp) es' ∧ es' ≡ₚ es ∧ ∀ k, filter (same cmp k) es' = filter (same cmp k) es.

Lemma isort_stably es : stably_sorted es (isort cmp es).
Proof using Comparator0.
  split; [by apply isort_sorted|]. split; [apply isort_perm|]. intros k. by apply isort_stable.
Qed.

(** Bytes the rest of the program relies on: static data and held blocks. *)
Definition held (base : Z) (ts : list tile) (c : Z) : Prop := owned base ts c 1.

(** The state when [qsort] has sorted and is about to free [src]. *)
Lemma qsort_scratch base (s : heap K) ts p es :
  rep base s ts → coalesced ts → (2 ≤ length es)%nat → Forall (elem_ok size) es →
  seg (ram s) p (concat es) → Z.of_nat (length es) * size ≤ MAX_REQUEST →
  owned base ts p (Z.of_nat (length es) * size) →
  (malloc s (Z.of_nat (length es) * size) = Some (0, s) ∧
   ∃ m', qsort cmp s p (Z.of_nat (length es)) size = Some (with_ram s m') ∧
     insertion_sort cmp (ram s) p (Z.of_nat (length es)) size = Some m') ∨
  ∃ q n s1 m1 ts1, let src := if Nat.even (npasses (length es) 1 (Z.of_nat (length es))) then p else q in
    malloc s (Z.of_nat (length es) * size) = Some (q, s1) ∧ q ≠ 0 ∧
    qsort cmp s p (Z.of_nat (length es)) size = free (with_ram s1 m1) src ∧
    rep base (with_ram s1 m1) ts1 ∧ coalesced ts1 ∧ live base ts1 ≡ₚ (q - HDR_SIZE, n) :: live base ts ∧
    seg m1 p (concat (isort cmp es)) ∧
    (∀ c, held base ts c → ¬ (p ≤ c < p + Z.of_nat (length es) * size) → m1 !! c = ram s !! c).
Proof using Hsize Comparator0.
  intros Hr Hco H2 He Hs Hmax Hown. set (N := Z.of_nat (length es) * size) in *.
  assert (0 ≤ N) as HN by (unfold N; lia). unfold MAX_REQUEST in Hmax.
  assert (qsort cmp s p (Z.of_nat (length es)) size =
    ('(scratch, s1) ← malloc s N;
     if scratch =? 0 then m ← insertion_sort cmp (ram s1) p (Z.of_nat (length es)) size; Some (with_ram s1 m)
     else '(m, src) ← qsort_merge cmp (ram s1) p scratch (Z.of_nat (length es)) size;
          free (with_ram s1 m) src)) as ->.
  { unfold qsort. rewrite (proj2 (Z.ltb_ge (Z.of_nat (length es)) 2)), (proj2 (Z.eqb_neq size 0)) by lia.
    cbn [orb]. rewrite u32_small by (unfold is_u32; fold N; lia). reflexivity. }
  destruct (malloc_good base s ts N Hr Hco ltac:(unfold MAX_REQUEST; lia))
    as [(Hm & _)|(q & s1 & n & ts1 & Hm & Hr1 & Hco1 & Hn & Hl1 & Hram1)]; rewrite Hm; bind_step.
  { left. split; [done|]. rewrite Z.eqb_refl.
    destruct (insertion_sort_ok size Hsize cmp (ram s) p es) as (m' & Hm' & _); [intros ->; simpl in *; lia|done|done|].
    exists m'. by rewrite Hm'. }
  right. destruct (live_block base s1 ts1 (q - HDR_SIZE) n Hr1) as (_ & Hqlo & _ & _ & Hmap & _).
  { rewrite Hl1. set_solver. }
  replace (q - HDR_SIZE + HDR_SIZE) with q in Hmap by lia. pose proof (rep_base _ _ _ Hr) as [Hb _].
  rewrite (proj2 (Z.eqb_neq q 0)) by (unfold HDR_SIZE in *; lia).
  destruct (owned_apart base s s1 ts ts1 q n p N Hr Hr1 Hl1 Hown HN) as [Hdis Hhi].
  pose proof (length_concat size Hsize es He) as Hlc. fold N in Hlc.
  destruct (qsort_merge_ok size Hsize cmp (ram s1) p q es He) as (m1 & Hq & Hsort & Hfr & Hmapk).
  { intros i b Hib. rewrite Hram1; [by apply Hs|]. apply lookup_lt_Some in Hib. lia. }
  { eapply mapped_weaken; [exact Hmap|lia|lia]. }
  { unfold disjoint in *. fold N. lia. }
  { fold N. unfold is_u32. lia. }
  rewrite Hq. bind_step. exists q, n, s1, m1, ts1. split_and!; try done; [unfold HDR_SIZE in *; lia| |].
  - destruct Hr1 as [? ? ? ? ? ? Hrm]. split; try done. by apply Hmapk.
  - intros c Hc Hout. destruct (owned_apart base s s1 ts ts1 q n c 1 Hr Hr1 Hl1 Hc ltac:(lia)) as [Hd1 Hc1].
    rewrite Hfr by (fold N; unfold disjoint in *; lia). apply Hram1. lia.
Qed.

(** [C9] [qsort] with an odd number of merge passes (2 elements, 5 to 8, 17 to
    32, ...), and whenever the scratch block cannot be had (the insertion sort):
    the call returns with the array holding the stable sort of its elements -
    the same list on both paths -, the heap's blocks as they were and no other
    held byte changed. *)
Theorem qsort_sorts base (s : heap K) ts p es :
  rep base s ts → coalesced ts → Forall (elem_ok size) es → seg (ram s) p (concat es) →
  Z.of_nat (length es) * size ≤ MAX_REQUEST → owned base ts p (Z.of_nat (length es) * size) →
  Nat.odd (npasses (length es) 1 (Z.of_nat (length es))) = true ∨
    malloc s (Z.of_nat (length es) * size) = Some (0, s) →
  ∃ s' ts', qsort cmp s p (Z.of_nat (length es)) size = Some s' ∧
    seg (ram s') p (concat (isort cmp es)) ∧ stably_sorted es (isort cmp es) ∧
    rep base s' ts' ∧ coalesced ts' ∧ live base ts' ≡ₚ live base ts ∧
    (∀ c, held base ts c → ¬ (p ≤ c < p + Z.of_nat (length es) * size) → ram s' !! c = ram s !! c).
Proof using Hsize Comparator0.
  intros Hr Hco He Hs Hmax Hown Hodd.
  destruct (decide (length es < 2)%nat) as [Hlt|Hge].
  { exists s, ts. unfold qsort. rewrite (proj2 (Z.ltb_lt (Z.of_nat (length es)) 2)) by lia. cbn [orb].
    assert (isort cmp es = es) as -> by (by destruct es as [|? [|? ?]]; simpl in *; [| |lia]).
    split_and!; try done. destruct es as [|e [|? ?]]; simpl in *; [| |lia]; split_and!; try done; repeat constructor. }
  destruct (qsort_scratch base s ts p es) as [(Hm & m' & Hq & Hi)|Hpass]; try done; [lia| |].
  - destruct (insertion_sort_ok size Hsize cmp (ram s) p es) as (m2 & Hm2 & Hs2 & Hfr);
      [intros ->; simpl in *; lia|done|done|]. rewrite Hi in Hm2. injection Hm2 as <-.
    exists (with_ram s m'), ts. split; [done|]. split; [done|]. split; [apply isort_stably|].
    split_and!; try done.
    + destruct Hr as [? ? ? ? ? ? Hrm]. split; try done. intros a Ha.
      destruct (decide (p ≤ a < p + Z.of_nat (length es) * size)) as [Hin|Hout].
      * apply seg_mapped in Hs2. apply Hs2. rewrite (length_concat size Hsize) by (by rewrite isort_perm).
        by rewrite isort_length.
      * cbn [ram with_ram]. rewrite Hfr by done. by apply Hrm.
    + intros c _ Hout. by apply Hfr.
  - destruct Hpass as (q & n & s1 & m1 & ts1 & Hm & Hq0 & Hq & Hr1 & Hco1 & Hl1 & Hs1 & Hfr).
    destruct Hodd as [Hodd|Hm0]; [|rewrite Hm in Hm0; congruence].
    rewrite <- Nat.negb_even in Hodd. apply negb_true_iff in Hodd. rewrite Hodd in Hq.
    destruct (free_good base (with_ram s1 m1) ts1 (q - HDR_SIZE) n Hr1 Hco1) as (s' & ts' & Hf & Hr' & Hco' & Hl' & Hram & _).
    { rewrite Hl1. set_solver. }
    replace (q - HDR_SIZE + HDR_SIZE) with q in Hf by lia.
    exists s', ts'. split; [by rewrite Hq|]. rewrite Hram. split; [done|]. split; [apply isort_stably|].
    split_and!; try done. rewrite Hl1 in Hl'. by apply Permutation_cons_inv in Hl'.
Qed.

(** With an even number of passes (3 or 4 elements, 9 to 16, ...) the sorted
    run ends in the caller's array, and that is the block [qsort] frees: an
    array that is itself a heap block is given back to the heap behind its
    owner's back, and the scratch block stays allocated for ever. *)
Theorem qsort_frees_the_array base (s : heap K) ts a z es :
  rep base s ts → coalesced ts → Forall (elem_ok size) es → (a, z) ∈ live base ts →
  seg (ram s) (a + HDR_SIZE) (concat es) → Z.of_nat (length es) * size ≤ z →
  z ≤ MAX_REQUEST → (2 ≤ length es)%nat →
  Nat.even (npasses (length es) 1 (Z.of_nat (length es))) = true →
  malloc s (Z.of_nat (length es) * size) ≠ Some (0, s) →
  ∃ s' ts' q n rest, qsort cmp s (a + HDR_SIZE) (Z.of_nat (length es)) size = Some s' ∧
    rep base s' ts' ∧ live base ts ≡ₚ (a, z) :: rest ∧ live base ts' ≡ₚ (q - HDR_SIZE, n) :: rest.
Proof using Hsize Comparator0.
  intros Hr Hco He Hin Hs Hz Hmax H2 Heven Hm.
  destruct (qsort_scratch base s ts (a + HDR_SIZE) es) as [(Hm0 & _)|Hpass]; try done; [lia| |].
  { left. exists a, z. split_and!; [done|lia|lia]. }
  destruct Hpass as (q & n & s1 & m1 & ts1 & _ & _ & Hq & Hr1 & Hco1 & Hl1 & _ & _).
  rewrite Heven in Hq.
  destruct (elem_of_Permutation (live base ts) (a, z)) as [[rest Hrest] _]; [done|].
  destruct (free_good base (with_ram s1 m1) ts1 a z Hr1 Hco1) as (s' & ts' & Hf & Hr' & Hco' & Hl' & _).
  { rewrite Hl1. set_solver. }
  exists s', ts', q, n, rest. rewrite Hq. split_and!; try done.
  rewrite Hl1, Hrest in Hl'. rewrite (Permutation_swap (a, z)) in Hl'. by apply Permutation_cons_inv in Hl'.
Qed.
End claims.

Section bsearch_ok.
Context (order : list Z → Z) (size : Z) (Hsize : 0 < size) (m : mem) (base : Z) (es : list (list Z)).
Context (He : Forall (elem_ok size) es) (Hs : seg m base (concat es)).

(** The array is sorted with respect to the key: what precedes an element the
    key lies above is below the key too, what follows one it lies below is
    above. *)
Context (Hmono : ∀ i j x y, (i < j)%nat → es !! i = Some x → es !! j = Some y →
  (0 < order y → 0 < order x) ∧ (order x < 0 → order y < 0)).

Lemma bsearch_loop_ok f (l n : nat) :
  (l + n ≤ length es)%nat → Z.of_nat n < 2 ^ (Z.of_nat f - 1) → (1 ≤ f)%nat →
  (∀ i x, es !! i = Some x → (i < l)%nat → 0 < order x) →
  (∀ i x, es !! i = Some x → (l + n ≤ i)%nat → order x < 0) →
  (∃ i e, es !! i = Some e ∧ order e = 0 ∧
     bsearch_loop f order m (base + Z.of_nat l * size) (Z.of_nat n) size = Some (base + Z.of_nat i * size)) ∨
  (Forall (λ e, order e ≠ 0) es ∧
     bsearch_loop f order m (base + Z.of_nat l * size) (Z.of_nat n) size = Some 0).
Proof using Hsize He Hs Hmono.
  revert l n. induction f as [|f IH]; intros l n Hl Hf H1 Hlo Hhi; [lia|]. cbn [bsearch_loop].
  destruct (Z.eqb_spec (Z.of_nat n) 0) as [H0|H0].
  { right. split; [|done]. apply Forall_forall. intros x (i & Hi)%list_elem_of_lookup.
    destruct (decide (i < l)%nat) as [Hil|Hil]; [specialize (Hlo i x Hi Hil)|specialize (Hhi i x Hi ltac:(lia))]; lia. }
  set (h := (n / 2)%nat). assert (h < n)%nat as Hh by (apply Nat.div_lt; lia).
  assert (Z.of_nat n `div` 2 = Z.of_nat h) as Hdiv by (unfold h; rewrite Nat2Z.inj_div; done).
  rewrite Hdiv. replace (base + Z.of_nat l * size + Z.of_nat h * size) with (base + Z.of_nat (l + h) * size) by lia.
  destruct (lookup_lt_is_Some_2 es (l + h)) as [e Hle]; [lia|].
  rewrite (read_elem size Hsize m base es _ e Hs He Hle). bind_step.
  assert (2 ^ (Z.of_nat (S f) - 1) = 2 * 2 ^ (Z.of_nat f - 1) ∨ f = 0%nat) as [Hpow| ->].
  { destruct f; [by right|left]. rewrite <- Z.pow_succ_r by lia. f_equal. lia. }
  2:{ simpl in Hf. lia. }
  destruct (Z.eqb_spec (order e) 0) as [Ho|Ho]; [left; eauto|].
  destruct (Z.ltb_spec 0 (order e)) as [Hpos|Hneg].
  - replace (base + Z.of_nat (l + h) * size + size) with (base + Z.of_nat (l + h + 1) * size) by lia.
    replace (Z.of_nat n - (Z.of_nat h + 1)) with (Z.of_nat (n - (h + 1))) by lia.
    apply IH; [lia|dlia|destruct f; [simpl in *; lia|lia]| |].
    + intros i x Hi Hil. destruct (decide (i = l + h)%nat) as [->|]; [congruence|].
      apply (Hmono i (l + h)%nat x e); [lia|done|done|done].
    + intros i x Hi Hil. apply (Hhi i x Hi). lia.
  - apply IH; [lia|dlia|destruct f; [simpl in *; lia|lia]|done|].
    intros i x Hi Hil. destruct (decide (i = l + h)%nat) as [->|]; [assert (x = e) by congruence; subst; lia|].
    apply (Hmono (l + h)%nat i e x); [lia|done|done|lia].
Qed.

(** [bsearch] over an array sorted for the key returns (within a
    logarithmic number of comparisons, which is what bounds the loop) the
    address of an element the key equals, and NULL exactly when there is none. *)
Theorem bsearch_finds :
  (∃ i e, es !! i = Some e ∧ order e = 0 ∧
     bsearch order m base (Z.of_nat (length es)) size = Some (base + Z.of_nat i * size)) ∨
  (Forall (λ e, order e ≠ 0) es ∧ bsearch order m base (Z.of_nat (length es)) size = Some 0).
Proof using Hsize He Hs Hmono.
  pose proof (bsearch_loop_ok (S (S (Z.to_nat (Z.log2 (Z.of_nat (length es)))))) 0 (length es)) as Hb.
  cbn [Z.of_nat] in Hb. rewrite Z.mul_0_l, Z.add_0_r in Hb. apply Hb.
  - done.
  - pose proof (Z.log2_nonneg (Z.of_nat (length es))). destruct es as [|e l]; [simpl; lia|].
    destruct (Z.log2_spec (Z.of_nat (length (e :: l)))) as [_ Hlt]; [simpl; lia|].
    eapply Z.lt_le_trans; [exact Hlt|]. apply Z.pow_le_mono_r; lia.
  - lia.
  - intros; lia.
  - intros i x Hi Hge. apply lookup_lt_Some in Hi. lia.
Qed.
End bsearch_ok.

(** ** Witnesses: two-byte records compared by their first byte *)

Definition key_cmp (x y : list Z) : Z := nth 0 x 0 - nth 0 y 0.

#[export] Instance key_comparator : Comparator key_cmp.
Proof. unfold key_cmp. split; intros; lia. Qed.

Definition recs2 : list (list Z) := [[3; 0]; [1; 1]].
Definition recs4 : list (list Z) := [[3; 0]; [1; 1]; [3; 2]; [1; 3]].

Definition rec_heap : heap Z := with_ram task0 (mem_of 4096 (concat recs2)).

Lemma rec_heap_rep : rep HEAP_FLOOR rec_heap [].
Proof. exact (rep_with_ram HEAP_FLOOR task0 [] 4096 (concat recs2) task_init_rep). Qed.

Lemma qsort_sorts_witness :
  seg (ram rec_heap) 4096 (concat recs2) ∧
  ∃ s', qsort key_cmp rec_heap 4096 2 2 = Some s' ∧ seg (ram s') 4096 (concat [[1; 1]; [3; 0]]).
Proof.
  assert (seg (ram rec_heap) 4096 (concat recs2)) as Hs by (apply segb_seg; vm_compute; reflexivity).
  split; [exact Hs|].
  destruct (qsort_sorts key_cmp 2 ltac:(lia) HEAP_FLOOR rec_heap [] 4096 recs2 rec_heap_rep I)
    as (s' & ts' & Hq & Hsort & _).
  - repeat constructor; unfold is_u8; simpl; lia.
  - exact Hs.
  - unfold MAX_REQUEST. simpl. lia.
  - right. unfold HEAP_FLOOR. simpl. lia.
  - left. reflexivity.
  - exists s'. split; [exact Hq|exact Hsort].
Defined.

Lemma qsort_frees_the_array_witness : ∃ (s s' : heap Z) ts ts' q n,
  rep HEAP_FLOOR s ts ∧ live HEAP_FLOOR ts = [(HEAP_FLOOR, 104)] ∧
  qsort key_cmp s (HEAP_FLOOR + HDR_SIZE) 4 2 = Some s' ∧
  rep HEAP_FLOOR s' ts' ∧ live HEAP_FLOOR ts' ≡ₚ [(q - HDR_SIZE, n)].
Proof.
  destruct task_first_block as (s0 & _ & Hr0).
  set (ts := [(104, true); (3960, false)]) in *.
  set (s := with_ram s0 (write (ram s0) (HEAP_FLOOR + HDR_SIZE) (concat recs4))).
  assert (rep HEAP_FLOOR s ts) as Hr by (by apply rep_with_ram).
  assert (malloc s 8 ≠ Some (0, s)) as Hm.
  { pose proof (malloc_rep HEAP_FLOOR s ts 8 Hr ltac:(unfold MAX_REQUEST; lia)) as Hm.
    destruct Hm as (s' & Hm & _). rewrite Hm. intros Heq. apply (f_equal (fmap fst)) in Heq.
    cbn [fmap option_fmap option_map fst] in Heq. vm_compute in Heq. congruence. }
  destruct (qsort_frees_the_array key_cmp 2 ltac:(lia) HEAP_FLOOR s ts HEAP_FLOOR 104 recs4 Hr)
    as (s' & ts' & q & n & rest & Hq & Hr' & Hl & Hl').
  - simpl. auto.
  - repeat constructor; unfold is_u8; simpl; lia.
  - apply list_elem_of_here.
  - apply seg_write.
  - simpl. lia.
  - unfold MAX_REQUEST. lia.
  - simpl. lia.
  - reflexivity.
  - exact Hm.
  - exists s, s', ts, ts', q, n. split; [exact Hr|]. split; [reflexivity|]. split; [exact Hq|].
    split; [exact Hr'|]. change (live HEAP_FLOOR ts) with [(HEAP_FLOOR, 104)] in Hl.
    apply Permutation_cons_inv, Permutation_nil in Hl. subst rest. exact Hl'.
Defined.

Lemma bsearch_finds_witness :
  bsearch (λ e, 3 - nth 0 e 0) (mem_of 64 (concat [[1; 1]; [3; 0]; [5; 5]])) 64 3 2 = Some 66.
Proof.
  destruct (bsearch_finds (λ e, 3 - nth 0 e 0) 2 ltac:(lia) (mem_of 64 (concat [[1; 1]; [3; 0]; [5; 5]])) 64
              [[1; 1]; [3; 0]; [5; 5]]) as [(i & e & Hi & Ho & Hb)|[Hf _]].
  - repeat constructor; unfold is_u8; simpl; lia.
  - apply mem_of_seg.
  - intros [|[|[|i]]] [|[|[|j]]] x y Hij Hx Hy; try lia; try done; simplify_eq/=; lia.
  - destruct i as [|[|[|i]]]; simplify_eq/=; try lia; try done.
  - rewrite Forall_cons, Forall_cons in Hf. destruct Hf as (_ & Hf & _). simpl in Hf. lia.
Defined.
