(* ===== verification/CTime.v ===== *)
(** * [c/rt/time.c]: the calendar, broken-down time, [strftime]

    The civil-calendar conversions are compared with a reference calendar that
    knows only the Gregorian rules (leap years, month lengths, the day after a
    date).  The clock and the Sett's time-zone key are kernel answers: arguments
    of the definitions. *)

From S2P Require Import Prelude CMem CString CStdlib.

(** ** The clock and the time zone *)

(** [SYS_CLOCK_GETTIME]'s answer: the seconds, or a failure.  The second result
    is what is stored through [out] (nothing when [out] is NULL). *)
Definition time (clock : option Z) (out_given : bool) : Z * option Z :=
  let v := match clock with Some sec => sec | None => 0 end in
  (v, if out_given then Some v else None).

Definition TEXT_SIZE : nat := 32.

Fixpoint tz_skip (t : list Z) : list Z :=
  match t with c :: t' => if c =? 32 then tz_skip t' else t | [] => [] end.

Fixpoint tz_digits (value : Z) (t : list Z) : Z :=
  match t with
  | c :: t' =>
      if (chr "0" <=? i8 c) && (i8 c <=? chr "9")
      then tz_digits (i32 (i32 (value * 10) + (i8 c - chr "0"))) t' else value
  | [] => value
  end.

(** [sett]: the 32 bytes of [text] after a successful [SYS_SETT] query, or a
    failure. *)
Definition tz_offset_minutes (sett : option (list Z)) : Z :=
  match sett with
  | None => 0
  | Some bytes =>
      let text := <[(TEXT_SIZE - 1)%nat := 0]> bytes in
      let p := tz_skip text in
      let c := nth 0 p 0 in
      let sign := if c =? chr "-" then -1 else 1 in
      let p := if (c =? chr "-") || (c =? chr "+") then tail p else p in
      let c := nth 0 p 0 in
      if (i8 c <? chr "0") || (chr "9" <? i8 c) then 0
      else i32 (sign * tz_digits 0 p)
  end.

(** ** The civil calendar *)

Definition days_from_civil (y m d : Z) : Z :=
  let y := i32 (y - of_bool (m <=? 2)) in
  let era := (if 0 <=? y then y else i32 (y - 399)) /c 400 in
  let yoe := u32 (y - era * 400) in
  let doy := u32 ((153 * (m + (if 2 <? m then -3 else 9)) + 2) /c 5 + d - 1) in
  let doe := u32 (yoe * 365 + yoe `div` 4 - yoe `div` 100 + doy) in
  i32 (i32 (era * 146097) + i32 doe - 719468).

(** Result: year, month, day. *)
Definition civil_from_days (z : Z) : Z * Z * Z :=
  let z := i32 (z + 719468) in
  let era := (if 0 <=? z then z else i32 (z - 146096)) /c 146097 in
  let doe := u32 (z - era * 146097) in
  let yoe := u32 (doe - doe `div` 1460 + doe `div` 36524 - doe `div` 146096) `div` 365 in
  let y := i32 (i32 yoe + i32 (era * 400)) in
  let doy := u32 (doe - (365 * yoe + yoe `div` 4 - yoe `div` 100)) in
  let mp := u32 (5 * doy + 2) `div` 153 in
  let day := i32 (u32 (doy - (153 * mp + 2) `div` 5 + 1)) in
  let month := i32 (if mp <? 10 then mp + 3 else mp - 9) in
  (i32 (y + of_bool (month <=? 2)), month, day).

Record tm := Tm {
  tm_sec : Z; tm_min : Z; tm_hour : Z; tm_mday : Z; tm_mon : Z;
  tm_year : Z; tm_wday : Z; tm_yday : Z; tm_isdst : Z
}.

Definition fill_tm (secs : Z) : tm :=
  let days := secs /c 86400 in
  let rem := secs %c 86400 in
  let '(rem, days) := if rem <? 0 then (rem + 86400, days - 1) else (rem, days) in
  let '(year, month, day) := civil_from_days days in
  Tm (rem %c 60) ((rem %c 3600) /c 60) (rem /c 3600) day (month - 1) (i32 (year - 1900))
     ((days %c 7 + 11) %c 7) (i32 (days - days_from_civil year 1 1)) 0.

(** [t]: the seconds pointed to, [None] for NULL.  The result lands in the one
    shared buffer. *)
Definition gmtime (t : option Z) : tm := fill_tm (default 0 t).
Definition localtime (sett : option (list Z)) (t : option Z) : tm :=
  fill_tm (i32 (default 0 t + i32 (tz_offset_minutes sett * 60))).

(** The seconds and the caller's struct after the call; the Sett is asked twice. *)
Definition mktime (sett1 sett2 : option (list Z)) (t : option tm) : Z * option tm :=
  match t with
  | None => (0, None)
  | Some t =>
      let days := days_from_civil (i32 (tm_year t + 1900)) (i32 (tm_mon t + 1)) (tm_mday t) in
      let secs := i32 (i32 (i32 (i32 (days * 86400) + i32 (tm_hour t * 3600)) + i32 (tm_min t * 60)) + tm_sec t) in
      let secs := i32 (secs - i32 (tz_offset_minutes sett1 * 60)) in
      (secs, Some (fill_tm (i32 (secs + i32 (tz_offset_minutes sett2 * 60)))))
  end.

Definition difftime (a b : Z) : Z :=
  let d := i64 (a - b) in
  if 2147483647 <? d then 2147483647
  else if d <? -2147483648 then -2147483648
  else i32 d.

(** ** Reference calendar *)

Definition leap (y : Z) : bool :=
  (y `mod` 4 =? 0) && (negb (y `mod` 100 =? 0) || (y `mod` 400 =? 0)).

Definition month_days (y m : Z) : Z :=
  if m =? 2 then if leap y then 29 else 28
  else if (m =? 4) || (m =? 6) || (m =? 9) || (m =? 11) then 30 else 31.

Definition valid_date (y m d : Z) : Prop := 1 ≤ m ≤ 12 ∧ 1 ≤ d ≤ month_days y m.

Definition next_day (t : Z * Z * Z) : Z * Z * Z :=
  let '(y, m, d) := t in
  if d <? month_days y m then (y, m, d + 1)
  else if m <? 12 then (y, m + 1, 1)
  else (y + 1, 1, 1).

(** ** The calendar arithmetic

    A year that starts in March: [yoe] years into the 400-year era, [doy] days
    into the year, [mp] months into the year. *)

(** Days of the era before year [y] of it. *)
Definition era_days (y : Z) : Z := 365 * y + y `div` 4 - y `div` 100.
Definition year_of_era (doe : Z) : Z :=
  (doe - doe `div` 1460 + doe `div` 36524 - doe `div` 146096) `div` 365.
Definition year_len (y : Z) : Z := 365 + of_bool (leap (y + 1)).
Definition month_of_year (doy : Z) : Z := (5 * doy + 2) `div` 153.
Definition month_start (mp : Z) : Z := (153 * mp + 2) `div` 5.
Definition civil_month (mp : Z) : Z := if mp <? 10 then mp + 3 else mp - 9.

(** Every year of the era by evaluation: where it starts, its length, and the
    division that finds it at its first and last day. *)
Definition year_check (y : Z) : bool :=
  (era_days y + year_len y =? if y =? 399 then 146097 else era_days (y + 1)) &&
  (year_of_era (era_days y) =? y) && (year_of_era (era_days y + year_len y - 1) =? y).

Lemma year_checked y : 0 ≤ y < 400 → year_check y = true.
Proof. intros Hy. by_range y 400. Qed.

Lemma year_of_era_mono a b : 0 ≤ a ≤ b → b < 146096 → year_of_era a ≤ year_of_era b.
Proof.
  intros Ha Hb. unfold year_of_era. rewrite (Z.div_small a 146096), (Z.div_small b 146096) by lia.
  apply Z.div_le_mono; [lia|]. dlia.
Qed.

Lemma era_days_bound y : 0 ≤ y < 400 → 0 ≤ era_days y ≤ 145731.
Proof. intros Hy. unfold era_days. dlia. Qed.

(** A day of year [y] of the era is found to be in that year. *)
Lemma year_of_era_day y doy :
  0 ≤ y < 400 → 0 ≤ doy < year_len y → year_of_era (era_days y + doy) = y.
Proof.
  intros Hy Hd. pose proof (year_checked y Hy) as Hc. unfold year_check in Hc.
  rewrite !andb_true_iff, !Z.eqb_eq in Hc. destruct Hc as ((_ & H1) & H2).
  pose proof (era_days_bound y Hy). assert (365 ≤ year_len y ≤ 366) by (unfold year_len; destruct (leap _); simpl; lia).
  destruct (decide (era_days y + year_len y - 1 < 146096)) as [Hlt|Hge].
  - pose proof (year_of_era_mono (era_days y) (era_days y + doy)).
    pose proof (year_of_era_mono (era_days y + doy) (era_days y + year_len y - 1)). lia.
  - destruct (decide (doy = year_len y - 1)) as [->|Hne].
    { by replace (era_days y + (year_len y - 1)) with (era_days y + year_len y - 1) by lia. }
    pose proof (year_of_era_mono (era_days y) (era_days y + doy)).
    assert (year_len y = 366 ∧ era_days y = 145731) as [Hl He] by lia.
    assert (y = 399) as -> by (unfold era_days in He; dlia).
    pose proof (year_of_era_mono (era_days 399 + doy) 146095). assert (year_of_era 146095 = 399) by reflexivity. lia.
Qed.

(** Every day of the era is a day of one of its years. *)
Lemma year_of_era_range doe : 0 ≤ doe < 146097 →
  ∃ y doy, 0 ≤ y < 400 ∧ 0 ≤ doy < year_len y ∧ doe = era_days y + doy.
Proof.
  intros Hd. assert (∀ n : nat, (n ≤ 400)%nat → doe < (if Z.of_nat n =? 400 then 146097 else era_days (Z.of_nat n)) →
    ∃ y doy, 0 ≤ y < 400 ∧ 0 ≤ doy < year_len y ∧ doe = era_days y + doy) as Hn.
  { induction n as [|n IH]; intros Hle Hlt; [change (doe < 0) in Hlt; lia|].
    pose proof (year_checked (Z.of_nat n) ltac:(lia)) as Hc. unfold year_check in Hc.
    rewrite !andb_true_iff, !Z.eqb_eq in Hc. destruct Hc as ((Hs & _) & _).
    destruct (decide (doe < era_days (Z.of_nat n))) as [Hl|Hg].
    - apply IH; [lia|]. rewrite (proj2 (Z.eqb_neq _ 400)) by lia. done.
    - exists (Z.of_nat n), (doe - era_days (Z.of_nat n)). split_and!; try lia.
      destruct (Z.eqb_spec (Z.of_nat n) 399) as [E|E].
      + rewrite (proj2 (Z.eqb_eq _ _)) in Hlt by lia. lia.
      + rewrite (proj2 (Z.eqb_neq _ _)) in Hlt by lia.
        replace (Z.of_nat (S n)) with (Z.of_nat n + 1) in Hlt by lia. lia. }
  apply (Hn 400%nat); [lia|]. change (doe < 146097). lia.
Qed.

(** *** Months *)

(** Every day of the longest year: its month, and the start of that month. *)
Definition doy_check (doy : Z) : bool :=
  let mp := month_of_year doy in
  let d := doy - month_start mp + 1 in
  (0 <=? mp) && (mp <=? 11) && (1 <=? d) && (d <=? month_days 0 (civil_month mp)) &&
    ((doy =? 365) ||
   (if d <? month_days 0 (civil_month mp)
    then (month_of_year (doy + 1) =? mp)
    else (month_of_year (doy + 1) =? mp + 1) && (month_start (mp + 1) =? doy + 1))) &&
    eqb (mp =? 11) (337 <=? doy).

Lemma doy_checked doy : 0 ≤ doy < 366 → doy_check doy = true.
Proof. intros Hd. by_range doy 366. Qed.

Definition md_check (n : Z) : bool :=
  let mp := n `div` 31 in
  let d := n `mod` 31 + 1 in
  negb (d <=? month_days 0 (civil_month mp)) ||
  ((month_of_year (month_start mp + d - 1) =? mp) && (month_start mp + d - 1 <? 366) &&
   (0 <=? month_start mp) && ((mp =? 11) || (month_start mp + d - 1 <? 337))).

Lemma md_checked mp d : 0 ≤ mp ≤ 11 → 1 ≤ d ≤ month_days 0 (civil_month mp) →
  month_of_year (month_start mp + d - 1) = mp ∧ 0 ≤ month_start mp + d - 1 < 366 ∧
  (mp ≠ 11 → month_start mp + d - 1 < 337).
Proof.
  intros Hmp Hd. assert (month_days 0 (civil_month mp) ≤ 31) as H31 by (unfold month_days; repeat case_match; lia).
  assert (md_check (mp * 31 + (d - 1)) = true) as Hc.
  { pose proof (range_check md_check 372 ltac:(vm_compute; reflexivity) (mp * 31 + (d - 1)) ltac:(lia)). done. }
  assert ((mp * 31 + (d - 1)) `div` 31 = mp ∧ (mp * 31 + (d - 1)) `mod` 31 = d - 1) as [Hq Hr] by dlia.
  unfold md_check in Hc. rewrite Hq, Hr in Hc. replace (d - 1 + 1) with d in Hc by lia.
  rewrite (proj2 (Z.leb_le d _)) in Hc by lia. cbn [negb orb] in Hc.
  rewrite !andb_true_iff, orb_true_iff, !Z.eqb_eq, !Z.ltb_lt, Z.leb_le in Hc. lia.
Qed.

(** The lengths do not depend on the era, nor (February apart) on the year. *)
Lemma leap_era y k : leap (y + k * 400) = leap y.
Proof.
  unfold leap. replace (y + k * 400) with (y + (k * 100) * 4) at 1 by lia. rewrite Z.mod_add by lia.
  replace (y + k * 400) with (y + (k * 4) * 100) at 1 by lia. rewrite !Z.mod_add by lia. done.
Qed.

Lemma month_days_era y k m : month_days (y + k * 400) m = month_days y m.
Proof. unfold month_days. by rewrite leap_era. Qed.

Lemma month_days_other y m : m ≠ 2 → month_days y m = month_days 0 m.
Proof. intros. unfold month_days. by rewrite (proj2 (Z.eqb_neq m 2)). Qed.

Lemma civil_month_feb mp : 0 ≤ mp ≤ 11 → civil_month mp = 2 ↔ mp = 11.
Proof. intros. unfold civil_month. destruct (Z.ltb_spec mp 10); lia. Qed.

(** *** The source's two functions in these terms *)

Definition from_civil_spec (y m d : Z) : Z :=
  let y := y - of_bool (m <=? 2) in
  let mp := if 2 <? m then m - 3 else m + 9 in
  (y `div` 400) * 146097 + (era_days (y `mod` 400) + (month_start mp + d - 1)) - 719468.

Definition to_civil_spec (z : Z) : Z * Z * Z :=
  let doe := (z + 719468) `mod` 146097 in
  let era := (z + 719468) `div` 146097 in
  let yoe := year_of_era doe in
  let doy := doe - era_days yoe in
  let mp := month_of_year doy in
  let m := civil_month mp in
  (yoe + era * 400 + of_bool (m <=? 2), m, doy - month_start mp + 1).

(** The years, and the day counts, for which the arithmetic stays meaningful. *)
Definition year_ok (y : Z) : Prop := -2147480000 ≤ y ≤ 2147480000.
Definition day_ok (z : Z) : Prop := -2147483648 ≤ z ≤ 2146764179.

Lemma quot_floor y k : 0 < k → (if 0 <=? y then y else y - (k - 1)) /c k = y `div` k.
Proof.
  intros Hk. destruct (Z.leb_spec 0 y); [by apply Z.quot_div_nonneg|].
  Z.quot_rem_to_equations. Z.div_mod_to_equations. nia.
Qed.

Lemma days_from_civil_eq y m d :
  year_ok y → 1 ≤ m ≤ 12 → 1 ≤ d ≤ 31 → days_from_civil y m d = i32 (from_civil_spec y m d).
Proof.
  unfold year_ok, days_from_civil, from_civil_spec. intros Hy Hm Hd. cbv zeta.
  assert (0 ≤ of_bool (m <=? 2) ≤ 1) by (destruct (m <=? 2); simpl; lia).
  rewrite (i32_small (y - _)) by (unfold is_i32; lia). set (y' := y - _) in *.
  assert ((if 0 <=? y' then y' else i32 (y' - 399)) /c 400 = y' `div` 400) as ->.
  { rewrite i32_small by (unfold is_i32; lia). by apply (quot_floor y' 400). }
  assert (y' - y' `div` 400 * 400 = y' `mod` 400) as -> by (rewrite Z.mod_eq by lia; lia).
  pose proof (Z.mod_pos_bound y' 400 ltac:(lia)) as Hyoe. rewrite (u32_small (y' `mod` 400)) by (unfold is_u32; lia).
  assert ((153 * (m + (if 2 <? m then -3 else 9)) + 2) /c 5
          = month_start (if 2 <? m then m - 3 else m + 9)) as ->.
  { unfold month_start. destruct (Z.ltb_spec 2 m); rewrite Z.quot_div_nonneg by lia; f_equal; lia. }
  set (mp := if 2 <? m then m - 3 else m + 9).
  assert (0 ≤ month_start mp ≤ 337) by (unfold month_start, mp; destruct (Z.ltb_spec 2 m); dlia).
  rewrite (u32_small (month_start mp + d - 1)) by (unfold is_u32; lia).
  replace (y' `mod` 400 * 365) with (365 * y' `mod` 400) by lia. fold (era_days (y' `mod` 400)).
  pose proof (era_days_bound _ Hyoe). rewrite u32_small by (unfold is_u32; lia).
  rewrite (i32_small (era_days _ + _)) by (unfold is_i32; lia).
  generalize (era_days (y' `mod` 400) + (month_start mp + d - 1)) (y' `div` 400 * 146097). intros. word_lia.
Qed.

Lemma civil_from_days_eq z : day_ok z → civil_from_days z = to_civil_spec z.
Proof.
  unfold day_ok, civil_from_days, to_civil_spec. intros Hz. cbv zeta.
  rewrite (i32_small (z + 719468)) by (unfold is_i32; lia). set (z' := z + 719468) in *.
  assert ((if 0 <=? z' then z' else i32 (z' - 146096)) /c 146097 = z' `div` 146097) as ->.
  { destruct (Z.leb_spec 0 z') as [H0|H0]; [|rewrite i32_small by (unfold is_i32; unfold z' in *; lia)].
    - by apply Z.quot_div_nonneg.
    - pose proof (quot_floor z' 146097 ltac:(lia)) as Hq. rewrite (proj2 (Z.leb_gt 0 z')) in Hq by done. exact Hq. }
  assert (z' - z' `div` 146097 * 146097 = z' `mod` 146097) as -> by (rewrite Z.mod_eq by lia; lia).
  pose proof (Z.mod_pos_bound z' 146097 ltac:(lia)) as Hdoe.
  rewrite (u32_small (z' `mod` 146097)) by (unfold is_u32; lia). set (doe := z' `mod` 146097) in *.
  destruct (year_of_era_range doe Hdoe) as (yy & doy & Hyy & Hdoy & Heq).
  rewrite (u32_small (doe - _ + _ - _)) by (unfold is_u32; dlia). fold (year_of_era doe).
  assert (year_of_era doe = yy) as -> by (rewrite Heq; by apply year_of_era_day).
  assert (year_len yy ≤ 366) by (unfold year_len; destruct (leap _); simpl; lia).
  assert (doe - (365 * yy + yy `div` 4 - yy `div` 100) = doy) as -> by (fold (era_days yy); lia).
  replace (doe - era_days yy) with doy by lia. rewrite (u32_small doy) by (unfold is_u32; lia).
  rewrite (u32_small (5 * doy + 2)) by (unfold is_u32; lia). fold (month_of_year doy).
  pose proof (doy_checked doy ltac:(lia)) as Hc. unfold doy_check in Hc. cbv zeta in Hc.
  rewrite !andb_true_iff, !Z.leb_le in Hc. destruct Hc as (((((Hm0 & Hm1) & Hd0) & Hd1) & _) & _).
  set (mp := month_of_year doy) in *. fold (civil_month mp). fold (month_start mp).
  assert (month_days 0 (civil_month mp) ≤ 31) by (unfold month_days; repeat case_match; lia).
  rewrite (u32_small (doy - month_start mp + 1)) by (unfold is_u32; lia).
  rewrite (i32_small (doy - month_start mp + 1)) by (unfold is_i32; lia).
  assert (1 ≤ civil_month mp ≤ 12) by (unfold civil_month; destruct (Z.ltb_spec mp 10); lia).
  rewrite (i32_small (civil_month mp)) by (unfold is_i32; lia).
  assert (-14700 ≤ z' `div` 146097 ≤ 14699) by (unfold z'; dlia).
  assert (0 ≤ of_bool (civil_month mp <=? 2) ≤ 1) by (destruct (_ <=? 2); simpl; lia).
  rewrite (i32_small yy), (i32_small (z' `div` 146097 * 400)) by (unfold is_i32; lia).
  rewrite (i32_small (yy + _)) by (unfold is_i32; lia). rewrite i32_small by (unfold is_i32; lia). done.
Qed.

Lemma year_len_bound y : 365 ≤ year_len y ≤ 366.
Proof. unfold year_len. destruct (leap _); simpl; lia. Qed.

(** A day count named by its era, year and day of the year. *)
Lemma to_civil_at era yy doy :
  0 ≤ yy < 400 → 0 ≤ doy < year_len yy →
  let mp := month_of_year doy in
  to_civil_spec (era * 146097 + (era_days yy + doy) - 719468) =
  (yy + era * 400 + of_bool (civil_month mp <=? 2), civil_month mp, doy - month_start mp + 1).
Proof.
  intros Hy Hd mp. unfold to_civil_spec.
  pose proof (year_checked yy Hy) as Hc. unfold year_check in Hc.
  rewrite !andb_true_iff, !Z.eqb_eq in Hc. destruct Hc as ((Hs & _) & _).
  assert (0 ≤ era_days yy + doy < 146097) as Hr.
  { pose proof (era_days_bound yy Hy). destruct (Z.eqb_spec yy 399); [lia|].
    pose proof (era_days_bound (yy + 1) ltac:(lia)). lia. }
  replace (era * 146097 + (era_days yy + doy) - 719468 + 719468) with (era_days yy + doy + era * 146097) by lia.
  rewrite Z.mod_add, Z.mod_small, Z.div_add, Z.div_small by lia. rewrite year_of_era_day by done.
  replace (era_days yy + doy - era_days yy) with doy by lia. fold mp. tuple_eq.
Qed.

Lemma day_parts z : ∃ era yy doy, 0 ≤ yy < 400 ∧ 0 ≤ doy < year_len yy ∧
  z = era * 146097 + (era_days yy + doy) - 719468.
Proof.
  destruct (year_of_era_range ((z + 719468) `mod` 146097)) as (yy & doy & Hy & Hd & Heq); [apply Z.mod_pos_bound; lia|].
  exists ((z + 719468) `div` 146097), yy, doy. split_and!; try lia.
  rewrite <- Heq. pose proof (Z.div_mod (z + 719468) 146097). lia.
Qed.

(** What evaluation says about a day of the year. *)
Lemma doy_facts doy : 0 ≤ doy < 366 →
  let mp := month_of_year doy in
  let d := doy - month_start mp + 1 in
  0 ≤ mp ≤ 11 ∧ 1 ≤ d ≤ month_days 0 (civil_month mp) ∧ (mp = 11 ↔ 337 ≤ doy) ∧
  (doy < 365 →
   if d <? month_days 0 (civil_month mp) then month_of_year (doy + 1) = mp
   else month_of_year (doy + 1) = mp + 1 ∧ month_start (mp + 1) = doy + 1).
Proof.
  intros Hd mp d. pose proof (doy_checked doy Hd) as Hc. unfold doy_check in Hc. fold mp d in Hc.
  rewrite !andb_true_iff, !Z.leb_le in Hc. destruct Hc as (((((Hm0 & Hm1) & Hd0) & Hd1) & Hn) & Hf).
  apply eqb_prop in Hf. split; [lia|]. split; [lia|]. split.
  - destruct (Z.eqb_spec mp 11), (Z.leb_spec 337 doy); done || lia.
  - intros Hlt. rewrite (proj2 (Z.eqb_neq doy 365)) in Hn by lia. cbn [orb] in Hn.
    destruct (d <? month_days 0 (civil_month mp)); [by apply Z.eqb_eq|].
    apply andb_true_iff in Hn as [?%Z.eqb_eq ?%Z.eqb_eq]. done.
Qed.

Lemma feb_days yy era : month_days (yy + era * 400 + 1) 2 = year_len yy - 337.
Proof.
  unfold year_len. replace (yy + era * 400 + 1) with (yy + 1 + era * 400) by lia.
  rewrite month_days_era. unfold month_days. simpl. destruct (leap (yy + 1)); simpl; lia.
Qed.

Lemma civil_valid z y m d : to_civil_spec z = (y, m, d) → valid_date y m d.
Proof.
  destruct (day_parts z) as (era & yy & doy & Hy & Hd & ->). rewrite to_civil_at by done.
  intros [= <- <- <-]. pose proof (year_len_bound yy).
  destruct (doy_facts doy ltac:(lia)) as (Hmp & Hdd & Hfeb & _). set (mp := month_of_year doy) in *.
  unfold valid_date. split; [unfold civil_month; destruct (Z.ltb_spec mp 10); lia|]. split; [lia|].
  destruct (decide (mp = 11)) as [E|E].
  - rewrite E. change (civil_month 11) with 2. cbn [of_bool Z.leb]. simpl (of_bool _). rewrite feb_days.
    change (month_start 11) with 337. lia.
  - rewrite month_days_other; [lia|]. by rewrite civil_month_feb.
Qed.

Lemma from_to_civil z y m d : to_civil_spec z = (y, m, d) → from_civil_spec y m d = z.
Proof.
  destruct (day_parts z) as (era & yy & doy & Hy & Hd & ->). rewrite to_civil_at by done.
  intros [= <- <- <-]. pose proof (year_len_bound yy).
  destruct (doy_facts doy ltac:(lia)) as (Hmp & _ & _ & _). set (mp := month_of_year doy) in *.
  unfold from_civil_spec.
  replace (yy + era * 400 + of_bool (civil_month mp <=? 2) - of_bool (civil_month mp <=? 2))
    with (yy + era * 400) by lia.
  rewrite Z.div_add, Z.div_small, Z.mod_add, Z.mod_small by lia.
  assert ((if 2 <? civil_month mp then civil_month mp - 3 else civil_month mp + 9) = mp) as ->.
  { unfold civil_month. destruct (Z.ltb_spec mp 10);
      [destruct (Z.ltb_spec 2 (mp + 3))|destruct (Z.ltb_spec 2 (mp - 9))]; lia. }
  lia.
Qed.

Lemma to_from_civil y m d : valid_date y m d → to_civil_spec (from_civil_spec y m d) = (y, m, d).
Proof.
  unfold valid_date. intros [Hm Hd]. unfold from_civil_spec.
  set (y' := y - of_bool (m <=? 2)). set (mp := if 2 <? m then m - 3 else m + 9).
  assert (0 ≤ mp ≤ 11 ∧ civil_month mp = m) as [Hmp Hcm].
  { unfold mp, civil_month. destruct (Z.ltb_spec 2 m); case_match; lia. }
  pose proof (Z.mod_pos_bound y' 400 ltac:(lia)) as Hyy.
  assert (y = y' `mod` 400 + y' `div` 400 * 400 + of_bool (m <=? 2)) as Hyd.
  { pose proof (Z.div_mod y' 400). unfold y' in *. lia. }
  set (yy := y' `mod` 400) in *. set (era := y' `div` 400) in *.
  assert (1 ≤ d ≤ month_days 0 (civil_month mp)) as Hd0.
  { rewrite Hcm. destruct (decide (m = 2)) as [->|Hne]; [|by rewrite <- (month_days_other y)].
    unfold month_days in *. simpl in *. destruct (leap y); simpl; lia. }
  destruct (md_checked mp d Hmp Hd0) as (Hmy & Hdoy & Hno). pose proof (year_len_bound yy).
  rewrite to_civil_at; [|done|].
  - rewrite Hmy, Hcm, <- Hyd. tuple_eq.
  - split; [lia|]. destruct (decide (mp = 11)) as [E|E]; [|lia]. rewrite E in *.
    assert (m = 2) as -> by (rewrite <- Hcm; done). rewrite Hyd in Hd. change (of_bool (2 <=? 2)) with 1 in Hd.
    rewrite feb_days in Hd. change (month_start 11) with 337. lia.
Qed.

Lemma to_civil_next z : to_civil_spec (z + 1) = next_day (to_civil_spec z).
Proof.
  destruct (day_parts z) as (era & yy & doy & Hy & Hd & ->). rewrite to_civil_at by done.
  pose proof (year_len_bound yy). destruct (doy_facts doy ltac:(lia)) as (Hmp & Hdd & Hfeb & Hnext).
  set (mp := month_of_year doy) in *. unfold next_day.
  destruct (decide (doy + 1 < year_len yy)) as [Hlt|Hge].
  - replace (era * 146097 + (era_days yy + doy) - 719468 + 1)
      with (era * 146097 + (era_days yy + (doy + 1)) - 719468) by lia.
    rewrite to_civil_at by lia. specialize (Hnext ltac:(lia)).
    destruct (decide (mp = 11)) as [E|E].
    + rewrite E in *. change (civil_month 11) with 2 in *. change (of_bool (2 <=? 2)) with 1.
      rewrite feb_days. change (month_start 11) with 337 in *. zb_true (doy - 337 + 1 <? year_len yy - 337).
      change (month_days 0 2) with 29 in *.
      rewrite (proj2 (Z.ltb_lt (doy - 337 + 1) 29)) in Hnext by lia. rewrite Hnext.
      change (civil_month 11) with 2. change (month_start 11) with 337. tuple_eq.
    + rewrite (month_days_other _ (civil_month mp)) by (by rewrite civil_month_feb).
      revert Hnext.
      destruct (Z.ltb_spec (doy - month_start mp + 1) (month_days 0 (civil_month mp))); [intros ->; tuple_eq|].
      intros [-> ->]. unfold civil_month in *.
      destruct (Z.ltb_spec mp 10), (Z.ltb_spec (mp + 1) 10);
        repeat match goal with |- context [?a <? 12] => destruct (Z.ltb_spec a 12) end;
        repeat match goal with |- context [?a <=? 2] => destruct (Z.leb_spec a 2) end;
        unfold of_bool; try lia; tuple_eq.
  - assert (doy = year_len yy - 1) as Hdoy by lia. assert (mp = 11) as E by lia. rewrite E in *.
    change (civil_month 11) with 2 in *. change (of_bool (2 <=? 2)) with 1. rewrite feb_days.
    change (month_start 11) with 337 in *. zb_false (doy - 337 + 1 <? year_len yy - 337).
    change (2 <? 12) with true. cbv iota.
    pose proof (year_checked yy Hy) as Hc. unfold year_check in Hc.
    rewrite !andb_true_iff, !Z.eqb_eq in Hc. destruct Hc as ((Hs & _) & _).
    destruct (Z.eqb_spec yy 399) as [->|Hne].
    + replace (era * 146097 + (era_days 399 + doy) - 719468 + 1)
        with ((era + 1) * 146097 + (era_days 0 + 0) - 719468) by (change (era_days 0) with 0; lia).
      rewrite to_civil_at by (lia || (split; [lia|reflexivity])). change (month_of_year 0) with 0.
      change (civil_month 0) with 3. change (of_bool (3 <=? 2)) with 0. change (month_start 0) with 0. tuple_eq.
    + replace (era * 146097 + (era_days yy + doy) - 719468 + 1)
        with (era * 146097 + (era_days (yy + 1) + 0) - 719468) by lia.
      rewrite to_civil_at by (lia || (pose proof (year_len_bound (yy + 1)); lia)). change (month_of_year 0) with 0.
      change (civil_month 0) with 3. change (of_bool (3 <=? 2)) with 0. change (month_start 0) with 0. tuple_eq.
Qed.

(** ** The claims on the calendar *)

Lemma month_days_31 y m : 28 ≤ month_days y m ≤ 31.
Proof. unfold month_days. repeat case_match; lia. Qed.

Lemma to_civil_year z y m d : day_ok z → to_civil_spec z = (y, m, d) → year_ok y ∧ 1 ≤ m ≤ 12 ∧ 1 ≤ d ≤ 31.
Proof.
  intros Hz Hc. pose proof (civil_valid _ _ _ _ Hc) as [Hm Hd]. pose proof (month_days_31 y m).
  split; [|lia]. unfold to_civil_spec in Hc. injection Hc as <- _ _. unfold day_ok, year_ok in *.
  assert (0 ≤ year_of_era ((z + 719468) `mod` 146097) < 400) as Hy.
  { destruct (year_of_era_range ((z + 719468) `mod` 146097)) as (yy & doy & Hy & Hdd & Heq);
      [apply Z.mod_pos_bound; lia|]. by rewrite Heq, year_of_era_day. }
  assert (-14700 ≤ (z + 719468) `div` 146097 ≤ 14700) by dlia.
  match goal with |- context [of_bool ?b] => assert (0 ≤ of_bool b ≤ 1) by (destruct b; simpl; lia) end. lia.
Qed.

Lemma day_ok_i32 z : day_ok z → is_i32 z.
Proof. unfold day_ok, is_i32. lia. Qed.

(** [C10] The calendar is the Gregorian one: day 0 is 1970-01-01, every day count
    names a valid date, and the next day count names the day after that date
    (28, 29, 30 or 31 days a month, leap years by the 4/100/400 rule) - over the
    whole range of day counts whose shifted value fits 32 bits. *)
Theorem calendar_gregorian :
  civil_from_days 0 = (1970, 1, 1) ∧
  ∀ z y m d, day_ok z → civil_from_days z = (y, m, d) →
    valid_date y m d ∧ (day_ok (z + 1) → civil_from_days (z + 1) = next_day (y, m, d)).
Proof.
  split; [vm_compute; reflexivity|]. intros z y m d Hz Hc. rewrite civil_from_days_eq in Hc by done.
  split; [by eapply civil_valid|]. intros Hz1. rewrite civil_from_days_eq by done. by rewrite to_civil_next, Hc.
Qed.

(** Round trips: the day count of the date a day count names is that day
    count; the date of the day count of a valid date is that date. *)
Theorem calendar_roundtrip :
  (∀ z y m d, day_ok z → civil_from_days z = (y, m, d) → days_from_civil y m d = z) ∧
  (∀ y m d, -5000000 ≤ y ≤ 5000000 → valid_date y m d →
     civil_from_days (days_from_civil y m d) = (y, m, d)).
Proof.
  split.
  - intros z y m d Hz Hc. rewrite civil_from_days_eq in Hc by done.
    destruct (to_civil_year z y m d Hz Hc) as (Hy & Hm & Hd).
    rewrite days_from_civil_eq, (from_to_civil _ _ _ _ Hc) by done. by apply i32_small, day_ok_i32.
  - intros y m d Hy Hv. pose proof (month_days_31 y m). pose proof Hv as [Hm Hd].
    assert (day_ok (from_civil_spec y m d)) as Hok.
    { unfold from_civil_spec. set (y' := y - of_bool (m <=? 2)). set (mp := if 2 <? m then m - 3 else m + 9).
      assert (0 ≤ of_bool (m <=? 2) ≤ 1) by (destruct (m <=? 2); simpl; lia).
      pose proof (era_days_bound (y' `mod` 400) ltac:(apply Z.mod_pos_bound; lia)).
      assert (0 ≤ month_start mp ≤ 337) by (unfold month_start, mp; destruct (Z.ltb_spec 2 m); dlia).
      assert (-12501 ≤ y' `div` 400 ≤ 12500) by (unfold y'; dlia). unfold day_ok. lia. }
    rewrite days_from_civil_eq, i32_small by (unfold year_ok; done || lia || by apply day_ok_i32).
    rewrite civil_from_days_eq by done. by apply to_from_civil.
Qed.

(** ** Broken-down time *)

(** Days of the year before month [m]. *)
Definition days_before (y m : Z) : Z := foldr (λ k n, month_days y k + n) 0 (seqZ 1 (m - 1)).

(** Days before the March-based year [y], continued over the eras. *)
Definition year_start (y : Z) : Z := (y `div` 400) * 146097 + era_days (y `mod` 400).

Lemma year_start_next y : year_start (y + 1) = year_start y + year_len y.
Proof.
  unfold year_start. pose proof (Z.mod_pos_bound y 400 ltac:(lia)) as Hm.
  pose proof (year_checked _ Hm) as Hc. unfold year_check in Hc.
  rewrite !andb_true_iff, !Z.eqb_eq in Hc. destruct Hc as ((Hs & _) & _).
  assert (year_len (y `mod` 400) = year_len y) as Hl.
  { unfold year_len. replace (y + 1) with (y `mod` 400 + 1 + y `div` 400 * 400) by (pose proof (Z.div_mod y 400); lia).
    by rewrite leap_era. }
  rewrite Hl in Hs. destruct (Z.eqb_spec (y `mod` 400) 399) as [E|E].
  - assert ((y + 1) `div` 400 = y `div` 400 + 1 ∧ (y + 1) `mod` 400 = 0) as [-> ->] by dlia.
    change (era_days 0) with 0. lia.
  - assert ((y + 1) `div` 400 = y `div` 400 ∧ (y + 1) `mod` 400 = y `mod` 400 + 1) as [-> ->] by dlia. lia.
Qed.

Lemma day_of_year y m d : 1 ≤ m ≤ 12 →
  from_civil_spec y m d - from_civil_spec y 1 1 = days_before y m + d - 1.
Proof.
  intros Hm. assert (∀ m d, from_civil_spec y m d = year_start (y - of_bool (m <=? 2)) +
    (month_start (if 2 <? m then m - 3 else m + 9) + d - 1) - 719468) as Hf.
  { intros. unfold from_civil_spec, year_start. lia. }
  rewrite !Hf. change (of_bool (1 <=? 2)) with 1. change (month_start (if 2 <? 1 then 1 - 3 else 1 + 9)) with 306.
  assert (year_start y = year_start (y - 1) + 365 + of_bool (leap y)) as Hys.
  { pose proof (year_start_next (y - 1)) as Hn. unfold year_len in Hn. replace (y - 1 + 1) with y in Hn by lia. lia. }
  assert (of_bool (leap y) = month_days y 2 - 28) as Hl.
  { unfold month_days. simpl. destruct (leap y); simpl; lia. }
  assert (month_days y 1 = 31 ∧ month_days y 3 = 31 ∧ month_days y 4 = 30 ∧ month_days y 5 = 31 ∧
          month_days y 6 = 30 ∧ month_days y 7 = 31 ∧ month_days y 8 = 31 ∧ month_days y 9 = 30 ∧
          month_days y 10 = 31 ∧ month_days y 11 = 30) as Hmd by (split_and!; reflexivity).
  unfold days_before.
  assert (m = 1 ∨ m = 2 ∨ m = 3 ∨ m = 4 ∨ m = 5 ∨ m = 6 ∨ m = 7 ∨ m = 8 ∨ m = 9 ∨ m = 10 ∨ m = 11 ∨ m = 12)
    as Hcases by lia.
  destruct Hcases as [->|[->|[->|[->|[->|[->|[->|[->|[->|[->|[->| ->]]]]]]]]]]];
    match goal with |- context [of_bool ?b] => let v := eval vm_compute in (of_bool b) in change (of_bool b) with v end;
    match goal with |- context [month_start ?k] => let v := eval vm_compute in (month_start k) in change (month_start k) with v end;
    match goal with |- context [seqZ 1 ?k] => let v := eval vm_compute in (seqZ 1 k) in change (seqZ 1 k) with v end;
    cbn [foldr]; rewrite ?Z.sub_0_r; lia.
Qed.

(** [fill_tm] in terms of the calendar. *)
Lemma fill_tm_eq secs y m d :
  is_i32 secs → to_civil_spec (secs `div` 86400) = (y, m, d) →
  let r := secs `mod` 86400 in
  fill_tm secs = Tm (r `mod` 60) ((r `mod` 3600) `div` 60) (r `div` 3600) d (m - 1) (y - 1900)
                    ((secs `div` 86400 + 4) `mod` 7) (days_before y m + d - 1) 0.
Proof.
  intros Hs Hc. unfold is_i32 in Hs. set (days := secs `div` 86400) in *. unfold fill_tm. cbv zeta.
  assert ((if secs %c 86400 <? 0 then (secs %c 86400 + 86400, secs /c 86400 - 1)
           else (secs %c 86400, secs /c 86400)) = (secs `mod` 86400, days)) as ->.
  { unfold days. destruct (Z.ltb_spec (secs %c 86400) 0); f_equal;
      Z.quot_rem_to_equations; Z.div_mod_to_equations; lia. }
  assert (day_ok days) as Hok by (unfold day_ok, days; dlia).
  rewrite civil_from_days_eq, Hc by done. pose proof (Z.mod_pos_bound secs 86400 ltac:(lia)).
  destruct (to_civil_year _ _ _ _ Hok Hc) as (Hy & Hm & Hd).
  assert (-300000 ≤ y ≤ 300000) as Hysmall.
  { unfold to_civil_spec in Hc. injection Hc as <- _ _.
    assert (0 ≤ year_of_era ((days + 719468) `mod` 146097) < 400) as Hye.
    { destruct (year_of_era_range ((days + 719468) `mod` 146097)) as (yy & doy & Hyy & Hdd & Heq);
        [apply Z.mod_pos_bound; lia|]. by rewrite Heq, year_of_era_day. }
    match goal with |- context [of_bool ?b] => assert (0 ≤ of_bool b ≤ 1) by (destruct b; simpl; lia) end.
    assert (-1 ≤ (days + 719468) `div` 146097 ≤ 6) by (unfold days; dlia). lia. }
  rewrite days_from_civil_eq by (done || lia).
  assert (days - from_civil_spec y 1 1 = days_before y m + d - 1) as Hyd.
  { rewrite <- (day_of_year y m d) by done. by rewrite (from_to_civil _ _ _ _ Hc). }
  assert (0 ≤ days_before y m ≤ 366) as Hdb.
  { assert (m = 1 ∨ m = 2 ∨ m = 3 ∨ m = 4 ∨ m = 5 ∨ m = 6 ∨ m = 7 ∨ m = 8 ∨ m = 9 ∨ m = 10 ∨ m = 11 ∨ m = 12)
      as Hcases by lia. unfold days_before.
    destruct Hcases as [->|[->|[->|[->|[->|[->|[->|[->|[->|[->|[->| ->]]]]]]]]]]];
      match goal with |- context [seqZ 1 ?k] => let v := eval vm_compute in (seqZ 1 k) in change (seqZ 1 k) with v end;
      cbn [foldr]; unfold month_days; simpl; destruct (leap y); lia. }
  rewrite (i32_small (from_civil_spec y 1 1)) by (unfold is_i32, days in *; dlia).
  rewrite Hyd, !i32_small by (unfold is_i32; lia).
  f_equal; try (apply Z.rem_mod_nonneg; lia).
  - rewrite Z.rem_mod_nonneg, Z.quot_div_nonneg by (lia || apply Z.mod_pos_bound; lia). done.
  - by apply Z.quot_div_nonneg; lia.
  - Z.quot_rem_to_equations; Z.div_mod_to_equations; lia.
Qed.

(** Every 32-bit time breaks down into fields in their ranges - a valid date,
    the weekday counted from Thursday 1970-01-01, the day of the year by the
    lengths of the months before it - that give the time back when recomposed. *)
Theorem gmtime_fields t : is_i32 t →
  let g := gmtime (Some t) in
  let y := tm_year g + 1900 in
  0 ≤ tm_sec g ≤ 59 ∧ 0 ≤ tm_min g ≤ 59 ∧ 0 ≤ tm_hour g ≤ 23 ∧
  valid_date y (tm_mon g + 1) (tm_mday g) ∧
  tm_wday g = (t `div` 86400 + 4) `mod` 7 ∧
  tm_yday g = days_before y (tm_mon g + 1) + tm_mday g - 1 ∧
  days_from_civil y (tm_mon g + 1) (tm_mday g) * 86400 + tm_hour g * 3600 + tm_min g * 60 + tm_sec g = t.
Proof.
  intros Ht. unfold gmtime. simpl default. destruct (to_civil_spec (t `div` 86400)) as [[y m] d] eqn:Hc.
  rewrite (fill_tm_eq t y m d Ht Hc). cbn [tm_sec tm_min tm_hour tm_mday tm_mon tm_year tm_wday tm_yday].
  pose proof (Z.mod_pos_bound t 86400 ltac:(lia)) as Hr.
  replace (y - 1900 + 1900) with y by lia. replace (m - 1 + 1) with m by lia.
  assert (day_ok (t `div` 86400)) as Hok by (unfold day_ok, is_i32 in *; dlia).
  destruct (to_civil_year _ _ _ _ Hok Hc) as (Hy & Hm & Hd).
  rewrite days_from_civil_eq, (from_to_civil _ _ _ _ Hc), i32_small by (done || by apply day_ok_i32).
  pose proof (civil_valid _ _ _ _ Hc) as Hv. split_and!; try dlia; try done; apply Hv.
Qed.

(** [mktime] inverts [localtime]: for every time whose local value fits 32
    bits, converting to broken-down local time and back with an unchanged time
    zone gives the time and leaves the structure as it was. *)
Theorem mktime_localtime sett t :
  is_i32 t → is_i32 (tz_offset_minutes sett * 60) → is_i32 (t + tz_offset_minutes sett * 60) →
  mktime sett sett (Some (localtime sett (Some t))) = (t, Some (localtime sett (Some t))).
Proof.
  intros Ht Ho Hs. unfold mktime, localtime. simpl default. rewrite (i32_small (_ * 60)) by done.
  set (off := tz_offset_minutes sett * 60) in *. rewrite (i32_small (t + off)) by done.
  destruct (to_civil_spec ((t + off) `div` 86400)) as [[y m] d] eqn:Hc.
  rewrite (fill_tm_eq (t + off) y m d Hs Hc). cbn [tm_sec tm_min tm_hour tm_mday tm_mon tm_year].
  assert (day_ok ((t + off) `div` 86400)) as Hok by (unfold day_ok, is_i32 in *; dlia).
  destruct (to_civil_year _ _ _ _ Hok Hc) as (Hy & Hm & Hd). unfold year_ok in Hy.
  replace (y - 1900 + 1900) with y by lia. replace (m - 1 + 1) with m by lia.
  rewrite (i32_small y), (i32_small m) by (unfold is_i32; lia).
  rewrite days_from_civil_eq, (from_to_civil _ _ _ _ Hc), (i32_small (_ `div` 86400)) by (done || by apply day_ok_i32).
  pose proof (Z.mod_pos_bound (t + off) 86400 ltac:(lia)) as Hr.
  set (r := (t + off) `mod` 86400) in *.
  match goal with |- (?a, _) = _ => assert (a = t) as -> end.
  { rewrite (i32_small (r `div` 3600 * 3600)), (i32_small ((r `mod` 3600) `div` 60 * 60)) by (unfold is_i32; dlia).
    assert (r `div` 3600 * 3600 + (r `mod` 3600) `div` 60 * 60 + r `mod` 60 = r) as Hsum by dlia.
    assert ((t + off) `div` 86400 * 86400 + r = t + off) as Htot by (unfold r; pose proof (Z.div_mod (t + off) 86400); lia).
    revert Hsum Htot. generalize (r `div` 3600 * 3600) ((r `mod` 3600) `div` 60 * 60) (r `mod` 60)
      ((t + off) `div` 86400 * 86400). clear -Ht Hs. intros a b c e Hsum Htot. word_lia. }
  rewrite (i32_small (t + off)) by done. by rewrite (fill_tm_eq (t + off) y m d Hs Hc).
Qed.

(** [difftime] is the exact difference where it fits 32 bits and the nearest
    end of the range where it does not. *)
Theorem difftime_saturates a b : is_i32 a → is_i32 b →
  difftime a b = Z.max (-2147483648) (Z.min 2147483647 (a - b)).
Proof.
  unfold is_i32. intros Ha Hb. unfold difftime.
  assert (i64 (a - b) = a - b) as -> by word_lia. bool_cases; try lia.
  rewrite i32_small by (unfold is_i32; lia). lia.
Qed.

(** ** [strftime] *)

Definition day_name : list (list Z) := map lit ["Sun"; "Mon"; "Tue"; "Wed"; "Thu"; "Fri"; "Sat"]%string.
Definition day_full : list (list Z) :=
  map lit ["Sunday"; "Monday"; "Tuesday"; "Wednesday"; "Thursday"; "Friday"; "Saturday"]%string.
Definition mon_name : list (list Z) :=
  map lit ["Jan"; "Feb"; "Mar"; "Apr"; "May"; "Jun"; "Jul"; "Aug"; "Sep"; "Oct"; "Nov"; "Dec"]%string.
Definition mon_full : list (list Z) :=
  map lit ["January"; "February"; "March"; "April"; "May"; "June"; "July"; "August"; "September";
           "October"; "November"; "December"]%string.

(** Reading an array of the tables: a negative index is out of bounds. *)
Definition table (t : list (list Z)) (i : Z) : option (list Z) :=
  if i <? 0 then None else t !! Z.to_nat i.

Record out := Out { o_buf : Z; o_size : Z; o_used : Z; o_overflow : Z }.

Definition put (m : mem) (o : out) (c : Z) : option (mem * out) :=
  if o_size o <=? u32 (o_used o + 1) then Some (m, Out (o_buf o) (o_size o) (o_used o) 1)
  else
    m ← store m (o_buf o + o_used o) c;
    Some (m, Out (o_buf o) (o_size o) (u32 (o_used o + 1)) (o_overflow o)).

Fixpoint put_text (m : mem) (o : out) (s : list Z) : option (mem * out) :=
  match s with
  | [] => Some (m, o)
  | c :: s' => '(m, o) ← put m o c; put_text m o s'
  end.

(** The [do ... while]: [digits[0 .. n)], at most 12 of them. *)
Fixpoint num_digits (k : nat) (value : Z) : list Z :=
  match k with
  | O => []
  | S k' =>
      let value' := value /c 10 in
      u8 (48 + value %c 10) :: (if value' =? 0 then [] else num_digits k' value')
  end.

Definition put_num (m : mem) (o : out) (value width pad : Z) : option (mem * out) :=
  '(m, o) ← (if value <? 0 then put m o (chr "-") else Some (m, o));
  let value := if value <? 0 then i32 (- value) else value in
  let ds := num_digits 12 value in
  '(m, o) ← put_text m o (replicate (Z.to_nat (width - Z.of_nat (length ds))) pad);
  put_text m o (reverse ds).

Definition put_zone (m : mem) (o : out) (minutes : Z) : option (mem * out) :=
  let mag := if minutes <? 0 then i32 (- minutes) else minutes in
  '(m, o) ← put_text m o (lit "UTC");
  '(m, o) ← put m o (if minutes <? 0 then chr "-" else chr "+");
  '(m, o) ← put_num m o (mag /c 60) 2 (chr "0");
  '(m, o) ← put m o (chr ":");
  put_num m o (mag %c 60) 2 (chr "0").

(** The [switch] on the character behind the percent sign. *)
Definition strftime_field (m : mem) (o : out) (minutes : Z) (t : tm) (c : Z) : option (mem * out) :=
  if c =? chr "Y" then put_num m o (i32 (tm_year t + 1900)) 4 (chr "0")
  else if c =? chr "y" then put_num m o (i32 (tm_year t + 1900) %c 100) 2 (chr "0")
  else if c =? chr "m" then put_num m o (i32 (tm_mon t + 1)) 2 (chr "0")
  else if c =? chr "d" then put_num m o (tm_mday t) 2 (chr "0")
  else if c =? chr "e" then put_num m o (tm_mday t) 2 (chr " ")
  else if c =? chr "H" then put_num m o (tm_hour t) 2 (chr "0")
  else if c =? chr "I" then
    let h := tm_hour t %c 12 in put_num m o (if h =? 0 then 12 else h) 2 (chr "0")
  else if c =? chr "M" then put_num m o (tm_min t) 2 (chr "0")
  else if c =? chr "S" then put_num m o (tm_sec t) 2 (chr "0")
  else if c =? chr "j" then put_num m o (i32 (tm_yday t + 1)) 3 (chr "0")
  else if c =? chr "a" then s ← table day_name (tm_wday t %c 7); put_text m o s
  else if c =? chr "A" then s ← table day_full (tm_wday t %c 7); put_text m o s
  else if c =? chr "b" then s ← table mon_name (tm_mon t %c 12); put_text m o s
  else if c =? chr "B" then s ← table mon_full (tm_mon t %c 12); put_text m o s
  else if c =? chr "p" then put_text m o (if tm_hour t <? 12 then lit "AM" else lit "PM")
  else if c =? chr "Z" then put_zone m o minutes
  else if c =? chr "%" then put m o (chr "%")
  else if c =? 0 then put m o (chr "%")
  else put m o c.

Fixpoint strftime_loop (f : nat) (m : mem) (o : out) (minutes : Z) (t : tm) (p : Z) : option (mem * out) :=
  match f with
  | O => None
  | S f' =>
      c ← load m p;
      if c =? 0 then Some (m, o)
      else if negb (c =? chr "%") then '(m, o) ← put m o c; strftime_loop f' m o minutes t (p + 1)
      else
        c ← load m (p + 1);
        '(m, o) ← strftime_field m o minutes t c;
        strftime_loop f' m o minutes t (if c =? 0 then p + 1 else p + 2)
  end.

Definition strftime (m : mem) (buf size fmt : Z) (minutes : Z) (t : tm) : option (Z * mem) :=
  if (buf =? 0) || (size =? 0) then Some (0, m)
  else
    '(m, o) ← (if fmt =? 0 then Some (m, Out buf size 0 0)
               else strftime_loop (fuel m) m (Out buf size 0 0) minutes t fmt);
    m ← store m (buf + o_used o) 0;
    Some (if negb (o_overflow o =? 0) then 0 else o_used o, m).

(** *** Reference: the text a format denotes *)

Definition num_text (value width pad : Z) : list Z :=
  let ds := map digit_char (digits 10 (Z.abs value)) in
  (if value <? 0 then lit "-" else []) ++ replicate (Z.to_nat width - length ds) pad ++ ds.

Definition zone_text (minutes : Z) : list Z :=
  lit "UTC" ++ (if minutes <? 0 then lit "-" else lit "+") ++
  num_text (Z.abs minutes / 60) 2 (chr "0") ++ lit ":" ++ num_text (Z.abs minutes `mod` 60) 2 (chr "0").

Definition field_text (minutes : Z) (t : tm) (c : Z) : list Z :=
  let year := tm_year t + 1900 in
  let h := tm_hour t `mod` 12 in
  if c =? chr "Y" then num_text year 4 (chr "0")
  else if c =? chr "y" then num_text (Z.rem year 100) 2 (chr "0")
  else if c =? chr "m" then num_text (tm_mon t + 1) 2 (chr "0")
  else if c =? chr "d" then num_text (tm_mday t) 2 (chr "0")
  else if c =? chr "e" then num_text (tm_mday t) 2 (chr " ")
  else if c =? chr "H" then num_text (tm_hour t) 2 (chr "0")
  else if c =? chr "I" then num_text (if h =? 0 then 12 else h) 2 (chr "0")
  else if c =? chr "M" then num_text (tm_min t) 2 (chr "0")
  else if c =? chr "S" then num_text (tm_sec t) 2 (chr "0")
  else if c =? chr "j" then num_text (tm_yday t + 1) 3 (chr "0")
  else if c =? chr "a" then nth (Z.to_nat (tm_wday t)) day_name []
  else if c =? chr "A" then nth (Z.to_nat (tm_wday t)) day_full []
  else if c =? chr "b" then nth (Z.to_nat (tm_mon t)) mon_name []
  else if c =? chr "B" then nth (Z.to_nat (tm_mon t)) mon_full []
  else if c =? chr "p" then (if tm_hour t <? 12 then lit "AM" else lit "PM")
  else if c =? chr "Z" then zone_text minutes
  else [c].

Fixpoint expand (minutes : Z) (t : tm) (fmt : list Z) : list Z :=
  match fmt with
  | [] => []
  | c :: rest =>
      if c =? chr "%" then
        match rest with
        | [] => [chr "%"]
        | k :: rest' => field_text minutes t k ++ expand minutes t rest'
        end
      else c :: expand minutes t rest
  end.

(** *** The writer *)

Section writer.
Context (m0 : mem) (buf size : Z).
Context (Hsize : 0 < size < 4294967296) (Hmap : mapped m0 buf size).

(** Memory and writer state after the text [t] was put. *)
Definition room : nat := Z.to_nat (size - 1).
Definition emitted (t : list Z) : mem * out :=
  (write m0 buf (take room t),
   Out buf size (Z.of_nat (Nat.min room (length t))) (of_bool (Nat.ltb room (length t)))).

Lemma put_ok t c : is_u8 c → put (fst (emitted t)) (snd (emitted t)) c = Some (emitted (t ++ [c])).
Proof using Hsize Hmap.
  intros Hc. unfold put, emitted, room. cbn [fst snd o_size o_used o_buf o_overflow].
  rewrite u32_small by (unfold is_u32; lia). rewrite length_app. cbn [length].
  destruct (Z.leb_spec size (Z.of_nat (Nat.min (Z.to_nat (size - 1)) (length t)) + 1)).
  - rewrite take_app_le by lia. do 3 f_equal; [|destruct (Nat.ltb_spec (Z.to_nat (size - 1)) (length t + 1)); simpl; lia].
    lia.
  - rewrite store_mapped by (apply (mapped_write _ _ _ _ _ Hmap); lia). cbn [mbind option_bind].
    rewrite (take_ge (t ++ [c])) by (rewrite length_app; simpl; lia). rewrite (take_ge t) by lia.
    rewrite u8_small, write_app by done. rewrite Nat.min_r by lia. do 2 f_equal.
    f_equal; [lia|]. destruct (Nat.ltb_spec (Z.to_nat (size - 1)) (length t)),
      (Nat.ltb_spec (Z.to_nat (size - 1)) (length t + 1)); simpl; lia.
Qed.

Lemma put_text_ok t s :
  Forall is_u8 s → put_text (fst (emitted t)) (snd (emitted t)) s = Some (emitted (t ++ s)).
Proof using Hsize Hmap.
  intros Hs. revert t. induction Hs as [|c s Hc _ IH]; intros t; cbn [put_text].
  - rewrite app_nil_r. by destruct (emitted t).
  - rewrite put_ok by done. rewrite some_bind. rewrite (surjective_pairing (emitted (t ++ [c]))).
    rewrite IH. by rewrite <- app_assoc.
Qed.

Lemma num_digits_ok k v : 0 ≤ v < 10 ^ Z.of_nat k → num_digits k v = map digit_char (digits_rev 10 v) ∨ k = 0%nat.
Proof.
  revert v. induction k as [|k IH]; intros v Hv; [by right|]. left. cbn [num_digits].
  rewrite digits_rev_unfold by lia. rewrite Z.rem_mod_nonneg, Z.quot_div_nonneg by lia.
  pose proof (Z.mod_pos_bound v 10 ltac:(lia)). rewrite u8_small by (unfold is_u8; lia).
  assert (digit_char (v `mod` 10) = 48 + v `mod` 10) as Hc by (unfold digit_char; by zb_true (v `mod` 10 <? 10)).
  destruct (Z.ltb_spec v 10) as [Hlt|Hge].
  - rewrite Z.div_small by lia. rewrite Z.mod_small in * by lia. simpl. by rewrite <- Hc.
  - assert (0 < v `div` 10) by (apply Z.div_str_pos; lia). rewrite (proj2 (Z.eqb_neq _ 0)) by lia.
    cbn [map]. rewrite Hc. f_equal.
    assert (v `div` 10 < 10 ^ Z.of_nat k) as Hlt.
    { apply Z.div_lt_upper_bound; [lia|]. rewrite <- Z.pow_succ_r by lia.
      replace (Z.succ (Z.of_nat k)) with (Z.of_nat (S k)) by lia. lia. }
    destruct (IH (v `div` 10)) as [?| ->]; [lia|done|simpl in Hlt; lia].
Qed.

Lemma put_num_ok t v width pad :
  -2147483648 < v < 2147483648 → 0 ≤ width → is_u8 pad →
  put_num (fst (emitted t)) (snd (emitted t)) v width pad = Some (emitted (t ++ num_text v width pad)).
Proof using Hsize Hmap.
  intros Hv Hw Hp. unfold put_num, num_text.
  assert ((if v <? 0 then put (fst (emitted t)) (snd (emitted t)) (chr "-")
           else Some ((fst (emitted t)), (snd (emitted t)))) = Some (emitted (t ++ (if v <? 0 then lit "-" else [])))) as ->.
  { destruct (v <? 0); [apply put_ok; by vm_compute|]. rewrite app_nil_r. by destruct (emitted t). }
  rewrite some_bind. rewrite (surjective_pairing (emitted (t ++ (if v <? 0 then lit "-" else [])))).
  assert ((if v <? 0 then i32 (- v) else v) = Z.abs v) as ->.
  { destruct (Z.ltb_spec v 0); [rewrite i32_small by (unfold is_i32; lia)|]; lia. }
  cbv zeta. destruct (num_digits_ok 12 (Z.abs v)) as [->|]; [simpl; lia| |done].
  assert (reverse (map digit_char (digits_rev 10 (Z.abs v))) = map digit_char (digits 10 (Z.abs v))) as Hrev.
  { unfold digits. by rewrite <- (fmap_reverse digit_char). }
  assert (Forall is_u8 (map digit_char (digits 10 (Z.abs v)))) as Hu.
  { destruct (digits_num 10 (Z.abs v)) as [_ Hd]; [lia|lia|]. apply Forall_map.
    eapply Forall_impl; [done|]. intros d Hr. simpl in Hr. apply is_char_u8, digit_char_ok. lia. }
  rewrite put_text_ok by (by apply Forall_replicate). rewrite some_bind.
  rewrite (surjective_pairing (emitted _)). rewrite Hrev, put_text_ok by done.
  rewrite !app_assoc. do 4 f_equal. f_equal.
  assert (length (map digit_char (digits_rev 10 (Z.abs v))) = length (map digit_char (digits 10 (Z.abs v)))) as ->.
  { rewrite !length_map. unfold digits. by rewrite length_reverse. }
  lia.
Qed.

(** Broken-down times as [gmtime] fills them. *)
Definition tm_ok (t : tm) : Prop :=
  0 ≤ tm_sec t ≤ 60 ∧ 0 ≤ tm_min t ≤ 59 ∧ 0 ≤ tm_hour t ≤ 23 ∧ 1 ≤ tm_mday t ≤ 31 ∧
  0 ≤ tm_mon t ≤ 11 ∧ -2000000000 ≤ tm_year t ≤ 2000000000 ∧ 0 ≤ tm_wday t ≤ 6 ∧ 0 ≤ tm_yday t ≤ 365.

Lemma put_zone_ok t minutes :
  -2147483648 < minutes < 2147483648 →
  put_zone (fst (emitted t)) (snd (emitted t)) minutes = Some (emitted (t ++ zone_text minutes)).
Proof using Hsize Hmap.
  intros Hm. unfold put_zone, zone_text. cbv zeta.
  assert ((if minutes <? 0 then i32 (- minutes) else minutes) = Z.abs minutes) as ->.
  { destruct (Z.ltb_spec minutes 0); [rewrite i32_small by (unfold is_i32; lia)|]; lia. }
  rewrite Z.quot_div_nonneg, Z.rem_mod_nonneg by lia.
  assert (0 ≤ Z.abs minutes `div` 60 < 2147483648) by dlia.
  pose proof (Z.mod_pos_bound (Z.abs minutes) 60 ltac:(lia)).
  rewrite put_text_ok by apply lit_u8. rewrite some_bind. rewrite (surjective_pairing (emitted _)).
  rewrite put_ok by (destruct (minutes <? 0); apply chr_u8). rewrite some_bind. rewrite (surjective_pairing (emitted _)).
  rewrite put_num_ok by (lia || apply chr_u8). rewrite some_bind. rewrite (surjective_pairing (emitted _)).
  rewrite put_ok by apply chr_u8. rewrite some_bind. rewrite (surjective_pairing (emitted _)).
  rewrite put_num_ok by (lia || apply chr_u8). do 2 f_equal. rewrite <- !app_assoc.
  by destruct (minutes <? 0).
Qed.

Lemma table_ok tb i : 0 ≤ i < Z.of_nat (length tb) → table tb i = Some (nth (Z.to_nat i) tb []).
Proof.
  intros Hi. unfold table. rewrite (proj2 (Z.ltb_ge i 0)) by lia.
  destruct (lookup_lt_is_Some_2 tb (Z.to_nat i)) as [x Hx]; [lia|]. rewrite Hx. f_equal.
  symmetry. by apply nth_lookup_Some.
Qed.

Lemma tables_u8 : Forall (Forall is_u8) (day_name ++ day_full ++ mon_name ++ mon_full).
Proof.
  unfold day_name, day_full, mon_name, mon_full. rewrite !Forall_app.
  split_and!; apply Forall_map, Forall_forall; intros s _; apply lit_u8.
Qed.

Lemma nth_u8 tb i : Forall (Forall is_u8) tb → Forall is_u8 (nth i tb []).
Proof. intros Ht. revert i. induction Ht; intros [|i]; simpl; auto. Qed.

Lemma put_table_ok t tb i :
  Forall (Forall is_u8) tb → 0 ≤ i < Z.of_nat (length tb) →
  (s ← table tb i; put_text (fst (emitted t)) (snd (emitted t)) s) = Some (emitted (t ++ nth (Z.to_nat i) tb [])).
Proof using Hsize Hmap.
  intros Ht Hi. rewrite table_ok by done. rewrite some_bind. apply put_text_ok. by apply nth_u8.
Qed.

Lemma strftime_field_ok t minutes tb c :
  tm_ok tb → -2147483648 < minutes < 2147483648 → is_char c →
  strftime_field (fst (emitted t)) (snd (emitted t)) minutes tb c
  = Some (emitted (t ++ field_text minutes tb c)).
Proof using Hsize Hmap.
  intros (Hs & Hmi & Hh & Hd & Hmo & Hy & Hw & Hyd) Hz Hc. unfold strftime_field, field_text. cbv zeta.
  pose proof tables_u8 as Htb. rewrite !Forall_app in Htb. destruct Htb as (T1 & T2 & T3 & T4).
  rewrite !(Z.rem_small (tm_wday tb)), !(Z.rem_small (tm_mon tb)), (Z.rem_mod_nonneg (tm_hour tb)) by lia.
  rewrite (i32_small (tm_year tb + 1900)), (i32_small (tm_mon tb + 1)), (i32_small (tm_yday tb + 1))
    by (unfold is_i32; lia).
  pose proof (Z.mod_pos_bound (tm_hour tb) 12 ltac:(lia)).
  assert (-100 < (tm_year tb + 1900) %c 100 < 100) by (pose proof (Z.rem_bound_abs (tm_year tb + 1900) 100); lia).
  repeat match goal with
  | |- (if ?c =? ?k then _ else _) = _ => destruct (Z.eqb_spec c k) as [->|?]
  end;
  first
    [ apply put_num_ok; [lia|lia|apply chr_u8]
    | apply put_table_ok; [assumption|simpl; lia]
    | apply put_zone_ok; lia
    | apply put_text_ok; destruct (tm_hour tb <? 12); apply lit_u8
    | apply put_ok; first [apply chr_u8|by apply is_char_u8]
    | idtac ].
  - apply put_num_ok; [destruct (_ =? 0); lia|lia|apply chr_u8].
  - unfold is_char in Hc. lia.
Qed.

Lemma emitted_load t p fmt i :
  cstr m0 p fmt → disjoint buf size p (Z.of_nat (length fmt) + 1) → (i ≤ length fmt)%nat →
  load (fst (emitted t)) (p + Z.of_nat i) = Some (char_at fmt i).
Proof using Hsize Hmap.
  intros Hf Hd Hi. rewrite <- (load_cstr m0 p fmt i Hf Hi). unfold load, emitted. cbn [fst].
  apply lookup_write_out. rewrite length_take. unfold room, disjoint in *. lia.
Qed.

Lemma strftime_loop_ok f t minutes tb p fmt :
  tm_ok tb → -2147483648 < minutes < 2147483648 → cstr m0 p fmt →
  disjoint buf size p (Z.of_nat (length fmt) + 1) → (length fmt < f)%nat →
  strftime_loop f (fst (emitted t)) (snd (emitted t)) minutes tb p = Some (emitted (t ++ expand minutes tb fmt)).
Proof using Hsize Hmap.
  intros Htm Hz. revert t p fmt. induction f as [|f IH]; intros t p fmt Hf Hd Hl; [lia|].
  cbn [strftime_loop]. pose proof (emitted_load t p fmt 0 Hf Hd ltac:(lia)) as H0.
  rewrite Z.add_0_r in H0. rewrite H0, some_bind. destruct fmt as [|c fmt].
  { change (char_at [] 0 =? 0) with true. cbn [expand]. rewrite app_nil_r. by destruct (emitted t). }
  change (char_at (c :: fmt) 0) with c. pose proof Hf as (_ & Hc & Hf1)%cstr_cons.
  assert ((c =? 0) = false) as -> by (unfold is_char in Hc; lia). cbn [length] in Hl, Hd. cbn [expand].
  destruct (Z.eqb_spec c (chr "%")) as [->|Hne]; cbn [negb].
  2:{ rewrite put_ok, some_bind by (by apply is_char_u8). rewrite (surjective_pairing (emitted _)).
      rewrite (IH _ (p + 1) fmt); [by rewrite <- app_assoc|done| |lia]. unfold disjoint in *. lia. }
  pose proof (emitted_load t p (chr "%" :: fmt) 1 Hf Hd ltac:(simpl; lia)) as H1.
  change (Z.of_nat 1) with 1 in H1. rewrite H1, some_bind. destruct fmt as [|k fmt].
  - change (char_at [chr "%"] 1) with 0.
    assert (strftime_field (fst (emitted t)) (snd (emitted t)) minutes tb 0 = put (fst (emitted t)) (snd (emitted t)) (chr "%"))
      as -> by reflexivity.
    rewrite put_ok, some_bind by apply chr_u8. rewrite (surjective_pairing (emitted _)).
    rewrite (IH _ (p + 1) []); [by rewrite app_nil_r|done| |simpl in *; lia]. unfold disjoint in *. simpl in *. lia.
  - change (char_at (chr "%" :: k :: fmt) 1) with k. pose proof Hf1 as (_ & Hk & Hf2)%cstr_cons.
    rewrite strftime_field_ok, some_bind by done. rewrite (surjective_pairing (emitted _)).
    assert ((k =? 0) = false) as -> by (unfold is_char in Hk; lia).
    replace (p + 2) with (p + 1 + 1) by lia.
    rewrite (IH _ (p + 1 + 1) fmt); [by rewrite <- app_assoc|done| |simpl in *; lia].
    unfold disjoint in *. simpl in *. lia.
Qed.

(** [C38] [strftime] writes the text the format denotes, cut to the buffer and
    always terminated inside it, touches nothing else, and returns the length of
    the text - or 0 exactly when the text and its terminator do not fit. *)
Theorem strftime_text minutes tb fmt p :
  tm_ok tb → -2147483648 < minutes < 2147483648 → buf ≠ 0 → p ≠ 0 → cstr m0 p fmt →
  disjoint buf size p (Z.of_nat (length fmt) + 1) →
  let t := expand minutes tb fmt in
  strftime m0 buf size p minutes tb =
  Some (if Z.of_nat (length t) <? size then Z.of_nat (length t) else 0,
        write m0 buf (take (Z.to_nat (size - 1)) t ++ [0])).
Proof using Hsize Hmap.
  intros Htm Hz Hb Hp Hf Hd t. unfold strftime.
  rewrite (proj2 (Z.eqb_neq buf 0)), (proj2 (Z.eqb_neq size 0)), (proj2 (Z.eqb_neq p 0)) by lia. cbn [orb].
  assert (emitted [] = (m0, Out buf size 0 0)) as He.
  { unfold emitted. rewrite take_nil. cbn [length]. by rewrite Nat.min_0_r. }
  pose proof (strftime_loop_ok (fuel m0) [] minutes tb p fmt Htm Hz Hf Hd (cstr_fuel _ _ _ Hf)) as Hl.
  rewrite He in Hl. cbn [fst snd app] in Hl. rewrite Hl, some_bind. fold t. unfold emitted, room. cbn [o_used o_overflow].
  rewrite store_mapped by (apply (mapped_write _ _ _ _ _ Hmap); lia). rewrite some_bind.
  rewrite write_app, length_take. change (u8 0) with 0. f_equal. apply f_equal2; [|done].
  destruct (Nat.ltb_spec (Z.to_nat (size - 1)) (length t)); simpl; bool_cases; lia.
Qed.
End writer.

(** ** Witnesses *)

Lemma calendar_gregorian_witness :
  civil_from_days 19782 = (2024, 2, 29) ∧ civil_from_days 19783 = (2024, 3, 1).
Proof.
  assert (civil_from_days 19782 = (2024, 2, 29)) as H0 by (vm_compute; reflexivity).
  split; [exact H0|].
  destruct (proj2 calendar_gregorian 19782 2024 2 29 ltac:(unfold day_ok; lia) H0) as [_ Hn].
  exact (Hn ltac:(unfold day_ok; lia)).
Defined.

Lemma calendar_roundtrip_witness :
  civil_from_days (-1) = (1969, 12, 31) ∧ days_from_civil 1969 12 31 = -1 ∧
  civil_from_days (days_from_civil 2000 2 29) = (2000, 2, 29).
Proof.
  assert (civil_from_days (-1) = (1969, 12, 31)) as H0 by (vm_compute; reflexivity).
  split; [exact H0|]. split.
  - exact (proj1 calendar_roundtrip (-1) 1969 12 31 ltac:(unfold day_ok; lia) H0).
  - apply (proj2 calendar_roundtrip); [lia|]. split; vm_compute; split; congruence.
Defined.

Lemma gmtime_fields_witness :
  tm_wday (gmtime (Some (-1))) = 3 ∧ tm_hour (gmtime (Some (-1))) ≤ 23.
Proof.
  destruct (gmtime_fields (-1) ltac:(unfold is_i32; lia)) as (_ & _ & Hh & _ & Hw & _).
  split; [rewrite Hw; reflexivity|lia].
Defined.

Definition tz_text : option (list Z) := Some (lit " -90" ++ replicate 28 0).

Lemma mktime_localtime_witness :
  tz_offset_minutes tz_text = -90 ∧
  mktime tz_text tz_text (Some (localtime tz_text (Some 1700000000))) = (1700000000, Some (localtime tz_text (Some 1700000000))).
Proof.
  assert (tz_offset_minutes tz_text = -90) as Ho by (vm_compute; reflexivity).
  split; [exact Ho|]. apply mktime_localtime; rewrite ?Ho; unfold is_i32; lia.
Defined.

Lemma difftime_saturates_witness : difftime 2147483647 (-2147483648) = 2147483647.
Proof. rewrite difftime_saturates; [reflexivity|unfold is_i32; lia..]. Defined.

Definition strf_mem : mem := mem_of 64 (replicate 16 1 ++ lit "%Y-%m-%d %Z" ++ [0]).

Lemma strftime_text_witness :
  cstr strf_mem 80 (lit "%Y-%m-%d %Z") ∧
  (r ← strftime strf_mem 64 16 80 (-90) (gmtime (Some 0)); Some (fst r)) = Some 0 ∧
  strftime strf_mem 64 16 80 (-90) (gmtime (Some 0)) =
    Some (0, write strf_mem 64 (lit "1970-01-01 UTC-" ++ [0])).
Proof.
  assert (cstr strf_mem 80 (lit "%Y-%m-%d %Z")) as Hc by (apply cstrb_cstr; vm_compute; reflexivity).
  split; [exact Hc|].
  assert (strftime strf_mem 64 16 80 (-90) (gmtime (Some 0)) =
    Some (0, write strf_mem 64 (lit "1970-01-01 UTC-" ++ [0]))) as Hs.
  { apply (strftime_text strf_mem 64 16 ltac:(lia)) with (fmt := lit "%Y-%m-%d %Z").
    - apply mappedb_mapped. vm_compute. reflexivity.
    - vm_compute. repeat split; congruence.
    - lia.
    - lia.
    - lia.
    - exact Hc.
    - left. lia. }
  split; [by rewrite Hs|exact Hs].
Defined.
