(* ===== verification/Format.v ===== *)
(** * The formatter of [c/rt/stdio.c]: one [format_into] for four entry points

    The formatter reads the format (and the strings of [%s]) from memory and
    sends characters to a sink.  The sink is an interface ([Sink]): a state that
    can be read from and written to.  Three sinks implement it:
    - [buffer]: [out_t] with a buffer ([snprintf] and its relatives);
    - [chunked]: [out_t] without one, [OUT_CHUNK] bytes at a time to a stream or
      the console ([printf], [fprintf]);
    - [collector]: the reference, which keeps the characters in a list.
    A simulation lemma, proved once for the whole formatter, carries every fact
    about the reference over to the other two. *)

From S2P Require Import Prelude CMem CString CStdlib.

(** ** Sinks and the formatter *)

Class Sink (S : Type) := {
  rd : S → Z → option Z;             (* one byte of the program's memory *)
  putc : S → Z → option S            (* [out_char] *)
}.

Section formatter.
Context {S : Type} `{Sink S}.

Definition peek (p : Z) : M S Z := λ s, c ← rd s p; Some (c, s).
Definition out_char (c : Z) : M S unit := λ s, s' ← putc s c; Some (tt, s').

Fixpoint out_text (t : list Z) : M S unit :=
  match t with
  | [] => ret tt
  | c :: t' => out_char c;;; out_text t'
  end.

Definition out_repeat (c count : Z) : M S unit := out_text (replicate (Z.to_nat count) c).

(** The [do ... while] over [tmp[32]]: the digits, least significant first. *)
Fixpoint number_digits (k : nat) (magnitude base : Z) : list Z :=
  match k with
  | O => []
  | Datatypes.S k' =>
      (magnitude `mod` base) ::
      (if magnitude `div` base =? 0 then [] else number_digits k' (magnitude `div` base) base)
  end.

(** [digits[d]] of the two digit tables. *)
Definition digit_of (upper : bool) (d : Z) : Z :=
  if d <? 10 then 48 + d else (if upper then 65 else 97) + (d - 10).

Definition out_number (magnitude : Z) (prefix : list Z) (base : Z) (upper : bool)
    (width precision pad : Z) (left : bool) : M S unit :=
  let tmp := map (digit_of upper) (number_digits 32 magnitude base) in
  let n := Z.of_nat (length tmp) in
  let prefix_len := Z.of_nat (length prefix) in
  let zeros := if n <? precision then precision - n else 0 in
  let shown := u32 (n + zeros + prefix_len) in
  (if negb left && (pad =? chr " ") && (shown <? width) then out_repeat (chr " ") (width - shown) else ret tt);;;
  out_text prefix;;;
  (if negb left && (pad =? chr "0") && (precision =? 0) && (shown <? width)
   then out_repeat (chr "0") (width - shown) else ret tt);;;
  out_repeat (chr "0") zeros;;;
  out_text (reverse tmp);;;
  (if left && (shown <? width) then out_repeat (chr " ") (width - shown) else ret tt).

Record flags := Flags { f_left : bool; f_pad : Z; f_plus : bool; f_space : bool; f_alt : bool }.
Definition no_flags : flags := Flags false (chr " ") false false false.

(** [for (;; fmt++)] over the flag characters. *)
Fixpoint flags_loop (f : nat) (p : Z) (fl : flags) : M S (Z * flags) :=
  match f with
  | O => fault
  | Datatypes.S f' =>
      c <- peek p;;
      let 'Flags ljust pad plus space alt := fl in
      if c =? chr "-" then flags_loop f' (p + 1) (Flags true pad plus space alt)
      else if c =? chr "0" then flags_loop f' (p + 1) (Flags ljust (chr "0") plus space alt)
      else if c =? chr "+" then flags_loop f' (p + 1) (Flags ljust pad true space alt)
      else if c =? chr " " then flags_loop f' (p + 1) (Flags ljust pad plus true alt)
      else if c =? chr "#" then flags_loop f' (p + 1) (Flags ljust pad plus space true)
      else ret (p, fl)
  end.

(** [while ( *fmt >= '0' && *fmt <= '9')]. *)
Fixpoint dec_loop (f : nat) (p v : Z) : M S (Z * Z) :=
  match f with
  | O => fault
  | Datatypes.S f' =>
      c <- peek p;;
      if (chr "0" <=? i8 c) && (i8 c <=? chr "9")
      then dec_loop f' (p + 1) (u32 (u32 (v * 10) + (i8 c - chr "0")))
      else ret (p, v)
  end.

(** The length modifiers. *)
Fixpoint mods_loop (f : nat) (p : Z) : M S Z :=
  match f with
  | O => fault
  | Datatypes.S f' =>
      c <- peek p;;
      if (c =? chr "l") || (c =? chr "h") || (c =? chr "z") || (c =? chr "t") || (c =? chr "j") || (c =? chr "q")
      then mods_loop f' (p + 1) else ret p
  end.

Fixpoint strlen_loop' (f : nat) (s n : Z) : M S Z :=
  match f with
  | O => fault
  | Datatypes.S f' => c <- peek (s + n);; if c =? 0 then ret n else strlen_loop' f' s (u32 (n + 1))
  end.

(** [for (i = 0; i < n; i++) out_char(o, s[i])]. *)
Fixpoint out_bytes (k : nat) (p : Z) : M S unit :=
  match k with
  | O => ret tt
  | Datatypes.S k' => c <- peek p;; out_char c;;; out_bytes k' (p + 1)
  end.

(** [va_arg]: the next word, if the caller passed one. *)
Definition va_arg (args : list Z) : M S (Z * list Z) :=
  match args with a :: args' => ret (a, args') | [] => fault end.

Definition out_spaces (n width : Z) : M S unit := out_repeat (chr " ") (width - n).

(** The [switch ( *fmt)]; the result is what is ljust of the arguments. *)
Definition conversion (f : nat) (c : Z) (fl : flags) (width precision : Z) (args : list Z) : M S (list Z) :=
  let 'Flags ljust pad plus space alt := fl in
  if (c =? chr "d") || (c =? chr "i") then
    r <- va_arg args;;
    let v := i32 (fst r) in
    let m := if v <? 0 then u32 (- v) else v in
    let prefix := if v <? 0 then lit "-" else if plus then lit "+" else if space then lit " " else [] in
    out_number m prefix 10 false width precision pad ljust;;; ret (snd r)
  else if c =? chr "u" then
    r <- va_arg args;; out_number (u32 (fst r)) [] 10 false width precision pad ljust;;; ret (snd r)
  else if c =? chr "o" then
    r <- va_arg args;;
    out_number (u32 (fst r)) (if alt then lit "0" else []) 8 false width precision pad ljust;;; ret (snd r)
  else if c =? chr "x" then
    r <- va_arg args;;
    out_number (u32 (fst r)) (if alt then lit "0x" else []) 16 false width precision pad ljust;;; ret (snd r)
  else if c =? chr "X" then
    r <- va_arg args;;
    out_number (u32 (fst r)) (if alt then lit "0X" else []) 16 true width precision pad ljust;;; ret (snd r)
  else if c =? chr "p" then
    out_text (lit "0x");;;
    r <- va_arg args;; out_number (u32 (fst r)) [] 16 false 8 0 (chr "0") false;;; ret (snd r)
  else if c =? chr "s" then
    r <- va_arg args;;
    let s := u32 (fst r) in
    len <- (if s =? 0 then ret 6 else strlen_loop' f s 0);;
    let n := if negb (precision =? 0) && (precision <? len) then precision else len in
    (if negb ljust then out_spaces n width else ret tt);;;
    (if s =? 0 then out_text (take (Z.to_nat n) (lit "(null)")) else out_bytes (Z.to_nat n) s);;;
    (if ljust then out_spaces n width else ret tt);;;
    ret (snd r)
  else if c =? chr "c" then
    r <- va_arg args;; out_char (u8 (fst r));;; ret (snd r)
  else if (c =? chr "f") || (c =? chr "e") || (c =? chr "g") || (c =? chr "E") || (c =? chr "G") then
    out_text (lit "%");;; out_char c;;; ret args
  else if c =? 0 then out_char (chr "%");;; ret args
  else out_char (chr "%");;; out_char c;;; ret args.

(** Width and precision: a star takes an argument. *)
Definition width_of (f : nat) (p : Z) (fl : flags) (args : list Z) : M S (Z * flags * Z * list Z) :=
  c <- peek p;;
  if c =? chr "*" then
    r <- va_arg args;;
    let w := i32 (fst r) in
    let 'Flags ljust pad plus space alt := fl in
    if w <? 0 then ret (p + 1, Flags true pad plus space alt, u32 (i32 (- w)), snd r)
    else ret (p + 1, fl, u32 w, snd r)
  else r <- dec_loop f p 0;; ret (fst r, fl, snd r, args).

Definition precision_of (f : nat) (p : Z) (args : list Z) : M S (Z * Z * list Z) :=
  c <- peek p;;
  if c =? chr "." then
    c <- peek (p + 1);;
    r <- (if c =? chr "*" then
            r <- va_arg args;;
            let q := i32 (fst r) in
            ret (p + 2, if q <? 0 then 0 else u32 q, snd r)
          else r <- dec_loop f (p + 1) 0;; ret (fst r, snd r, args));;
    let '(p, precision, args) := r in
    ret (p, if precision =? 0 then 1 else precision, args)
  else ret (p, 0, args).

(** [while ( *fmt != '\0')]. *)
Fixpoint format_loop (f : nat) (p : Z) (args : list Z) : M S unit :=
  match f with
  | O => fault
  | Datatypes.S f' =>
      c <- peek p;;
      if c =? 0 then ret tt
      else if negb (c =? chr "%") then out_char c;;; format_loop f' (p + 1) args
      else
        c <- peek (p + 1);;
        if c =? chr "%" then out_char (chr "%");;; format_loop f' (p + 2) args
        else
          r <- flags_loop f (p + 1) no_flags;;
          r <- width_of f (fst r) (snd r) args;;
          let '(p, fl, width, args) := r in
          r <- precision_of f p args;;
          let '(p, precision, args) := r in
          p <- mods_loop f p;;
          c <- peek p;;
          args <- conversion f c fl width precision args;;
          if c =? 0 then ret tt else format_loop f' (p + 1) args
  end.
End formatter.

(** ** The sinks *)

(** The reference: characters collected in a list, at most [co_limit] of them;
    reads only see [co_mem]. *)
Record collector := Collector { co_mem : mem; co_limit : nat; co_text : list Z }.
#[export] Instance collector_sink : Sink collector := {|
  rd c p := load (co_mem c) p;
  putc c b :=
    if decide (length (co_text c) < co_limit c)%nat
    then Some (Collector (co_mem c) (co_limit c) (co_text c ++ [u8 b])) else None
|}.

(** [out_t] with a buffer: [out_char]'s first branch. *)
Record buffer := Buffer { bf_mem : mem; bf_buf : Z; bf_cap : Z; bf_len : Z }.
#[export] Instance buffer_sink : Sink buffer := {|
  rd b p := load (bf_mem b) p;
  putc b c :=
    m ← (if u32 (bf_len b + 1) <? bf_cap b then store (bf_mem b) (bf_buf b + bf_len b) c else Some (bf_mem b));
    Some (Buffer m (bf_buf b) (bf_cap b) (u32 (bf_len b + 1)))
|}.

(** What the formatter needs of a stream: [fwrite] of a chunk (did all of it go
    through), or [console_write] for stream 0. *)
Class ByteSink (W : Type) := {
  write_chunk : W → Z → list Z → bool * W
}.

Definition OUT_CHUNK : nat := 256.

(** [out_t] without a buffer: [tmp], and the stream it is flushed to. *)
Record chunked (W : Type) := Chunked {
  ck_mem : mem; ck_world : W; ck_stream : Z; ck_tmp : list Z; ck_failed : bool
}.
Arguments Chunked {W}. Arguments ck_mem {W}. Arguments ck_world {W}. Arguments ck_stream {W}.
Arguments ck_tmp {W}. Arguments ck_failed {W}.

Section chunked.
Context {W : Type} `{ByteSink W}.

Definition out_flush (o : chunked W) : chunked W :=
  match ck_tmp o with
  | [] => o
  | tmp =>
      let '(ok, w) := write_chunk (ck_world o) (ck_stream o) tmp in
      Chunked (ck_mem o) w (ck_stream o) []
        (ck_failed o || (negb (ck_stream o =? 0) && negb ok))
  end.

#[export] Instance chunked_sink : Sink (chunked W) := {|
  rd o p := load (ck_mem o) p;
  putc o c :=
    let o := Chunked (ck_mem o) (ck_world o) (ck_stream o) (ck_tmp o ++ [u8 c]) (ck_failed o) in
    Some (if decide (length (ck_tmp o) = OUT_CHUNK) then out_flush o else o)
|}.

(** [format_into] on a buffer: terminate inside the buffer, return the length
    the format asked for. *)
Definition format_into_buffer (m : mem) (buf cap fmt : Z) (args : list Z) : option (Z * mem) :=
  '(_, b) ← format_loop (fuel m) fmt args (Buffer m buf cap 0);
  let end_ := if bf_len b <? bf_cap b then bf_len b else u32 (bf_cap b - 1) in
  m ← store (bf_mem b) (u32 (buf + end_)) 0;
  Some (i32 (bf_len b), m).

(** [format_into] on a stream: flush the rest; [o->len] has stayed 0. *)
Definition format_into_stream (m : mem) (w : W) (stream fmt : Z) (args : list Z) : option (Z * W) :=
  '(_, o) ← format_loop (fuel m) fmt args (Chunked m w stream [] false);
  let o := out_flush o in
  Some (if ck_failed o then -1 else 0, ck_world o).

(** The entry points; a variadic one is its [v] twin. *)
Definition vsnprintf (m : mem) (w : W) (buf size fmt : Z) (args : list Z) : option (Z * mem * W) :=
  if buf =? 0 then '(n, w) ← format_into_stream m w 0 fmt args; Some (n, m, w)
  else '(n, m) ← format_into_buffer m buf size fmt args; Some (n, m, w).
Definition vsprintf (m : mem) (w : W) (buf fmt : Z) (args : list Z) : option (Z * mem * W) :=
  vsnprintf m w buf 4294967295 fmt args.
Definition snprintf := vsnprintf.
Definition sprintf := vsprintf.
Definition vfprintf (m : mem) (w : W) (f fmt : Z) (args : list Z) : option (Z * W) :=
  if f =? 0 then Some (-1, w) else format_into_stream m w f fmt args.
Definition fprintf := vfprintf.

(** [stdout] is the address of the console stream. *)
Definition vprintf (m : mem) (w : W) (stdout fmt : Z) (args : list Z) : option (Z * W) :=
  vfprintf m w stdout fmt args.
Definition printf := vprintf.
End chunked.

(** ** Simulation of sinks *)

Section simulation.
Context {S1 S2 : Type} `{Sink S1, Sink S2} (R : S1 → S2 → Prop).

Definition sim {A} (x1 : M S1 A) (x2 : M S2 A) : Prop :=
  ∀ s1 s2 a s2', R s1 s2 → x2 s2 = Some (a, s2') → ∃ s1', x1 s1 = Some (a, s1') ∧ R s1' s2'.

Hypothesis sim_rd : ∀ s1 s2 p c, R s1 s2 → rd s2 p = Some c → rd s1 p = Some c.
Hypothesis sim_putc : ∀ s1 s2 c s2', R s1 s2 → putc s2 c = Some s2' →
  ∃ s1', putc s1 c = Some s1' ∧ R s1' s2'.

Lemma sim_ret {A} (a : A) : sim (ret a) (ret a).
Proof. intros s1 s2 b s2' HR [= <- <-]. eauto. Qed.

Lemma sim_fault {A} : sim (A:=A) fault fault.
Proof. intros s1 s2 a s2' HR. done. Qed.

Lemma sim_bind {A B} (x1 : M S1 A) (x2 : M S2 A) (f1 : A → M S1 B) (f2 : A → M S2 B) :
  sim x1 x2 → (∀ a, sim (f1 a) (f2 a)) → sim (bindM x1 f1) (bindM x2 f2).
Proof.
  intros Hx Hf s1 s2 b s2' HR Hb. unfold bindM in *. destruct (x2 s2) as [[a t2]|] eqn:E; [|done].
  destruct (Hx _ _ _ _ HR E) as (t1 & -> & HR'). simpl in *. by eapply Hf.
Qed.

Lemma sim_peek p : sim (peek p) (peek p).
Proof using sim_rd.
  intros s1 s2 c s2' HR. unfold peek. destruct (rd s2 p) as [c'|] eqn:E; [|done]. intros [= <- <-].
  rewrite (sim_rd _ _ _ _ HR E). eauto.
Qed.

Lemma sim_out_char c : sim (out_char c) (out_char c).
Proof using sim_putc.
  intros s1 s2 a s2' HR. unfold out_char. destruct (putc s2 c) as [t2|] eqn:E; [|done]. intros [= <- <-].
  destruct (sim_putc _ _ _ _ HR E) as (t1 & -> & ?). eauto.
Qed.

Create HintDb sim.
#[local] Hint Resolve sim_ret sim_fault sim_peek sim_out_char : sim.
#[local] Hint Extern 1 (sim (bindM _ _) (bindM _ _)) => apply sim_bind; [|intros] : sim.
#[local] Hint Extern 2 (sim (if ?b then _ else _) _) => destruct b : sim.
#[local] Hint Extern 2 (sim (let '(_, _) := ?x in _) _) => destruct x : sim.
#[local] Hint Extern 2 (sim (match ?x with Flags _ _ _ _ _ => _ end) _) => destruct x : sim.

Lemma sim_out_text t : sim (out_text t) (out_text t).
Proof using sim_putc. induction t; simpl; auto with sim. Qed.
#[local] Hint Resolve sim_out_text : sim.

Lemma sim_out_repeat c n : sim (out_repeat c n) (out_repeat c n).
Proof using sim_putc. apply sim_out_text. Qed.
#[local] Hint Resolve sim_out_repeat : sim.

Lemma sim_out_number magnitude prefix base upper width precision pad ljust :
  sim (out_number magnitude prefix base upper width precision pad ljust)
      (out_number magnitude prefix base upper width precision pad ljust).
Proof using sim_putc. unfold out_number. cbv zeta. auto 20 with sim. Qed.
#[local] Hint Resolve sim_out_number : sim.

Lemma sim_flags_loop f p fl : sim (flags_loop f p fl) (flags_loop f p fl).
Proof using sim_rd.
  revert p fl. induction f as [|f IH]; intros p fl; simpl; [auto with sim|].
  apply sim_bind; [auto with sim|]. intros c. destruct fl.
  repeat match goal with |- sim (if ?b then _ else _) _ => destruct b end; auto with sim.
Qed.

Lemma sim_dec_loop f p v : sim (dec_loop f p v) (dec_loop f p v).
Proof using sim_rd. revert p v. induction f; intros; simpl; auto 10 with sim. Qed.
Lemma sim_mods_loop f p : sim (mods_loop f p) (mods_loop f p).
Proof using sim_rd. revert p. induction f; intros; simpl; auto 10 with sim. Qed.
Lemma sim_strlen f s n : sim (strlen_loop' f s n) (strlen_loop' f s n).
Proof using sim_rd. revert n. induction f; intros; simpl; auto 10 with sim. Qed.
Lemma sim_out_bytes k p : sim (out_bytes k p) (out_bytes k p).
Proof using sim_rd sim_putc. revert p. induction k; intros; simpl; auto 10 with sim. Qed.
Lemma sim_va_arg args : sim (va_arg args) (va_arg args).
Proof. destruct args; simpl; auto with sim. Qed.
Lemma sim_out_spaces n w : sim (out_spaces n w) (out_spaces n w).
Proof using sim_putc. apply sim_out_repeat. Qed.
#[local] Hint Resolve sim_flags_loop sim_dec_loop sim_mods_loop sim_strlen sim_out_bytes sim_va_arg sim_out_spaces : sim.

Lemma sim_conversion f c fl width precision args :
  sim (conversion f c fl width precision args) (conversion f c fl width precision args).
Proof using sim_rd sim_putc.
  unfold conversion. destruct fl.
  repeat match goal with |- sim (if ?b then _ else _) _ => destruct b end; cbv zeta; auto 20 with sim.
Qed.

Lemma sim_width_of f p fl args : sim (width_of f p fl args) (width_of f p fl args).
Proof using sim_rd. unfold width_of. destruct fl. cbv zeta. auto 20 with sim. Qed.
Lemma sim_precision_of f p args : sim (precision_of f p args) (precision_of f p args).
Proof using sim_rd. unfold precision_of. cbv zeta. auto 20 with sim. Qed.
#[local] Hint Resolve sim_conversion sim_width_of sim_precision_of : sim.

Lemma sim_format_loop f p args : sim (format_loop f p args) (format_loop f p args).
Proof using sim_rd sim_putc.
  revert p args. induction f as [|f IH]; intros p args; cbn [format_loop]; [auto with sim|]. auto 30 with sim.
Qed.
End simulation.

(** ** The reference rendering *)

(** The text a format produces, if it is at most [limit] bytes long: the memory
    [m] holds the format and the strings its arguments point to. *)
Definition rendering (n : nat) (m : mem) (limit : nat) (fmt : Z) (args : list Z) : option (list Z) :=
  '(_, c) ← format_loop n fmt args (Collector m limit []); Some (co_text c).

(** *** The buffer implements the reference *)

(** The bytes an [out_t] buffer of [cap] bytes shows after [t] was sent to it. *)
Definition shown (cap : Z) (t : list Z) : list Z := take (Z.to_nat (cap - 1)) t.

Section buffer.
Context (m0 mr : mem) (buf cap : Z) (limit : nat).
Hypothesis Hsub : mr ⊆ m0.
Hypothesis Hcap : is_u32 cap.
Hypothesis Hlimit : Z.of_nat limit < 2147483648.
Hypothesis Hroom : mapped m0 buf (Z.min (cap - 1) (Z.of_nat limit)).
Hypothesis Haway : ∀ a, buf ≤ a < buf + Z.min (cap - 1) (Z.of_nat limit) → mr !! a = None.

Definition buffer_rel (b : buffer) (c : collector) : Prop :=
  b = Buffer (write m0 buf (shown cap (co_text c))) buf cap (Z.of_nat (length (co_text c))) ∧
  co_mem c = mr ∧ co_limit c = limit ∧ (length (co_text c) ≤ limit)%nat.

Lemma buffer_rel_rd b c p x : buffer_rel b c → rd c p = Some x → rd b p = Some x.
Proof using Hsub Haway.
  intros (-> & Hm & _ & Hl) Hx. cbn [rd collector_sink buffer_sink co_mem bf_mem] in *. unfold load in *.
  rewrite Hm in Hx. unfold shown. rewrite lookup_write_out.
  - by apply (lookup_weaken mr).
  - intros Hp. rewrite Haway in Hx; [done|]. rewrite length_take in Hp. lia.
Qed.

Lemma buffer_rel_putc b c x c' : buffer_rel b c → putc c x = Some c' →
  ∃ b', putc b x = Some b' ∧ buffer_rel b' c'.
Proof using All.
  intros (-> & Hm & HL & Hl) Hx. cbn [putc collector_sink buffer_sink] in *.
  case_decide as Hd; [|done]. injection Hx as <-. cbn [bf_len bf_cap bf_mem bf_buf]. rewrite HL in Hd.
  rewrite u32_small by (unfold is_u32; lia).
  assert (Z.of_nat (length (co_text c ++ [u8 x])) = Z.of_nat (length (co_text c)) + 1) as Hlen
    by (rewrite length_app; simpl; lia).
  destruct (Z.ltb_spec (Z.of_nat (length (co_text c)) + 1) cap) as [Hc|Hc].
  - rewrite store_mapped by (apply (mapped_write _ _ _ _ _ Hroom); lia). bind_step.
    eexists. split; [done|]. split; [|cbn; rewrite length_app; simpl; naive_solver lia].
    unfold shown. cbn [co_text]. rewrite Hlen. f_equal.
    rewrite (take_ge (_ ++ _)) by lia. rewrite (take_ge (co_text c)) by lia. by rewrite write_app.
  - bind_step. eexists. split; [done|]. split; [|cbn; rewrite length_app; simpl; naive_solver lia].
    unfold shown. cbn [co_text]. rewrite Hlen. f_equal. rewrite take_app_le by lia. done.
Qed.

(** Whatever the reference renders, the buffer holds, cut to [cap - 1] bytes. *)
Lemma buffer_renders n fmt args t :
  rendering n mr limit fmt args = Some t →
  (length t ≤ limit)%nat ∧
  format_loop n fmt args (Buffer m0 buf cap 0) =
    Some (tt, Buffer (write m0 buf (shown cap t)) buf cap (Z.of_nat (length t))).
Proof using All.
  unfold rendering. intros Hr. destruct (format_loop n fmt args (Collector mr limit [])) as [[[] c]|] eqn:E; [|done].
  injection Hr as <-.
  assert (buffer_rel (Buffer m0 buf cap 0) (Collector mr limit [])) as HR.
  { unfold buffer_rel, shown. simpl. rewrite take_nil. split_and!; [done|done|done|lia]. }
  destruct (sim_format_loop buffer_rel buffer_rel_rd buffer_rel_putc n fmt args _ _ _ _ HR E) as (b & -> & Hb).
  destruct Hb as (-> & _ & _ & ?). done.
Qed.
End buffer.

(** *** The stream implements the reference *)

Section stream.
Context {W : Type} `{ByteSink W}.

(** The chunks handed to a stream one after the other; did all of them go through? *)
Fixpoint send (w : W) (stream : Z) (cs : list (list Z)) : bool * W :=
  match cs with
  | [] => (true, w)
  | c :: cs' =>
      let '(ok, w) := write_chunk w stream c in
      let '(oks, w) := send w stream cs' in (ok && oks, w)
  end.

Lemma send_app w f cs ds :
  send w f (cs ++ ds) =
  (fst (send w f cs) && fst (send (snd (send w f cs)) f ds), snd (send (snd (send w f cs)) f ds)).
Proof.
  revert w. induction cs as [|c cs IH]; intros w; simpl; [by destruct (send w f ds)|].
  destruct (write_chunk w f c) as [ok w1]. rewrite IH. destruct (send w1 f cs) as [oks w2]. simpl.
  destruct (send w2 f ds). simpl. by rewrite andb_assoc.
Qed.

Context (m : mem) (w : W) (f : Z).

Definition is_chunk (c : list Z) : Prop := (0 < length c ≤ OUT_CHUNK)%nat.

(** What has been sent so far, and what is still in [tmp]. *)
Definition chunked_rel (o : chunked W) (c : collector) : Prop :=
  co_mem c = m ∧
  ∃ cs, co_text c = concat cs ++ ck_tmp o ∧ Forall is_chunk cs ∧ (length (ck_tmp o) < OUT_CHUNK)%nat ∧
    o = Chunked m (snd (send w f cs)) f (ck_tmp o) (negb (f =? 0) && negb (fst (send w f cs))).

Lemma chunked_rel_rd o c p x : chunked_rel o c → rd c p = Some x → rd o p = Some x.
Proof. intros (Hm & cs & _ & _ & _ & ->). cbn. by rewrite Hm. Qed.

Lemma out_flush_chunk cs tmp : tmp ≠ [] →
  out_flush (Chunked m (snd (send w f cs)) f tmp (negb (f =? 0) && negb (fst (send w f cs)))) =
  Chunked m (snd (send w f (cs ++ [tmp]))) f [] (negb (f =? 0) && negb (fst (send w f (cs ++ [tmp])))).
Proof.
  intros Hne. rewrite send_app. unfold out_flush. cbn [ck_tmp ck_world ck_stream ck_mem ck_failed].
  destruct tmp as [|b tmp]; [done|]. cbn [send].
  destruct (write_chunk _ f (b :: tmp)) as [ok w']. cbn [fst snd]. f_equal.
  destruct (f =? 0), (fst (send w f cs)), ok; done.
Qed.

Lemma chunked_rel_putc o c x c' : chunked_rel o c → putc c x = Some c' →
  ∃ o', putc o x = Some o' ∧ chunked_rel o' c'.
Proof.
  intros (Hm & cs & Ht & Hcs & Hl & Ho) Hx. cbn [putc collector_sink chunked_sink] in *.
  case_decide as Hd; [|done]. injection Hx as <-. eexists. split; [done|]. split; [done|]. cbn [co_text].
  rewrite Ho. cbn [ck_mem ck_world ck_stream ck_failed ck_tmp]. rewrite Ht.
  case_decide as Hlen.
  - exists (cs ++ [ck_tmp o ++ [u8 x]]). rewrite out_flush_chunk by (by destruct (ck_tmp o)). cbn [ck_tmp].
    rewrite concat_app. simpl. rewrite !app_nil_r, app_assoc. split_and!; [done| |unfold OUT_CHUNK; simpl; lia|done].
    rewrite Forall_app, Forall_singleton. split; [done|]. unfold is_chunk. rewrite Hlen. unfold OUT_CHUNK. lia.
  - exists cs. cbn [ck_tmp]. rewrite app_assoc. split_and!; [done|done| |done].
    rewrite length_app in Hlen |- *. simpl in *. lia.
Qed.

(** Whatever the reference renders is sent, in order, in chunks that fit [tmp]. *)
Lemma stream_renders limit fmt args t :
  rendering (fuel m) m limit fmt args = Some t →
  ∃ cs, concat cs = t ∧ Forall is_chunk cs ∧
    format_into_stream m w f fmt args =
      Some (if negb (f =? 0) && negb (fst (send w f cs)) then -1 else 0, snd (send w f cs)).
Proof.
  unfold rendering. intros Hr.
  destruct (format_loop (fuel m) fmt args (Collector m limit [])) as [[[] c]|] eqn:E; [|done]. injection Hr as <-.
  assert (chunked_rel (Chunked m w f [] false) (Collector m limit [])) as HR.
  { split; [done|]. exists []. simpl. rewrite andb_false_r. split_and!; [done|done|unfold OUT_CHUNK; lia|done]. }
  destruct (sim_format_loop chunked_rel chunked_rel_rd chunked_rel_putc (fuel m) fmt args _ _ _ _ HR E)
    as (o & Eo & _ & cs & Ht & Hcs & Hl & Ho).
  unfold format_into_stream. rewrite Eo. bind_step. destruct (decide (ck_tmp o = [])) as [Hn|Hn].
  - exists cs. rewrite Ht, Hn, app_nil_r. split_and!; [done|done|]. rewrite Ho, Hn. done.
  - exists (cs ++ [ck_tmp o]). rewrite concat_app, Ht. simpl. rewrite app_nil_r. split_and!; [done| |].
    + rewrite Forall_app, Forall_singleton. split; [done|]. unfold is_chunk. destruct (ck_tmp o); [done|]. simpl in *. lia.
    + rewrite Ho, out_flush_chunk by done. done.
Qed.
End stream.

(** ** Integers *)

(** The loop over [tmp[32]] writes the digits of a 32-bit number. *)
Lemma number_digits_ok b k v : 2 ≤ b → 0 ≤ v < b ^ Z.of_nat k → k ≠ O → number_digits k v b = digits_rev b v.
Proof.
  intros Hb. revert v. induction k as [|k IH]; intros v Hv Hk; [done|]. cbn [number_digits].
  rewrite digits_rev_unfold by lia. destruct (Z.ltb_spec v b) as [Hlt|Hge].
  - rewrite Z.mod_small, Z.div_small by lia. done.
  - assert (0 < v `div` b) by (apply Z.div_str_pos; lia).
    zb_false (v `div` b =? 0). f_equal. rewrite Nat2Z.inj_succ, Z.pow_succ_r in Hv by lia.
    apply IH; [|intros ->; simpl in Hv; lia]. split; [lia|]. apply Z.div_lt_upper_bound; lia.
Qed.

Lemma digit_of_char b ds : 2 ≤ b ≤ 16 → Forall (λ d, 0 ≤ d < b) ds →
  map (digit_of false) ds = map digit_char ds.
Proof. intros Hb Hds. apply map_ext_Forall. eapply Forall_impl; [done|]. intros d Hd. unfold digit_of, digit_char. by bool_cases. Qed.

Lemma number_digits_length b k v : (length (number_digits k v b) ≤ k)%nat.
Proof. revert v. induction k as [|k IH]; intros v; simpl; [lia|]. case_match; simpl; [lia|]. specialize (IH (v `div` b)). lia. Qed.

Lemma dec_text_length z : is_i32 z → (length (dec_text z) ≤ 11)%nat.
Proof.
  unfold is_i32. intros Hz. unfold dec_text, digits. rewrite length_app, length_map, length_reverse.
  rewrite <- (number_digits_ok 10 10) by (simpl; lia).
  pose proof (number_digits_length 10 10 (Z.abs z)).
  destruct (z <? 0); [change (length (lit "-")) with 1%nat | change (length []) with 0%nat]; lia.
Qed.

(** Text sent to the reference. *)
Lemma out_text_collector t m limit t0 :
  Forall is_char t → (length t0 + length t ≤ limit)%nat →
  out_text t (Collector m limit t0) = Some (tt, Collector m limit (t0 ++ t)).
Proof.
  intros Ht. revert t0. induction Ht as [|c t Hc Ht IH]; intros t0 Hl; cbn [out_text]; simpl in Hl.
  - by rewrite app_nil_r.
  - unfold bindM, out_char. cbn [putc collector_sink co_text co_limit co_mem]. rewrite decide_True by lia. bind_step.
    rewrite u8_char by done. cbn [fst snd]. rewrite IH by (rewrite length_app; simpl; lia). by rewrite <- app_assoc.
Qed.

Lemma bind_peek {S B} `{Sink S} p c (k : Z → M S B) s : rd s p = Some c → bindM (peek p) k s = k c s.
Proof. intros E. apply bind_some. unfold peek. by rewrite E. Qed.

(** [%d] with no flags, no width and no precision is decimal text. *)
Lemma conversion_d f m limit t0 a args :
  (length t0 + 11 ≤ limit)%nat →
  conversion f (chr "d") no_flags 0 0 (a :: args) (Collector m limit t0) =
  Some (args, Collector m limit (t0 ++ dec_text (i32 a))).
Proof.
  intros Hl. pose proof (i32_bound a) as Hz. pose proof (dec_text_length _ Hz) as Hlen.
  unfold conversion, no_flags. change ((chr "d" =? chr "d") || _) with true. cbn iota. cbn [va_arg].
  rewrite bind_ret. cbn [fst snd]. set (z := i32 a) in *. unfold is_i32 in Hz.
  assert ((if z <? 0 then u32 (- z) else z) = Z.abs z) as -> by (bool_cases; [rewrite u32_small by (unfold is_u32; lia)|]; lia).
  unfold out_number. rewrite number_digits_ok by (simpl; lia).
  destruct (digits_num 10 (Z.abs z)) as [_ Hd]; [lia|lia|].
  set (tmp := map (digit_of false) (digits_rev 10 (Z.abs z))).
  assert (reverse tmp = map digit_char (digits 10 (Z.abs z))) as Hrev.
  { unfold tmp. rewrite <- (digit_of_char 10 (digits 10 (Z.abs z))) by (lia || done).
    unfold digits, reverse. rewrite <- !rev_alt. by rewrite map_rev. }
  rewrite (proj2 (Z.ltb_ge (Z.of_nat (length tmp)) 0)) by lia. cbn [andb]. change (chr "0" =? chr " ") with false.
  change (chr " " =? chr "0") with false. cbn [negb andb]. pose proof (dec_text_chars z) as Hc. unfold dec_text in *.
  rewrite Forall_app in Hc. destruct Hc as [Hc1 Hc2]. rewrite length_app in Hlen.
  assert ((u32 (Z.of_nat (length tmp) + 0 + Z.of_nat (length (if z <? 0 then lit "-" else []))) <? 0) = false) as ->
    by (apply Z.ltb_ge; pose proof (u32_bound (Z.of_nat (length tmp) + 0 + Z.of_nat (length (if z <? 0 then lit "-" else [])))); unfold is_u32 in *; lia).
  rewrite andb_false_r. erewrite bind_some; [done|]. rewrite bind_ret.
  erewrite bind_some by (apply out_text_collector; [done|lia]).
  rewrite bind_ret. erewrite bind_some by reflexivity. rewrite Hrev.
  erewrite bind_some by (apply out_text_collector; [done|rewrite length_app; lia]). by rewrite <- app_assoc.
Qed.

(** The letter [d] ends the flags, the width, the precision and the modifiers. *)
Lemma plain_d {S} `{Sink S} (s : S) p f fl args :
  rd s p = Some 100 →
  flags_loop (Datatypes.S f) p fl s = Some ((p, fl), s) ∧
  width_of (Datatypes.S f) p fl args s = Some ((p, fl, 0, args), s) ∧
  precision_of (Datatypes.S f) p args s = Some ((p, 0, args), s) ∧
  mods_loop (Datatypes.S f) p s = Some (p, s).
Proof.
  intros Hp. destruct fl. cbn [flags_loop mods_loop]. unfold width_of, precision_of. cbn [dec_loop].
  rewrite !(bind_peek _ _ _ _ Hp). split_and!; try reflexivity.
  change (100 =? chr "*") with false. cbv iota.
  rewrite (bind_some _ _ _ (p, 0) s) by (rewrite (bind_peek _ _ _ _ Hp); reflexivity). reflexivity.
Qed.

(** A format of one conversion. *)
Lemma rendering_d n m limit fmt a args :
  cstr m fmt (lit "%d") → (2 ≤ n)%nat → (11 ≤ limit)%nat →
  rendering n m limit fmt (a :: args) = Some (dec_text (i32 a)).
Proof.
  change (lit "%d") with [37; 100]. rewrite !cstr_cons, cstr_nil. intros (H0 & _ & H1 & _ & H2) Hn Hl.
  destruct n as [|[|n]]; [lia|lia|]. unfold rendering. cbn [format_loop].
  set (c0 := Collector m limit []).
  assert (rd c0 fmt = Some 37) as R0 by done. assert (rd c0 (fmt + 1) = Some 100) as R1 by done.
  rewrite (bind_peek _ _ _ _ R0). cbv beta. change (37 =? 0) with false. change (negb (37 =? chr "%")) with false. cbv iota.
  rewrite (bind_peek _ _ _ _ R1). cbv beta. change (100 =? chr "%") with false. cbv iota.
  pose proof (λ fl, plain_d c0 (fmt + 1) (S n) fl (a :: args) R1) as Hd.
  rewrite (bind_some _ _ _ _ _ (proj1 (Hd no_flags))). cbv beta. cbn [fst snd].
  destruct (Hd no_flags) as (_ & Hw & Hp & Hm).
  rewrite (bind_some _ _ _ _ _ Hw). cbv beta iota. rewrite (bind_some _ _ _ _ _ Hp). cbv beta iota.
  rewrite (bind_some _ _ _ _ _ Hm). cbv beta.
  rewrite (bind_peek _ _ _ _ R1). cbv beta.
  erewrite bind_some by (unfold c0; apply (conversion_d _ m limit []); simpl; lia). cbv beta.
  change (100 =? 0) with false. cbv iota. replace (fmt + 1 + 1) with (fmt + 2) in * by lia.
  erewrite bind_peek by exact H2. reflexivity.
Qed.

(** ** [vsnprintf] on a buffer *)

Lemma vsnprintf_ok {W} `{ByteSink W} m mr (w : W) buf size fmt args limit t :
  rendering (fuel m) mr limit fmt args = Some t → mr ⊆ m → 0 < buf → 0 < size → is_u32 size →
  Z.of_nat limit < 2147483648 →
  let room := Z.min size (Z.of_nat limit + 1) in
  buf + room ≤ 4294967296 → mapped m buf room →
  (∀ a, buf ≤ a < buf + room → mr !! a = None) →
  vsnprintf m w buf size fmt args =
    Some (Z.of_nat (length t), write m buf (shown size t ++ [0]), w).
Proof.
  intros Hr Hsub Hbuf Hsize Hu Hlim room Hwrap Hm Haway. unfold room in *.
  destruct (buffer_renders m mr buf size limit Hsub Hu Hlim) with (n := fuel m) (fmt := fmt) (args := args) (t := t)
    as [Hl Hf]; [eapply mapped_weaken; [exact Hm|lia|lia]|intros; apply Haway; lia|done|].
  unfold vsnprintf, format_into_buffer. zb_false (buf =? 0). rewrite Hf. bind_step. cbn [bf_len bf_cap bf_mem].
  set (e := if _ <? size then _ else _). assert (e = Z.of_nat (length (shown size t))) as ->.
  { unfold e, shown. rewrite length_take. destruct (Z.ltb_spec (Z.of_nat (length t)) size); [lia|].
    rewrite u32_small by (unfold is_u32 in *; lia). lia. }
  assert (Z.of_nat (length (shown size t)) < Z.min size (Z.of_nat limit + 1)) as He
    by (unfold shown; rewrite length_take; lia).
  rewrite u32_small by (unfold is_u32; lia).
  rewrite store_mapped by (apply (mapped_write _ _ _ _ _ Hm); lia). bind_step.
  rewrite i32_small by (unfold is_i32; lia). by rewrite write_app.
Qed.

(** ** Claims *)

(** The contract of [snprintf]: when the reference renders the format as
    [t] from a memory [mr] away from the buffer, [vsnprintf] with a size of at
    least 1 returns the full length of [t], leaves the first [size - 1] bytes of
    [t] and a terminator in the buffer, and changes nothing else. *)
Theorem vsnprintf_text {W} `{ByteSink W} m mr (w : W) buf size fmt args limit t :
  rendering (fuel m) mr limit fmt args = Some t → mr ⊆ m → 0 < buf → 0 < size → is_u32 size →
  Z.of_nat limit < 2147483648 →
  let room := Z.min size (Z.of_nat limit + 1) in
  buf + room ≤ 4294967296 → mapped m buf room →
  (∀ a, buf ≤ a < buf + room → mr !! a = None) →
  vsnprintf m w buf size fmt args =
    Some (Z.of_nat (length t), write m buf (shown size t ++ [0]), w).
Proof. apply vsnprintf_ok. Qed.

(** [snprintf] with size 0, the standard way to ask for a length, stores a
    terminator outside the buffer: [cap - 1] wraps and the byte in front of the
    buffer is set to 0. *)
Theorem snprintf_size_zero {W} `{ByteSink W} m (w : W) buf fmt args limit t :
  rendering (fuel m) m limit fmt args = Some t → 0 < buf ≤ 4294967296 → Z.of_nat limit < 2147483648 →
  is_Some (m !! (buf - 1)) →
  snprintf m w buf 0 fmt args = Some (Z.of_nat (length t), write m (buf - 1) [0], w).
Proof.
  intros Hr Hbuf Hlim Hm.
  destruct (buffer_renders m m buf 0 limit) with (n := fuel m) (fmt := fmt) (args := args) (t := t)
    as [Hl Hf]; [done|done|done|intros a; lia|intros a; lia|done|].
  unfold snprintf, vsnprintf, format_into_buffer. zb_false (buf =? 0). rewrite Hf. bind_step. cbn [bf_len bf_cap bf_mem].
  zb_false (Z.of_nat (length t) <? 0). change (u32 (0 - 1)) with 4294967295.
  replace (u32 (buf + 4294967295)) with (buf - 1) by (unfold u32; dlia).
  change (shown 0 t) with (@nil Z). cbn [write]. rewrite store_mapped by done. bind_step.
  by rewrite i32_small by (unfold is_i32; lia).
Qed.

(** [fprintf] and [printf] send exactly the text of the format, in order,
    in chunks of at most 256 bytes, but the value returned is 0, or -1 when a
    write failed: never the number of characters, because [out_char] counts
    only on the buffer branch.  [snprintf] on a null buffer sends the text to
    the console (stream 0) and also returns 0. *)
Theorem fprintf_text {W} `{ByteSink W} m (w : W) f fmt args limit t :
  rendering (fuel m) m limit fmt args = Some t →
  (f ≠ 0 → ∃ cs, concat cs = t ∧ Forall is_chunk cs ∧
     fprintf m w f fmt args = Some (if fst (send w f cs) then 0 else -1, snd (send w f cs))) ∧
  (∀ size, ∃ cs, concat cs = t ∧ Forall is_chunk cs ∧
     snprintf m w 0 size fmt args = Some (0, m, snd (send w 0 cs))).
Proof.
  intros Hr. split.
  - intros Hf. destruct (stream_renders m w f limit fmt args t Hr) as (cs & Hc & Hl & Hs). exists cs.
    split; [done|]. split; [done|]. unfold fprintf, vfprintf. zb_false (f =? 0). rewrite Hs. zb_false (f =? 0).
    by destruct (fst (send w f cs)).
  - intros size. destruct (stream_renders m w 0 limit fmt args t Hr) as (cs & Hc & Hl & Hs). exists cs.
    split; [done|]. split; [done|]. unfold snprintf, vsnprintf. change (0 =? 0) with true. cbv iota. by rewrite Hs.
Qed.

(** Printing and reading a number: for every 32-bit argument,
    [snprintf(buf, size, "%d", z)] with room for eleven characters leaves text
    that [strtol] reads back as [z], to its end. *)
Theorem snprintf_strtol {W} `{ByteSink W} m mr (w : W) buf size fmt z errno :
  cstr mr fmt (lit "%d") → mr ⊆ m → is_i32 z → 12 ≤ size → is_u32 size → 0 < buf → buf + 12 ≤ 4294967296 →
  mapped m buf 12 → (∀ a, buf ≤ a < buf + 12 → mr !! a = None) →
  ∃ n m', snprintf m w buf size fmt [u32 z] = Some (n, m', w) ∧
    (∀ a, ¬ buf ≤ a < buf + 12 → m' !! a = m !! a) ∧
    strtol m' buf 10 errno = Some (z, buf + n, errno).
Proof.
  intros Hfmt Hsub Hz Hsize Hu Hbuf Hwrap Hm Haway.
  assert (rendering (fuel m) mr 11 fmt [u32 z] = Some (dec_text z)) as Hr.
  { rewrite (rendering_d _ _ _ _ _ _ Hfmt).
    - rewrite i32_u32, i32_small by done. done.
    - assert (cstr m fmt (lit "%d")) as Hc.
      { destruct Hfmt as [Hs ?]. split; [|done]. intros i b Hb. eapply lookup_weaken; [by apply Hs|done]. }
      apply cstr_fuel in Hc. simpl in Hc. lia.
    - lia. }
  pose proof (dec_text_length z Hz) as Hlen.
  assert (shown size (dec_text z) = dec_text z) as Hshown by (unfold shown; apply take_ge; lia).
  exists (Z.of_nat (length (dec_text z))), (write m buf (dec_text z ++ [0])).
  assert (cstr (write m buf (dec_text z ++ [0])) buf (dec_text z ++ [])) as Hcs
    by (rewrite app_nil_r; apply cstr_write, dec_text_chars).
  split; [|split].
  - rewrite <- Hshown at 2. replace (Z.min size (Z.of_nat 11 + 1)) with 12 in * by lia.
    apply (vsnprintf_ok m mr w buf size fmt [u32 z] 11); replace (Z.min size (Z.of_nat 11 + 1)) with 12 by lia;
      first [done | lia].
  - intros a Ha. rewrite lookup_write_out; [done|]. rewrite length_app. simpl. lia.
  - rewrite (strtol_ok _ _ _ 10 errno Hcs) by lia. rewrite dec_text_ref by done. simpl. by rewrite i32_small.
Qed.

(** ** Witnesses *)

(** A stream that keeps every chunk and refuses the ones sent to stream 7. *)
#[local] Instance log_sink : ByteSink (list (list Z)) := {| write_chunk w f c := (negb (f =? 7), w ++ [c]) |}.

(** A format at 100 with a string argument at 120; a buffer at 201, after one more byte. *)
Definition fmt_mem : mem := mem_of 100 (lit "<%5s|%-4d|%#x>" ++ replicate 6 0 ++ lit "ab" ++ [0]).
Definition fmt_all : mem := write fmt_mem 200 (replicate 33 1).


Lemma vsnprintf_text_witness :
  rendering (fuel fmt_all) fmt_mem 32 100 [120; 4294967289; 255] = Some (lit "<   ab|-7  |0xff>") ∧
  vsnprintf fmt_all ([] : list (list Z)) 201 8 100 [120; 4294967289; 255] =
    Some (17, write fmt_all 201 (lit "<   ab|" ++ [0]), []).
Proof.
  assert (rendering (fuel fmt_all) fmt_mem 32 100 [120; 4294967289; 255] = Some (lit "<   ab|-7  |0xff>")) as Hr
    by (vm_compute; reflexivity).
  split; [exact Hr|].
  refine (vsnprintf_text fmt_all fmt_mem [] 201 8 100 _ 32 _ Hr _ _ _ _ _ _ _ _); try (unfold is_u32; simpl; lia).
  - apply (bool_decide_unpack _). vm_compute. exact I.
  - apply mappedb_mapped. vm_compute. reflexivity.
  - intros a Ha. unfold fmt_mem, mem_of. rewrite lookup_write_out; [done|]. simpl in *. lia.
Defined.

Lemma snprintf_size_zero_witness :
  snprintf fmt_all ([] : list (list Z)) 201 0 100 [120; 4294967289; 255] = Some (17, write fmt_all 200 [0], []).
Proof.
  refine (snprintf_size_zero fmt_all [] 201 100 [120; 4294967289; 255] 32 (lit "<   ab|-7  |0xff>") _ _ _ _);
    [vm_compute; reflexivity|lia|simpl; lia|].
  vm_compute. eauto.
Defined.

Lemma fprintf_text_witness :
  ∃ cs, concat cs = lit "<   ab|-7  |0xff>" ∧ Forall is_chunk cs ∧
    fprintf fmt_all ([] : list (list Z)) 5 100 [120; 4294967289; 255] =
      Some (if fst (send [] 5 cs) then 0 else -1, snd (send [] 5 cs)).
Proof.
  assert (rendering (fuel fmt_all) fmt_all 32 100 [120; 4294967289; 255] = Some (lit "<   ab|-7  |0xff>")) as Hr
    by (vm_compute; reflexivity).
  exact (proj1 (fprintf_text fmt_all [] 5 100 _ 32 _ Hr) ltac:(lia)).
Defined.

Definition dec_mem : mem := mem_of 100 (lit "%d" ++ [0]).

Lemma snprintf_strtol_witness :
  ∃ n m', snprintf (write dec_mem 200 (replicate 12 9)) ([] : list (list Z)) 200 12 100 [u32 (-2147483648)] = Some (n, m', []) ∧
    (∀ a, ¬ 200 ≤ a < 200 + 12 → m' !! a = write dec_mem 200 (replicate 12 9) !! a) ∧
    strtol m' 200 10 0 = Some (-2147483648, 200 + n, 0).
Proof.
  apply (snprintf_strtol (write dec_mem 200 (replicate 12 9)) dec_mem [] 200 12 100 (-2147483648) 0);
    try (unfold is_i32, is_u32; lia).
  - apply cstrb_cstr. vm_compute. reflexivity.
  - apply (bool_decide_unpack _). vm_compute. exact I.
  - apply mappedb_mapped. vm_compute. reflexivity.
  - intros a Ha. unfold dec_mem, mem_of. rewrite lookup_write_out; [done|]. simpl. lia.
Defined.
