(* ===== verification/Printf.v ===== *)
(** * What a format means

    The formatter of [Format] reads a format character by character.  Here a format
    is a list of pieces, plain characters and directives, with the text each directive
    stands for given directly: a number in a base, its sign, its zeros and its field,
    or a string cut and padded.  [printf_renders] shows that the formatter, run on the
    characters of the pieces, writes exactly that text.  The console as the place
    where the text is shown is at the end. *)

From S2P Require Import Prelude CMem CString CStdlib Format.

(** Character constants as numbers. *)
Ltac chrs := repeat match goal with |- context [chr ?a] => let v := eval vm_compute in (chr a) in change (chr a) with v end.

(** ** Formats *)

Inductive conv := Signed | Unsigned | Octal | Hex | HexUpper | Pointer.
(** Flags, width, precision and length modifiers. *)
Record spec := Spec { s_flags : list Z; s_width : Z; s_prec : option Z; s_mods : list Z }.
Inductive piece := Text (c : Z) | Percent | Number (k : conv) (sp : spec) | Str (sp : spec) | Char (sp : spec).

Definition plain : spec := Spec [] 0 None [].

Definition letter (k : conv) : Z :=
  match k with
  | Signed => chr "d" | Unsigned => chr "u" | Octal => chr "o" | Hex => chr "x" | HexUpper => chr "X" | Pointer => chr "p"
  end.
Definition numeral (n : Z) : list Z := map (Z.add 48) (digits 10 n).
Definition width_text (sp : spec) : list Z := if s_width sp =? 0 then [] else numeral (s_width sp).
Definition prec_text (sp : spec) : list Z := match s_prec sp with None => [] | Some p => chr "." :: numeral p end.
Definition spec_text (sp : spec) : list Z := s_flags sp ++ width_text sp ++ prec_text sp ++ s_mods sp.
Definition piece_text (x : piece) : list Z :=
  match x with
  | Text c => [c]
  | Percent => [37; 37]
  | Number k sp => 37 :: spec_text sp ++ [letter k]
  | Str sp => 37 :: spec_text sp ++ [chr "s"]
  | Char sp => 37 :: spec_text sp ++ [chr "c"]
  end.
Definition format_text (l : list piece) : list Z := concat (map piece_text l).

Definition FLAGS : list Z := [45; 48; 43; 32; 35].
Definition MODS : list Z := [108; 104; 122; 116; 106; 113].
Definition spec_ok (sp : spec) : Prop :=
  Forall (.∈ FLAGS) (s_flags sp) ∧ 0 ≤ s_width sp < 2147483648 ∧
  match s_prec sp with None => True | Some p => 0 ≤ p < 2147483648 end ∧ Forall (.∈ MODS) (s_mods sp).
Definition piece_ok (x : piece) : Prop :=
  match x with
  | Text c => is_char c ∧ c ≠ 37
  | Percent => True
  | Number _ sp | Str sp | Char sp => spec_ok sp
  end.

(** ** The text of a directive *)

Definition has (sp : spec) (c : Z) : bool := bool_decide (c ∈ s_flags sp).
(** A precision of zero counts as one. *)
Definition precision (sp : spec) : Z := match s_prec sp with None => 0 | Some p => Z.max 1 p end.
Definition fill (c : Z) (k : Z) : list Z := replicate (Z.to_nat k) c.

(** With the flag [0] and a precision there is no padding at all. *)
Definition field (sp : spec) (prefix body : list Z) : list Z :=
  let room := s_width sp - Z.of_nat (length prefix + length body) in
  if has sp (chr "-") then prefix ++ body ++ fill 32 room
  else if has sp (chr "0") then prefix ++ (if precision sp =? 0 then fill 48 room else []) ++ body
  else fill 32 room ++ prefix ++ body.
Definition number_text (sp : spec) (prefix : list Z) (base : Z) (upper : bool) (v : Z) : list Z :=
  let ds := map (digit_of upper) (digits base v) in
  field sp prefix (fill 48 (precision sp - Z.of_nat (length ds)) ++ ds).
Definition sign (sp : spec) (z : Z) : list Z :=
  if z <? 0 then lit "-" else if has sp (chr "+") then lit "+" else if has sp (chr " ") then lit " " else [].
Definition radix (sp : spec) (prefix : string) : list Z := if has sp (chr "#") then lit prefix else [].

Definition conv_text (k : conv) (sp : spec) (a : Z) : list Z :=
  match k with
  | Signed => number_text sp (sign sp (i32 a)) 10 false (Z.abs (i32 a))
  | Unsigned => number_text sp [] 10 false (u32 a)
  | Octal => number_text sp (radix sp "0") 8 false (u32 a)
  | Hex => number_text sp (radix sp "0x") 16 false (u32 a)
  | HexUpper => number_text sp (radix sp "0X") 16 true (u32 a)
  | Pointer => lit "0x" ++ number_text (Spec [chr "0"] 8 None []) [] 16 false (u32 a)
  end.
Definition str_text (sp : spec) (u : list Z) : list Z :=
  let u := if precision sp =? 0 then u else take (Z.to_nat (precision sp)) u in
  let room := s_width sp - Z.of_nat (length u) in
  if has sp (chr "-") then u ++ fill 32 room else fill 32 room ++ u.

(** The text of a format with its arguments; strings are shorter than [k]. *)
Inductive renders (m : mem) (k : nat) : list piece → list Z → list Z → Prop :=
  | R_nil args : renders m k [] args []
  | R_text c l args t : renders m k l args t → renders m k (Text c :: l) args (c :: t)
  | R_percent l args t : renders m k l args t → renders m k (Percent :: l) args (37 :: t)
  | R_number c sp a l args t : renders m k l args t → renders m k (Number c sp :: l) (a :: args) (conv_text c sp a ++ t)
  | R_str sp a u l args t : u32 a ≠ 0 → cstr m (u32 a) u → (length u < k)%nat →
      renders m k l args t → renders m k (Str sp :: l) (a :: args) (str_text sp u ++ t)
  | R_null sp a l args t : u32 a = 0 → renders m k l args t →
      renders m k (Str sp :: l) (a :: args) (str_text sp (lit "(null)") ++ t)
  | R_char sp a l args t : renders m k l args t → renders m k (Char sp :: l) (a :: args) (u8 a :: t).

(** ** Reading a directive *)

(** A positive number starts with a digit that is not zero. *)
Lemma digits_lead b n : 2 ≤ b → 0 < n → ∃ d ds, digits b n = d :: ds ∧ 0 < d < b.
Proof.
  intros Hb Hn. assert (0 ≤ n) as H0 by lia. revert n H0 Hn. refine (Z_lt_induction _ _). intros n IH Hn. unfold digits. rewrite digits_rev_unfold by lia.
  destruct (Z.ltb_spec n b); [by exists n, []|]. assert (0 < n `div` b) by (apply Z.div_str_pos; lia).
  assert (n `div` b < n) by (apply Z.div_lt; lia). destruct (IH (n `div` b)) as (d & ds & E & Hd); [lia|lia|].
  exists d, (ds ++ [n `mod` b]). split; [|done]. rewrite reverse_cons. unfold digits in E. by rewrite E.
Qed.

Definition LETTERS : list Z := [100; 117; 111; 120; 88; 112; 115; 99].

Lemma letter_ok k : letter k ∈ LETTERS.
Proof. apply (bool_decide_unpack _). destruct k; vm_compute; exact I. Qed.
Lemma other_letters : chr "s" ∈ LETTERS ∧ chr "c" ∈ LETTERS.
Proof. split; apply (bool_decide_unpack _); vm_compute; exact I. Qed.

(** The first character of what is left of a directive. *)
Lemma hd_mods sp c : Forall (.∈ MODS) (s_mods sp) → c ∈ LETTERS → 88 ≤ hd 0 (s_mods sp ++ [c]) ≤ 122.
Proof.
  intros Hm Hc. destruct (s_mods sp) as [|x ms]; cbn [app hd].
  - unfold LETTERS in Hc. rewrite !elem_of_cons, elem_of_nil in Hc. lia.
  - apply Forall_cons in Hm as [Hx _]. unfold MODS in Hx. rewrite !elem_of_cons, elem_of_nil in Hx. lia.
Qed.
Lemma hd_prec sp t : hd 0 (prec_text sp ++ t) = 46 ∨ prec_text sp = [].
Proof. unfold prec_text. destruct (s_prec sp); [by left|by right]. Qed.
Lemma hd_width sp t : 0 ≤ s_width sp → 49 ≤ hd 0 (width_text sp ++ t) ≤ 57 ∨ width_text sp = [] ∧ s_width sp = 0.
Proof.
  intros Hw. unfold width_text. destruct (Z.eqb_spec (s_width sp) 0); [by right|left]. unfold numeral.
  destruct (digits_lead 10 (s_width sp)) as (d & ds & -> & Hd); [lia|lia|]. cbn [map app hd]. lia.
Qed.

Section collected.
Context (m : mem) (limit : nat).
Abbreviation C := (Collector m limit).

Lemma collector_rd t0 p c : m !! p = Some c → rd (C t0) p = Some c.
Proof. done. Qed.

Lemma flag_cases x : x ∈ FLAGS → x = 45 ∨ x = 48 ∨ x = 43 ∨ x = 32 ∨ x = 35.
Proof. unfold FLAGS. rewrite !elem_of_cons, elem_of_nil. tauto. Qed.
Lemma not_flag x : x ∉ FLAGS → x ≠ 45 ∧ x ≠ 48 ∧ x ≠ 43 ∧ x ≠ 32 ∧ x ≠ 35.
Proof. unfold FLAGS. rewrite !not_elem_of_cons. tauto. Qed.

(** The flags as the loop keeps them. *)
Definition flag_of (sp : spec) : flags :=
  Flags (has sp (chr "-")) (if has sp (chr "0") then chr "0" else chr " ") (has sp (chr "+")) (has sp (chr " ")) (has sp (chr "#")).
Definition raise (fl : flags) (c : Z) : flags :=
  let 'Flags ljust pad plus space alt := fl in
  if c =? chr "-" then Flags true pad plus space alt
  else if c =? chr "0" then Flags ljust (chr "0") plus space alt
  else if c =? chr "+" then Flags ljust pad true space alt
  else if c =? chr " " then Flags ljust pad plus true alt
  else if c =? chr "#" then Flags ljust pad plus space true
  else fl.

Lemma flags_loop_ok fs : ∀ f p fl c t0, Forall (.∈ FLAGS) fs → seg m p fs → m !! (p + Z.of_nat (length fs)) = Some c →
  c ∉ FLAGS → (length fs < f)%nat →
  flags_loop f p fl (C t0) = Some ((p + Z.of_nat (length fs), foldl raise fl fs), C t0).
Proof.
  induction fs as [|x fs IH]; intros [|f] p fl c t0 Hfs Hs Hc Hn Hf; cbn [length] in Hf; try lia; destruct fl; cbn [flags_loop].
  - cbn [length foldl] in *. rewrite Z.add_0_r in *. rewrite (bind_peek _ _ _ _ (collector_rd _ _ _ Hc)).
    apply not_flag in Hn as (? & ? & ? & ? & ?). cbv beta. chrs. by zb_simpl.
  - apply seg_cons in Hs as [H0 Hs]. apply Forall_cons in Hfs as [Hx Hfs]. rewrite (bind_peek _ _ _ _ (collector_rd _ _ _ H0)).
    cbn [length foldl] in *. replace (p + Z.of_nat (S (length fs))) with (p + 1 + Z.of_nat (length fs)) in * by lia.
    destruct (flag_cases _ Hx) as [->|[->|[->|[->| ->]]]]; cbv beta; chrs; cbn [Z.eqb Pos.eqb]; eapply IH; (done || lia).
Qed.

Lemma elem_snoc (c x : Z) fs : bool_decide (c ∈ fs ++ [x]) = bool_decide (c ∈ fs) || (c =? x).
Proof. destruct (Z.eqb_spec c x); rewrite ?orb_true_r, ?orb_false_r; [apply bool_decide_eq_true_2|apply bool_decide_ext]; set_solver. Qed.

Lemma foldl_raise sp : Forall (.∈ FLAGS) (s_flags sp) → foldl raise no_flags (s_flags sp) = flag_of sp.
Proof.
  unfold flag_of, has. generalize (s_flags sp) as fs. intros fs. induction fs as [|x fs IH] using rev_ind; intros Hfs; [done|].
  apply Forall_app in Hfs as [Hfs Hx]. rewrite Forall_singleton in Hx. rewrite foldl_snoc, IH by done.
  destruct (flag_cases _ Hx) as [->|[->|[->|[->| ->]]]]; cbn [raise]; chrs; cbn [Z.eqb Pos.eqb].
  all: rewrite !elem_snoc; cbn [Z.eqb Pos.eqb]; by rewrite ?orb_true_r, ?orb_false_r.
Qed.

Lemma dec_loop_ok ds : ∀ f p v c t0, Forall (λ d, 0 ≤ d < 10) ds → seg m p (map (Z.add 48) ds) →
  m !! (p + Z.of_nat (length ds)) = Some c → (48 <=? i8 c) && (i8 c <=? 57) = false → (length ds < f)%nat →
  0 ≤ v → foldl (λ v d, v * 10 + d) v ds < 4294967296 →
  dec_loop f p v (C t0) = Some ((p + Z.of_nat (length ds), foldl (λ v d, v * 10 + d) v ds), C t0).
Proof.
  induction ds as [|d ds IH]; intros [|f] p v c t0 Hd Hs Hc Hn Hf Hv Hb; cbn [length] in Hf; try lia; cbn [dec_loop].
  - cbn [length foldl] in *. rewrite Z.add_0_r in *. rewrite (bind_peek _ _ _ _ (collector_rd _ _ _ Hc)). chrs. by rewrite Hn.
  - cbn [map] in Hs. apply seg_cons in Hs as [H0 Hs]. apply Forall_cons in Hd as [Hx Hd].
    rewrite (bind_peek _ _ _ _ (collector_rd _ _ _ H0)). chrs. rewrite i8_small by lia. zb_simpl. cbn [andb].
    cbn [length foldl] in *. replace (p + Z.of_nat (S (length ds))) with (p + 1 + Z.of_nat (length ds)) in * by lia.
    assert (∀ ds v, Forall (λ d, 0 ≤ d < 10) ds → 0 ≤ v → v ≤ foldl (λ v d, v * 10 + d) v ds) as Hmono.
    { clear. intros ds. induction ds as [|d ds IH]; intros v Hd Hv; [done|]. apply Forall_cons in Hd as [? Hd]. cbn [foldl].
      etrans; [|apply IH]; [lia|done|lia]. }
    pose proof (Hmono ds (v * 10 + d) Hd ltac:(lia)).
    rewrite (u32_small (v * 10)) by (unfold is_u32; lia). rewrite u32_small by (unfold is_u32; lia).
    replace (v * 10 + (48 + d - 48)) with (v * 10 + d) by lia. eapply IH; (done || lia).
Qed.

Lemma mods_loop_ok ms : ∀ f p c t0, Forall (.∈ MODS) ms → seg m p ms → m !! (p + Z.of_nat (length ms)) = Some c →
  c ∉ MODS → (length ms < f)%nat → mods_loop f p (C t0) = Some (p + Z.of_nat (length ms), C t0).
Proof.
  induction ms as [|x ms IH]; intros [|f] p c t0 Hm Hs Hc Hn Hf; cbn [length] in Hf; try lia; cbn [mods_loop].
  - cbn [length] in *. rewrite Z.add_0_r in *. rewrite (bind_peek _ _ _ _ (collector_rd _ _ _ Hc)). chrs.
    unfold MODS in Hn. rewrite !not_elem_of_cons in Hn. destruct Hn as (? & ? & ? & ? & ? & ? & _). by zb_simpl.
  - apply seg_cons in Hs as [H0 Hs]. apply Forall_cons in Hm as [Hx Hm]. rewrite (bind_peek _ _ _ _ (collector_rd _ _ _ H0)).
    cbn [length] in *. replace (p + Z.of_nat (S (length ms))) with (p + 1 + Z.of_nat (length ms)) in * by lia.
    assert (mods_loop f (p + 1) (C t0) = Some (p + 1 + Z.of_nat (length ms), C t0)) as <- by (eapply IH; (done || lia)). chrs.
    unfold MODS in Hx. rewrite !elem_of_cons, elem_of_nil in Hx.
    destruct Hx as [->|[->|[->|[->|[->|[->|[]]]]]]]; reflexivity.
Qed.

Lemma seg_hd p a b : seg m p (a ++ b) → b ≠ [] → seg m p a ∧ m !! (p + Z.of_nat (length a)) = Some (hd 0 b) ∧ seg m (p + Z.of_nat (length a)) b.
Proof. rewrite seg_app. intros [Ha Hb] Hn. split; [done|]. split; [|done]. destruct b; [done|]. by apply seg_cons in Hb as [? _]. Qed.

Lemma not_digit c : 0 ≤ c < 128 → ¬ 48 ≤ c ≤ 57 → (48 <=? i8 c) && (i8 c <=? 57) = false.
Proof. intros Hc Hn. rewrite i8_small by lia. bool_cases; lia. Qed.

Lemma numeral_read f p n c t0 : 0 ≤ n < 2147483648 → seg m p (numeral n) → m !! (p + Z.of_nat (length (numeral n))) = Some c →
  0 ≤ c < 128 → ¬ 48 ≤ c ≤ 57 → (length (numeral n) < f)%nat →
  dec_loop f p 0 (C t0) = Some ((p + Z.of_nat (length (numeral n)), n), C t0).
Proof.
  intros Hn Hs Hc Hr Hd Hf. unfold numeral in *. rewrite length_map in *. destruct (digits_num 10 n) as [Hv Hds]; [lia|lia|]. unfold num in Hv.
  rewrite (dec_loop_ok (digits 10 n) f p 0 c t0); rewrite ?Hv; (done || lia || by apply not_digit).
Qed.

Lemma read_spec sp f p c args t0 : spec_ok sp → c ∈ LETTERS → seg m p (spec_text sp ++ [c]) → (length (spec_text sp) < f)%nat →
  let p1 := p + Z.of_nat (length (s_flags sp)) in
  let p2 := p1 + Z.of_nat (length (width_text sp)) in
  let p3 := p2 + Z.of_nat (length (prec_text sp)) in
  let p4 := p + Z.of_nat (length (spec_text sp)) in
  flags_loop f p no_flags (C t0) = Some ((p1, flag_of sp), C t0) ∧
  width_of f p1 (flag_of sp) args (C t0) = Some ((p2, flag_of sp, s_width sp, args), C t0) ∧
  precision_of f p2 args (C t0) = Some ((p3, precision sp, args), C t0) ∧
  mods_loop f p3 (C t0) = Some (p4, C t0) ∧ m !! p4 = Some c.
Proof.
  intros (Hfl & Hw & Hp & Hm) Hc Hs Hf p1 p2 p3 p4. unfold spec_text in *. rewrite !length_app in Hf. rewrite <- !app_assoc in Hs.
  pose proof (hd_mods sp c Hm Hc) as Hd3. pose proof (hd_prec sp (s_mods sp ++ [c])) as Hd2.
  pose proof (hd_width sp (prec_text sp ++ s_mods sp ++ [c]) (proj1 Hw)) as Hd1.
  apply seg_hd in Hs as (S0 & H1 & S1). 2: { by destruct (width_text sp), (prec_text sp), (s_mods sp). }
  apply seg_hd in S1 as (Sw & H2 & S2). 2: { by destruct (prec_text sp), (s_mods sp). }
  apply seg_hd in S2 as (Sp & H3 & S3). 2: { by destruct (s_mods sp). }
  apply seg_hd in S3 as (Sm & H4 & _); [|done]. fold p1 in H1, H2, H3, H4, Sw, Sp, Sm. fold p2 in H2, H3, H4, Sp, Sm. fold p3 in H3, H4, Sm.
  set (c1 := hd 0 (width_text sp ++ prec_text sp ++ s_mods sp ++ [c])) in *. set (c2 := hd 0 (prec_text sp ++ s_mods sp ++ [c])) in *.
  set (c3 := hd 0 (s_mods sp ++ [c])) in *. cbn [hd] in H4.
  assert (c2 = 46 ∨ prec_text sp = [] ∧ 88 ≤ c2 ≤ 122) as Hc2. { destruct Hd2 as [|E]; [by left|right]. unfold c2. rewrite E. done. }
  assert (49 ≤ c1 ≤ 57 ∨ s_width sp = 0 ∧ width_text sp = [] ∧ c1 = c2) as Hc1.
  { destruct Hd1 as [|[E E']]; [by left|right]. unfold c1. by rewrite E. }
  assert (p4 = p3 + Z.of_nat (length (s_mods sp))) as -> by (unfold p4, p3, p2, p1; rewrite !length_app; lia).
  split; [|split; [|split; [|split]]].
  - rewrite (flags_loop_ok _ _ _ _ c1) by (done || lia || (unfold FLAGS; rewrite !not_elem_of_cons, elem_of_nil; lia)). by rewrite foldl_raise.
  - unfold width_of. rewrite (bind_peek _ _ _ _ (collector_rd _ _ _ H1)). chrs. zb_false (c1 =? 42).
    unfold width_text in *. destruct (Z.eqb_spec (s_width sp) 0) as [E|E].
    + assert (p2 = p1) as -> by (unfold p2; simpl; lia). rewrite E.
      assert (c1 = c2) by reflexivity. pose proof (dec_loop_ok [] f p1 0 c1 t0) as Hdl. cbn in Hdl. rewrite Z.add_0_r in Hdl.
      rewrite (bind_some _ _ _ (p1, 0) (C t0)); [done|]. apply Hdl; [done|apply seg_nil|done|apply not_digit; lia|lia|lia|lia].
    + rewrite (bind_some _ _ _ (p2, s_width sp) (C t0)); [reflexivity|]. apply (numeral_read f p1 (s_width sp) c2); (done || lia).
  - unfold precision_of, precision, prec_text in *. destruct (s_prec sp) as [n|].
    + cbn [app hd] in c2. rewrite (bind_peek _ _ _ _ (collector_rd _ _ _ H2)). unfold c2. change (chr "." =? chr ".") with true. cbv iota.
      cbn [length] in *. apply seg_cons in Sp as [_ Sp].
      replace p3 with (p2 + 1 + Z.of_nat (length (numeral n))) in * by (unfold p3; lia).
      assert (∃ d ds, numeral n = d :: ds ∧ 48 ≤ d ≤ 57) as (d & ds & En & Hdd).
      { unfold numeral. destruct (digits_num 10 n) as [_ Hds]; [lia|lia|]. pose proof (digits_ne 10 n). destruct (digits 10 n) as [|d ds]; [done|].
        apply Forall_cons in Hds as [? _]. eexists _, _. split; [reflexivity|lia]. }
      assert (m !! (p2 + 1) = Some d) as Hd' by (rewrite En in Sp; by apply seg_cons in Sp as [? _]).
      rewrite (bind_peek _ _ _ _ (collector_rd _ _ _ Hd')). chrs. zb_false (d =? 42).
      set (p5 := p2 + 1 + Z.of_nat (length (numeral n))) in *.
      assert (dec_loop f (p2 + 1) 0 (C t0) = Some ((p5, n), C t0)) as E by (apply (numeral_read f (p2 + 1) n c3); (done || lia)).
      rewrite (bind_some _ _ _ (p5, n, args) (C t0)) by by rewrite (bind_some _ _ _ _ _ E).
      unfold ret. replace (if n =? 0 then 1 else n) with (Z.max 1 n) by (destruct (Z.eqb_spec n 0); lia). done.
    + rewrite (bind_peek _ _ _ _ (collector_rd _ _ _ H2)). chrs. assert (c2 = c3) as -> by reflexivity. zb_false (c3 =? 46).
      replace p3 with p2 by (unfold p3; simpl; lia). done.
  - apply (mods_loop_ok _ _ _ c); (done || lia || idtac). unfold LETTERS, MODS in *. rewrite !elem_of_cons, elem_of_nil in Hc.
    rewrite !not_elem_of_cons, elem_of_nil. lia.
  - done.
Qed.

End collected.


(** ** Writing *)

Lemma out_text_app {S} `{Sink S} a b (s : S) : out_text (a ++ b) s = (out_text a;;; out_text b) s.
Proof.
  revert s. induction a as [|c a IH]; intros s; [reflexivity|]. cbn [app out_text]. unfold bindM in *.
  destruct (out_char c s) as [[[] s']|]; [|done]. cbn. apply IH.
Qed.
Lemma out_when {S} `{Sink S} (b : bool) c k (s : S) :
  (if b then out_repeat c k else ret tt) s = out_text (if b then fill c k else []) s.
Proof. by destruct b. Qed.
Lemma bind_eq {S A B} (c c' : M S A) (k k' : A → M S B) s : c s = c' s → (∀ a s', k a s' = k' a s') → bindM c k s = bindM c' k' s.
Proof. unfold bindM. intros -> Hk. destruct (c' s) as [[a s']|]; [apply Hk|done]. Qed.

Lemma fill_nonpos c k : k ≤ 0 → fill c k = [].
Proof. intros. unfold fill. by replace (Z.to_nat k) with 0%nat by lia. Qed.
Lemma str_plain u : str_text plain u = u.
Proof. unfold str_text, plain, precision. cbn [s_prec s_width]. change (0 =? 0) with true. cbv iota zeta. rewrite (fill_nonpos 32) by lia. by case_match; rewrite ?app_nil_r. Qed.
Lemma fill_chars c k : is_char c → Forall is_char (fill c k).
Proof. intros. by apply Forall_replicate. Qed.
Lemma fill_length c k : Z.of_nat (length (fill c k)) = Z.max 0 k.
Proof. unfold fill. rewrite length_replicate. lia. Qed.

(** Numbers are printable characters. *)
Definition printable (c : Z) : Prop := 32 ≤ c < 128.
#[export] Instance printable_dec c : Decision (printable c).
Proof. unfold printable. apply _. Defined.
Lemma printable_char t : Forall printable t → Forall is_char t.
Proof. intros Hp. eapply Forall_impl; [exact Hp|]. unfold printable, is_char. simpl. lia. Qed.
Lemma number_printable sp prefix base upper v : 2 ≤ base ≤ 16 → 0 ≤ v → Forall printable prefix → Forall printable (number_text sp prefix base upper v).
Proof.
  intros Hb Hv Hp. unfold number_text, field. destruct (digits_num base v) as [_ Hd]; [lia|lia|].
  assert (Forall printable (map (digit_of upper) (digits base v))).
  { apply Forall_map. eapply Forall_impl; [exact Hd|]. intros d Hr. simpl in Hr. unfold digit_of, printable. destruct (Z.ltb_spec d 10), upper; lia. }
  assert (∀ c k, printable c → Forall printable (fill c k)) as Hf by (intros; by apply Forall_replicate).
  repeat case_match; repeat (apply Forall_app; split); try done; apply Hf; unfold printable; lia.
Qed.
Lemma number_chars sp prefix base upper v : 2 ≤ base ≤ 16 → 0 ≤ v → Forall printable prefix → Forall is_char (number_text sp prefix base upper v).
Proof. intros. by apply printable_char, number_printable. Qed.
Lemma prefix_printable sp a s : s ∈ ["0"; "0x"; "0X"] → Forall printable (sign sp a) ∧ Forall printable (radix sp s).
Proof.
  intros Hs. split; [unfold sign; repeat case_match; by apply (bool_decide_unpack _)|]. unfold radix. case_match; [|done].
  revert s Hs. apply Forall_forall. by apply (bool_decide_unpack _).
Qed.
Lemma conv_printable k sp a : Forall printable (conv_text k sp a).
Proof.
  pose proof (u32_bound a). unfold is_u32 in *. destruct k; cbn [conv_text]; [..|apply Forall_app; split; [by apply (bool_decide_unpack _)|]].
  all: apply number_printable; [lia|lia|]; first [done | apply (prefix_printable sp (i32 a) "0"); by apply (bool_decide_unpack _) |
    apply (prefix_printable sp 0 "0x"); by apply (bool_decide_unpack _) | apply (prefix_printable sp 0 "0X"); by apply (bool_decide_unpack _)].
Qed.

(** [out_number] writes one text. *)
Lemma out_number_text {S} `{Sink S} sp prefix base upper v (s : S) : spec_ok sp → 2 ≤ base → 0 ≤ v < 4294967296 → (length prefix ≤ 2)%nat →
  out_number v prefix base upper (s_width sp) (precision sp) (f_pad (flag_of sp)) (has sp (chr "-")) s =
  out_text (number_text sp prefix base upper v) s.
Proof.
  intros (_ & Hw & Hp & _) Hb Hv Hl. unfold out_number.
  assert (v < base ^ Z.of_nat 32) as Hvb.
  { change (Z.of_nat 32) with 32. pose proof (Z.pow_le_mono_l 2 base 32 ltac:(lia)). change (2 ^ 32) with 4294967296 in *. lia. }
  rewrite number_digits_ok by (done || lia). pose proof (number_digits_length base 32 v) as Hn. rewrite number_digits_ok in Hn by (done || lia).
  set (ds := map (digit_of upper) (digits base v)).
  assert (reverse (map (digit_of upper) (digits_rev base v)) = ds) as -> by (unfold ds, digits, reverse; rewrite <- !rev_alt; by rewrite map_rev).
  assert (length (map (digit_of upper) (digits_rev base v)) = length ds) as ->.
  { unfold ds, digits. by rewrite !length_map, length_reverse. }
  assert (length ds ≤ 32)%nat as Hds by (unfold ds, digits; by rewrite length_map, length_reverse).
  assert (0 ≤ precision sp < 2147483648) as Hpr by (unfold precision; destruct (s_prec sp); lia).
  set (zs := if Z.of_nat (length ds) <? precision sp then precision sp - Z.of_nat (length ds) else 0).
  assert (zs = Z.max 0 (precision sp - Z.of_nat (length ds))) as Hz by (unfold zs; bool_cases; lia).
  rewrite u32_small by (unfold is_u32; lia). set (w := s_width sp - (Z.of_nat (length ds) + zs + Z.of_nat (length prefix))).
  unfold number_text, field. fold ds. rewrite length_app.
  replace (s_width sp - Z.of_nat (length prefix + (length (fill 48 (precision sp - Z.of_nat (length ds))) + length ds))) with w
    by (unfold w; pose proof (fill_length 48 (precision sp - Z.of_nat (length ds))); lia).
  replace (fill 48 (precision sp - Z.of_nat (length ds))) with (fill 48 zs) by (unfold fill; f_equal; lia).
  assert (f_pad (flag_of sp) = if has sp (chr "0") then 48 else 32) as -> by done.
  set (lt := Z.of_nat (length ds) + zs + Z.of_nat (length prefix) <? s_width sp).
  assert (lt = false → ∀ c, fill c w = []) as Hlt by (intros Hf%Z.ltb_ge c; apply fill_nonpos; unfold w; lia).
  assert (∀ a p b z d c, (out_text a;;; out_text p;;; out_text b;;; out_text z;;; out_text d;;; out_text c) s =
    out_text (a ++ p ++ b ++ z ++ d ++ c) s) as Hseq.
  { intros. rewrite out_text_app. apply bind_eq; [done|]. intros _ s1. rewrite out_text_app. apply bind_eq; [done|]. intros _ s2.
    rewrite out_text_app. apply bind_eq; [done|]. intros _ s3. rewrite out_text_app. apply bind_eq; [done|]. intros _ s4. by rewrite out_text_app. }
  set (b1 := negb (has sp (chr "-")) && _ && lt). set (b2 := negb (has sp (chr "-")) && _ && _ && lt). set (b3 := has sp (chr "-") && lt).
  transitivity (out_text ((if b1 then fill 32 w else []) ++ prefix ++ (if b2 then fill 48 w else []) ++ fill 48 zs ++ ds ++ (if b3 then fill 32 w else [])) s).
  { rewrite <- Hseq. apply bind_eq; [apply out_when|]. intros _ s1. apply bind_eq; [done|]. intros _ s2. apply bind_eq; [apply out_when|].
    intros _ s3. apply bind_eq; [done|]. intros _ s4. apply bind_eq; [done|]. intros _ s5. apply out_when. }
  f_equal. unfold b1, b2, b3. chrs. destruct (has sp 45), (has sp 48); cbn [negb andb Z.eqb Pos.eqb];
    destruct lt; rewrite ?andb_true_r, ?andb_false_r, ?app_nil_l, ?app_nil_r; rewrite <- ?app_assoc; try done.
  all: rewrite ?Hlt, ?app_nil_r, ?app_nil_l by done; try done.
  all: destruct (precision sp =? 0); by rewrite ?Hlt, ?app_nil_l by done.
Qed.

Section converted.
Context (m : mem) (limit : nat).
Abbreviation C := (Collector m limit).

Lemma out_char_ok c t0 : (length t0 < limit)%nat → out_char c (C t0) = Some (tt, C (t0 ++ [u8 c])).
Proof. intros Hl. unfold out_char. cbn [putc collector_sink co_text co_limit co_mem]. by rewrite decide_True by lia. Qed.

Lemma out_fill_ok k t : (length t + length (fill 32 k) ≤ limit)%nat → out_repeat 32 k (C t) = Some (tt, C (t ++ fill 32 k)).
Proof. intros Hk. apply out_text_collector; [|done]. apply fill_chars. unfold is_char. lia. Qed.

Lemma strlen_read u : ∀ f s n t0, cstr m (s + n) u → (length u < f)%nat → 0 ≤ n → n + Z.of_nat (length u) < 4294967296 →
  strlen_loop' f s n (C t0) = Some (n + Z.of_nat (length u), C t0).
Proof.
  induction u as [|c u IH]; intros [|f] s n t0 Hu Hf Hn Hb; cbn [length] in *; try lia; cbn [strlen_loop'].
  - apply cstr_nil in Hu. rewrite (bind_peek _ _ _ _ (collector_rd _ _ _ _ _ Hu)). cbv beta. rewrite Z.add_0_r. done.
  - apply cstr_cons in Hu as (Hu & Hc & Hr). rewrite (bind_peek _ _ _ _ (collector_rd _ _ _ _ _ Hu)). unfold is_char in Hc. zb_false (c =? 0).
    rewrite u32_small by (unfold is_u32; lia). rewrite IH by (lia || by replace (s + (n + 1)) with (s + n + 1) by lia). do 2 f_equal. lia.
Qed.

Lemma out_bytes_ok u : ∀ p t0, seg m p u → Forall is_char u → (length t0 + length u ≤ limit)%nat →
  out_bytes (length u) p (C t0) = Some (tt, C (t0 ++ u)).
Proof.
  induction u as [|c u IH]; intros p t0 Hs Hc Hl; cbn [length out_bytes] in *.
  - by rewrite app_nil_r.
  - apply seg_cons in Hs as [H0 Hs]. apply Forall_cons in Hc as [Hc Hu]. rewrite (bind_peek _ _ _ _ (collector_rd _ _ _ _ _ H0)).
    rewrite (bind_some _ _ _ tt (C (t0 ++ [c]))) by (rewrite out_char_ok by lia; by rewrite u8_char).
    rewrite IH by (done || rewrite length_app; simpl; lia). by rewrite <- app_assoc.
Qed.

Lemma out_number_ok sp prefix base upper v t0 : spec_ok sp → 2 ≤ base ≤ 16 → 0 ≤ v < 4294967296 → (length prefix ≤ 2)%nat → Forall printable prefix →
  (length t0 + length (number_text sp prefix base upper v) ≤ limit)%nat →
  out_number v prefix base upper (s_width sp) (precision sp) (f_pad (flag_of sp)) (has sp (chr "-")) (C t0) =
  Some (tt, C (t0 ++ number_text sp prefix base upper v)).
Proof.
  intros Hsp Hb Hv Hl Hp Hlim. rewrite out_number_text by (done || lia). apply out_text_collector; [|done]. by apply number_chars; [lia|lia|].
Qed.

Lemma conversion_number k sp f a args t0 : spec_ok sp → (length t0 + length (conv_text k sp a) ≤ limit)%nat →
  conversion f (letter k) (flag_of sp) (s_width sp) (precision sp) (a :: args) (C t0) = Some (args, C (t0 ++ conv_text k sp a)).
Proof.
  intros Hsp Hl. pose proof (u32_bound a) as Hu. pose proof (i32_bound a) as Hi. unfold is_u32, is_i32 in *.
  pose proof (out_number_ok sp) as Hnum. unfold conversion, flag_of in *. cbn [f_pad] in Hnum.
  assert (∀ b s, (length (lit s) ≤ 2)%nat → Forall printable (lit s) → (length (if b : bool then lit s else []) ≤ 2)%nat ∧ Forall printable (if b then lit s else [])) as Hpre
    by (intros [] s H1 H2; split; (done || simpl; lia)).
  assert (Forall printable (lit "0") ∧ Forall printable (lit "0x") ∧ Forall printable (lit "0X") ∧ Forall printable (lit "-") ∧ Forall printable (lit "+") ∧ Forall printable (lit " "))
    as (C0 & C1 & C2 & C3 & C4 & C5) by (split_and!; by apply (bool_decide_unpack _)).
  destruct k; cbn [letter conv_text] in *; chrs; cbn [Z.eqb Pos.eqb orb va_arg]; rewrite ?bind_ret; cbn [fst snd].
  - assert ((if i32 a <? 0 then u32 (- i32 a) else i32 a) = Z.abs (i32 a)) as ->
      by (bool_cases; [rewrite u32_small by (unfold is_u32; lia)|]; lia).
    erewrite bind_some; [reflexivity|]. apply Hnum; [done|lia|lia| | |done]; unfold sign; repeat case_match; (done || (simpl; lia)).
  - erewrite bind_some; [reflexivity|]. apply Hnum; (done || lia || simpl; lia).
  - erewrite bind_some; [reflexivity|]. destruct (Hpre (has sp 35) "0") as [P1 P2]; [simpl; lia|done|]. apply Hnum; (done || lia).
  - erewrite bind_some; [reflexivity|]. destruct (Hpre (has sp 35) "0x") as [P1 P2]; [simpl; lia|done|]. apply Hnum; (done || lia).
  - erewrite bind_some; [reflexivity|]. destruct (Hpre (has sp 35) "0X") as [P1 P2]; [simpl; lia|done|]. apply Hnum; (done || lia).
  - rewrite length_app in Hl. rewrite (bind_some _ _ _ tt (C (t0 ++ lit "0x"))) by (apply out_text_collector; [by apply printable_char|lia]). rewrite bind_ret. cbn [fst snd].
    change (chr "0") with 48 in Hl. set (sp8 := Spec [48] 8 None []) in *.
    assert (spec_ok sp8) as H8 by (unfold spec_ok, sp8; simpl; split_and!; (done || lia || (repeat constructor; set_solver))).
    pose proof (out_number_ok sp8 [] 16 false (u32 a) (t0 ++ lit "0x") H8) as E.
    rewrite (bind_some _ _ _ _ _ (E ltac:(lia) ltac:(lia) ltac:(simpl; lia) ltac:(done) ltac:(rewrite length_app; lia))). by rewrite <- app_assoc.
Qed.

Lemma conversion_str sp f a u args t0 : u32 a ≠ 0 → cstr m (u32 a) u → (length u < f)%nat → Z.of_nat (length u) < 4294967296 → spec_ok sp →
  (length t0 + length (str_text sp u) ≤ limit)%nat →
  conversion f (chr "s") (flag_of sp) (s_width sp) (precision sp) (a :: args) (C t0) = Some (args, C (t0 ++ str_text sp u)).
Proof.
  intros Ha Hu Hf Hb (_ & Hw & Hp & _) Hl. unfold conversion, flag_of. chrs. cbn [Z.eqb Pos.eqb orb va_arg]. rewrite bind_ret. cbn [fst snd].
  zb_false (u32 a =? 0). rewrite (bind_some _ _ _ (Z.of_nat (length u)) (C t0)) by (rewrite (strlen_read u) by (lia || by rewrite Z.add_0_r); done).
  unfold str_text in *. assert (0 ≤ precision sp) as Hpr by (unfold precision; destruct (s_prec sp); lia). chrs.
  set (v := if precision sp =? 0 then u else take (Z.to_nat (precision sp)) u) in *.
  assert ((if negb (precision sp =? 0) && (precision sp <? Z.of_nat (length u)) then precision sp else Z.of_nat (length u)) = Z.of_nat (length v)) as ->.
  { unfold v. bool_cases; rewrite ?length_take; lia. }
  assert (∃ r, u = v ++ r) as [r Hr]. { unfold v. destruct (precision sp =? 0); [exists []; by rewrite app_nil_r|]. eexists. by rewrite take_drop. }
  destruct Hu as [Hs Hc]. rewrite Hr, <- app_assoc, seg_app in Hs. destruct Hs as [Hs _]. rewrite Hr in Hc. apply Forall_app in Hc as [Hc _].
  unfold out_spaces. chrs. change (chr "-") with 45 in Hl. rewrite Nat2Z.id. destruct (has sp 45); cbn [negb]; rewrite length_app in Hl.
  - rewrite bind_ret. rewrite (bind_some _ _ _ _ _ (out_bytes_ok v (u32 a) t0 Hs Hc ltac:(lia))).
    rewrite (bind_some _ _ _ _ _ (out_fill_ok (s_width sp - Z.of_nat (length v)) (t0 ++ v) ltac:(rewrite length_app; lia))). by rewrite <- app_assoc.
  - rewrite (bind_some _ _ _ _ _ (out_fill_ok (s_width sp - Z.of_nat (length v)) t0 ltac:(lia))).
    rewrite (bind_some _ _ _ _ _ (out_bytes_ok v (u32 a) (t0 ++ fill 32 (s_width sp - Z.of_nat (length v))) Hs Hc ltac:(rewrite length_app; lia))). rewrite bind_ret. by rewrite <- app_assoc.
Qed.

Lemma conversion_null sp f a args t0 : u32 a = 0 → spec_ok sp → (length t0 + length (str_text sp (lit "(null)")) ≤ limit)%nat →
  conversion f (chr "s") (flag_of sp) (s_width sp) (precision sp) (a :: args) (C t0) = Some (args, C (t0 ++ str_text sp (lit "(null)"))).
Proof.
  intros Ha (_ & Hw & Hp & _) Hl. unfold conversion, flag_of. chrs. cbn [Z.eqb Pos.eqb orb va_arg]. rewrite bind_ret. cbn [fst snd].
  rewrite Ha. cbn [Z.eqb]. rewrite bind_ret.
  unfold str_text in *. assert (0 ≤ precision sp) as Hpr by (unfold precision; destruct (s_prec sp); lia). chrs.
  set (v := if precision sp =? 0 then lit "(null)" else take (Z.to_nat (precision sp)) (lit "(null)")) in *.
  set (k := if negb (precision sp =? 0) && (precision sp <? 6) then precision sp else 6).
  assert (k = Z.of_nat (length v)) as Hk by (unfold k, v; bool_cases; rewrite ?length_take; simpl length; lia).
  assert (take (Z.to_nat k) (lit "(null)") = v) as ->.
  { rewrite Hk, Nat2Z.id. unfold v. destruct (precision sp =? 0); [done|]. rewrite length_take, <- take_take. by rewrite (take_ge (lit "(null)") (length (lit "(null)"))) by done. }
  assert (Forall is_char v) as Hc.
  { assert (Forall is_char (lit "(null)")) as Hn by (repeat constructor; by vm_compute). unfold v. destruct (precision sp =? 0); [done|]. by apply Forall_take. }
  unfold out_spaces. chrs. change (chr "-") with 45 in Hl. rewrite Hk. destruct (has sp 45); cbn [negb]; rewrite length_app in Hl.
  - rewrite bind_ret. rewrite (bind_some _ _ _ _ _ (out_text_collector v m limit t0 Hc ltac:(lia))).
    rewrite (bind_some _ _ _ _ _ (out_fill_ok (s_width sp - Z.of_nat (length v)) (t0 ++ v) ltac:(rewrite length_app; lia))). by rewrite <- app_assoc.
  - rewrite (bind_some _ _ _ _ _ (out_fill_ok (s_width sp - Z.of_nat (length v)) t0 ltac:(lia))).
    rewrite (bind_some _ _ _ _ _ (out_text_collector v m limit (t0 ++ fill 32 (s_width sp - Z.of_nat (length v))) Hc ltac:(rewrite length_app; lia))). rewrite bind_ret. by rewrite <- app_assoc.
Qed.
End converted.

(** ** The whole format *)

Lemma spec_hd sp c : spec_ok sp → c ∈ LETTERS → hd 0 (spec_text sp ++ [c]) ≠ 37.
Proof.
  intros (Hfl & Hw & _ & Hm) Hc. unfold spec_text. rewrite <- !app_assoc. destruct (s_flags sp) as [|x fs].
  - cbn [app]. destruct (hd_width sp (prec_text sp ++ s_mods sp ++ [c])) as [|[-> _]]; [lia|lia|]. cbn [app].
    destruct (hd_prec sp (s_mods sp ++ [c])) as [->| ->]; [lia|]. cbn [app]. pose proof (hd_mods sp c Hm Hc). lia.
  - apply Forall_cons in Hfl as [Hx _]. cbn. pose proof (flag_cases x Hx). lia.
Qed.

(** One directive: the characters up to its letter, then the conversion. *)
Lemma directive_ok m limit sp c f p args args' t0 t1 r : spec_ok sp → c ∈ LETTERS → cstr m p (37 :: (spec_text sp ++ [c]) ++ r) →
  (length (spec_text sp) ≤ f)%nat →
  conversion (S f) c (flag_of sp) (s_width sp) (precision sp) args (Collector m limit t0) = Some (args', Collector m limit t1) →
  format_loop (S f) p args (Collector m limit t0) =
  format_loop f (p + 1 + Z.of_nat (length (spec_text sp ++ [c]))) args' (Collector m limit t1).
Proof.
  intros Hsp Hc Hs Hf Hcv. apply cstr_cons in Hs as (H0 & _ & Hs).
  assert (seg m (p + 1) (spec_text sp ++ [c])) as Hseg. { destruct Hs as [Hs _]. rewrite <- app_assoc, seg_app in Hs. by destruct Hs. }
  assert (m !! (p + 1) = Some (hd 0 (spec_text sp ++ [c]))) as H1.
  { destruct (seg_hd m (p + 1) [] (spec_text sp ++ [c])) as (_ & E & _); [done|by destruct (spec_text sp)|]. by rewrite Z.add_0_r in E. }
  cbn [format_loop]. rewrite (bind_peek _ _ _ _ (collector_rd _ _ _ _ _ H0)). chrs. cbn [Z.eqb Pos.eqb negb].
  rewrite (bind_peek _ _ _ _ (collector_rd _ _ _ _ _ H1)). pose proof (spec_hd sp c Hsp Hc). zb_false (hd 0 (spec_text sp ++ [c]) =? 37).
  destruct (read_spec m limit sp (S f) (p + 1) c args t0 Hsp Hc Hseg ltac:(lia)) as (E1 & E2 & E3 & E4 & E5).
  rewrite (bind_some _ _ _ _ _ E1). cbn [fst snd]. rewrite (bind_some _ _ _ _ _ E2). rewrite (bind_some _ _ _ _ _ E3). rewrite (bind_some _ _ _ _ _ E4).
  rewrite (bind_peek _ _ _ _ (collector_rd _ _ _ _ _ E5)). rewrite (bind_some _ _ _ _ _ Hcv).
  assert (c ≠ 0) by (unfold LETTERS in Hc; rewrite !elem_of_cons, elem_of_nil in Hc; lia). zb_false (c =? 0). f_equal. rewrite length_app. simpl length. lia.
Qed.

Lemma directive_next m sp c p r : cstr m p (37 :: (spec_text sp ++ [c]) ++ r) → cstr m (p + 1 + Z.of_nat (length (spec_text sp ++ [c]))) r.
Proof.
  intros (_ & _ & Hs)%cstr_cons. pose proof (cstr_drop m (p + 1) ((spec_text sp ++ [c]) ++ r) (length (spec_text sp ++ [c])) ltac:(rewrite (length_app _ r); lia) Hs) as Hd.
  by rewrite drop_app_length in Hd.
Qed.

Lemma format_renders m k l args t limit : renders m k l args t → Z.of_nat k ≤ 4294967296 → ∀ n p t0, Forall piece_ok l → cstr m p (format_text l) →
  (length (format_text l) + k < n)%nat → (length t0 + length t ≤ limit)%nat →
  format_loop n p args (Collector m limit t0) = Some (tt, Collector m limit (t0 ++ t)).
Proof.
  intros Hr Hk. induction Hr as [args|c l args t Hr IH|l args t Hr IH|c sp a l args t Hr IH|sp a u l args t Ha Hu Hlu Hr IH|sp a l args t Ha Hr IH|sp a l args t Hr IH];
    intros [|n] p t0 Hok Hs Hn Hl; try (apply Forall_cons in Hok as [Hx Hok]); unfold format_text in *; cbn [map concat] in *;
    rewrite ?length_app in *; cbn [piece_text length] in *; try lia.
  - apply cstr_nil in Hs. cbn [format_loop]. rewrite (bind_peek _ _ _ _ (collector_rd _ _ _ _ _ Hs)). cbn. by rewrite app_nil_r.
  - destruct Hx as [Hc Hne]. apply cstr_cons in Hs as (H0 & _ & Hs). cbn [format_loop]. rewrite (bind_peek _ _ _ _ (collector_rd _ _ _ _ _ H0)).
    unfold is_char in Hc. zb_false (c =? 0). chrs. zb_false (c =? 37). cbn [negb].
    rewrite (bind_some _ _ _ tt (Collector m limit (t0 ++ [c]))) by (rewrite out_char_ok by lia; by rewrite u8_char).
    rewrite IH by (done || lia || rewrite length_app; simpl; lia). by rewrite <- app_assoc.
  - apply cstr_cons in Hs as (H0 & _ & Hs). apply cstr_cons in Hs as (H1 & _ & Hs). cbn [format_loop].
    rewrite (bind_peek _ _ _ _ (collector_rd _ _ _ _ _ H0)). chrs. cbn [Z.eqb Pos.eqb negb]. rewrite (bind_peek _ _ _ _ (collector_rd _ _ _ _ _ H1)).
    cbn [Z.eqb Pos.eqb]. rewrite (bind_some _ _ _ tt (Collector m limit (t0 ++ [37]))) by (rewrite out_char_ok by lia; done).
    replace (p + 1 + 1) with (p + 2) in Hs by lia. rewrite IH by (done || lia || rewrite length_app; simpl; lia). by rewrite <- app_assoc.
  - pose proof (directive_next _ _ _ _ _ Hs). rewrite length_app in Hn. simpl in Hn.
    erewrite directive_ok; [|done| |exact Hs|lia|by apply conversion_number; [|lia]].
    2: { apply letter_ok. }
    rewrite IH by (done || lia || rewrite length_app; lia). by rewrite <- app_assoc.
  - pose proof (directive_next _ _ _ _ _ Hs). rewrite length_app in Hn. simpl in Hn.
    erewrite directive_ok; [|done| |exact Hs|lia|eapply (conversion_str _ _ _ _ _ u); (done || lia)]. 2: { apply other_letters. }
    rewrite IH by (done || lia || rewrite length_app; lia). by rewrite <- app_assoc.
  - pose proof (directive_next _ _ _ _ _ Hs). rewrite length_app in Hn. simpl in Hn.
    erewrite directive_ok; [|done| |exact Hs|lia|apply conversion_null; (done || lia)]. 2: { apply other_letters. }
    rewrite IH by (done || lia || rewrite length_app; lia). by rewrite <- app_assoc.
  - pose proof (directive_next _ _ _ _ _ Hs). rewrite length_app in Hn. simpl in Hn.
    erewrite directive_ok; [|done| |exact Hs|lia|]. 2: { apply other_letters. }
    2: { unfold conversion, flag_of. chrs. cbn [Z.eqb Pos.eqb orb va_arg]. rewrite bind_ret. cbn [fst snd].
         erewrite bind_some by (apply out_char_ok; lia). reflexivity. }
    rewrite IH by (done || lia || rewrite length_app; simpl; lia). rewrite <- app_assoc. do 4 f_equal. unfold u8. cbn. f_equal. apply Z.mod_mod. lia.
Qed.

(** A format of pieces is rendered as its text. *)
Theorem printf_renders m k l args t n fmt : renders m k l args t → Forall piece_ok l → cstr m fmt (format_text l) →
  Z.of_nat k ≤ 4294967296 → (length (format_text l) + k < n)%nat → rendering n m (length t) fmt args = Some t.
Proof. intros Hr Hok Hs Hk Hn. unfold rendering. by rewrite (format_renders m k l args t (length t) Hr Hk n fmt [] Hok Hs Hn) by (simpl; lia). Qed.

(** [C5] What [snprintf] writes: for every format made of characters and directives
    (signs, bases, widths and precisions written out, flags, strings; not the widths
    given by [*]), with the strings it names in memory away from the buffer, it leaves the text the format stands for, cut to the
    buffer and terminated, returns the full length and changes nothing else. *)
Theorem snprintf_formats {W} `{ByteSink W} m mr (w : W) buf size fmt k l args t :
  renders mr k l args t → Forall piece_ok l → cstr mr fmt (format_text l) →
  (length (format_text l) + k < fuel m)%nat → Z.of_nat (k + length t) < 2147483648 →
  mr ⊆ m → 0 < buf → 0 < size → is_u32 size →
  let room := Z.min size (Z.of_nat (length t) + 1) in
  buf + room ≤ 4294967296 → mapped m buf room → (∀ a, buf ≤ a < buf + room → mr !! a = None) →
  snprintf m w buf size fmt args = Some (Z.of_nat (length t), write m buf (take (Z.to_nat (size - 1)) t ++ [0]), w).
Proof.
  intros Hr Hok Hs Hf Hk Hsub Hb Hz Hu room Hwrap Hm Haway.
  apply (vsnprintf_ok m mr w buf size fmt args (length t)); try done; [|lia]. by apply (printf_renders mr k l); [..|lia|].
Qed.

#[export] Instance spec_ok_dec sp : Decision (spec_ok sp).
Proof. unfold spec_ok. destruct (s_prec sp); apply _. Defined.
#[export] Instance piece_ok_dec x : Decision (piece_ok x).
Proof. destruct x; unfold piece_ok, is_char; apply _. Defined.

(** The pieces of a literal format. *)
Definition formatted (l : list piece) (fmt : string) : bool :=
  bool_decide (Forall piece_ok l) && bool_decide (format_text l = lit fmt).
Lemma formatted_ok l fmt : formatted l fmt = true → Forall piece_ok l ∧ format_text l = lit fmt.
Proof. unfold formatted. rewrite andb_true_iff, !bool_decide_eq_true. done. Qed.

(** Literal characters of a format, and the directive [%s]. *)
Definition texts (s : string) : list piece := map Text (lit s).
Lemma renders_texts m k s l args t : renders m k l args t → renders m k (texts s ++ l) args (lit s ++ t).
Proof. intros Hr. unfold texts. by induction (lit s) as [|c u IH]; [|constructor]. Qed.
Lemma renders_plain m k a u l args t : 0 < a < 4294967296 → cstr m a u → (length u < k)%nat → renders m k l args t →
  renders m k (Str plain :: l) (a :: args) (u ++ t).
Proof. intros Ha Hu Hl Hr. rewrite <- (str_plain u) at 1. assert (u32 a = a) as E by (apply u32_small; unfold is_u32; lia). apply R_str; rewrite ?E; (done || lia). Qed.

(** The text of a literal format, up to the strings it names. *)
Ltac renders_step :=
  repeat first [apply R_nil | apply R_text | apply R_percent | apply R_number | apply R_char | eapply R_str].

(** ** Witnesses *)

#[local] Instance no_stream : ByteSink unit := {| write_chunk w f c := (true, w) |}.
Definition demo_format : list piece := [Text 60; Str (Spec [] 5 None []); Text 124; Number Signed (Spec [45] 4 None []); Text 124; Number Hex (Spec [35] 0 None []); Text 62].
Definition demo_mem : mem := write (mem_of 100 (lit "<%5s|%-4d|%#x>" ++ [0])) 120 (lit "ab" ++ [0]).

Lemma snprintf_formats_witness :
  snprintf (write demo_mem 200 (replicate 18 9)) tt 200 18 100 [120; 4294967289; 255] =
    Some (17, write (write demo_mem 200 (replicate 18 9)) 200 (lit "<   ab|-7  |0xff>" ++ [0]), tt).
Proof.
  assert (∃ t, renders demo_mem 3 demo_format [120; 4294967289; 255] t ∧ t = lit "<   ab|-7  |0xff>") as (t & Hr & ->).
  { eexists. split; [renders_step; [by vm_compute|apply (cstrb_cstr _ _ (lit "ab")); vm_compute; reflexivity|simpl; lia]|vm_compute; reflexivity]. }
  refine (snprintf_formats _ demo_mem tt 200 18 100 3 demo_format [120; 4294967289; 255] (lit "<   ab|-7  |0xff>") _ _ _ _ _ _ _ _ _ _ _ _).
  - exact Hr.
  - apply (bool_decide_unpack _). vm_compute. exact I.
  - apply cstrb_cstr. vm_compute. reflexivity.
  - vm_compute. lia.
  - vm_compute. reflexivity.
  - apply (bool_decide_unpack _). vm_compute. exact I.
  - lia.
  - lia.
  - unfold is_u32. lia.
  - vm_compute. congruence.
  - apply mappedb_mapped. vm_compute. reflexivity.
  - intros a Ha. unfold demo_mem, mem_of. rewrite !lookup_write_out; [done|..]; simpl in *; lia.
Defined.
