(* ===== verification/Posix.v ===== *)
(** * [c/rt/posix.c]: the POSIX names over the system calls

    Each function translates its arguments, makes the call and turns a negative
    result into -1 with [errno] set.  Pointer arguments the kernel reads or
    writes are followed here ([path_at], [peeks], [pokes]). *)

From S2P Require Import Prelude CMem CString Heap HeapSpec Alloc Sys CStdlib.

Definition EPERM : Z := 1.
Definition ENOENT : Z := 2.
Definition ESRCH : Z := 3.
Definition EIO : Z := 5.
Definition ENOEXEC : Z := 8.
Definition EBADF : Z := 9.
Definition ECHILD : Z := 10.
Definition EAGAIN : Z := 11.
Definition ENOMEM : Z := 12.
Definition EACCES : Z := 13.
Definition EFAULT : Z := 14.
Definition EEXIST : Z := 17.
Definition ERANGE : Z := 34.
Definition ENOSYS : Z := 38.

Definition O_RDONLY : Z := 0.
Definition O_WRONLY : Z := 1.
Definition O_RDWR : Z := 2.
Definition O_ACCMODE : Z := 3.
Definition O_CREAT : Z := 64.
Definition O_TRUNC : Z := 512.

(** A 32-bit word as the bytes a store leaves in memory. *)
Definition le32 (v : Z) : list Z :=
  [u8 v; u8 (Z.shiftr v 8); u8 (Z.shiftr v 16); u8 (Z.shiftr v 24)].

Section posix.
Context {H K : Type} `{Allocator H} `{Kernel K}.
Abbreviation P := (M (proc H K)).

Definition errno_from_kernel : P unit :=
  kernel_errno <- mv_syscall SYS_GETERRNO;;
  if 0 <? fst kernel_errno then set_errno (fst kernel_errno) else ret tt.

(** The error exit of the shims that ask the kernel for the reason. *)
Definition kernel_fail (e : Z) : P Z :=
  errno_from_kernel;;;
  n <- get_errno;;
  (if n =? 0 then set_errno e else ret tt);;;
  ret (-1).

(** The error exit of the shims that know the reason. *)
Definition fail_with (e : Z) : P Z := set_errno e;;; ret (-1).

(** ** Descriptors *)

Definition open (path oflag : Z) : P Z :=
  if path =? 0 then fail_with EFAULT
  else
    s <- path_at path;;
    fd <- mv_syscall (SYS_OPEN s (u32 oflag));;
    if fst fd <? 0 then kernel_fail ENOENT else ret (fst fd).

Definition creat (path mode : Z) : P Z := open path (Z.lor (Z.lor O_WRONLY O_CREAT) O_TRUNC).

Definition read (fd buf count : Z) : P Z :=
  n <- mv_syscall (SYS_READ (u32 fd) count);;
  pokes buf (snd n);;;
  if fst n <? 0 then kernel_fail EBADF else ret (fst n).

Definition write_fd (fd buf count : Z) : P Z :=
  bs <- peeks buf count;;
  n <- mv_syscall (SYS_WRITE (u32 fd) bs);;
  if fst n <? 0 then kernel_fail EBADF else ret (fst n).

Definition close (fd : Z) : P Z :=
  r <- mv_syscall (SYS_CLOSE (u32 fd));;
  if fst r <? 0 then kernel_fail EBADF else ret 0.

Definition lseek (fd offset whence : Z) : P Z :=
  r <- mv_syscall (SYS_SEEK (u32 fd) (u32 offset) (u32 whence));;
  if fst r <? 0 then kernel_fail EINVAL else ret (fst r).

Definition dup (fd : Z) : P Z :=
  r <- mv_syscall (SYS_DUP (u32 fd));;
  if fst r <? 0 then fail_with EBADF else ret (fst r).

Definition dup2 (fd fd2 : Z) : P Z :=
  r <- mv_syscall (SYS_DUP2 (u32 fd) (u32 fd2));;
  if fst r <? 0 then fail_with EBADF else ret (fst r).

Definition fcntl (fd cmd arg : Z) : P Z :=
  r <- mv_syscall (SYS_FCNTL (u32 fd) (u32 cmd) (u32 arg));;
  if fst r <? 0 then fail_with EINVAL else ret (fst r).

(** ** Files and directories *)

Definition unlink (path : Z) : P Z :=
  s <- path_at path;;
  r <- mv_syscall (SYS_DELETE s);;
  if fst r <? 0 then kernel_fail ENOENT else ret 0.

Definition rmdir (path : Z) : P Z := unlink path.

Definition access (path mode : Z) : P Z :=
  s <- path_at path;;
  r <- mv_syscall (SYS_ACCESS s (u32 mode));;
  if fst r <? 0 then kernel_fail EACCES else ret 0.

Definition chdir (path : Z) : P Z :=
  s <- path_at path;;
  r <- mv_syscall (SYS_CHDIR s);;
  if fst r <? 0 then fail_with ENOENT else ret 0.

(** The length scan over the static [kernel_path[256]]. *)
Fixpoint cwd_length (f : nat) (kernel_path : list Z) (len : nat) : option nat :=
  match f with
  | O => None
  | S f' =>
      c ← kernel_path !! len;
      if negb (c =? 0) && bool_decide (len < 256)%nat then cwd_length f' kernel_path (S len) else Some len
  end.

(** What the kernel stored over what a static buffer of [cap] bytes held; more
    bytes than that are a fault. *)
Definition overlay (cap : nat) (bs old : list Z) : P (list Z) :=
  if decide (length bs ≤ cap)%nat then ret (bs ++ drop (length bs) old) else fault.

(** The pointer returned and the new contents of [kernel_path]. *)
Definition getcwd (kernel_path : list Z) (buf size : Z) : P (Z * list Z) :=
  if buf =? 0 then set_errno EFAULT;;; ret (0, kernel_path)
  else
    r <- mv_syscall SYS_GETCWD;;
    kernel_path <- overlay 256 (snd r) kernel_path;;
    if fst r <? 0 then set_errno ENOENT;;; ret (0, kernel_path)
    else
      match cwd_length 257 kernel_path 0 with
      | None => fault
      | Some len =>
          if size <? Z.of_nat len + 1 then set_errno ERANGE;;; ret (0, kernel_path)
          else
            pokes buf (take (S len) kernel_path);;;
            ret (buf, kernel_path)
      end.

Definition pipe (fds : Z) : P Z :=
  if fds =? 0 then fail_with EFAULT
  else
    r <- mv_syscall SYS_PIPE2;;
    pokes fds (snd r);;;
    if fst r <? 0 then fail_with ENOSYS else ret 0.

Definition isatty (fd : Z) : P Z :=
  r <- mv_syscall (SYS_ISATTY (u32 fd));; ret (of_bool (fst r =? 1)).

Definition stat (path buf : Z) : P Z :=
  s <- path_at path;;
  r <- mv_syscall (SYS_STAT s);;
  pokes buf (snd r);;;
  if fst r <? 0 then kernel_fail ENOENT else ret 0.

Definition fstat (fd buf : Z) : P Z :=
  r <- mv_syscall (SYS_FSTAT (u32 fd));;
  pokes buf (snd r);;;
  if fst r <? 0 then fail_with EBADF else ret 0.

Definition mkdir (path mode : Z) : P Z :=
  s <- path_at path;;
  r <- mv_syscall (SYS_MKDIR s);;
  if fst r <? 0 then kernel_fail EEXIST else ret 0.

Definition chmod (path mode : Z) : P Z :=
  s <- path_at path;;
  r <- mv_syscall (SYS_CHMOD s mode);;
  if fst r <? 0 then fail_with EPERM else ret 0.

(** ** Processes *)

Definition fork : P Z :=
  r <- mv_syscall SYS_FORK;;
  if fst r <? 0 then kernel_fail EAGAIN else ret (fst r).

(** [argv]: the pointers of the array, up to its NULL. *)
Definition execve (path : Z) (argv : list Z) (envp : Z) : P Z :=
  s <- path_at path;;
  r <- mv_syscall (SYS_EXECVE s argv envp);;
  if fst r <? 0 then kernel_fail ENOEXEC else ret 0.

(** [while (n < 15)]: the arguments up to NULL, at most [k] of them. *)
Fixpoint execl_args (k : nat) (ap : list Z) : P (list Z) :=
  match k with
  | O => ret []
  | S k' =>
      match ap with
      | [] => fault
      | next :: ap' => if next =? 0 then ret [] else rest <- execl_args k' ap';; ret (next :: rest)
      end
  end.

Definition execl (path arg : Z) (ap : list Z) : P Z :=
  argv <- (if arg =? 0 then ret [] else rest <- execl_args 14 ap;; ret (arg :: rest));;
  execve path argv 0.

Definition getpid : P Z := r <- mv_syscall SYS_GETPID;; ret (fst r).
Definition getppid : P Z := r <- mv_syscall SYS_GETPPID;; ret (fst r).
Definition getuid : P Z := r <- mv_syscall SYS_GETUID;; ret (u32 (fst r)).
Definition geteuid : P Z := r <- mv_syscall SYS_GETEUID;; ret (u32 (fst r)).
Definition getgid : P Z := r <- mv_syscall SYS_GETGID;; ret (u32 (fst r)).

Definition sleep (seconds : Z) : P Z := mv_syscall (SYS_SLEEP (u32 (seconds * 100)));;; ret 0.

Definition waitpid (pid status options : Z) : P Z :=
  r <- mv_syscall (SYS_WAITPID (u32 pid));;
  if fst r <? 0 then fail_with ECHILD
  else
    (if negb (status =? 0) then pokes status (le32 (u32 (Z.shiftl (fst r) 8))) else ret tt);;;
    ret pid.

(** The macro of [sys/wait.h]. *)
Definition WEXITSTATUS (s : Z) : Z := Z.land (Z.shiftr s 8) 255.

Definition wait (status : Z) : P Z := waitpid (-1) status 0.

(** ** Signals *)

Definition SIG_ERR : Z := 4294967295.

Definition signal (sig func : Z) : P Z :=
  r <- mv_syscall (SYS_SIGACTION (u32 sig) func);;
  if fst r <? 0 then set_errno EINVAL;;; ret SIG_ERR else ret func.

Definition kill (pid sig : Z) : P Z :=
  r <- mv_syscall (SYS_KILL (u32 pid) (u32 sig));;
  if fst r <? 0 then kernel_fail ESRCH else ret 0.

Definition raise (sig : Z) : P Z := pid <- getpid;; kill pid sig.

(** ** C locale *)

(** [l[0] == s[0] && l[1] == s[1] && ...] *)
Fixpoint chars_at (l : Z) (s : list Z) : P bool :=
  match s with
  | [] => ret true
  | c :: s' => b <- peekb l;; if b =? c then chars_at (l + 1) s' else ret false
  end.

(** [c_locale]: the address of the static string. *)
Definition setlocale (c_locale category locale : Z) : P Z :=
  if locale =? 0 then ret c_locale
  else
    c <- chars_at locale (lit "C" ++ [0]);;
    if c then ret c_locale
    else
      e <- chars_at locale [0];;
      if e then ret c_locale
      else
        x <- chars_at locale (lit "POSIX" ++ [0]);;
        if x then ret c_locale else set_errno EINVAL;;; ret 0.
End posix.

(** ** Character classes *)

Definition isdigit (c : Z) : bool := (chr "0" <=? c) && (c <=? chr "9").
Definition islower (c : Z) : bool := (chr "a" <=? c) && (c <=? chr "z").
Definition isupper (c : Z) : bool := (chr "A" <=? c) && (c <=? chr "Z").
Definition isalpha (c : Z) : bool := islower c || isupper c.
Definition isalnum (c : Z) : bool := isalpha c || isdigit c.
Definition isspace (c : Z) : bool :=
  (c =? chr " ") || (c =? 9) || (c =? 10) || (c =? 11) || (c =? 12) || (c =? 13).
Definition isprint (c : Z) : bool := (32 <=? c) && (c <=? 126).
Definition iscntrl (c : Z) : bool := ((0 <=? c) && (c <? 32)) || (c =? 127).
Definition isxdigit (c : Z) : bool :=
  isdigit c || ((chr "a" <=? c) && (c <=? chr "f")) || ((chr "A" <=? c) && (c <=? chr "F")).
Definition ispunct (c : Z) : bool := isprint c && negb (isalnum c) && negb (isspace c).
Definition toupper (c : Z) : Z := if islower c then c - chr "a" + chr "A" else c.
Definition tolower (c : Z) : Z := if isupper c then c - chr "A" + chr "a" else c.

(** ** The result convention *)

(** How many bytes a call may store through its pointer argument. *)
Definition capacity (c : syscall) : option Z :=
  match c with
  | SYS_READ _ count => Some (Z.max 0 count)
  | SYS_STAT _ | SYS_FSTAT _ => Some 12
  | SYS_PIPE2 => Some 8
  | SYS_GETCWD => Some 256
  | SYS_FREAD _ | SYS_STDIN_READ => None
  | _ => Some 0
  end.

(** The kernel stores no more than that. *)
Class KernelBounds (K : Type) `{Kernel K} := {
  kernel_bounds : ∀ c n k r bs k', capacity c = Some n → int80 c k = (r, bs, k') → Z.of_nat (length bs) ≤ n
}.

(** The shims that promise -1 and a reason, and the buffer the caller passes. *)
Inductive posix_call {H K} `{Allocator H} `{Kernel K} : M (proc H K) Z → Z → Z → Prop :=
  | pc_open path oflag : posix_call (open path oflag) 0 0
  | pc_creat path mode : posix_call (creat path mode) 0 0
  | pc_read fd buf count : 0 ≤ count → posix_call (read fd buf count) buf count
  | pc_write fd buf count : 0 ≤ count → posix_call (write_fd fd buf count) buf count
  | pc_close fd : posix_call (close fd) 0 0
  | pc_lseek fd offset whence : posix_call (lseek fd offset whence) 0 0
  | pc_dup fd : posix_call (dup fd) 0 0
  | pc_dup2 fd fd2 : posix_call (dup2 fd fd2) 0 0
  | pc_fcntl fd cmd arg : posix_call (fcntl fd cmd arg) 0 0
  | pc_unlink path : posix_call (unlink path) 0 0
  | pc_rmdir path : posix_call (rmdir path) 0 0
  | pc_access path mode : posix_call (access path mode) 0 0
  | pc_chdir path : posix_call (chdir path) 0 0
  | pc_pipe fds : posix_call (pipe fds) fds 8
  | pc_stat path buf : posix_call (stat path buf) buf 12
  | pc_fstat fd buf : posix_call (fstat fd buf) buf 12
  | pc_mkdir path mode : posix_call (mkdir path mode) 0 0
  | pc_chmod path mode : posix_call (chmod path mode) 0 0
  | pc_fork : posix_call fork 0 0
  | pc_execve path argv envp : posix_call (execve path argv envp) 0 0
  | pc_kill pid sig : posix_call (kill pid sig) 0 0
  | pc_raise sig : posix_call (raise sig) 0 0.

Section contract.
Context {H K : Type} `{AllocatorLaws H} `{KernelBounds K} (buf len : Z).
#[local] Set Default Proof Using "All".
Abbreviation P := (M (proc H K)).

Definition ready (p : proc H K) : Prop := mapped (p_mem p) buf len.

(** -1 and a reason in [errno], or a result that is not negative and [errno] as
    it was. *)
Definition unix_result (f : P Z) : Prop :=
  ∀ p, ready p → ∃ r p', f p = Some (r, p') ∧
    ((r = -1 ∧ p_errno p' ≠ 0) ∨ (0 ≤ r ∧ p_errno p' = p_errno p)).

(** A step that returns and leaves [errno] and the buffer in place. *)
Definition quiet {A} (x : P A) (Q : A → Prop) : Prop :=
  ∀ p, ready p → ∃ a p', x p = Some (a, p') ∧ Q a ∧ p_errno p' = p_errno p ∧ ready p'.

Lemma quiet_syscall c n : capacity c = Some n → quiet (mv_syscall c) (λ r, Z.of_nat (length (snd r)) ≤ n).
Proof.
  intros Hc p Hp. unfold mv_syscall. destruct (int80 c (p_kern p)) as [[r bs] k] eqn:E.
  do 2 eexists. split; [done|]. split; [|done]. by eapply kernel_bounds.
Qed.

Lemma quiet_path a : quiet (path_at a) (λ _, True).
Proof. intros p Hp. unfold path_at. eauto 10. Qed.

Lemma quiet_pokes bs : Z.of_nat (length bs) ≤ len → quiet (pokes buf bs) (λ _, True).
Proof.
  intros Hl p Hp. unfold pokes. rewrite stores_ok by (eapply mapped_weaken; [exact Hp|lia|lia]). bind_step.
  do 2 eexists. split; [done|]. split_and!; [done|done|]. unfold ready, p_mem, with_mem, with_heap. cbn [p_heap].
  rewrite a_mem_set. by apply mapped_write.
Qed.

Lemma quiet_pokes_nil a : quiet (pokes a []) (λ _, True).
Proof.
  intros p Hp. do 2 eexists. split; [done|]. split_and!; [done|done|].
  unfold ready, p_mem, with_mem, with_heap. cbn [p_heap]. by rewrite a_mem_set.
Qed.

Lemma quiet_peeks : 0 ≤ len → quiet (peeks buf len) (λ _, True).
Proof.
  intros Hl p Hp. unfold peeks. destruct (mapped_seg _ _ _ Hp) as (bs & Hlen & Hs).
  replace (Z.to_nat len) with (length bs) by lia. rewrite loads_ok by done. bind_step. eauto 10.
Qed.

Lemma unix_quiet {A} (x : P A) Q (k : A → P Z) :
  quiet x Q → (∀ a, Q a → unix_result (k a)) → unix_result (x' <- x;; k x').
Proof.
  intros Hx Hk p Hp. destruct (Hx p Hp) as (a & p1 & E & HQ & He & Hp1). rewrite (bind_some _ _ _ _ _ E).
  destruct (Hk a HQ p1 Hp1) as (r & p2 & E2 & Hr). rewrite He in Hr. eauto.
Qed.

Lemma unix_ret r : 0 ≤ r → unix_result (ret r).
Proof. intros Hr p Hp. do 2 eexists. split; [done|]. by right. Qed.

Lemma unix_fail e : e ≠ 0 → unix_result (fail_with e).
Proof. intros He p Hp. do 2 eexists. split; [done|]. by left. Qed.

Lemma unix_kernel_fail e : e ≠ 0 → unix_result (kernel_fail e).
Proof.
  intros He p Hp. unfold kernel_fail.
  assert (∃ p1, errno_from_kernel p = Some (tt, p1)) as [p1 E1].
  { unfold errno_from_kernel. destruct (quiet_syscall SYS_GETERRNO 0 eq_refl p Hp) as (a & p1 & E & _).
    rewrite (bind_some _ _ _ _ _ E). destruct (0 <? fst a); by eexists. }
  rewrite (bind_some _ _ _ _ _ E1). destruct (Z.eqb_spec (p_errno p1) 0) as [Hz|Hz];
    rewrite (bind_some _ _ _ _ _ (eq_refl : get_errno p1 = Some (p_errno p1, p1))).
  - rewrite Hz. do 2 eexists. split; [done|]. by left.
  - zb_false (p_errno p1 =? 0). do 2 eexists. split; [done|]. by left.
Qed.

Lemma unix_neg r (f g : P Z) : unix_result f → (0 ≤ r → unix_result g) → unix_result (if r <? 0 then f else g).
Proof. intros Hf Hg. destruct (Z.ltb_spec r 0); [done|]. by apply Hg. Qed.

Lemma quiet_getpid : quiet getpid (λ _, True).
Proof.
  intros p Hp. destruct (quiet_syscall SYS_GETPID 0 eq_refl p Hp) as (a & p1 & E & _ & ? & ?).
  unfold getpid. rewrite (bind_some _ _ _ _ _ E). eauto 10.
Qed.

End contract.

(** One step of a shim: a call, a pointer followed, a test, an exit. *)
Ltac unix_quiet_step :=
  first [ apply quiet_syscall; reflexivity | apply quiet_path | apply quiet_getpid
        | apply quiet_pokes; simpl in *; lia | apply quiet_peeks; done ].
Ltac unix_step :=
  first [ eapply unix_quiet; [unix_quiet_step | intros ? ?]
        | apply unix_neg; [|intros ?]
        | apply unix_ret; simpl in *; lia
        | apply unix_fail; done
        | apply unix_kernel_fail; done
        | match goal with |- unix_result _ _ (if ?b then _ else _) => destruct b end ].

Lemma posix_call_result {H K} `{AllocatorLaws H} `{KernelBounds K} (f : M (proc H K) Z) buf len :
  posix_call f buf len → unix_result buf len f.
Proof.
  destruct 1; unfold creat, rmdir, open, read, write_fd, close, lseek, dup, dup2, fcntl, unlink, access, chdir, pipe,
    stat, fstat, mkdir, chmod, fork, execve, raise, kill; repeat unix_step.
Qed.

(** ** The working directory *)

Lemma cwd_length_ok path rest n f :
  Forall is_char (drop n path) → (n ≤ length path)%nat → (length path < 256)%nat →
  (length path - n < f)%nat → cwd_length f (path ++ 0 :: rest) n = Some (length path).
Proof.
  revert n. induction f as [|f IH]; intros n Hc Hn Hl Hf; [lia|]. cbn [cwd_length].
  destruct (decide (n = length path)) as [->|Hne].
  - rewrite lookup_app_r, Nat.sub_diag by lia. done.
  - destruct (lookup_lt_is_Some_2 path n) as [c Ec]; [lia|]. rewrite lookup_app_l, Ec by lia. bind_step.
    rewrite (drop_S _ _ _ Ec), Forall_cons in Hc. destruct Hc as [Hch Hc]. unfold is_char in Hch.
    zb_false (c =? 0). rewrite bool_decide_eq_true_2 by lia. apply IH; [done|lia|lia|lia].
Qed.

Section claims.
Context {H K : Type} `{AllocatorLaws H} `{KernelBounds K}.
#[local] Set Default Proof Using "All".

(** The result convention of the POSIX shims: whatever the kernel answers,
    a call with a valid buffer returns, and either the result is -1 and [errno]
    holds a reason, or the result is not negative and [errno] is unchanged. *)
Theorem posix_result_convention (f : M (proc H K) Z) buf len p :
  posix_call f buf len → mapped (p_mem p) buf len →
  ∃ r p', f p = Some (r, p') ∧
    ((r = -1 ∧ p_errno p' ≠ 0) ∨ (0 ≤ r ∧ p_errno p' = p_errno p)).
Proof. intros Hf. by apply posix_call_result. Qed.

(** [getcwd]: the path and its terminator in the caller's buffer when they
    fit, and otherwise NULL and [ERANGE] with no byte of memory touched. *)
Theorem getcwd_fits_or_refuses kernel_path buf size (p : proc H K) path r k :
  int80 SYS_GETCWD (p_kern p) = (r, path ++ [0], k) → 0 ≤ i32 r → Forall is_char path →
  length kernel_path = 256%nat → buf ≠ 0 →
  (Z.of_nat (length path) < size → mapped (p_mem p) buf (Z.of_nat (length path) + 1)) →
  ∃ kernel_path', getcwd kernel_path buf size p =
    if Z.of_nat (length path) <? size
    then Some ((buf, kernel_path'),
               Proc (a_set (p_heap p) (CMem.write (p_mem p) buf (path ++ [0]))) k (p_errno p))
    else Some ((0, kernel_path'), Proc (p_heap p) k ERANGE).
Proof.
  intros Hk Hr Hc Hlen Hbuf Hm. pose proof (kernel_bounds SYS_GETCWD 256 _ _ _ _ eq_refl Hk) as Hb.
  rewrite length_app in Hb. simpl in Hb.
  exists ((path ++ [0]) ++ drop (length (path ++ [0])) kernel_path). unfold getcwd. zb_false (buf =? 0).
  rewrite (bind_some _ _ _ (i32 r, path ++ [0]) (Proc (p_heap p) k (p_errno p))) by (unfold mv_syscall; by rewrite Hk).
  cbn [fst snd]. unfold overlay. rewrite decide_True by (rewrite length_app; simpl; lia). rewrite bind_ret.
  zb_false (i32 r <? 0). rewrite <- app_assoc. cbn [app].
  rewrite cwd_length_ok by (first [rewrite drop_0; done | lia]).
  destruct (Z.ltb_spec (Z.of_nat (length path)) size) as [Hlt|Hge].
  - zb_false (size <? Z.of_nat (length path) + 1).
    match goal with |- context [take ?n ?l] => assert (take n l = path ++ [0]) as -> end.
    { rewrite (cons_middle _ path), app_assoc, take_app_length'; [done|rewrite length_app; simpl; lia]. }
    unfold pokes. rewrite (bind_some _ _ _ tt (with_mem (CMem.write (p_mem p) buf (path ++ [0])) (Proc (p_heap p) k (p_errno p)))).
    + done.
    + unfold p_mem at 1. cbn [p_heap]. fold (p_mem p). rewrite stores_ok, map_u8; [done| |].
      * rewrite Forall_app, Forall_singleton. split; [|unfold is_u8; lia]. eapply Forall_impl; [exact Hc|apply is_char_u8].
      * rewrite length_app, Nat2Z.inj_add. by apply Hm.
  - zb_true (size <? Z.of_nat (length path) + 1). done.
Qed.

(** [waitpid] stores a status from which [WEXITSTATUS] recovers the child's
    exit code, and returns the pid it was asked for; so [wait], which asks for
    -1, returns -1 when it succeeds, with [errno] untouched: a caller cannot
    tell a reaped child from an error. *)
Theorem wait_status (p : proc H K) pid status r bs k :
  int80 (SYS_WAITPID (u32 pid)) (p_kern p) = (r, bs, k) → 0 ≤ i32 r → status ≠ 0 → mapped (p_mem p) status 4 →
  ∃ v, WEXITSTATUS (i32 v) = u8 r ∧
    let p' := Proc (a_set (p_heap p) (CMem.write (p_mem p) status (le32 v))) k (p_errno p) in
    waitpid pid status 0 p = Some (pid, p') ∧
    (pid = -1 → wait status p = Some (-1, p')).
Proof.
  intros Hk Hr Hs Hm. exists (u32 (Z.shiftl (i32 r) 8)). split.
  - unfold WEXITSTATUS. rewrite Z.shiftl_mul_pow2, Z.shiftr_div_pow2, land_255 by lia. change (2 ^ 8) with 256.
    unfold i32, u32, u8. dlia.
  - assert (waitpid pid status 0 p = Some (pid, Proc (a_set (p_heap p) (CMem.write (p_mem p) status (le32 (u32 (Z.shiftl (i32 r) 8))))) k (p_errno p))) as Hw.
    { unfold waitpid.
      rewrite (bind_some _ _ _ (i32 r, bs) (Proc (p_heap p) k (p_errno p))) by (unfold mv_syscall; by rewrite Hk).
      cbn [fst snd]. zb_false (i32 r <? 0). zb_false (status =? 0). cbn [negb]. unfold pokes, bindM.
      unfold p_mem at 1. cbn [p_heap]. fold (p_mem p). rewrite stores_ok by done. rewrite map_u8; [done|].
      unfold le32. repeat constructor; apply u8_bound. }
    split; [done|]. intros ->. done.
Qed.
End claims.

(** The character classes are those of the number reader: on every integer
    the printing characters are the space, the alphanumerics and the
    punctuation, without overlap; the digits of base 16 and 36 that [strtol]
    accepts are [isxdigit] and [isalnum]; the blanks it skips are [isspace];
    and [toupper] and [tolower] exchange the two cases and nothing else. *)
Theorem ctype_classes c :
  isprint c = xorb (c =? 32) (xorb (isalnum c) (ispunct c)) ∧
  isalnum c = xorb (isdigit c) (xorb (islower c) (isupper c)) ∧
  (isprint c && iscntrl c = false) ∧
  isalnum c = (digit_value c <? 36) ∧ isxdigit c = (digit_value c <? 16) ∧ isspace c = is_blank c ∧
  isupper (toupper c) = isalpha c ∧ islower (tolower c) = isalpha c ∧
  (if islower c then tolower (toupper c) else toupper c) = c ∧
  (if isupper c then toupper (tolower c) else tolower c) = c.
Proof.
  destruct (decide (0 ≤ c < 128)) as [Hc|Hc].
  - match goal with |- ?G => assert (bool_decide G = true) as Hx by (by_range c 128) end.
    by apply bool_decide_eq_true in Hx.
  - assert (islower c = false ∧ isupper c = false ∧ isdigit c = false ∧ isprint c = false) as (L & U & D & Pr).
    { unfold islower, isupper, isdigit, isprint. cbv [chr N_of_ascii]. bool_cases; first [done|simpl in *; lia]. }
    unfold ispunct, isalnum, isalpha, isxdigit, toupper, tolower, isspace, is_blank, digit_value.
    fold (isdigit c) (islower c) (isupper c). rewrite ?L, ?U, ?D, ?Pr, ?L, ?U.
    change (chr " ") with 32. change (chr "a") with 97. change (chr "f") with 102.
    change (chr "A") with 65. change (chr "F") with 70. cbn [andb orb xorb negb].
    destruct (Z.eqb_spec c 32), (Z.eqb_spec c 9), (Z.eqb_spec c 10), (Z.eqb_spec c 11), (Z.eqb_spec c 12),
      (Z.eqb_spec c 13); try lia.
    split_and!; try done; bool_cases; first [done|lia].
Qed.

(** ** Witnesses *)

(** A kernel that is in [/home], has one child that exited with code 3, and
    refuses to read. *)
Definition toy_int80 (c : syscall) (k : Z) : Z * list Z * Z :=
  match c with
  | SYS_GETCWD => (0, lit "/home" ++ [0], k)
  | SYS_WAITPID _ => (3, [], k + 1)
  | SYS_READ _ _ => (-1, [], k)
  | SYS_GETERRNO => (EBADF, [], k)
  | _ => (0, [], k)
  end.
#[local] Instance toy_kernel : Kernel Z := {| int80 := toy_int80 |}.
#[local] Instance toy_bounds : KernelBounds Z.
Proof. constructor. intros [] n k r bs k' Hc [= <- <- <-]; simplify_eq/=; lia || done. Qed.
#[local] Instance toy_laws : AllocatorLaws (heap Z) := heap_laws HEAP_FLOOR.

Definition toy_proc : proc (heap Z) Z := Proc (with_ram task0 (mem_of 1000 (replicate 16 7))) 0 0.

Lemma toy_mapped n : n ≤ 16 → mapped (p_mem toy_proc) 1000 n.
Proof. intros. eapply mapped_weaken; [apply (seg_mapped _ 1000 (replicate 16 7)), mem_of_seg|lia|simpl; lia]. Qed.

Lemma posix_result_convention_witness :
  ∃ r p', read 5 1000 8 toy_proc = Some (r, p') ∧
    ((r = -1 ∧ p_errno p' ≠ 0) ∨ (0 ≤ r ∧ p_errno p' = p_errno toy_proc)).
Proof.
  apply (posix_result_convention (read 5 1000 8) 1000 8 toy_proc); [by constructor|by apply toy_mapped].
Defined.

Lemma getcwd_fits_or_refuses_witness :
  (∃ kp, getcwd (replicate 256 0) 1000 6 toy_proc =
     Some ((1000, kp), Proc (a_set (p_heap toy_proc) (CMem.write (p_mem toy_proc) 1000 (lit "/home" ++ [0]))) 0 0)) ∧
  (∃ kp, getcwd (replicate 256 0) 1000 5 toy_proc = Some ((0, kp), Proc (p_heap toy_proc) 0 ERANGE)).
Proof.
  assert (Forall is_char (lit "/home")) as Hc by (repeat constructor).
  split.
  - apply (getcwd_fits_or_refuses (replicate 256 0) 1000 6 toy_proc (lit "/home") 0 0); try done.
    intros _. apply toy_mapped. simpl. lia.
  - apply (getcwd_fits_or_refuses (replicate 256 0) 1000 5 toy_proc (lit "/home") 0 0); try done.
Defined.

Lemma wait_status_witness : ∃ v, WEXITSTATUS (i32 v) = u8 3 ∧
  let p' := Proc (a_set (p_heap toy_proc) (CMem.write (p_mem toy_proc) 1004 (le32 v))) 1 0 in
  waitpid (-1) 1004 0 toy_proc = Some (-1, p') ∧ (-1 = -1 → wait 1004 toy_proc = Some (-1, p')).
Proof.
  apply (wait_status toy_proc (-1) 1004 3 [] 1); [reflexivity|vm_compute; discriminate|lia|].
  eapply mapped_weaken; [apply (toy_mapped 16); lia|lia|lia].
Defined.
