(* ===== verification/GetOpt.v ===== *)
(** * [getopt] of [c/rt/posix.c]

    The option parser with the permutation of [argv]: the array is the list of
    its pointers, the words are strings in memory.  The globals and the static
    index are a record; a diagnostic on [stderr] is an entry of a trace.

    The parser is compared with a reference that works on words: the letters of
    the option words in order, the option words moved in front of the operands. *)

From S2P Require Import Prelude CMem CString CStdlib.

(** The globals, the static [scanned], the array, and the diagnostics printed:
    the kind of message and the option letter. *)
Record opts := Opts {
  optarg : Z; optind : Z; opterr : Z; optopt : Z; scanned : Z; argv : list Z; said : list (Z * Z)
}.

Definition with_optarg (x : Z) (s : opts) : opts :=
  Opts x (optind s) (opterr s) (optopt s) (scanned s) (argv s) (said s).
Definition with_optind (x : Z) (s : opts) : opts :=
  Opts (optarg s) x (opterr s) (optopt s) (scanned s) (argv s) (said s).
Definition with_optopt (x : Z) (s : opts) : opts :=
  Opts (optarg s) (optind s) (opterr s) x (scanned s) (argv s) (said s).
Definition with_scanned (x : Z) (s : opts) : opts :=
  Opts (optarg s) (optind s) (opterr s) (optopt s) x (argv s) (said s).
Definition with_argv (x : list Z) (s : opts) : opts :=
  Opts (optarg s) (optind s) (opterr s) (optopt s) (scanned s) x (said s).
Definition say (kind c : Z) (s : opts) : opts :=
  if opterr s =? 0 then s
  else Opts (optarg s) (optind s) (opterr s) (optopt s) (scanned s) (argv s) (said s ++ [(kind, c)]).

Definition INVALID_OPTION : Z := 0.
Definition NEEDS_ARGUMENT : Z := 1.

Definition word (v : list Z) (i : Z) : option Z := if i <? 0 then None else v !! Z.to_nat i.

(** [w[0] == '-' && w[1] != '\0'] *)
Definition is_option (m : mem) (w : Z) : option bool :=
  c0 ← load m w;
  if c0 =? chr "-" then c1 ← load m (w + 1); Some (negb (c1 =? 0)) else Some false.

(** [w[1] == '-' && w[2] == '\0'] *)
Definition is_end (m : mem) (w : Z) : option bool :=
  c1 ← load m (w + 1);
  if c1 =? chr "-" then c2 ← load m (w + 2); Some (c2 =? 0) else Some false.

(** [for (i = optind + 1; i < argc; i++)] *)
Fixpoint find_option (k : nat) (m : mem) (v : list Z) (i argc : Z) : option Z :=
  match k with
  | O => None
  | S k' =>
      if i <? argc then
        w ← word v i; b ← is_option m w;
        if (b : bool) then Some i else find_option k' m v (i + 1) argc
      else Some i
  end.

(** [while (i > optind) { v[i] = v[i - 1]; i--; }] *)
Fixpoint shift_words (k : nat) (v : list Z) (i : Z) : option (list Z) :=
  match k with
  | O => Some v
  | S k' =>
      w ← word v (i - 1); _ ← word v i;
      shift_words k' (<[Z.to_nat i := w]> v) (i - 1)
  end.

(** The block under [if (scanned == 0)]: [None] inside is [return -1], with the
    state the return leaves. *)
Definition next_word (m : mem) (argc : Z) (stop_at_operand : bool) (s : opts) : option (bool * opts) :=
  if optind s <? argc then
    w ← word (argv s) (optind s);
    b ← is_option m w;
    if (b : bool) then
      e ← is_end m w;
      if (e : bool) then Some (false, with_optind (optind s + 1) s)
      else Some (true, with_scanned 1 s)
    else if stop_at_operand then Some (false, s)
    else
      i ← find_option (S (length (argv s))) m (argv s) (optind s + 1) argc;
      if argc <=? i then Some (false, s)
      else
        wi ← word (argv s) i;
        v ← shift_words (Z.to_nat (i - optind s)) (argv s) i;
        Some (true, with_scanned 1 (with_argv (<[Z.to_nat (optind s) := wi]> v) s))
  else Some (false, s).

(** The block after it: one option letter. *)
Definition option_letter (m : mem) (argc optstring : Z) (s : opts) : option (Z * opts) :=
  w ← word (argv s) (optind s);
  option ← load m (w + scanned s);
  spec ← strchr m optstring option;
  after ← load m (w + (scanned s + 1));
  let last_char := after =? 0 in
  let s := if last_char then with_scanned 0 (with_optind (optind s + 1) s)
           else with_scanned (scanned s + 1) s in
  if (spec =? 0) || (option =? chr ":") then
    let s := with_optopt option s in
    Some (chr "?", if negb (option =? chr ":") then say INVALID_OPTION option s else s)
  else
    arg ← load m (spec + 1);
    if arg =? chr ":" then
      if negb last_char then
        prev ← word (argv s) (optind s - 1);
        Some (option, with_scanned 0 (with_optarg (prev + scanned s) s))
      else if optind s <? argc then
        a ← word (argv s) (optind s);
        Some (option, with_optind (optind s + 1) (with_optarg a s))
      else
        let s := say NEEDS_ARGUMENT option s in
        c ← load m optstring;
        Some (if c =? chr ":" then chr ":" else chr "?", s)
    else Some (option, s).

Definition getopt (m : mem) (argc optstring : Z) (s : opts) : option (Z * opts) :=
  let s := with_optarg 0 s in
  c ← load m optstring;
  let '(stop_at_operand, optstring) := if c =? chr "+" then (true, optstring + 1) else (false, optstring) in
  c ← load m optstring;
  let optstring := if c =? chr "-" then optstring + 1 else optstring in
  if scanned s =? 0 then
    '(found, s) ← next_word m argc stop_at_operand s;
    if (found : bool) then option_letter m argc optstring s else Some (-1, s)
  else option_letter m argc optstring s.

(** ** The reference on words *)

(** An option word starts with a dash and is longer. *)
Definition option_word (w : list Z) : bool :=
  match w with c :: _ :: _ => c =? chr "-" | _ => false end.

(** Does the letter take an argument? *)
Definition takes_arg (spec : list Z) (c : Z) : bool :=
  match find_idx (Z.eqb c) spec with
  | Some i => bool_decide (spec !! S i = Some (chr ":"))
  | None => false
  end.

(** What a call answers for a letter. *)
Definition answer (spec : list Z) (c : Z) : Z :=
  if memb c spec && negb (c =? chr ":") then c else chr "?".

(** Words with the pointers to them: the option words, the operands. *)
Definition options (xs : list (Z * list Z)) := filter (λ x, option_word (snd x) = true) xs.
Definition operands (xs : list (Z * list Z)) := filter (λ x, option_word (snd x) = false) xs.

(** The letters of the option words, in order. *)
Definition letters (xs : list (Z * list Z)) : list Z := concat (map (λ x, drop 1 (snd x)) (options xs)).

(** Calls until -1: the answers and the state at the end. *)
Fixpoint getopt_all (n : nat) (m : mem) (argc optstring : Z) (s : opts) : option (list Z * opts) :=
  match n with
  | O => None
  | S n' =>
      '(r, s) ← getopt m argc optstring s;
      if r =? -1 then Some ([], s)
      else '(rs, s) ← getopt_all n' m argc optstring s; Some (r :: rs, s)
  end.

(** ** Words and their order *)

Lemma word_at A x C i : i = Z.of_nat (length A) → word (A ++ x :: C) i = Some x.
Proof. intros ->. unfold word. zb_false (Z.of_nat (length A) <? 0). by rewrite Nat2Z.id, lookup_app_mid. Qed.

Lemma shift_words_ok A B x C :
  ∃ y, shift_words (length B) (A ++ B ++ x :: C) (Z.of_nat (length A + length B)) = Some (A ++ y :: B ++ C).
Proof.
  assert (shift_words (length B) (A ++ B ++ x :: C) (Z.of_nat (length A + length B)) =
          Some (A ++ default x (head B) :: B ++ C)) as ->; [|eauto].
  revert x C. induction B as [|b B IH] using rev_ind; intros x C; [done|].
  rewrite length_app, Nat.add_1_r. cbn [shift_words].
  rewrite <- !app_assoc. cbn [app].
  replace (A ++ B ++ b :: x :: C) with ((A ++ B) ++ b :: x :: C) by (by rewrite app_assoc).
  rewrite (word_at (A ++ B) b (x :: C) (_ - 1)) by (rewrite length_app; lia). bind_step.
  replace ((A ++ B) ++ b :: x :: C) with ((A ++ B ++ [b]) ++ x :: C) by (by rewrite <- !app_assoc).
  rewrite word_at by (rewrite !length_app; simpl; lia). bind_step.
  rewrite insert_app_r_alt by (rewrite !length_app; simpl; lia).
  replace (Z.to_nat _ - length _)%nat with 0%nat by (rewrite !length_app; simpl; lia). cbn [list_insert].
  replace ((A ++ B ++ [b]) ++ <[0%nat := b]> (x :: C)) with (A ++ B ++ b :: (b :: C)) by (rewrite <- !app_assoc; done).
  replace (Z.of_nat (length A + S (length B)) - 1) with (Z.of_nat (length A + length B)) by lia.
  rewrite IH. f_equal. f_equal. destruct B; done.
Qed.

Section words.
Context (m : mem).

Lemma is_option_ok p w : cstr m p w → is_option m p = Some (option_word w).
Proof.
  intros Hs. unfold is_option. destruct w as [|c [|d w]].
  - rewrite cstr_nil in Hs. unfold load. rewrite Hs. done.
  - rewrite cstr_cons, cstr_nil in Hs. destruct Hs as (H0 & _ & H1). unfold load. rewrite H0. bind_step.
    destruct (c =? chr "-"); [rewrite H1|]; done.
  - rewrite !cstr_cons in Hs. destruct Hs as (H0 & _ & H1 & Hd & _). unfold load. rewrite H0. bind_step.
    unfold is_char in Hd. cbn [option_word]. destruct (c =? chr "-"); [|done]. rewrite H1. bind_step. by zb_false (d =? 0).
Qed.

Lemma is_end_ok p w : cstr m p w → option_word w = true → w ≠ lit "--" → is_end m p = Some false.
Proof.
  intros Hs Ho Hne. destruct w as [|c [|d w]]; [done|done|]. cbn [option_word] in Ho. apply Z.eqb_eq in Ho as ->.
  rewrite !cstr_cons in Hs. destruct Hs as (_ & _ & H1 & _ & Hs). unfold is_end, load. rewrite H1. bind_step.
  destruct (Z.eqb_spec d (chr "-")) as [->|]; [|done]. replace (p + 2) with (p + 1 + 1) by lia. destruct w as [|e w]; [done|].
  rewrite cstr_cons in Hs. destruct Hs as (H2 & He & _). rewrite H2. bind_step. unfold is_char in He. by zb_false (e =? 0).
Qed.

Definition words_ok (xs : list (Z * list Z)) : Prop :=
  Forall (λ x, cstr m (fst x) (snd x) ∧ snd x ≠ lit "--") xs.

Lemma find_option_ok A ops o rest k :
  words_ok (ops ++ o :: rest) → Forall (λ x, option_word (snd x) = false) ops → option_word (snd o) = true →
  (length ops < k)%nat →
  find_option k m (A ++ map fst (ops ++ o :: rest)) (Z.of_nat (length A))
    (Z.of_nat (length A + length (ops ++ o :: rest))) = Some (Z.of_nat (length A + length ops)).
Proof.
  revert A k. induction ops as [|x ops IH]; intros A [|k] Hw Hops Ho Hk; simpl in Hk; try lia;
    cbn [find_option app map length] in *; apply Forall_cons in Hw as [[Hs _] Hw];
    rewrite (proj2 (Z.ltb_lt _ _)) by (rewrite ?length_app; simpl; lia); rewrite word_at by done; bind_step;
    rewrite (is_option_ok _ _ Hs); bind_step.
  - rewrite Ho. f_equal. lia.
  - apply Forall_cons in Hops as [Hx Hops]. rewrite Hx. specialize (IH (A ++ [fst x]) k Hw Hops Ho ltac:(lia)).
    rewrite length_app, <- app_assoc in IH. cbn [length app] in IH.
    replace (Z.of_nat (length A) + 1) with (Z.of_nat (length A + 1)) by lia.
    replace (length A + S (length (ops ++ o :: rest)))%nat with (length A + 1 + length (ops ++ o :: rest))%nat by lia.
    rewrite IH. f_equal. lia.
Qed.

Lemma find_option_none A ops k :
  words_ok ops → Forall (λ x, option_word (snd x) = false) ops → (length ops < k)%nat →
  find_option k m (A ++ map fst ops) (Z.of_nat (length A)) (Z.of_nat (length A + length ops)) =
    Some (Z.of_nat (length A + length ops)).
Proof.
  revert A k. induction ops as [|x ops IH]; intros A [|k] Hw Hops Hk; simpl in Hk; try lia; cbn [find_option app map length].
  - rewrite (proj2 (Z.ltb_ge _ _)) by lia. f_equal. lia.
  - apply Forall_cons in Hw as [[Hs _] Hw]. apply Forall_cons in Hops as [Hx Hops].
    rewrite (proj2 (Z.ltb_lt _ _)) by lia. rewrite word_at by done. bind_step.
    rewrite (is_option_ok _ _ Hs), Hx. bind_step. specialize (IH (A ++ [fst x]) k Hw Hops ltac:(lia)).
    rewrite length_app, <- app_assoc in IH. cbn [length app] in IH.
    replace (Z.of_nat (length A) + 1) with (Z.of_nat (length A + 1)) by lia.
    replace (length A + S (length ops))%nat with (length A + 1 + length ops)%nat by lia. done.
Qed.
End words.

(** ** One call *)

Section calls.
Context (m : mem) (p0 optstring : Z) (spec : list Z).
Hypothesis Hspec : cstr m optstring spec.
Hypothesis Hpos : 0 < optstring.
Hypothesis Hplain : head spec ≠ Some (chr "+") ∧ head spec ≠ Some (chr "-").
#[local] Set Default Proof Using "All".

Lemma with_argv_same s : with_argv (argv s) s = s.
Proof. by destruct s. Qed.

Lemma next_word_ok dn ops o rest s argc :
  words_ok m (ops ++ o :: rest) → Forall (λ x, option_word (snd x) = false) ops → option_word (snd o) = true →
  argv s = p0 :: map fst (dn ++ ops ++ o :: rest) → optind s = Z.of_nat (S (length dn)) →
  argc = Z.of_nat (length (argv s)) →
  next_word m argc false s = Some (true, with_scanned 1 (with_argv (p0 :: map fst (dn ++ o :: ops ++ rest)) s)).
Proof.
  intros Hw Hops Ho Hv Hi ->. unfold next_word. set (A := p0 :: map fst dn).
  assert (length A = S (length dn)) as HA by (unfold A; simpl; by rewrite length_map).
  assert (argv s = A ++ map fst (ops ++ o :: rest)) as Hv' by (rewrite Hv; unfold A; by rewrite map_app).
  assert (length (argv s) = (length A + length (ops ++ o :: rest))%nat) as Hl by (by rewrite Hv', length_app, length_map).
  assert (optind s < Z.of_nat (length (argv s))) as Hlt by (rewrite Hl, length_app, HA, Hi; cbn [length]; lia).
  rewrite (proj2 (Z.ltb_lt _ _) Hlt). destruct ops as [|x ops].
  - cbn [app] in *. apply Forall_cons in Hw as [[Hs Hne] _]. rewrite Hv'. cbn [map].
    rewrite word_at by lia. bind_step. rewrite (is_option_ok _ _ _ Hs), Ho. bind_step.
    rewrite (is_end_ok _ _ _ Hs Ho Hne). bind_step. by rewrite <- Hv, with_argv_same.
  - pose proof Hw as Hw0. cbn [app] in Hw. apply Forall_cons in Hw as [[Hs _] Hw]. apply Forall_cons in Hops as [Hx Hops].
    assert (word (argv s) (optind s) = Some (fst x)) as -> by (rewrite Hv'; apply word_at; lia). bind_step. rewrite (is_option_ok _ _ _ Hs), Hx. bind_step.
    assert (argv s = (A ++ [fst x]) ++ map fst (ops ++ o :: rest)) as Hv2 by (rewrite Hv', <- app_assoc; done).
    pose proof (find_option_ok m (A ++ [fst x]) ops o rest (S (length (argv s))) Hw Hops Ho) as Hf.
    rewrite length_app in Hf. cbn [length] in Hf. rewrite <- Hv2 in Hf.
    replace (length A + 1 + length (ops ++ o :: rest))%nat with (length (argv s)) in Hf by (rewrite Hl; simpl; lia).
    replace (optind s + 1) with (Z.of_nat (length A + 1)) by lia.
    rewrite Hf by (rewrite Hl, !length_app; simpl; lia). bind_step.
    rewrite (proj2 (Z.leb_gt _ _)) by (rewrite Hl; cbn [app length]; rewrite length_app; cbn [length]; lia).
    assert (argv s = A ++ map fst (x :: ops) ++ fst o :: map fst rest) as Hv3 by (rewrite Hv', map_app; done).
    rewrite Hv3. rewrite app_assoc. rewrite word_at by (rewrite length_app, length_map; simpl; lia). bind_step.
    destruct (shift_words_ok A (map fst (x :: ops)) (fst o) (map fst rest)) as (y & Hy). rewrite <- app_assoc.
    replace (Z.to_nat (Z.of_nat (length A + 1 + length ops) - optind s)) with (length (map fst (x :: ops)))
      by (rewrite length_map; cbn [length]; rewrite Hi, HA; lia).
    replace (Z.of_nat (length A + 1 + length ops)) with (Z.of_nat (length A + length (map fst (x :: ops))))
      by (rewrite length_map; cbn [length]; lia). rewrite Hy. bind_step. do 3 f_equal.
    replace (Z.to_nat (optind s)) with (length A) by lia. rewrite insert_app_mid. f_equal.
    unfold A. rewrite !map_app. cbn [map app]. by rewrite map_app.
Qed.

Lemma next_word_none dn rest s argc :
  words_ok m rest → Forall (λ x, option_word (snd x) = false) rest →
  argv s = p0 :: map fst (dn ++ rest) → optind s = Z.of_nat (S (length dn)) →
  argc = Z.of_nat (length (argv s)) → next_word m argc false s = Some (false, s).
Proof.
  intros Hw Hops Hv Hi ->. unfold next_word. set (A := p0 :: map fst dn).
  assert (length A = S (length dn)) as HA by (unfold A; simpl; by rewrite length_map).
  assert (argv s = A ++ map fst rest) as Hv' by (rewrite Hv; unfold A; by rewrite map_app).
  assert (length (argv s) = (length A + length rest)%nat) as Hl by (by rewrite Hv', length_app, length_map).
  destruct (Z.ltb_spec (optind s) (Z.of_nat (length (argv s)))) as [Hlt|]; [|done].
  destruct rest as [|x rest]; [cbn [length] in Hl; lia|].
  apply Forall_cons in Hw as [[Hs _] Hw]. apply Forall_cons in Hops as [Hx Hops].
  assert (word (argv s) (optind s) = Some (fst x)) as -> by (rewrite Hv'; apply word_at; lia). bind_step. rewrite (is_option_ok _ _ _ Hs), Hx. bind_step.
  assert (argv s = (A ++ [fst x]) ++ map fst rest) as Hv2 by (rewrite Hv', <- app_assoc; done).
  pose proof (find_option_none m (A ++ [fst x]) rest (S (length (argv s))) Hw Hops) as Hf.
  rewrite length_app in Hf. cbn [length] in Hf. rewrite <- Hv2 in Hf.
  replace (length A + 1 + length rest)%nat with (length (argv s)) in Hf by (rewrite Hl; cbn [length]; lia).
  replace (optind s + 1) with (Z.of_nat (length A + 1)) by lia. rewrite Hf by (rewrite Hl; cbn [length]; lia). bind_step.
  by rewrite Z.leb_refl.
Qed.

Lemma find_idx_lookup P (l : list Z) i : find_idx P l = Some i → ∃ x, l !! i = Some x ∧ P x = true.
Proof.
  revert i. induction l as [|y l IH]; intros i; simpl; [done|]. destruct (P y) eqn:E; [intros [= <-]; eauto|].
  destruct (find_idx P l) as [j|]; [|done]. intros [= <-]. eauto.
Qed.

(** The letter [c] at index [j] of the word. *)
Lemma option_letter_ok A q C w j c s argc :
  argv s = A ++ q :: C → optind s = Z.of_nat (length A) → cstr m q w → scanned s = Z.of_nat j →
  w !! j = Some c → takes_arg spec c = false →
  ∃ s', option_letter m argc optstring s = Some (answer spec c, s') ∧ argv s' = argv s ∧
    optind s' = (if decide (S j = length w) then optind s + 1 else optind s) ∧
    scanned s' = (if decide (S j = length w) then 0 else Z.of_nat (S j)).
Proof.
  intros Hv Hi Hs Hj Hc Ha. pose proof (lookup_lt_Some _ _ _ Hc) as Hlt.
  assert (is_char c) as Hch by (destruct Hs as [_ Hf]; by eapply Forall_lookup_1).
  unfold option_letter. rewrite Hv, word_at by done. bind_step. rewrite Hj, (load_cstr _ _ _ _ Hs) by lia.
  unfold char_at. rewrite Hc. cbn [default id from_option]. bind_step. rewrite (strchr_ok _ _ _ _ Hspec), u8_char by done. bind_step.
  replace (Z.of_nat j + 1) with (Z.of_nat (S j)) by lia. rewrite (load_cstr _ _ _ _ Hs) by lia. bind_step.
  assert ((char_at w (S j) =? 0) = bool_decide (S j = length w)) as ->.
  { unfold char_at. case_bool_decide as Hd.
    - by rewrite lookup_ge_None_2 by lia.
    - destruct (lookup_lt_is_Some_2 w (S j)) as [d Hd']; [lia|]. rewrite Hd'. simpl.
      destruct Hs as [_ Hf]. pose proof (Forall_lookup_1 _ _ _ _ Hf Hd') as Hdc. unfold is_char in Hdc.
      by zb_false (d =? 0). }
  set (s1 := if bool_decide _ then _ else _).
  assert (argv s1 = argv s ∧ optind s1 = (if decide (S j = length w) then optind s + 1 else optind s) ∧
    scanned s1 = (if decide (S j = length w) then 0 else Z.of_nat (S j))) as Hs1.
  { unfold s1. rewrite bool_decide_decide. by case_decide. }
  unfold answer. pose proof (find_idx_memb c spec) as Hm. rewrite find_idx_app. unfold takes_arg in Ha.
  rewrite <- Hv. unfold is_char in Hch.
  destruct (find_idx (Z.eqb c) spec) as [i|] eqn:Ef.
  - rewrite (proj1 Hm) by eauto. cbn [addr_of]. zb_false (optstring + Z.of_nat i =? 0). cbn [orb andb].
    destruct (Z.eqb_spec c (chr ":")) as [->|Hne]; cbn [negb].
    { eexists. split; [done|]. done. }
    pose proof (find_idx_lookup _ _ _ Ef) as (x & Hx & _). apply lookup_lt_Some in Hx.
    replace (optstring + Z.of_nat i + 1) with (optstring + Z.of_nat (S i)) by lia.
    rewrite (load_cstr _ _ _ _ Hspec) by lia. bind_step. apply bool_decide_eq_false in Ha.
    assert ((char_at spec (S i) =? chr ":") = false) as ->.
    { apply Z.eqb_neq. unfold char_at. destruct (spec !! S i) as [y|] eqn:Ey; simpl; [|done]. congruence. }
    eexists. split; [done|]. done.
  - assert (memb c spec = false) as -> by (destruct (memb c spec); [destruct (proj2 Hm) as [? ?]; done|done]).
    cbn [find_idx]. zb_false (c =? 0). cbn [fmap option_fmap option_map addr_of orb andb]. change (0 =? 0) with true.
    eexists. split; [done|]. unfold say. repeat case_match; done.
Qed.

(** The prefix characters of the option string are absent. *)
Lemma getopt_plain argc s :
  getopt m argc optstring s =
  (if scanned s =? 0 then
     '(found, s) ← next_word m argc false (with_optarg 0 s);
     if (found : bool) then option_letter m argc optstring s else Some (-1, s)
   else option_letter m argc optstring (with_optarg 0 s)).
Proof.
  unfold getopt. rewrite (load_cstr0 _ _ _ Hspec). bind_step.
  assert ((char_at spec 0 =? chr "+") = false ∧ (char_at spec 0 =? chr "-") = false) as [-> H2].
  { destruct Hplain as [H1 H2]. unfold char_at. destruct spec as [|c t]; [done|]. simpl in *.
    split; apply Z.eqb_neq; congruence. }
  rewrite (load_cstr0 _ _ _ Hspec). bind_step. by rewrite H2.
Qed.

Lemma answer_not_end c : is_char c → (answer spec c =? -1) = false.
Proof. unfold is_char, answer. intros. apply Z.eqb_neq. case_match; [lia|done]. Qed.

(** The letters of one word from index [j] on, one call each. *)
Lemma cluster A q C w argc n : cstr m q w → Forall (λ c, takes_arg spec c = false) (drop 1 w) →
  ∀ k j s, (j + k)%nat = length w → (0 < j)%nat → (0 < k)%nat →
  argv s = A ++ q :: C → optind s = Z.of_nat (length A) → scanned s = Z.of_nat j →
  ∃ s', argv s' = argv s ∧ optind s' = optind s + 1 ∧ scanned s' = 0 ∧
    getopt_all (k + n) m argc optstring s =
    ('(rs, s2) ← getopt_all n m argc optstring s'; Some (map (answer spec) (drop j w) ++ rs, s2)).
Proof.
  intros Hs Ha k. induction k as [|k IH]; intros j s Hk Hj0 Hk0 Hv Hi Hj; [lia|].
  destruct (lookup_lt_is_Some_2 w j) as [c Hc]; [lia|].
  assert (is_char c) as Hch by (destruct Hs as [_ Hf]; by eapply Forall_lookup_1).
  assert (takes_arg spec c = false) as Hta.
  { apply (Forall_lookup_1 _ _ (j - 1) _ Ha). rewrite lookup_drop. by replace (1 + (j - 1))%nat with j by lia. }
  destruct (option_letter_ok A q C w j c (with_optarg 0 s) argc Hv Hi Hs Hj Hc Hta) as (s1 & E & Hv1 & Hi1 & Hj1).
  cbn [Nat.add getopt_all]. rewrite getopt_plain, Hj. rewrite (proj2 (Z.eqb_neq _ 0)) by lia. rewrite E. bind_step.
  rewrite answer_not_end by done. rewrite (drop_S _ _ _ Hc). cbn [map app].
  destruct (decide (S j = length w)) as [Hlast|Hmore].
  - exists s1. replace k with 0%nat by lia. rewrite (drop_ge _ (S j)) by lia. cbn [map app Nat.add]. done.
  - destruct (IH (S j) s1) as (s' & Hv' & Hi' & Hj' & E'); [lia|lia|lia| |by rewrite Hi1|done|].
    { rewrite Hv1. exact Hv. }
    exists s'. split_and!; [by rewrite Hv', Hv1|by rewrite Hi', Hi1|done|].
    rewrite E'. by destruct (getopt_all n m argc optstring s') as [[rs s2]|].
Qed.

Lemma first_option (xs : list (Z * list Z)) :
  Forall (λ x, option_word (snd x) = false) xs ∨
  ∃ ops o rest, xs = ops ++ o :: rest ∧ Forall (λ x, option_word (snd x) = false) ops ∧ option_word (snd o) = true.
Proof.
  induction xs as [|x xs IH]; [by left|]. destruct (option_word (snd x)) eqn:E.
  - right. by exists [], x, xs.
  - destruct IH as [?|(ops & o & rest & -> & ? & ?)]; [left; by constructor|]. right.
    exists (x :: ops), o, rest. split_and!; [done|by constructor|done].
Qed.

Lemma options_operands (xs : list (Z * list Z)) :
  Forall (λ x, option_word (snd x) = false) xs → options xs = [] ∧ operands xs = xs.
Proof.
  unfold options, operands. induction 1 as [|x xs Hx _ [IH1 IH2]]; [done|]. split.
  - rewrite filter_cons_False by (rewrite Hx; done). done.
  - rewrite filter_cons_True by done. by f_equal.
Qed.

Lemma split_moved ops o rest :
  Forall (λ x, option_word (snd x) = false) ops → option_word (snd o) = true →
  options (ops ++ o :: rest) = o :: options rest ∧ options (ops ++ rest) = options rest ∧
  operands (ops ++ o :: rest) = operands (ops ++ rest).
Proof.
  intros Hops Ho. destruct (options_operands ops Hops) as [H1 H2]. unfold options, operands in *.
  rewrite !filter_app, H1. cbn [app]. rewrite filter_cons_True by done. rewrite filter_cons_False by (rewrite Ho; done). done.
Qed.

(** All the calls, from a state between words. *)
Lemma getopt_all_ok k : ∀ dn rest s argc, length rest = k → words_ok m rest →
  Forall (λ c, takes_arg spec c = false) (letters rest) →
  argv s = p0 :: map fst (dn ++ rest) → optind s = Z.of_nat (S (length dn)) → scanned s = 0 →
  argc = Z.of_nat (length (argv s)) →
  ∃ s', getopt_all (S (length (letters rest))) m argc optstring s = Some (map (answer spec) (letters rest), s') ∧
    argv s' = p0 :: map fst (dn ++ options rest ++ operands rest) ∧
    optind s' = Z.of_nat (S (length dn + length (options rest))).
Proof.
  induction k as [k IH] using lt_wf_ind. intros dn rest s argc Hk Hw Ha Hv Hi Hj Hargc.
  destruct (first_option rest) as [Hops|(ops & o & rest2 & -> & Hops & Ho)].
  - destruct (options_operands rest Hops) as [E1 E2]. unfold letters in *. rewrite E1, E2. cbn [map concat length getopt_all].
    rewrite getopt_plain, Hj. change (0 =? 0) with true. cbv iota.
    rewrite (next_word_none dn rest (with_optarg 0 s)) by done. bind_step. change (-1 =? -1) with true. cbv iota.
    eexists. split; [done|]. cbn [with_optarg argv optind app]. split; [done|]. rewrite Hi. f_equal. lia.
  - destruct (split_moved ops o rest2 Hops Ho) as (E1 & E2 & E3). rewrite E1, E3.
    assert (letters (ops ++ o :: rest2) = drop 1 (snd o) ++ letters (ops ++ rest2)) as El
      by (unfold letters; rewrite E1, E2; done).
    rewrite El in Ha |- *. rewrite Forall_app in Ha. destruct Ha as [Ha1 Ha2].
    pose proof Hw as Hw0. unfold words_ok in Hw0. rewrite Forall_app, Forall_cons in Hw0. destruct Hw0 as (Hw1 & (Hs & _) & Hw2).
    set (s1 := with_scanned 1 (with_argv (p0 :: map fst (dn ++ o :: ops ++ rest2)) (with_optarg 0 s))).
    assert (∀ n, getopt_all (S n) m argc optstring s = getopt_all (S n) m argc optstring s1) as Hstart.
    { intros n. cbn [getopt_all]. rewrite !getopt_plain, Hj. change (0 =? 0) with true. cbv iota.
      rewrite (next_word_ok dn ops o rest2 (with_optarg 0 s)) by done. bind_step. done. }
    destruct (cluster (p0 :: map fst dn) (fst o) (map fst (ops ++ rest2)) (snd o) argc (S (length (letters (ops ++ rest2)))) Hs Ha1
                (length (drop 1 (snd o))) 1 s1) as (s2 & Hv2 & Hi2 & Hj2 & E).
    + destruct (snd o) as [|c [|d w]]; [done|done|]. simpl. lia.
    + lia.
    + destruct (snd o) as [|c [|d w]]; [done|done|]. simpl. lia.
    + unfold s1. cbn [with_scanned with_argv argv]. by rewrite map_app.
    + unfold s1. cbn [with_scanned with_argv with_optarg optind length]. by rewrite length_map.
    + done.
    + rewrite length_app, Hstart. rewrite Nat.add_succ_r in E. rewrite E.
      destruct (IH (length (ops ++ rest2))) with (dn := dn ++ [o]) (rest := ops ++ rest2) (s := s2) (argc := argc)
        as (s' & E' & Hv' & Hi'); try done.
      * rewrite length_app in *. simpl in Hk. lia.
      * unfold words_ok. by rewrite Forall_app.
      * rewrite Hv2. unfold s1. cbn [with_scanned with_argv argv]. by rewrite <- app_assoc.
      * rewrite Hi2. unfold s1. cbn [with_scanned with_argv with_optarg optind]. rewrite Hi, length_app. simpl. lia.
      * rewrite Hargc, Hv, Hv2. unfold s1. cbn [with_scanned with_argv argv length].
        rewrite !length_map, !length_app. simpl. rewrite !length_app. lia.
      * rewrite E'. bind_step. exists s'. rewrite map_app. split_and!; [done| |].
        { rewrite Hv', E2, <- app_assoc. done. }
        { rewrite Hi', E2, length_app. simpl. f_equal. lia. }
Qed.
End calls.

(** ** Claims *)

(** [C14] The permutation of [getopt]: for any command line of flag words and
    operands (no letter takes an argument, no [--]), calling [getopt] until it
    returns -1 takes one call per letter and one more, answers the letters of
    the option words in the order they were written ([?] for one the option
    string does not have), and leaves the option words in front of the operands
    in [argv], both in their old order, with [optind] at the first operand. *)
Theorem getopt_permutes m p0 optstring spec xs s argc :
  cstr m optstring spec → 0 < optstring → head spec ≠ Some (chr "+") ∧ head spec ≠ Some (chr "-") →
  words_ok m xs → Forall (λ c, takes_arg spec c = false) (letters xs) →
  argv s = p0 :: map fst xs → optind s = 1 → scanned s = 0 → argc = Z.of_nat (length (argv s)) →
  ∃ s', getopt_all (S (length (letters xs))) m argc optstring s = Some (map (answer spec) (letters xs), s') ∧
    argv s' = p0 :: map fst (options xs ++ operands xs) ∧
    optind s' = Z.of_nat (1 + length (options xs)).
Proof.
  intros Hspec Hpos Hplain Hw Ha Hv Hi Hj Hargc.
  destruct (getopt_all_ok m p0 optstring spec Hspec Hpos Hplain (length xs) [] xs s argc) as (s' & E & Hv' & Hi'); try done.
  exists s'. done.
Qed.

(** An argument attached to its option ([-ofile]): [optarg] is computed
    from the word before the option, and neither [optind] nor the scan position
    moves, so every later call returns the same option again and the loop over
    the options never ends. *)
Theorem getopt_attached_argument m optstring spec A prev q C c d rest s argc :
  cstr m optstring spec → 0 < optstring → head spec ≠ Some (chr "+") ∧ head spec ≠ Some (chr "-") →
  cstr m q (chr "-" :: c :: d :: rest) → takes_arg spec c = true → c ≠ chr ":" →
  argv s = A ++ prev :: q :: C → optind s = Z.of_nat (length A) + 1 → scanned s = 0 → optind s < argc →
  getopt m argc optstring s = Some (c, with_optarg (prev + 2) s) ∧
  (∀ n, getopt_all n m argc optstring s = None).
Proof.
  intros Hspec Hpos Hplain Hq Ha Hc Hv Hi Hj Hargc.
  assert (∀ s', argv s' = argv s → optind s' = optind s → scanned s' = 0 →
    getopt m argc optstring s' = Some (c, with_optarg (prev + 2) s')) as Hone.
  { intros s' Hv' Hi' Hj'. rewrite (getopt_plain m 0 optstring spec Hspec Hpos Hplain), Hj'. change (0 =? 0) with true. cbv iota.
    assert (word (argv s') (optind s') = Some q) as Hw
      by (rewrite Hv', Hv, cons_middle, app_assoc; apply word_at; rewrite Hi', Hi, length_app; simpl; lia).
    assert (word (argv s') (optind s' - 1) = Some prev) as Hw1 by (rewrite Hv', Hv; apply word_at; lia).
    unfold next_word. cbn [optind with_optarg argv]. rewrite (proj2 (Z.ltb_lt _ _)) by lia. rewrite Hw. bind_step.
    rewrite (is_option_ok _ _ _ Hq). bind_step. change (option_word _) with true. cbv iota.
    rewrite (is_end_ok _ _ _ Hq) by done. bind_step. unfold option_letter. cbn [argv with_scanned with_optarg optind scanned].
    rewrite Hw. bind_step. pose proof (load_cstr _ _ _ 1 Hq ltac:(simpl; lia)) as Hl1.
    pose proof (load_cstr _ _ _ 2 Hq ltac:(simpl; lia)) as Hl2. 
    change (Z.of_nat 1) with 1 in Hl1. change (Z.of_nat 2) with 2 in Hl2.
    change (1 + 1) with 2. rewrite Hl1, Hl2. bind_step. unfold char_at. cbn [lookup list_lookup default from_option id].
    rewrite !cstr_cons in Hq. destruct Hq as (_ & _ & _ & Hcc & _ & Hd & _). unfold is_char in Hd, Hcc.
    rewrite (strchr_ok _ _ _ _ Hspec), u8_char by done. bind_step. zb_false (d =? 0).
    unfold takes_arg in Ha. rewrite find_idx_app. destruct (find_idx (Z.eqb c) spec) as [i|] eqn:Ef; [|done].
    cbn [addr_of]. zb_false (optstring + Z.of_nat i =? 0). zb_false (c =? chr ":"). cbn [orb negb].
    apply bool_decide_eq_true in Ha. pose proof (lookup_lt_Some _ _ _ Ha).
    replace (optstring + Z.of_nat i + 1) with (optstring + Z.of_nat (S i)) by lia.
    rewrite (load_cstr _ _ _ _ Hspec) by lia. unfold char_at. rewrite Ha. cbn [default from_option id]. bind_step.
    change (chr ":" =? chr ":") with true. cbv iota.
    cbn [argv with_scanned with_optarg optind scanned]. rewrite Hw1. bind_step. destruct s'. simpl in Hj'. by subst. }
  split; [by apply Hone|]. intros n. revert s Hv Hi Hj Hargc Hone. induction n as [|n IH]; intros s Hv Hi Hj Hargc Hone; [done|].
  cbn [getopt_all]. rewrite Hone by done. bind_step.
  rewrite !cstr_cons in Hq. destruct Hq as (_ & _ & _ & Hcc & _). unfold is_char in Hcc. zb_false (c =? -1).
  rewrite IH by done. done.
Qed.

(** ** Witnesses *)

(** The strings of a command line, and option strings. *)
Definition opt_mem : mem :=
  mem_of 100 (lit "sort" ++ [0]) ∪ mem_of 110 (lit "file" ++ [0]) ∪ mem_of 120 (lit "-rn" ++ [0]) ∪
  mem_of 130 (lit "-k" ++ [0]) ∪ mem_of 140 (lit "2" ++ [0]) ∪ mem_of 150 (lit "-ofile" ++ [0]) ∪
  mem_of 160 (lit "--" ++ [0]) ∪ mem_of 170 (lit "rk:o:" ++ [0]).
Definition opt_start (v : list Z) : opts := Opts 0 1 1 0 0 v [].

Lemma getopt_permutes_witness :
  ∃ s', getopt_all 3 opt_mem 4 170 (opt_start [100; 110; 120; 140]) = Some ([chr "r"; chr "?"], s') ∧
    argv s' = [100; 120; 110; 140] ∧ optind s' = 2.
Proof.
  apply (getopt_permutes opt_mem 100 170 (lit "rk:o:") [(110, lit "file"); (120, lit "-rn"); (140, lit "2")]
           (opt_start [100; 110; 120; 140]) 4); try done.
  - apply cstrb_cstr. vm_compute. reflexivity.
  - unfold words_ok.
    repeat (apply Forall_cons; split; [split; [apply cstrb_cstr; vm_compute; reflexivity|done]|]). by apply Forall_nil.
  - repeat constructor.
Defined.

Lemma getopt_attached_argument_witness :
  getopt opt_mem 2 170 (opt_start [100; 150]) = Some (chr "o", with_optarg 102 (opt_start [100; 150])) ∧
  (∀ n, getopt_all n opt_mem 2 170 (opt_start [100; 150]) = None).
Proof.
  apply (getopt_attached_argument opt_mem 170 (lit "rk:o:") [] 100 150 [] (chr "o") (chr "f") (lit "ile")
           (opt_start [100; 150]) 2); try done.
  - apply cstrb_cstr. vm_compute. reflexivity.
  - apply cstrb_cstr. vm_compute. reflexivity.
Defined.

(** Two consequences of moving only the option word: in [sort file -k 2]
    the argument of [-k] is taken to be [file] and the operand left is [2]; and
    in [sort file -- -rn] the [--] is answered as the unknown option [-] instead
    of ending the options. *)
Theorem getopt_moved_option :
  (∃ s1 s2, getopt opt_mem 4 170 (opt_start [100; 110; 130; 140]) = Some (chr "k", s1) ∧ optarg s1 = 110 ∧
     getopt opt_mem 4 170 s1 = Some (-1, s2) ∧ drop (Z.to_nat (optind s2)) (argv s2) = [140]) ∧
  (∃ s1 s2, getopt opt_mem 4 170 (opt_start [100; 110; 160; 120]) = Some (chr "?", s1) ∧ optopt s1 = chr "-" ∧
     getopt opt_mem 4 170 s1 = Some (chr "r", s2)).
Proof. split; (do 2 eexists; split; [vm_compute; reflexivity|]); vm_compute; repeat split. Qed.
