(* ===== verification/Stream.v ===== *)
(** * The streams of [c/rt/stdio.c]

    A [FILE] is a record of the fields of [struct mv_file]; the streams lie in a
    finite map from their addresses.  [io] is the process with the streams and
    the static buffers of the file.  [wbuf] and [rbuf] are addresses of heap
    blocks, and the bytes collected or cached are in memory.

    A routine that C gives the address of a local object takes or returns the
    bytes instead ([Local]); one that works on the caller's memory takes the
    address ([At]). *)

From S2P Require Import Prelude CMem CString Alloc Sys CStdlib Posix.

Definition EOF : Z := -1.
Definition SEEK_SET : Z := 0.
Definition SEEK_CUR : Z := 1.
Definition SEEK_END : Z := 2.

Record FILE := File {
  f_fd : Z; f_mode : Z; f_eof : Z; f_error : Z; f_ungot : Z; f_is_console : Z; f_path : list Z;
  f_wbuf : Z; f_wlen : Z; f_wcap : Z; f_rbuf : Z; f_rlen : Z; f_rpos : Z
}.

(** [sizeof(FILE)]: twelve words and the path. *)
Definition FILE_SIZE : Z := 308.

Definition set_eof (x : Z) (F : FILE) : FILE :=
  File (f_fd F) (f_mode F) x (f_error F) (f_ungot F) (f_is_console F) (f_path F)
       (f_wbuf F) (f_wlen F) (f_wcap F) (f_rbuf F) (f_rlen F) (f_rpos F).
Definition set_error (x : Z) (F : FILE) : FILE :=
  File (f_fd F) (f_mode F) (f_eof F) x (f_ungot F) (f_is_console F) (f_path F)
       (f_wbuf F) (f_wlen F) (f_wcap F) (f_rbuf F) (f_rlen F) (f_rpos F).
Definition set_ungot (x : Z) (F : FILE) : FILE :=
  File (f_fd F) (f_mode F) (f_eof F) (f_error F) x (f_is_console F) (f_path F)
       (f_wbuf F) (f_wlen F) (f_wcap F) (f_rbuf F) (f_rlen F) (f_rpos F).
Definition set_fd (x : Z) (F : FILE) : FILE :=
  File x (f_mode F) (f_eof F) (f_error F) (f_ungot F) (f_is_console F) (f_path F)
       (f_wbuf F) (f_wlen F) (f_wcap F) (f_rbuf F) (f_rlen F) (f_rpos F).
Definition set_path (x : list Z) (F : FILE) : FILE :=
  File (f_fd F) (f_mode F) (f_eof F) (f_error F) (f_ungot F) (f_is_console F) x
       (f_wbuf F) (f_wlen F) (f_wcap F) (f_rbuf F) (f_rlen F) (f_rpos F).
Definition set_wbuf (buf cap : Z) (F : FILE) : FILE :=
  File (f_fd F) (f_mode F) (f_eof F) (f_error F) (f_ungot F) (f_is_console F) (f_path F)
       buf (f_wlen F) cap (f_rbuf F) (f_rlen F) (f_rpos F).
Definition set_wlen (x : Z) (F : FILE) : FILE :=
  File (f_fd F) (f_mode F) (f_eof F) (f_error F) (f_ungot F) (f_is_console F) (f_path F)
       (f_wbuf F) x (f_wcap F) (f_rbuf F) (f_rlen F) (f_rpos F).
Definition set_rbuf (buf len pos : Z) (F : FILE) : FILE :=
  File (f_fd F) (f_mode F) (f_eof F) (f_error F) (f_ungot F) (f_is_console F) (f_path F)
       (f_wbuf F) (f_wlen F) (f_wcap F) buf len pos.
Definition set_rpos (x : Z) (F : FILE) : FILE := set_rbuf (f_rbuf F) (f_rlen F) x F.

Definition new_file (fd mode : Z) : FILE := File fd mode 0 0 (-1) 0 [] 0 0 0 0 0 0.
Definition console_file (fd mode console : Z) : FILE := File fd mode 0 0 (-1) console [] 0 0 0 0 0 0.

(** Where bytes come from or go to. *)
Inductive place := At (a : Z) | Local (bs : list Z).

Section stream.
Context {H K : Type} `{Allocator H} `{Kernel K}.

Record io := Io {
  io_proc : proc H K;
  io_files : gmap Z FILE;
  io_old : list Z;                                   (* [old[4096]] of [fopen] *)
  io_piped : list Z; io_piped_len : Z; io_piped_pos : Z   (* the statics of [fread] *)
}.

(** The standard handles: the addresses of the three static streams. *)
Record handles := Handles { h_stdin : Z; h_stdout : Z; h_stderr : Z }.
Context (std : handles).

Abbreviation IO := (M io).

Definition lift {A} (x : M (proc H K) A) : IO A := λ s,
  '(a, p) ← x (io_proc s);
  Some (a, Io p (io_files s) (io_old s) (io_piped s) (io_piped_len s) (io_piped_pos s)).

Definition file (f : Z) : IO FILE := λ s, F ← io_files s !! f; Some (F, s).
Definition put_file (f : Z) (F : FILE) : IO unit := λ s,
  Some (tt, Io (io_proc s) (<[f := F]> (io_files s)) (io_old s) (io_piped s) (io_piped_len s) (io_piped_pos s)).
Definition modify (f : Z) (g : FILE → FILE) : IO unit := F <- file f;; put_file f (g F).
Definition drop_file (f : Z) : IO unit := λ s,
  Some (tt, Io (io_proc s) (delete f (io_files s)) (io_old s) (io_piped s) (io_piped_len s) (io_piped_pos s)).
Definition get_piped : IO (list Z * Z * Z) := λ s, Some ((io_piped s, io_piped_len s, io_piped_pos s), s).
Definition set_piped (b : list Z) (len pos : Z) : IO unit := λ s,
  Some (tt, Io (io_proc s) (io_files s) (io_old s) b len pos).
Definition get_old : IO (list Z) := λ s, Some (io_old s, s).
Definition set_old (b : list Z) : IO unit := λ s,
  Some (tt, Io (io_proc s) (io_files s) b (io_piped s) (io_piped_len s) (io_piped_pos s)).

Definition byte_at (src : place) (i : Z) : IO Z :=
  match src with
  | At a => lift (peekb (a + i))
  | Local bs => match bs !! Z.to_nat i with Some c => ret c | None => fault end
  end.
Definition bytes_at (src : place) (n : Z) : IO (list Z) :=
  match src with
  | At a => lift (peeks a n)
  | Local bs => if decide (Z.to_nat n ≤ length bs)%nat then ret (take (Z.to_nat n) bs) else fault
  end.
Definition deliver (dst : option Z) (i c : Z) : IO unit :=
  match dst with Some a => lift (pokeb (a + i) c) | None => ret tt end.

(** ** The console *)

Definition CRLF_SIZE : nat := 512.

Definition crlf_step (crlf : list Z) (c : Z) : list Z :=
  if (c =? 10) && bool_decide (length crlf + 1 < CRLF_SIZE)%nat then crlf ++ [13; 10]
  else if decide (length crlf < CRLF_SIZE - 1)%nat then crlf ++ [c]
  else crlf.

(** The text [mv_print] finds in a buffer. *)
Fixpoint until_nul (bs : list Z) : list Z :=
  match bs with
  | [] => []
  | b :: bs' => if b =? 0 then [] else b :: until_nul bs'
  end.

(** A terminator past the end of [crlf] is a fault. *)
Definition console_write (s : list Z) : IO unit :=
  let crlf := foldl crlf_step [] s in
  if decide (length crlf < CRLF_SIZE)%nat then
    r <- lift (mv_syscall (SYS_WRITE 1 crlf));;
    if fst r =? Z.of_nat (length crlf) then ret tt
    else lift (mv_syscall (SYS_PRINT (until_nul crlf)));;; ret tt
  else fault.

(** ** Writing *)

(** The body of [if (f->wlen == f->wcap)]: the buffer when it is full.  It grows,
    or nothing changes but the error. *)
Definition grow_wbuf (f : Z) (F : FILE) : IO bool :=
  let bigger := if f_wcap F =? 0 then 1024 else u32 (f_wcap F * 2) in
  grown <- lift (if f_wbuf F =? 0 then c_malloc bigger else c_realloc (f_wbuf F) bigger);;
  if grown =? 0 then modify f (set_error 1);;; lift (set_errno ENOMEM);;; ret false
  else modify f (set_wbuf grown bigger);;; ret true.

(** [while (done < want)] of [fwrite]; [k] bytes are left. *)
Fixpoint fwrite_loop (k : nat) (src : place) (done f : Z) : IO Z :=
  match k with
  | O => ret done
  | S k' =>
      F <- file f;;
      ok <- (if f_wlen F =? f_wcap F then grow_wbuf f F else ret true);;
      if (ok : bool) then
        F <- file f;;
        c <- byte_at src done;;
        lift (pokeb (f_wbuf F + f_wlen F) c);;;
        modify f (set_wlen (f_wlen F + 1));;;
        fwrite_loop k' src (done + 1) f
      else ret done
  end.

Definition fwrite (src : place) (size count f : Z) : IO Z :=
  if (f =? 0) || (size =? 0) || (count =? 0) then ret 0
  else
    let want := u32 (size * count) in
    F <- file f;;
    if negb (f_is_console F =? 0) then
      bs <- bytes_at src want;;
      console_write bs;;; ret count
    else
      done <- fwrite_loop (Z.to_nat want) src 0 f;;
      ret (done `div` size).

Definition fflush (f : Z) : IO Z :=
  if f =? 0 then ret 0
  else
    F <- file f;;
    if (f_wbuf F =? 0) || (f_wlen F =? 0) then ret 0
    else if negb (f_is_console F =? 0) || bool_decide (f_path F = []) then
      modify f (set_error 1);;; ret EOF
    else
      bs <- lift (peeks (f_wbuf F) (f_wlen F));;
      r <- lift (mv_syscall (SYS_FWRITE (f_path F) bs 1));;
      if fst r <? 0 then modify f (set_error 1);;; lift (set_errno EIO);;; ret EOF
      else modify f (set_wlen 0);;; ret 0.

(** ** Opening and closing *)

Definition fileno (f : Z) : IO Z := if f =? 0 then ret (-1) else F <- file f;; ret (f_fd F).

Definition stream_new (fd mode : Z) : IO Z :=
  f <- lift (c_malloc FILE_SIZE);;
  if f =? 0 then lift (set_errno ENOMEM);;; ret 0
  else put_file f (new_file fd mode);;; ret f.

(** The flags (-1: no such mode) and [*append]. *)
Definition mode_flags (mode : Z) : IO (Z * bool) :=
  c <- lift (peekb mode);;
  let plus rw ro := (c1 <- lift (peekb (mode + 1));; ret (if c1 =? chr "+" then rw else ro)) in
  if c =? chr "r" then fl <- plus O_RDWR O_RDONLY;; ret (fl, false)
  else if c =? chr "w" then fl <- plus O_RDWR O_WRONLY;; ret (Z.lor (Z.lor fl O_CREAT) O_TRUNC, false)
  else if c =? chr "a" then fl <- plus O_RDWR O_WRONLY;; ret (Z.lor fl O_CREAT, true)
  else lift (set_errno EINVAL);;; ret (-1, false).

(** The copy of the path into [path[260]]: at most 259 characters. *)
Fixpoint copy_path (k : nat) (path : Z) : IO (list Z) :=
  match k with
  | O => ret []
  | S k' => c <- lift (peekb path);; if c =? 0 then ret [] else t <- copy_path k' (path + 1);; ret (c :: t)
  end.

(** [stat] into a local [struct stat]: its result and [st_size]. *)
Definition word_of (bs : list Z) : Z :=
  match bs with
  | a :: b :: c :: d :: _ => a + 256 * b + 65536 * c + 16777216 * d
  | _ => 0
  end.
Definition stat_size (path : Z) : M (proc H K) (Z * Z) :=
  s <- path_at path;;
  r <- mv_syscall (SYS_STAT s);;
  if fst r <? 0 then e <- kernel_fail ENOENT;; ret (e, word_of (snd r)) else ret (0, word_of (snd r)).

(** The whole file copied into [rbuf]. *)
Definition slurp (path f : Z) : IO unit :=
  st <- lift (stat_size path);;
  if fst st =? 0 then
    rbuf <- lift (c_malloc (u32 (snd st + 1)));;
    modify f (set_rbuf rbuf 0 0);;;
    if negb (rbuf =? 0) then
      s <- lift (path_at path);;
      got <- lift (mv_syscall (SYS_FREAD s));;
      lift (pokes rbuf (snd got));;;
      modify f (set_rbuf rbuf (if 0 <? fst got then fst got else 0) 0)
    else ret tt
  else ret tt.

(** The old contents carried over for append. *)
Definition carry_over (path f : Z) : IO unit :=
  s <- lift (path_at path);;
  got <- lift (mv_syscall (SYS_FREAD s));;
  old <- get_old;;
  old <- lift (overlay 4096 (snd got) old);;
  set_old old;;;
  if 0 <? fst got then fwrite (Local old) 1 (fst got) f;;; ret tt else ret tt.

Definition fopen (path mode : Z) : IO Z :=
  r <- mode_flags mode;;
  let '(flags, append) := r in
  if flags <? 0 then ret 0
  else
    fd <- lift (open path flags);;
    if fd <? 0 then ret 0
    else
      f <- stream_new fd (Z.land flags O_ACCMODE);;
      if f =? 0 then lift (close fd);;; ret 0
      else
        name <- copy_path 259 path;;
        modify f (set_path name);;;
        (if negb (Z.land flags O_ACCMODE =? O_WRONLY) then slurp path f else ret tt);;;
        (if (append : bool) then carry_over path f else ret tt);;;
        ret f.

Definition fdopen (fd mode : Z) : IO Z :=
  r <- mode_flags mode;;
  if (fst r <? 0) || (fd <? 0) then lift (set_errno EBADF);;; ret 0
  else stream_new fd (Z.land (fst r) O_ACCMODE).

Definition fclose (f : Z) : IO Z :=
  if f =? 0 then ret EOF
  else if (f =? h_stdin std) || (f =? h_stdout std) || (f =? h_stderr std) then
    modify f (set_error 1);;; ret EOF
  else
    flushed <- fflush f;;
    F <- file f;;
    closed <- (if 0 <=? f_fd F then lift (close (f_fd F)) else ret 0);;
    modify f (set_fd (-1));;;
    (if negb (f_wbuf F =? 0) then lift (c_free (f_wbuf F)) else ret tt);;;
    (if negb (f_rbuf F =? 0) then lift (c_free (f_rbuf F)) else ret tt);;;
    drop_file f;;;
    lift (c_free f);;;
    ret (if (flushed =? 0) && (closed =? 0) then 0 else EOF).

(** ** Reading *)

(** [while (done < want && f->rpos < f->rlen)]; the bytes served. *)
Fixpoint serve_rbuf (k : nat) (dst : option Z) (done f : Z) : IO (list Z) :=
  match k with
  | O => ret []
  | S k' =>
      F <- file f;;
      if f_rpos F <? f_rlen F then
        c <- lift (peekb (f_rbuf F + f_rpos F));;
        deliver dst done c;;;
        put_file f (set_rpos (f_rpos F + 1) F);;;
        t <- serve_rbuf k' dst (done + 1) f;; ret (c :: t)
      else ret []
  end.

(** [while (done < want && piped_pos < piped_len)]. *)
Fixpoint serve_piped (k : nat) (dst : option Z) (done : Z) : IO (list Z) :=
  match k with
  | O => ret []
  | S k' =>
      r <- get_piped;;
      let '(piped, len, pos) := r in
      if pos <? len then
        match piped !! Z.to_nat pos with
        | None => fault
        | Some c =>
            deliver dst done c;;;
            set_piped piped len (pos + 1);;;
            t <- serve_piped k' dst (done + 1);; ret (c :: t)
        end
      else ret []
  end.

Fixpoint deliver_all (dst : option Z) (done : Z) (bs : list Z) : IO unit :=
  match bs with
  | [] => ret tt
  | b :: bs' => deliver dst done b;;; deliver_all dst (done + 1) bs'
  end.

(** [while (done < want)] over [SYS_READ]; every round but the last adds a byte.
    The final [done] and the bytes delivered. *)
Fixpoint read_loop (k : nat) (dst : option Z) (done want f : Z) : IO (Z * list Z) :=
  match k with
  | O => ret (done, [])
  | S k' =>
      if done <? want then
        F <- file f;;
        got <- lift (mv_syscall (SYS_READ (u32 (f_fd F)) (u32 (want - done))));;
        deliver_all dst done (snd got);;;
        if fst got <? 0 then modify f (set_error 1);;; ret (done, [])
        else if fst got =? 0 then modify f (set_eof 1);;; ret (done, [])
        else t <- read_loop k' dst (done + fst got) want f;; ret (fst t, snd got ++ snd t)
      else ret (done, [])
  end.

(** The slurp of standard input: [static char piped[4096]]. *)
Definition ask_stdin : IO unit :=
  r <- get_piped;;
  let '(piped, len, pos) := r in
  if len =? -2 then
    got <- lift (mv_syscall SYS_STDIN_READ);;
    piped <- lift (overlay 4096 (snd got) piped);;
    set_piped piped (if fst got <? 0 then 0 else fst got) 0
  else ret tt.

(** The count returned and the bytes delivered. *)
Definition fread (dst : option Z) (size count f : Z) : IO (Z * list Z) :=
  if (f =? 0) || (size =? 0) || (count =? 0) then ret (0, [])
  else
    let want := u32 (size * count) in
    F <- file f;;
    first <- (if (0 <=? f_ungot F) && (0 <? want) then
                deliver dst 0 (u8 (f_ungot F));;; put_file f (set_ungot (-1) F);;; ret [u8 (f_ungot F)]
              else ret []);;
    let done := Z.of_nat (length first) in
    if negb (f_rbuf F =? 0) then
      rest <- serve_rbuf (Z.to_nat (want - done)) dst done f;;
      F <- file f;;
      (if f_rlen F <=? f_rpos F then modify f (set_eof 1) else ret tt);;;
      ret ((done + Z.of_nat (length rest)) `div` size, first ++ rest)
    else if f_fd F =? 0 then
      ask_stdin;;;
      rest <- serve_piped (Z.to_nat (want - done)) dst done;;
      (if done + Z.of_nat (length rest) <? want then modify f (set_eof 1) else ret tt);;;
      ret ((done + Z.of_nat (length rest)) `div` size, first ++ rest)
    else
      r <- read_loop (Z.to_nat (want - done) + 1) dst done want f;;
      ret (fst r `div` size, first ++ snd r).

Definition fgetc (f : Z) : IO Z :=
  if f =? 0 then ret EOF
  else
    F <- file f;;
    if 0 <=? f_ungot F then put_file f (set_ungot (-1) F);;; ret (f_ungot F)
    else
      r <- fread None 1 1 f;;
      if negb (fst r =? 1) then ret EOF
      else match snd r with c :: _ => ret (u8 c) | [] => fault end.

Definition getc := fgetc.
Definition getchar : IO Z := fgetc (h_stdin std).

Definition ungetc (c f : Z) : IO Z :=
  if (f =? 0) || (c =? EOF) then ret EOF
  else modify f (λ F, set_eof 0 (set_ungot (u8 c) F));;; ret (u8 c).

Definition fputc (c f : Z) : IO Z :=
  n <- fwrite (Local [u8 c]) 1 1 f;;
  ret (if n =? 1 then u8 c else EOF).

(** [while (i < size - 1)] of [fgets]; the characters stored. *)
Fixpoint fgets_loop (k : nat) (s i f : Z) : IO Z :=
  match k with
  | O => ret i
  | S k' =>
      c <- fgetc f;;
      if c =? EOF then ret i
      else
        lift (pokeb (s + i) c);;;
        if c =? 10 then ret (i + 1) else fgets_loop k' s (i + 1) f
  end.

Definition fgets (s size f : Z) : IO Z :=
  if (s =? 0) || (size <=? 0) || (f =? 0) then ret 0
  else
    i <- fgets_loop (Z.to_nat (size - 1)) s 0 f;;
    if i =? 0 then ret 0 else lift (pokeb (s + i) 0);;; ret s.

Definition c_strlen (s : Z) : IO Z := lift (λ p, n ← strlen (p_mem p) s; Some (n, p)).

Definition fputs (s f : Z) : IO Z :=
  n <- c_strlen s;;
  done <- fwrite (At s) 1 n f;;
  ret (if done =? n then 0 else EOF).

Definition puts (s : Z) : IO Z :=
  r <- fputs s (h_stdout std);;
  if r =? EOF then ret EOF
  else c <- fputc 10 (h_stdout std);; ret (if c =? EOF then EOF else 1).

Definition putchar (c : Z) : IO Z :=
  r <- fputc c (h_stdout std);; ret (if r =? EOF then EOF else u8 c).

(** ** Position and state *)

Definition fseek (f offset whence : Z) : IO Z :=
  if f =? 0 then ret (-1)
  else
    modify f (λ F, set_eof 0 (set_ungot (-1) F));;;
    F <- file f;;
    if negb (f_rbuf F =? 0) then
      let target := if whence =? SEEK_SET then offset
                    else if whence =? SEEK_CUR then i32 (i32 (f_rpos F) + offset)
                    else i32 (i32 (f_rlen F) + offset) in
      if (target <? 0) || (f_rlen F <? u32 target) then lift (set_errno EINVAL);;; ret (-1)
      else put_file f (set_rpos (u32 target) F);;; ret 0
    else
      r <- lift (lseek (f_fd F) offset whence);;
      if r <? 0 then modify f (set_error 1);;; ret (-1) else ret 0.

Definition ftell (f : Z) : IO Z :=
  if f =? 0 then ret (-1)
  else
    F <- file f;;
    if negb (f_rbuf F =? 0) then ret (i32 (f_rpos F)) else lift (lseek (f_fd F) 0 SEEK_CUR).

Definition rewind (f : Z) : IO unit := if negb (f =? 0) then fseek f 0 SEEK_SET;;; ret tt else ret tt.
Definition feof (f : Z) : IO Z := if f =? 0 then ret 0 else F <- file f;; ret (f_eof F).
Definition ferror (f : Z) : IO Z := if f =? 0 then ret 0 else F <- file f;; ret (f_error F).
Definition clearerr (f : Z) : IO unit :=
  if negb (f =? 0) then modify f (λ F, set_error 0 (set_eof 0 F)) else ret tt.

Definition remove (path : Z) : IO Z := r <- lift (unlink path);; ret (if r =? 0 then 0 else -1).

Definition rename (from to : Z) : IO Z :=
  a <- lift (path_at from);; b <- lift (path_at to);;
  r <- lift (mv_syscall (SYS_RENAME a b));; ret (if fst r <? 0 then -1 else 0).

(** [while ( *s && n < limit) line[n++] = *s++]: the characters taken. *)
Fixpoint line_take (k : nat) (s : Z) : IO (list Z) :=
  match k with
  | O => lift (peekb s);;; ret []
  | S k' => c <- lift (peekb s);; if c =? 0 then ret [] else t <- line_take k' (s + 1);; ret (c :: t)
  end.

Definition perror (prefix : Z) : IO Z :=
  head <- (if negb (prefix =? 0) then
             c <- lift (peekb prefix);;
             if negb (c =? 0) then t <- line_take 64 prefix;; ret (t ++ lit ": ") else ret []
           else ret []);;
  e <- lift get_errno;;
  let line := head ++ take (90 - length head) (strerror e) ++ [10] in
  fwrite (Local line) 1 (Z.of_nat (length line)) (h_stderr std).

(** ** [getdelim] *)

(** The body of [if (used + 1 >= *n)]: twice the room, or nothing. *)
Definition grow_line (line n : Z) : IO (bool * Z * Z) :=
  bigger <- lift (c_realloc line (u32 (n * 2)));;
  if bigger =? 0 then lift (set_errno ENOMEM);;; ret (false, line, n)
  else ret (true, bigger, u32 (n * 2)).

(** [for (;;)]: the result and the new [*lineptr] and [*n].  Every round reads a
    character; the bound is passed in. *)
Fixpoint getdelim_loop (k : nat) (line n used delim f : Z) : IO (Z * Z * Z) :=
  match k with
  | O => fault
  | S k' =>
      c <- fgetc f;;
      if c =? EOF then
        if used =? 0 then ret (-1, line, n)
        else lift (pokeb (line + used) 0);;; ret (used, line, n)
      else
        r <- (if n <=? u32 (used + 1) then grow_line line n else ret (true, line, n));;
        let '(ok, line, n) := r in
        if (ok : bool) then
          lift (pokeb (line + used) c);;;
          if c =? delim then lift (pokeb (line + (used + 1)) 0);;; ret (used + 1, line, n)
          else getdelim_loop k' line n (used + 1) delim f
        else ret (-1, line, n)
  end.

(** [args]: the line and size the two pointers lead to, [None] when one of them
    is NULL. *)
Definition getdelim (bound : nat) (args : option (Z * Z)) (delim f : Z) : IO (Z * option (Z * Z)) :=
  match args with
  | None => lift (set_errno EINVAL);;; ret (-1, None)
  | Some (line, n) =>
      if f =? 0 then lift (set_errno EINVAL);;; ret (-1, Some (line, n))
      else
        let fresh := (line =? 0) || (n =? 0) in
        line <- (if fresh then lift (c_malloc 64) else ret line);;
        let n := if fresh then 64 else n in
        if line =? 0 then lift (set_errno ENOMEM);;; ret (-1, Some (line, n))
        else
          r <- getdelim_loop bound line n 0 delim f;;
          let '(used, line, n) := r in ret (used, Some (line, n))
  end.

Definition getline (bound : nat) (args : option (Z * Z)) (f : Z) : IO (Z * option (Z * Z)) :=
  getdelim bound args 10 f.
End stream.
Arguments io H K : clear implicits.
