(* ===== verification/StreamSpec.v ===== *)
(** * What the streams promise

    - A stream that writes: the bytes collected so far are an invariant
      ([writing]); [fwrite] appends to them, [fflush] hands them over.
    - A stream that reads: the file and the position are an invariant
      ([reading]); [fgetc], [fgets], [getdelim] and [fseek] are functions of it.
    - The console.

    The heap is the interface [AllocatorLaws]; nothing here depends on how it
    works. *)

From S2P Require Import Prelude CMem CString Heap HeapSpec Alloc Sys CStdlib Posix Stream.

Section spec.
Context {H K : Type} `{AllocatorLaws H} `{Kernel K}.
#[local] Set Default Proof Using "Type*".

Abbreviation IO := (M (io H K)).

(** ** State updates *)

Definition heap_of (s : io H K) : H := p_heap (io_proc s).
Definition mem_of_io (s : io H K) : mem := p_mem (io_proc s).
Definition kern_of (s : io H K) : K := p_kern (io_proc s).
Definition errno_of (s : io H K) : Z := p_errno (io_proc s).

Definition with_proc (p : proc H K) (s : io H K) : io H K :=
  Io p (io_files s) (io_old s) (io_piped s) (io_piped_len s) (io_piped_pos s).
Definition with_file (f : Z) (F : FILE) (s : io H K) : io H K :=
  Io (io_proc s) (<[f := F]> (io_files s)) (io_old s) (io_piped s) (io_piped_len s) (io_piped_pos s).
Definition with_heap_io (h : H) (s : io H K) : io H K := with_proc (with_heap h (io_proc s)) s.
Definition with_errno_io (e : Z) (s : io H K) : io H K := with_proc (with_errno e (io_proc s)) s.
Definition with_mem_io (m : mem) (s : io H K) : io H K := with_proc (with_mem m (io_proc s)) s.
Definition with_kern_io (k : K) (s : io H K) : io H K :=
  with_proc (Proc (p_heap (io_proc s)) k (p_errno (io_proc s))) s.

Lemma lift_some {A} (x : M (proc H K) A) s a p :
  x (io_proc s) = Some (a, p) → lift x s = Some (a, with_proc p s).
Proof. intros E. unfold lift. by rewrite E. Qed.

Lemma file_some f (F : FILE) (s : io H K) : io_files s !! f = Some F → file f s = Some (F, s).
Proof. intros E. unfold file. by rewrite E. Qed.

Lemma modify_some f F g (s : io H K) : io_files s !! f = Some F → modify f g s = Some (tt, with_file f (g F) s).
Proof. intros E. unfold modify. rewrite (bind_some _ _ _ _ _ (file_some _ _ _ E)). done. Qed.

Lemma put_file_some f F (s : io H K) : put_file f F s = Some (tt, with_file f F s).
Proof. done. Qed.

Lemma set_errno_some e (s : io H K) : lift (set_errno e) s = Some (tt, with_errno_io e s).
Proof. done. Qed.

Lemma syscall_some c (s : io H K) r bs k :
  int80 c (kern_of s) = (r, bs, k) → lift (mv_syscall c) s = Some ((i32 r, bs), with_kern_io k s).
Proof. intros E. apply lift_some. unfold mv_syscall. unfold kern_of in E. by rewrite E. Qed.

Lemma peekb_some a c (s : io H K) : mem_of_io s !! a = Some c → lift (peekb a) s = Some (c, s).
Proof.
  intros E. rewrite (lift_some _ _ c (io_proc s)) by (unfold peekb, load; fold (mem_of_io s); by rewrite E).
  by destruct s.
Qed.

Lemma peeks_some a bs (s : io H K) :
  seg (mem_of_io s) a bs → lift (peeks a (Z.of_nat (length bs))) s = Some (bs, s).
Proof.
  intros E. rewrite (lift_some _ _ bs (io_proc s)); [by destruct s|].
  unfold peeks. rewrite Nat2Z.id. fold (mem_of_io s). by rewrite loads_ok.
Qed.

Lemma pokeb_some a c (s : io H K) :
  is_Some (mem_of_io s !! a) → lift (pokeb a c) s = Some (tt, with_mem_io (write (mem_of_io s) a [u8 c]) s).
Proof. intros E. apply lift_some. unfold pokeb. fold (mem_of_io s). by rewrite store_mapped. Qed.

Lemma mem_with_mem m (s : io H K) : mem_of_io (with_mem_io m s) = m.
Proof. unfold mem_of_io, with_mem_io, p_mem, with_mem. cbn. apply a_mem_set. Qed.

Lemma files_with_file f F (s : io H K) : io_files (with_file f F s) !! f = Some F.
Proof. apply lookup_insert_eq. Qed.

(** ** A stream that writes *)

(** The most a stream collects in these theorems: the doubling of [wcap] stays
    within what [realloc] takes. *)
Definition LIMIT : Z := 536870912.

(** [bs] is collected; [l] are the blocks held for other purposes. *)
Record writing (s : io H K) (f : Z) (F : FILE) (l : list (Z * Z)) (bs : list Z) : Prop := {
  w_file : io_files s !! f = Some F;
  w_console : f_is_console F = 0;
  w_len : f_wlen F = Z.of_nat (length bs);
  w_bytes : Forall is_u8 bs;
  w_buf : (f_wbuf F = 0 ∧ f_wcap F = 0 ∧ bs = [] ∧ held (heap_of s) l) ∨
          (∃ n, f_wbuf F ≠ 0 ∧ f_wlen F ≤ f_wcap F ≤ n ∧ 0 < f_wcap F ≤ 2 * LIMIT ∧
             held (heap_of s) ((f_wbuf F, n) :: l) ∧ seg (mem_of_io s) (f_wbuf F) bs)
}.

(** What a step on the stream [f] leaves alone. *)
Definition frame (f : Z) (l : list (Z * Z)) (s s' : io H K) : Prop :=
  kern_of s' = kern_of s ∧ keeps a_base l (heap_of s) (heap_of s') ∧
  (∀ g, g ≠ f → io_files s' !! g = io_files s !! g).

Lemma frame_refl f l s : frame f l s s.
Proof. by split_and!. Qed.

Lemma frame_trans f l s1 s2 s3 : frame f l s1 s2 → frame f l s2 s3 → frame f l s1 s3.
Proof.
  intros (K1 & M1 & F1) (K2 & M2 & F2). split_and!; [congruence| |].
  - intros x Hx. by rewrite M2, M1.
  - intros g Hg. by rewrite F2, F1.
Qed.

(** The bytes [cs] of a source, in memory that stays in place. *)
Definition readable (s : io H K) (l : list (Z * Z)) (src : place) (cs : list Z) : Prop :=
  match src with
  | Local bs => bs = cs
  | At a => seg (mem_of_io s) a cs ∧
      ∀ x, a ≤ x < a + Z.of_nat (length cs) → x < a_base ∨ ∃ p n, (p, n) ∈ l ∧ p ≤ x < p + n
  end.

Lemma readable_frame f l s s' src cs : frame f l s s' → readable s l src cs → readable s' l src cs.
Proof.
  destruct src; [|done]. intros (_ & Hk & _) [Hs Hx]. split; [|done]. eapply seg_lookup_eq; [|exact Hs].
  intros x Hr. apply Hk. by apply Hx.
Qed.

Lemma held_first h l p n : held h ((p, n) :: l) → 0 < p.
Proof. intros Hh. destruct (held_block _ _ p n Hh) as (_ & ? & _); [set_solver|done]. Qed.

Lemma byte_at_ok s l src cs i c :
  readable s l src cs → cs !! i = Some c → byte_at src (Z.of_nat i) s = Some (c, s).
Proof.
  destruct src as [a|bs]; simpl.
  - intros [Hs _] Hi. apply peekb_some. by apply Hs.
  - intros -> Hi. by rewrite Nat2Z.id, Hi.
Qed.

Lemma grown_some h grown bigger f F s :
  io_files s !! f = Some F → grown ≠ 0 →
  lift (if f_wbuf F =? 0 then c_malloc bigger else c_realloc (f_wbuf F) bigger) s = Some (grown, with_heap_io h s) →
  bigger = (if f_wcap F =? 0 then 1024 else u32 (f_wcap F * 2)) →
  grow_wbuf f F s = Some (true, with_file f (set_wbuf grown bigger F) (with_heap_io h s)).
Proof.
  intros HF Hg E ->. unfold grow_wbuf. rewrite (bind_some _ _ _ _ _ E). zb_false (grown =? 0).
  by rewrite (bind_some _ _ _ _ _ (modify_some f F _ (with_heap_io h s) HF)).
Qed.

Lemma grown_none f F l bs s :
  writing s f F l bs →
  lift (if f_wbuf F =? 0 then c_malloc (if f_wcap F =? 0 then 1024 else u32 (f_wcap F * 2))
        else c_realloc (f_wbuf F) (if f_wcap F =? 0 then 1024 else u32 (f_wcap F * 2))) s = Some (0, with_heap_io (heap_of s) s) →
  ∃ s' F', grow_wbuf f F s = Some (false, s') ∧ writing s' f F' l bs ∧ frame f l s s' ∧
    f_error F' = 1 ∧ f_path F' = f_path F ∧ errno_of s' = ENOMEM.
Proof.
  intros [HF Hc Hl Hu Hb] E. unfold grow_wbuf. rewrite (bind_some _ _ _ _ _ E). change (0 =? 0) with true. cbv iota.
  rewrite (bind_some _ _ _ _ _ (modify_some f F _ (with_heap_io (heap_of s) s) HF)).
  rewrite (bind_some _ _ _ _ _ (set_errno_some ENOMEM _)).
  eexists. exists (set_error 1 F). split; [done|]. split; [|split; [|done]].
  - split; [apply files_with_file|done|done|done|exact Hb].
  - split_and!; [done|by intros x _|]. intros g Hg. cbn. by rewrite lookup_insert_ne.
Qed.

Lemma grow_wbuf_ok s f F l bs :
  writing s f F l bs → f_wlen F = f_wcap F → Z.of_nat (length bs) < LIMIT →
  (∃ s' F', grow_wbuf f F s = Some (false, s') ∧ writing s' f F' l bs ∧ frame f l s s' ∧
     f_error F' = 1 ∧ f_path F' = f_path F ∧ errno_of s' = ENOMEM) ∨
  (∃ s' F', grow_wbuf f F s = Some (true, s') ∧ writing s' f F' l bs ∧ frame f l s s' ∧
     f_path F' = f_path F ∧ f_wlen F' < f_wcap F').
Proof.
  intros HW Hfull Hlim. pose proof HW as [HF Hc Hl Hu Hb].
  destruct Hb as [(Hz & Hcap & -> & Hh)|(n & Hz & Hcap & Hcap2 & Hh & Hs)].
  - pose proof (grown_none f F l [] s HW) as Hnone. pose proof (grown_some) as Hsome.
    rewrite Hz, Hcap in Hnone. change (0 =? 0) with true in Hnone. cbv iota in Hnone.
    destruct (malloc_law _ _ 1024 Hh ltac:(unfold MAX_REQUEST; lia)) as [E|(p & n & h & E & Hn & Hh' & Hk)].
    { left. apply Hnone. apply lift_some. unfold c_malloc. fold (heap_of s). by rewrite E. }
    right. pose proof (held_first _ _ _ _ Hh') as Hp.
    specialize (Hsome h p 1024 f F s HF ltac:(lia)). rewrite Hz, Hcap in Hsome. change (0 =? 0) with true in Hsome. cbv iota in Hsome.
    eexists. exists (set_wbuf p 1024 F). split; [apply Hsome; [|done]; apply lift_some; unfold c_malloc; fold (heap_of s); by rewrite E|].
    split; [|split; [|split; [done|cbn; simpl in Hl; lia]]].
    + split; [apply files_with_file|done|done|done|]. right. exists n. cbn. unfold LIMIT. simpl in Hl.
      split_and!; try done; try lia.
    + split_and!; [done|exact Hk|]. intros g Hg. cbn. by rewrite lookup_insert_ne.
  - pose proof (grown_none f F l bs s HW) as Hnone. pose proof (grown_some) as Hsome. unfold LIMIT in *.
    rewrite (proj2 (Z.eqb_neq (f_wbuf F) 0) Hz), (proj2 (Z.eqb_neq (f_wcap F) 0)), u32_small in Hnone by (unfold is_u32; lia).
    destruct (realloc_law _ _ _ _ (f_wcap F * 2) Hh ltac:(unfold MAX_REQUEST; lia)) as [E|(q & k & h & E & Hq & Hh' & Hk & Hcopy)].
    { left. apply Hnone. apply lift_some. unfold c_realloc. fold (heap_of s). by rewrite E. }
    right. pose proof (held_first _ _ _ _ Hh') as Hp.
    specialize (Hsome h q (f_wcap F * 2) f F s HF ltac:(lia)).
    rewrite (proj2 (Z.eqb_neq (f_wbuf F) 0) Hz), (proj2 (Z.eqb_neq (f_wcap F) 0)), u32_small in Hsome by (unfold is_u32; lia).
    eexists. exists (set_wbuf q (f_wcap F * 2) F). split; [apply Hsome; [|done]; apply lift_some; unfold c_realloc; fold (heap_of s); by rewrite E|].
    split; [|split; [|split; [done|cbn; lia]]].
    + split; [apply files_with_file|done|done|done|]. right. exists k. cbn. unfold LIMIT. split_and!; try done; try lia.
      intros i b Hib. pose proof (lookup_lt_Some _ _ _ Hib).
      apply (Hcopy (Z.of_nat i) b); [lia|lia|by apply Hs|by eapply Forall_lookup_1].
    + split_and!; [done|exact Hk|]. intros g Hg. cbn. by rewrite lookup_insert_ne.
Qed.

Lemma store_byte s f F l bs c :
  writing s f F l bs → f_wlen F < f_wcap F → is_u8 c →
  ∃ s1, lift (pokeb (f_wbuf F + f_wlen F) c) s = Some (tt, s1) ∧ io_files s1 !! f = Some F ∧
    writing (with_file f (set_wlen (f_wlen F + 1) F) s1) f (set_wlen (f_wlen F + 1) F) l (bs ++ [c]) ∧
    frame f l s (with_file f (set_wlen (f_wlen F + 1) F) s1).
Proof.
  intros [HF Hc Hl Hu Hb] Hlt Hc8. destruct Hb as [(? & ? & -> & _)|(n & Hz & Hcap & Hcap2 & Hh & Hs)]; [simpl in Hl; lia|].
  assert ((f_wbuf F, n) ∈ (f_wbuf F, n) :: l) as Hin by set_solver.
  destruct (held_block _ _ _ _ Hh Hin) as (Hbase & _ & _ & _ & Hm).
  eexists. split; [apply pokeb_some; apply Hm; lia|]. split; [done|]. split.
  - split; [apply files_with_file|done| |rewrite Forall_app, Forall_singleton; done|].
    + cbn. rewrite length_app. simpl. lia.
    + right. exists n. cbn. split_and!; [done|lia|lia|lia|lia|exact (held_write _ _ (f_wbuf F + f_wlen F) [u8 c] Hh)|].
      unfold mem_of_io, p_mem. cbn. rewrite a_mem_set. fold (p_mem (io_proc s)) (mem_of_io s).
      rewrite write_insert, seg_app, Hl. split.
      * apply seg_write_disjoint; [unfold disjoint; simpl; lia|done].
      * rewrite u8_small by done. apply seg_write.
  - split_and!; [done| |].
    + intros x Hx. unfold heap_of. cbn. rewrite a_mem_set, write_insert. apply lookup_write_out. simpl.
      destruct Hx as [Hx|(p & k & Hpk & Hx)]; [lia|]. pose proof (held_disjoint _ _ _ _ _ _ Hh Hpk) as Hd. unfold disjoint in Hd. lia.
    + intros g Hg. cbn. by rewrite lookup_insert_ne.
Qed.

(** The loop of [fwrite]: it appends, and stops early only without memory. *)
Lemma fwrite_loop_ok src cs l f k : ∀ i s F bs,
  (i + k)%nat = length cs → writing s f F l bs → readable s l src cs → Forall is_u8 cs →
  Z.of_nat (length bs + k) ≤ LIMIT →
  ∃ j s' F', fwrite_loop k src (Z.of_nat i) f s = Some (Z.of_nat (i + j), s') ∧ (j ≤ k)%nat ∧
    writing s' f F' l (bs ++ take j (drop i cs)) ∧ frame f l s s' ∧ f_path F' = f_path F ∧
    ((j < k)%nat → f_error F' = 1 ∧ errno_of s' = ENOMEM).
Proof.
  induction k as [|k IH]; intros i s F bs Hik HW Hr Hu Hlim.
  { exists 0%nat, s, F. rewrite take_0, app_nil_r, Nat.add_0_r. split_and!; first [done | lia | apply frame_refl]. }
  destruct (lookup_lt_is_Some_2 cs i) as [c Hc]; [lia|]. assert (is_u8 c) as Hc8 by (by eapply Forall_lookup_1).
  cbn [fwrite_loop]. rewrite (bind_some _ _ _ _ _ (file_some _ _ _ (w_file _ _ _ _ _ HW))).
  assert ((∃ s' F', (if f_wlen F =? f_wcap F then grow_wbuf f F else ret true) s = Some (false, s') ∧
             writing s' f F' l bs ∧ frame f l s s' ∧ f_error F' = 1 ∧ f_path F' = f_path F ∧ errno_of s' = ENOMEM) ∨
          (∃ s' F', (if f_wlen F =? f_wcap F then grow_wbuf f F else ret true) s = Some (true, s') ∧
             writing s' f F' l bs ∧ frame f l s s' ∧ f_path F' = f_path F ∧ f_wlen F' < f_wcap F')) as Hg.
  { destruct (Z.eqb_spec (f_wlen F) (f_wcap F)) as [Hfull|Hfull]; [apply grow_wbuf_ok; [done|done|lia]|].
    right. exists s, F. split; [done|]. split; [done|]. split; [apply frame_refl|]. split; [done|]. destruct (w_buf _ _ _ _ _ HW) as [(? & ? & -> & _)|(n & ? & ? & _)]; [|lia].
    pose proof (w_len _ _ _ _ _ HW) as Hl. simpl in Hl. lia. }
  destruct Hg as [(s1 & F1 & E & HW1 & Hf1 & He & Hp & Hn)|(s1 & F1 & E & HW1 & Hf1 & Hp & Hlt)].
  - rewrite (bind_some _ _ _ _ _ E). exists 0%nat, s1, F1. rewrite take_0, app_nil_r, Nat.add_0_r. split_and!; try done; lia.
  - rewrite (bind_some _ _ _ _ _ E), (bind_some _ _ _ _ _ (file_some _ _ _ (w_file _ _ _ _ _ HW1))).
    pose proof (readable_frame _ _ _ _ _ _ Hf1 Hr) as Hr1. rewrite (bind_some _ _ _ _ _ (byte_at_ok _ _ _ _ _ _ Hr1 Hc)).
    destruct (store_byte s1 f F1 l bs c HW1 Hlt Hc8) as (s2 & E2 & HF2 & HW2 & Hf2).
    rewrite (bind_some _ _ _ _ _ E2), (bind_some _ _ _ _ _ (modify_some _ _ _ _ HF2)).
    pose proof (readable_frame _ _ _ _ _ _ Hf2 Hr1) as Hr2.
    destruct (IH (S i) _ _ (bs ++ [c]) ltac:(lia) HW2 Hr2 Hu) as (j & s3 & F3 & E3 & Hj & HW3 & Hf3 & Hp3 & He3).
    { rewrite length_app. simpl. lia. }
    replace (Z.of_nat i + 1) with (Z.of_nat (S i)) by lia. exists (S j), s3, F3. rewrite E3. split_and!; [f_equal; f_equal; lia|lia| | | |].
    + rewrite (drop_S _ _ _ Hc). cbn [take]. by rewrite <- app_assoc in HW3.
    + by eapply frame_trans; [|eapply frame_trans].
    + rewrite Hp3. exact Hp.
    + intros. apply He3. lia.
Qed.

(** [fwrite] of single bytes, from memory or from a local object. *)
Lemma fwrite_ok s f F l bs src cs :
  writing s f F l bs → readable s l src cs → Forall is_u8 cs → f ≠ 0 → Z.of_nat (length bs + length cs) ≤ LIMIT →
  ∃ j s' F', fwrite src 1 (Z.of_nat (length cs)) f s = Some (Z.of_nat j, s') ∧ (j ≤ length cs)%nat ∧
    writing s' f F' l (bs ++ take j cs) ∧ frame f l s s' ∧ f_path F' = f_path F ∧
    ((j < length cs)%nat → f_error F' = 1 ∧ errno_of s' = ENOMEM).
Proof.
  intros HW Hr Hu Hf Hlim. unfold fwrite. zb_false (f =? 0). change (1 =? 0) with false. cbn [orb].
  destruct (Z.eqb_spec (Z.of_nat (length cs)) 0) as [Hz|Hz].
  { exists 0%nat, s, F. rewrite take_0, app_nil_r. split_and!; first [done | lia | apply frame_refl]. }
  rewrite (bind_some _ _ _ _ _ (file_some _ _ _ (w_file _ _ _ _ _ HW))), (w_console _ _ _ _ _ HW). cbn [negb Z.eqb].
  destruct (fwrite_loop_ok src cs l f (length cs) 0 s F bs eq_refl HW Hr Hu Hlim) as (j & s' & F' & E & Hj & HW' & Hf' & Hp & He).
  rewrite u32_small by (unfold is_u32, LIMIT in *; lia). rewrite Z.mul_1_l, Nat2Z.id.
  rewrite (bind_some _ _ _ _ _ E). exists j, s', F'. rewrite Z.div_1_r. by rewrite drop_0 in HW'.
Qed.

(** [fflush] hands over exactly what was collected. *)
Lemma fflush_ok s f F l bs r rs k :
  writing s f F l bs → bs ≠ [] → f ≠ 0 → f_path F ≠ [] →
  int80 (SYS_FWRITE (f_path F) bs 1) (kern_of s) = (r, rs, k) →
  fflush f s =
    if i32 r <? 0 then Some (EOF, with_errno_io EIO (with_file f (set_error 1 F) (with_kern_io k s)))
    else Some (0, with_file f (set_wlen 0 F) (with_kern_io k s)).
Proof.
  intros [HF Hc Hl Hu Hb] Hne Hf Hp E. unfold fflush. zb_false (f =? 0). rewrite (bind_some _ _ _ _ _ (file_some _ _ _ HF)).
  destruct Hb as [(_ & _ & -> & _)|(n & Hz & Hcap & Hcap2 & Hh & Hs)]; [done|].
  assert (f_wlen F ≠ 0) by (destruct bs; [done|simpl in Hl; lia]).
  zb_false (f_wbuf F =? 0). zb_false (f_wlen F =? 0). rewrite Hc. cbn [orb negb Z.eqb]. rewrite bool_decide_eq_false_2 by done.
  rewrite Hl, (bind_some _ _ _ _ _ (peeks_some _ _ _ Hs)), (bind_some _ _ _ _ _ (syscall_some _ _ _ _ _ E)). cbn [fst].
  destruct (i32 r <? 0); rewrite (bind_some _ _ _ _ _ (modify_some f F _ (with_kern_io k s) HF)); done.
Qed.

(** After a successful flush nothing is collected. *)
Lemma writing_flushed s f F l bs k :
  writing s f F l bs → writing (with_file f (set_wlen 0 F) (with_kern_io k s)) f (set_wlen 0 F) l [].
Proof.
  intros [HF Hc Hl Hu Hb]. split; [apply files_with_file|done|done|done|]. destruct Hb as [(? & ? & ? & ?)|(n & ? & ? & ? & ? & ?)].
  - left. done.
  - right. exists n. cbn. split_and!; first [done | lia | apply seg_nil].
Qed.

(** ** Sessions *)




Lemma fflush_empty s f F l : writing s f F l [] → f ≠ 0 → fflush f s = Some (0, s).
Proof.
  intros HW Hf. unfold fflush. zb_false (f =? 0). rewrite (bind_some _ _ _ _ _ (file_some _ _ _ (w_file _ _ _ _ _ HW))).
  rewrite (w_len _ _ _ _ _ HW). cbn [length Z.of_nat]. rewrite orb_true_r. done.
Qed.

End spec.

(** A file store behind [SYS_FWRITE] that keeps what it accepts.  Of a call that
    fails nothing is said: [sys_fwrite] removes the old file before it writes. *)
Class FileStore (K : Type) `{Kernel K} := {
  stored : K → gmap (list Z) (list Z);
  store_law : ∀ k path bs type r rs k', int80 (SYS_FWRITE path bs type) k = (r, rs, k') →
    0 ≤ i32 r → stored k' = <[path := bs]> (stored k)
}.

Section sessions.
Context {H K : Type} `{AllocatorLaws H} `{FileStore K}.
#[local] Set Default Proof Using "Type*".
Abbreviation IO := (M (io H K)).

(** A store that accepts the path: the flush succeeds and empties the buffer. *)
Lemma fflush_accepts (s : io H K) f F l bs :
  writing s f F l bs → f ≠ 0 → f_path F ≠ [] →
  (∀ k cs, 0 ≤ i32 (fst (fst (int80 (SYS_FWRITE (f_path F) cs 1) k)))) →
  ∃ s' F', fflush f s = Some (0, s') ∧ writing s' f F' l [] ∧ f_path F' = f_path F ∧
    (bs ≠ [] → stored (kern_of s') = <[f_path F := bs]> (stored (kern_of s))).
Proof.
  intros HW Hf Hp Hok. destruct (decide (bs = [])) as [->|Hne].
  { exists s, F. split_and!; [by eapply fflush_empty|done|done|done]. }
  specialize (Hok (kern_of s) bs). destruct (int80 (SYS_FWRITE (f_path F) bs 1) (kern_of s)) as [[r rs] k] eqn:E. simpl in Hok.
  pose proof (fflush_ok s f F l bs r rs k HW Hne Hf Hp E) as Hfl. rewrite (proj2 (Z.ltb_ge _ _) Hok) in Hfl.
  pose proof (store_law _ _ _ _ _ _ _ E Hok) as Hst.
  eexists. exists (set_wlen 0 F). split; [exact Hfl|]. split; [by eapply writing_flushed|]. done.
Qed.

(** Flushing twice loses data: after [fwrite(a)], [fflush], [fwrite(b)],
    [fflush] on a store that accepts every write, both flushes return 0 and the
    file holds the bytes of [b] alone: each flush replaces the file, and the
    first one forgets what it wrote. *)
Theorem second_flush_drops_the_first (s : io H K) f F l a b :
  writing s f F l [] → f ≠ 0 → f_path F ≠ [] → Forall is_u8 a → Forall is_u8 b →
  Z.of_nat (length a) ≤ LIMIT → Z.of_nat (length b) ≤ LIMIT →
  (∀ k cs, 0 ≤ i32 (fst (fst (int80 (SYS_FWRITE (f_path F) cs 1) k)))) →
  ∃ n1 n2 s',
    (n1 <- fwrite (Local a) 1 (Z.of_nat (length a)) f;; r1 <- fflush f;;
     n2 <- fwrite (Local b) 1 (Z.of_nat (length b)) f;; r2 <- fflush f;; ret (n1, r1, n2, r2)) s =
      Some ((n1, 0, n2, 0), s') ∧
    0 ≤ n2 ≤ Z.of_nat (length b) ∧
    (0 < n2 → stored (kern_of s') !! f_path F = Some (take (Z.to_nat n2) b)).
Proof.
  intros HW Hf Hp Ha Hb Hla Hlb Hok.
  destruct (fwrite_ok s f F l [] (Local a) a HW eq_refl Ha Hf Hla) as (n1 & s1 & F1 & E1 & _ & HW1 & _ & Hp1 & _).
  destruct (fflush_accepts s1 f F1 l _ HW1 Hf) as (s2 & F2 & E2 & HW2 & Hp2 & _); [congruence|by rewrite Hp1|].
  destruct (fwrite_ok s2 f F2 l [] (Local b) b HW2 eq_refl Hb Hf Hlb) as (n2 & s3 & F3 & E3 & Hn2 & HW3 & _ & Hp3 & _).
  destruct (fflush_accepts s3 f F3 l _ HW3 Hf) as (s4 & F4 & E4 & _ & _ & Hst); [congruence|by rewrite Hp3, Hp2, Hp1|].
  exists (Z.of_nat n1), (Z.of_nat n2), s4.
  rewrite (bind_some _ _ _ _ _ E1), (bind_some _ _ _ _ _ E2), (bind_some _ _ _ _ _ E3), (bind_some _ _ _ _ _ E4).
  split; [done|]. split; [lia|]. intros Hpos. rewrite Nat2Z.id. cbn [app] in Hst. rewrite Hst.
  - rewrite Hp3, Hp2, Hp1. apply lookup_insert_eq.
  - intros Hz. apply (f_equal length) in Hz. rewrite length_take in Hz. simpl in Hz. lia.
Qed.
End sessions.

(** ** A stream that reads *)

Section reading.
Context {H K : Type} `{AllocatorLaws H} `{Kernel K}.
#[local] Set Default Proof Using "Type*".
Abbreviation IO := (M (io H K)).

(** [rest] is what the stream still has to give: a pushed-back character, then
    the file from the position on. *)
Record reading (s : io H K) (f : Z) (F : FILE) (rest : list Z) : Prop := {
  r_file : io_files s !! f = Some F;
  r_buf : f_rbuf F ≠ 0;
  r_ungot : f_ungot F = -1 ∨ is_u8 (f_ungot F);
  r_data : ∃ bs i, f_rlen F = Z.of_nat (length bs) ∧ f_rpos F = Z.of_nat i ∧ (i ≤ length bs)%nat ∧
    seg (mem_of_io s) (f_rbuf F) bs ∧ Forall is_u8 bs ∧
    rest = (if 0 <=? f_ungot F then [f_ungot F] else []) ++ drop i bs
}.

Definition same_buf (F F' : FILE) : Prop := f_rbuf F' = f_rbuf F ∧ f_rlen F' = f_rlen F.

Lemma with_file_twice f F1 F2 (s : io H K) : with_file f F2 (with_file f F1 s) = with_file f F2 s.
Proof. unfold with_file. cbn. by rewrite insert_insert_eq. Qed.

(** One byte of the cached file. *)
Lemma serve_one (s : io H K) f F bs i :
  io_files s !! f = Some F → f_rlen F = Z.of_nat (length bs) → f_rpos F = Z.of_nat i → seg (mem_of_io s) (f_rbuf F) bs →
  serve_rbuf 1 None 0 f s =
    match bs !! i with
    | Some c => Some ([c], with_file f (set_rpos (Z.of_nat i + 1) F) s)
    | None => Some ([], s)
    end.
Proof.
  intros HF Hl Hp Hs. cbn [serve_rbuf]. rewrite (bind_some _ _ _ _ _ (file_some _ _ _ HF)). rewrite Hl, Hp.
  destruct (bs !! i) as [c|] eqn:E.
  - pose proof (lookup_lt_Some _ _ _ E). rewrite (proj2 (Z.ltb_lt _ _)) by lia.
    assert (lift (peekb (f_rbuf F + Z.of_nat i)) s = Some (c, s)) as Ep by (apply peekb_some; by apply Hs).
    by rewrite (bind_some _ _ _ _ _ Ep).
  - apply lookup_ge_None in E. rewrite (proj2 (Z.ltb_ge _ _)) by lia. done.
Qed.

Lemma fread_one (s : io H K) f F bs i :
  io_files s !! f = Some F → f ≠ 0 → f_rbuf F ≠ 0 → f_ungot F = -1 →
  f_rlen F = Z.of_nat (length bs) → f_rpos F = Z.of_nat i → (i ≤ length bs)%nat → seg (mem_of_io s) (f_rbuf F) bs →
  ∃ F', fread None 1 1 f s =
    Some (match bs !! i with Some c => (1, [c]) | None => (0, []) end, with_file f F' s) ∧
    same_buf F F' ∧ f_ungot F' = -1 ∧ f_rpos F' = Z.of_nat (Nat.min (S i) (length bs)) ∧
    (bs !! i = None → f_eof F' = 1).
Proof.
  intros HF Hf Hb Hu Hl Hp Hi Hs. unfold fread. zb_false (f =? 0). change (1 =? 0) with false. cbn [orb].
  change (u32 (1 * 1)) with 1. rewrite (bind_some _ _ _ _ _ (file_some _ _ _ HF)), Hu.
  change ((0 <=? -1) && (0 <? 1)) with false. cbv iota. rewrite bind_ret. zb_false (f_rbuf F =? 0). cbn [length negb].
  change (Z.to_nat (1 - Z.of_nat 0)) with 1%nat. change (Z.of_nat 0) with 0.
  pose proof (serve_one s f F bs i HF Hl Hp Hs) as E. destruct (bs !! i) as [c|] eqn:Ec.
  - pose proof (lookup_lt_Some _ _ _ Ec). rewrite (bind_some _ _ _ _ _ E). set (F1 := set_rpos (Z.of_nat i + 1) F) in *.
    rewrite (bind_some _ _ _ _ _ (file_some f F1 _ (files_with_file _ _ _))).
    exists (if f_rlen F1 <=? f_rpos F1 then set_eof 1 F1 else F1).
    split; [|split; [|split; [|split]]]; [|by destruct (_ <=? _)|by destruct (_ <=? _)| |done].
    + destruct (f_rlen F1 <=? f_rpos F1); [|done].
      rewrite (bind_some _ _ _ _ _ (modify_some f F1 _ _ (files_with_file _ _ _))), with_file_twice. done.
    + replace (Z.of_nat (S i `min` length bs)) with (Z.of_nat i + 1) by lia. by destruct (_ <=? _).
  - rewrite (bind_some _ _ _ _ _ E), (bind_some _ _ _ _ _ (file_some _ _ _ HF)). apply lookup_ge_None in Ec.
    rewrite (proj2 (Z.leb_le _ _)) by lia. exists (set_eof 1 F).
    rewrite (bind_some _ _ _ _ _ (modify_some f F _ _ HF)).
    split_and!; try done. change (f_rpos (set_eof 1 F)) with (f_rpos F). rewrite Hp. f_equal. lia.
Qed.

(** [fgetc] gives the next byte of [rest]. *)
Lemma fgetc_cons (s : io H K) f F c rest :
  reading s f F (c :: rest) → f ≠ 0 →
  ∃ F', fgetc f s = Some (c, with_file f F' s) ∧ reading (with_file f F' s) f F' rest ∧ same_buf F F'.
Proof.
  intros [HF Hb Hu (bs & i & Hl & Hp & Hi & Hs & Hu8 & Hr)] Hf. unfold fgetc. zb_false (f =? 0).
  rewrite (bind_some _ _ _ _ _ (file_some _ _ _ HF)). destruct (Z.leb_spec 0 (f_ungot F)) as [Hg|Hg].
  - cbn [app] in Hr. injection Hr as -> ->. exists (set_ungot (-1) F). split; [done|]. split; [|done].
    split; [apply files_with_file|done|by left|]. exists bs, i. done.
  - assert (f_ungot F = -1) as Hm by (unfold is_u8 in Hu; lia). cbn [app] in Hr.
    assert (bs !! i = Some c) as Hc by (rewrite <- (Nat.add_0_r i), <- lookup_drop, <- Hr; done).
    assert (rest = drop (S i) bs) as -> by (rewrite (drop_S _ _ _ Hc) in Hr; congruence).
    destruct (fread_one s f F bs i HF Hf Hb Hm Hl Hp Hi Hs) as (F' & E & Hsame & Hm' & Hp' & _).
    rewrite Hc in E. rewrite (bind_some _ _ _ _ _ E). change (negb (fst (1, [c]) =? 1)) with false. cbv iota. cbn [snd].
    assert (is_u8 c) as Hc8 by (by eapply Forall_lookup_1). exists F'. rewrite u8_small by done. split; [done|]. split; [|done].
    destruct Hsame as [Hb' Hl']. pose proof (lookup_lt_Some _ _ _ Hc).
    split; [apply files_with_file|by rewrite Hb'|by left|]. exists bs, (S i). rewrite Hb', Hl', Hp', Hm'.
    split_and!; try done. f_equal. lia.
Qed.

Lemma fgetc_nil (s : io H K) f F :
  reading s f F [] → f ≠ 0 →
  ∃ F', fgetc f s = Some (EOF, with_file f F' s) ∧ reading (with_file f F' s) f F' [] ∧ same_buf F F' ∧ f_eof F' = 1.
Proof.
  intros [HF Hb Hu (bs & i & Hl & Hp & Hi & Hs & Hu8 & Hr)] Hf. unfold fgetc. zb_false (f =? 0).
  rewrite (bind_some _ _ _ _ _ (file_some _ _ _ HF)). destruct (Z.leb_spec 0 (f_ungot F)) as [Hg|Hg]; [done|].
  assert (f_ungot F = -1) as Hm by (unfold is_u8 in Hu; lia). cbn [app] in Hr.
  assert (i = length bs) as -> by (apply (f_equal length) in Hr; rewrite length_drop in Hr; simpl in Hr; lia).
  destruct (fread_one s f F bs _ HF Hf Hb Hm Hl Hp Hi Hs) as (F' & E & Hsame & Hm' & Hp' & He).
  rewrite lookup_ge_None_2 in E, He by lia. rewrite (bind_some _ _ _ _ _ E). exists F'. split; [done|].
  pose proof Hsame as [Hb' Hl']. split; [|split; [done|by apply He]].
  split; [apply files_with_file|by rewrite Hb'|by left|]. exists bs, (length bs). rewrite Hb', Hl', Hp', Hm'.
  split_and!; try done. f_equal. lia.
Qed.

(** A write outside the cached file does not disturb the stream. *)
Lemma reading_write (s : io H K) f F rest a c :
  reading s f F rest → disjoint a 1 (f_rbuf F) (f_rlen F) →
  reading (with_mem_io (write (mem_of_io s) a [c]) s) f F rest.
Proof.
  intros [HF Hb Hu (bs & i & Hl & Hp & Hi & Hs & Hu8 & Hr)] Hd. split; [done|done|done|]. exists bs, i. split_and!; try done.
  rewrite mem_with_mem. apply seg_write_disjoint; [|done]. by rewrite <- Hl.
Qed.

(** ** Lines *)

(** The bytes up to and including the first newline, at most [k] of them. *)
Fixpoint first_line (k : nat) (rest : list Z) : list Z :=
  match k, rest with
  | S k', c :: rest' => if c =? 10 then [c] else c :: first_line k' rest'
  | _, _ => []
  end.

Lemma first_line_length k rest : (length (first_line k rest) ≤ k)%nat.
Proof. revert rest. induction k as [|k IH]; intros [|c rest]; simpl; try lia. case_match; simpl; [lia|]. specialize (IH rest). lia. Qed.

Lemma reading_head (s : io H K) f F c rest : reading s f F (c :: rest) → is_u8 c.
Proof.
  intros [_ _ Hu (bs & i & _ & _ & _ & _ & Hu8 & Hr)]. destruct (Z.leb_spec 0 (f_ungot F)).
  - injection Hr as -> _. unfold is_u8 in *. lia.
  - simpl in Hr. assert (c ∈ bs) as Hin by (rewrite <- (take_drop i bs), <- Hr; set_solver). by eapply Forall_forall in Hu8.
Qed.

Lemma fgets_loop_ok d f k : ∀ i (s : io H K) F rest,
  reading s f F rest → f ≠ 0 → 0 ≤ i → mapped (mem_of_io s) (d + i) (Z.of_nat k) →
  disjoint (d + i) (Z.of_nat k) (f_rbuf F) (f_rlen F) →
  let line := first_line k rest in
  ∃ s' F', fgets_loop k d i f s = Some (i + Z.of_nat (length line), s') ∧
    mem_of_io s' = write (mem_of_io s) (d + i) line ∧
    reading s' f F' (drop (length line) rest) ∧ same_buf F F'.
Proof.
  induction k as [|k IH]; intros i s F rest HR Hf Hi Hm Hd line.
  { exists s, F. unfold line. cbn [fgets_loop first_line length write]. rewrite Z.add_0_r, drop_0. split_and!; done. }
  cbn [fgets_loop]. destruct rest as [|c rest]; unfold line; cbn [first_line].
  - destruct (fgetc_nil s f F HR Hf) as (F' & E & HR' & Hsame & _). rewrite (bind_some _ _ _ _ _ E).
    change (EOF =? EOF) with true. cbv iota. exists (with_file f F' s), F'. cbn [length]. rewrite Z.add_0_r. split_and!; done.
  - pose proof (reading_head _ _ _ _ _ HR) as Hc8.
    destruct (fgetc_cons s f F c rest HR Hf) as (F1 & E & HR1 & Hb1 & Hl1). rewrite (bind_some _ _ _ _ _ E).
    rewrite (proj2 (Z.eqb_neq c EOF)) by (unfold is_u8, EOF in *; lia).
    assert (0 < Z.of_nat (S k)) as Hk by lia. destruct (mapped_cons _ _ _ Hk Hm) as [Hm0 Hm1].
    rewrite (bind_some _ _ _ _ _ (pokeb_some (d + i) c (with_file f F1 s) Hm0)), u8_small by done.
    assert (reading (with_mem_io (write (mem_of_io (with_file f F1 s)) (d + i) [c]) (with_file f F1 s)) f F1 rest) as HR2.
    { apply reading_write; [done|]. rewrite Hb1, Hl1. unfold disjoint in *. lia. }
    set (s2 := with_mem_io _ _) in *.
    assert (mem_of_io s2 = write (mem_of_io s) (d + i) [c]) as Hmem by (apply mem_with_mem).
    destruct (c =? 10).
    + exists s2, F1. split_and!; try done.
    + destruct (IH (i + 1) s2 F1 rest HR2 Hf ltac:(lia)) as (s3 & F3 & E3 & Hm3 & HR3 & Hs3).
      { rewrite Hmem. apply mapped_write. replace (d + (i + 1)) with (d + i + 1) by lia.
        by replace (Z.of_nat k) with (Z.of_nat (S k) - 1) by lia. }
      { rewrite Hb1, Hl1. unfold disjoint in *. lia. }
      exists s3, F3. split; [|split; [|split; [done|]]].
      * rewrite E3. cbn [length]. f_equal. f_equal. lia.
      * rewrite Hm3, Hmem. cbn [write]. by replace (d + (i + 1)) with (d + i + 1) by lia.
      * destruct Hs3 as [? ?]. split; congruence.
Qed.

(** *** [getdelim] *)

(** The bytes up to and including the first delimiter. *)
Fixpoint upto (delim : Z) (rest : list Z) : list Z :=
  match rest with
  | [] => []
  | c :: rest' => if c =? delim then [c] else c :: upto delim rest'
  end.

(** The line under construction: [acc] in a block of at least [n] bytes, with
    room for a terminator; the cached file is in another block. *)
Record lining (s : io H K) (f : Z) (F : FILE) (l : list (Z * Z)) (line n : Z) (acc rest : list Z) : Prop := {
  l_reading : reading s f F rest;
  l_cache : ∃ k, (f_rbuf F, k) ∈ l ∧ f_rlen F ≤ k;
  l_block : ∃ cap, held (heap_of s) ((line, cap) :: l) ∧ n ≤ cap;
  l_acc : seg (mem_of_io s) line acc;
  l_bytes : Forall is_u8 acc;
  l_room : Z.of_nat (length acc) < n ≤ 2 * LIMIT
}.

Lemma cache_apart (s : io H K) f F l line n acc rest cap :
  lining s f F l line n acc rest → held (heap_of s) ((line, cap) :: l) → disjoint line cap (f_rbuf F) (f_rlen F).
Proof.
  intros [_ (k & Hk & Hlen) _ _ _ _] Hh. pose proof (held_disjoint _ _ _ _ _ _ Hh Hk) as Hd. unfold disjoint in *. lia.
Qed.

(** One more character, given room for it and the terminator. *)
Lemma lining_push (s : io H K) f F l line n acc rest x :
  lining s f F l line n acc rest → Z.of_nat (length acc) + 1 < n → is_u8 x →
  ∃ s', lift (pokeb (line + Z.of_nat (length acc)) x) s = Some (tt, s') ∧ lining s' f F l line n (acc ++ [x]) rest.
Proof.
  intros HL Hroom Hx. destruct (l_block _ _ _ _ _ _ _ _ HL) as (cap & Hh & Hcap).
  pose proof (cache_apart _ _ _ _ _ _ _ _ _ HL Hh) as Hd.
  destruct (held_block _ _ line cap Hh ltac:(set_solver)) as (_ & _ & _ & _ & Hm).
  eexists. split; [apply pokeb_some, Hm; lia|]. destruct HL as [HR Hca _ Ha Hu Hr].
  rewrite u8_small by done. split.
  - apply reading_write; [done|]. unfold disjoint in *. lia.
  - done.
  - exists cap. split; [|done]. by apply (held_write _ _ (line + Z.of_nat (length acc)) [x]).
  - rewrite mem_with_mem, seg_app. split; [apply seg_write_disjoint; [unfold disjoint; simpl; lia|done]|apply seg_write].
  - by rewrite Forall_app, Forall_singleton.
  - rewrite length_app. simpl. lia.
Qed.

(** The terminator. *)
Lemma lining_end (s : io H K) f F l line n acc rest :
  lining s f F l line n acc rest →
  ∃ s' cap, lift (pokeb (line + Z.of_nat (length acc)) 0) s = Some (tt, s') ∧ reading s' f F rest ∧
    held (heap_of s') ((line, cap) :: l) ∧ n ≤ cap ∧ seg (mem_of_io s') line (acc ++ [0]).
Proof.
  intros HL. destruct (l_block _ _ _ _ _ _ _ _ HL) as (cap & Hh & Hcap).
  pose proof (cache_apart _ _ _ _ _ _ _ _ _ HL Hh) as Hd.
  destruct (held_block _ _ line cap Hh ltac:(set_solver)) as (_ & _ & _ & _ & Hm). destruct HL as [HR Hca _ Ha Hu Hr].
  eexists. exists cap. split; [apply pokeb_some, Hm; lia|]. change (u8 0) with 0. split_and!.
  - apply reading_write; [done|]. unfold disjoint in *. lia.
  - by apply (held_write _ _ (line + Z.of_nat (length acc)) [0]).
  - done.
  - rewrite mem_with_mem, seg_app. split; [apply seg_write_disjoint; [unfold disjoint; simpl; lia|done]|apply seg_write].
Qed.

Lemma lining_file (s : io H K) f F F' l line n acc rest rest' :
  lining s f F l line n acc rest → reading (with_file f F' s) f F' rest' → same_buf F F' →
  lining (with_file f F' s) f F' l line n acc rest'.
Proof. intros [HR (k & Hk & Hl) Hb Ha Hu Hr] HR' [Eb El]. split; try done. exists k. by rewrite Eb, El. Qed.

(** More room: the same line in a larger block, or nothing changed. *)
Lemma lining_grow (s : io H K) f F l line n acc rest :
  lining s f F l line n acc rest → n ≤ Z.of_nat (length acc) + 1 → Z.of_nat (length acc) < LIMIT →
  grow_line line n s = Some ((false, line, n), with_errno_io ENOMEM s) ∨
  ∃ line' s', grow_line line n s = Some ((true, line', n * 2), s') ∧ lining s' f F l line' (n * 2) acc rest ∧
    Z.of_nat (length acc) + 1 < n * 2.
Proof.
  intros HL Hfull Hlim. destruct (l_block _ _ _ _ _ _ _ _ HL) as (cap & Hh & Hcap).
  pose proof (l_room _ _ _ _ _ _ _ _ HL) as Hr. unfold grow_line, LIMIT in *. rewrite u32_small by (unfold is_u32; lia).
  destruct (realloc_law _ _ _ _ (n * 2) Hh ltac:(unfold MAX_REQUEST; lia)) as [E|(q & k & h & E & Hk & Hh' & Hkeep & Hcopy)].
  - left. assert (lift (c_realloc line (n * 2)) s = Some (0, with_heap_io (heap_of s) s)) as E'
      by (apply lift_some; unfold c_realloc; fold (heap_of s); by rewrite E).
    rewrite (bind_some _ _ _ _ _ E'). by destruct s as [[]].
  - right. assert (lift (c_realloc line (n * 2)) s = Some (q, with_heap_io h s)) as E'
      by (apply lift_some; unfold c_realloc; fold (heap_of s); by rewrite E).
    rewrite (bind_some _ _ _ _ _ E'). pose proof (held_first _ _ _ _ Hh'). zb_false (q =? 0).
    exists q, (with_heap_io h s). split; [done|]. split; [|lia]. destruct HL as [HR (kc & Hkc & Hlc) _ Ha Hu _].
    split; [|by exists kc|by exists k| |done|unfold LIMIT; lia].
    + destruct HR as [HF Hb Hug (bs & i & Hl & Hp & Hi & Hs & Hu8 & Hrest)]. split; [done|done|done|]. exists bs, i. split_and!; try done.
      eapply seg_lookup_eq; [|exact Hs]. intros x Hx. apply Hkeep. right. exists (f_rbuf F), kc. split; [done|lia].
    + intros j b Hjb. pose proof (lookup_lt_Some _ _ _ Hjb).
      apply (Hcopy (Z.of_nat j) b); [lia|lia|by apply Ha|by eapply Forall_lookup_1].
Qed.

(** What [getdelim] leaves behind when it has read [text]: the line with its
    terminator in a block of its own, the stream after it. *)
Definition got_line (s : io H K) (f : Z) (l : list (Z * Z)) (line n : Z) (text rest : list Z) : Prop :=
  ∃ F cap, reading s f F rest ∧ held (heap_of s) ((line, cap) :: l) ∧ n ≤ cap ∧ seg (mem_of_io s) line (text ++ [0]).

Lemma getdelim_loop_ok delim l f k : ∀ (s : io H K) F line n acc rest,
  lining s f F l line n acc rest → f ≠ 0 → (length rest < k)%nat → Z.of_nat (length acc + length rest) ≤ LIMIT →
  ∃ r line' n' s', getdelim_loop k line n (Z.of_nat (length acc)) delim f s = Some ((r, line', n'), s') ∧
    ((r = -1 ∧ acc ++ rest = [] ∧ line' = line ∧ n' = n) ∨ (r = -1 ∧ acc ++ rest ≠ [] ∧ errno_of s' = ENOMEM) ∨
     (r = Z.of_nat (length (acc ++ upto delim rest)) ∧ acc ++ rest ≠ [] ∧
      got_line s' f l line' n' (acc ++ upto delim rest) (drop (length (upto delim rest)) rest))).
Proof.
  induction k as [|k IH]; intros s F line n acc rest HL Hf Hk Hlim; [lia|]. cbn [getdelim_loop].
  destruct rest as [|c rest].
  - destruct (fgetc_nil s f F (l_reading _ _ _ _ _ _ _ _ HL) Hf) as (F' & E & HR' & Hsame & _).
    pose proof (lining_file _ _ _ _ _ _ _ _ _ _ HL HR' Hsame) as HL'.
    rewrite (bind_some _ _ _ _ _ E). change (EOF =? EOF) with true. cbv iota. cbn [upto]. rewrite !app_nil_r.
    destruct (Z.eqb_spec (Z.of_nat (length acc)) 0) as [Hz|Hz].
    + do 4 eexists. split; [done|]. left. by destruct acc.
    + destruct (lining_end _ _ _ _ _ _ _ _ HL') as (s2 & cap & E2 & HR2 & Hh2 & Hcap & Hseg).
      rewrite (bind_some _ _ _ _ _ E2). do 4 eexists. split; [done|]. right. right.
      split; [done|]. split; [by intros ->|]. exists F', cap. done.
  - pose proof (reading_head _ _ _ _ _ (l_reading _ _ _ _ _ _ _ _ HL)) as Hc8.
    destruct (fgetc_cons s f F c rest (l_reading _ _ _ _ _ _ _ _ HL) Hf) as (F1 & E & HR1 & Hsame).
    pose proof (lining_file _ _ _ _ _ _ _ _ _ _ HL HR1 Hsame) as HL1. rewrite (bind_some _ _ _ _ _ E).
    rewrite (proj2 (Z.eqb_neq c EOF)) by (unfold is_u8, EOF in *; lia). set (s1 := with_file f F1 s) in *.
    assert (acc ++ c :: rest ≠ []) as Hne by (by destruct acc). cbn [length] in Hlim, Hk. unfold LIMIT in Hlim.
    rewrite u32_small by (unfold is_u32; lia).
    assert ((if n <=? Z.of_nat (length acc) + 1 then grow_line line n else ret (true, line, n)) s1 =
              Some ((false, line, n), with_errno_io ENOMEM s1) ∨
            ∃ line2 n2 s2, (if n <=? Z.of_nat (length acc) + 1 then grow_line line n else ret (true, line, n)) s1 =
              Some ((true, line2, n2), s2) ∧ lining s2 f F1 l line2 n2 acc rest ∧ Z.of_nat (length acc) + 1 < n2) as Hg.
    { destruct (Z.leb_spec n (Z.of_nat (length acc) + 1)) as [Hn|Hn].
      - destruct (lining_grow _ _ _ _ _ _ _ _ HL1 Hn ltac:(unfold LIMIT; lia)) as [?|(line2 & s2 & ? & ? & ?)]; [by left|].
        right. by exists line2, (n * 2), s2.
      - right. by exists line, n, s1. }
    destruct Hg as [Eg|(line2 & n2 & s2 & Eg & HL2 & Hroom)]; rewrite (bind_some _ _ _ _ _ Eg); cbv beta iota.
    { do 4 eexists. split; [done|]. right. left. done. }
    destruct (lining_push _ _ _ _ _ _ _ _ _ HL2 Hroom Hc8) as (s3 & E3 & HL3). rewrite (bind_some _ _ _ _ _ E3).
    cbn [upto]. destruct (c =? delim).
    + destruct (lining_end _ _ _ _ _ _ _ _ HL3) as (s4 & cap & E4 & HR4 & Hh4 & Hcap & Hseg).
      rewrite length_app in E4. cbn [length] in E4. rewrite Nat2Z.inj_add in E4. rewrite (bind_some _ _ _ _ _ E4).
      do 4 eexists. split; [done|]. right. right. cbn [length drop]. rewrite length_app. split; [simpl; lia|]. split; [done|].
      exists F1, cap. done.
    + destruct (IH s3 F1 line2 n2 (acc ++ [c]) rest HL3 Hf) as (r & line' & n' & s4 & E4 & Hcase).
      { lia. } { rewrite length_app. unfold LIMIT. simpl. lia. }
      rewrite length_app in E4. cbn [length] in E4. rewrite Nat2Z.inj_add in E4.
      change (Z.of_nat 1) with 1 in E4. rewrite E4.
      exists r, line', n', s4. split; [done|]. rewrite <- app_assoc in Hcase. cbn [app] in Hcase. cbn [length drop].
      destruct Hcase as [(? & Hbad & _)|[(? & _ & ?)|(-> & _ & Hgot)]]; [by destruct acc|right; left; done|].
      right. right. rewrite <- app_assoc in Hgot. cbn [app] in Hgot. rewrite <- app_assoc. done.
Qed.

(** ** Claims *)

(** [C30] [fgets] over a read stream: the bytes up to the first newline, cut to
    [size - 1], are stored with a terminator and nothing else is written; the
    stream continues after them; NULL exactly when there is nothing to store. *)
Theorem fgets_line (s : io H K) f F rest d size :
  reading s f F rest → f ≠ 0 → d ≠ 0 → 0 < size → mapped (mem_of_io s) d size →
  disjoint d size (f_rbuf F) (f_rlen F) →
  let line := first_line (Z.to_nat (size - 1)) rest in
  ∃ s' F', reading s' f F' (drop (length line) rest) ∧
    (line = [] → fgets d size f s = Some (0, s') ∧ mem_of_io s' = mem_of_io s) ∧
    (line ≠ [] → fgets d size f s = Some (d, s') ∧ mem_of_io s' = write (mem_of_io s) d (line ++ [0])).
Proof.
  intros HR Hf Hd Hs Hm Hdis line. unfold fgets. zb_false (d =? 0). zb_false (size <=? 0). zb_false (f =? 0). cbn [orb].
  destruct (fgets_loop_ok d f (Z.to_nat (size - 1)) 0 s F rest HR Hf) as (s1 & F1 & E & Hm1 & HR1 & Hb1 & Hl1).
  { lia. } { eapply mapped_weaken; [exact Hm|lia|lia]. } { unfold disjoint in *. lia. }
  fold line in E, Hm1, HR1. rewrite Z.add_0_l in E. rewrite Z.add_0_r in Hm1. rewrite (bind_some _ _ _ _ _ E).
  pose proof (first_line_length (Z.to_nat (size - 1)) rest) as Hlen. fold line in Hlen.
  destruct (decide (line = [])) as [Hz|Hz].
  - rewrite Hz in *. cbn [length Z.of_nat] in *. change (0 =? 0) with true. cbv iota. exists s1, F1. done.
  - assert (Z.of_nat (length line) ≠ 0) as Hne by (destruct line; [done|simpl; lia]).
    rewrite (proj2 (Z.eqb_neq _ _) Hne).
    assert (is_Some (mem_of_io s1 !! (d + Z.of_nat (length line)))) as Hend
      by (rewrite Hm1; apply (mapped_write _ _ _ _ _ Hm); lia).
    rewrite (bind_some _ _ _ _ _ (pokeb_some _ 0 _ Hend)).
    exists (with_mem_io (write (mem_of_io s1) (d + Z.of_nat (length line)) [0]) s1), F1.
    split; [apply reading_write; [exact HR1|rewrite Hb1, Hl1; unfold disjoint in *; lia]|]. split; [done|]. intros _.
    split; [done|]. rewrite mem_with_mem, Hm1, write_app. done.
Qed.

(** [C15] [getline] reads a whole line of any length: it returns -1 exactly at the
    end of the input or when memory runs out, and otherwise the length of the
    line, delimiter included, with the line and its terminator in the caller's
    block, which has been grown as far as needed; the stream continues after
    the line and every other block is untouched. *)
Theorem getdelim_line (s : io H K) f F l line n rest delim bound :
  lining s f F l line n [] rest → f ≠ 0 → line ≠ 0 → n ≠ 0 → (length rest < bound)%nat →
  Z.of_nat (length rest) ≤ LIMIT →
  ∃ r line' n' s', getdelim bound (Some (line, n)) delim f s = Some ((r, Some (line', n')), s') ∧
    ((r = -1 ∧ rest = []) ∨ (r = -1 ∧ rest ≠ [] ∧ errno_of s' = ENOMEM) ∨
     (r = Z.of_nat (length (upto delim rest)) ∧ rest ≠ [] ∧
      got_line s' f l line' n' (upto delim rest) (drop (length (upto delim rest)) rest))).
Proof.
  intros HL Hf Hline Hn Hb Hlim. unfold getdelim. zb_false (f =? 0). zb_false (line =? 0). zb_false (n =? 0). cbn [orb].
  rewrite bind_ret. zb_false (line =? 0).
  destruct (getdelim_loop_ok delim l f bound s F line n [] rest HL Hf Hb Hlim) as (r & line' & n' & s' & E & Hcase).
  rewrite (bind_some _ _ _ _ _ E). exists r, line', n', s'. split; [done|]. cbn [app] in Hcase. naive_solver.
Qed.

Lemma ftell_ok (s : io H K) f F : io_files s !! f = Some F → f ≠ 0 → f_rbuf F ≠ 0 → is_i32 (f_rpos F) →
  ftell f s = Some (f_rpos F, s).
Proof.
  intros HF Hf Hb Hp. unfold ftell. zb_false (f =? 0). rewrite (bind_some _ _ _ _ _ (file_some _ _ _ HF)).
  zb_false (f_rbuf F =? 0). cbn [negb]. by rewrite i32_small.
Qed.

(** A position refused: the stream is as it was, without a pushed-back character. *)
Lemma fseek_refused (s : io H K) f F bs i :
  f ≠ 0 → f_rbuf F ≠ 0 → f_rlen F = Z.of_nat (length bs) → f_rpos F = Z.of_nat i →
  (i ≤ length bs)%nat → seg (mem_of_io s) (f_rbuf F) bs → Forall is_u8 bs → Z.of_nat (length bs) < 2147483648 →
  let F1 := set_eof 0 (set_ungot (-1) F) in
  let s' := with_errno_io EINVAL (with_file f F1 s) in
  ftell f s' = Some (Z.of_nat i, s') ∧ reading s' f F1 (drop i bs).
Proof.
  intros Hf Hb Hl Hp Hi Hs Hu Hlim F1 s'. split.
  - replace (Z.of_nat i) with (f_rpos F1) by exact Hp.
    apply ftell_ok; [apply files_with_file|done|done|]. change (f_rpos F1) with (f_rpos F). rewrite Hp. unfold is_i32. lia.
  - split; [apply files_with_file|done|by left|]. exists bs, i. done.
Qed.

(** Positions of a read stream: [fseek] accepts exactly the targets from the
    start of the file to its end, and then [ftell] reports the target and the
    next bytes read are those at it; any other target is refused with [EINVAL]
    and the position is kept.  A pushed-back character is dropped either way. *)
Theorem fseek_ftell (s : io H K) f F bs i offset :
  io_files s !! f = Some F → f ≠ 0 → f_rbuf F ≠ 0 → f_rlen F = Z.of_nat (length bs) → f_rpos F = Z.of_nat i →
  (i ≤ length bs)%nat → seg (mem_of_io s) (f_rbuf F) bs → Forall is_u8 bs → Z.of_nat (length bs) < 2147483648 →
  is_i32 offset →
  ∃ r s' F', fseek f offset SEEK_SET s = Some (r, s') ∧
    if (0 <=? offset) && (offset <=? Z.of_nat (length bs))
    then r = 0 ∧ ftell f s' = Some (offset, s') ∧ reading s' f F' (drop (Z.to_nat offset) bs)
    else r = -1 ∧ errno_of s' = EINVAL ∧ ftell f s' = Some (Z.of_nat i, s') ∧ reading s' f F' (drop i bs).
Proof.
  intros HF Hf Hb Hl Hp Hi Hs Hu Hlim Ho. unfold fseek. zb_false (f =? 0).
  rewrite (bind_some _ _ _ _ _ (modify_some f F _ s HF)). set (F1 := set_eof 0 (set_ungot (-1) F)).
  rewrite (bind_some _ _ _ _ _ (file_some f F1 _ (files_with_file _ _ _))).
  change (f_rbuf F1) with (f_rbuf F). change (f_rlen F1) with (f_rlen F). zb_false (f_rbuf F =? 0).
  change (SEEK_SET =? SEEK_SET) with true. cbn [negb]. cbv iota. unfold is_i32 in Ho.
  destruct (Z.leb_spec 0 offset) as [Hge|Hlt].
  - rewrite (proj2 (Z.ltb_ge _ _) Hge), u32_small, Hl by (unfold is_u32; lia). cbn [orb andb].
    destruct (Z.leb_spec offset (Z.of_nat (length bs))) as [Hle|Hgt].
    + rewrite (proj2 (Z.ltb_ge _ _) Hle). exists 0, (with_file f (set_rpos offset F1) (with_file f F1 s)), (set_rpos offset F1).
      split; [rewrite (bind_some _ _ _ _ _ (put_file_some _ _ _)); done|]. split; [done|]. split.
      * apply (ftell_ok _ f (set_rpos offset F1)); [apply files_with_file|done|done|]. unfold is_i32. cbn. lia.
      * split; [apply files_with_file|done|by left|]. exists bs, (Z.to_nat offset). cbn. split_and!; try done; lia.
    + rewrite (proj2 (Z.ltb_lt _ _) Hgt).
      exists (-1). eexists. exists F1. split; [rewrite (bind_some _ _ _ _ _ (set_errno_some _ _)); done|].
      split; [done|]. split; [done|]. by apply fseek_refused.
  - rewrite (proj2 (Z.ltb_lt _ _) Hlt). cbn [orb andb].
    exists (-1). eexists. exists F1. split; [rewrite (bind_some _ _ _ _ _ (set_errno_some _ _)); done|].
    split; [done|]. split; [done|]. by apply fseek_refused.
Qed.
End reading.

(** ** The console *)

(** Carriage returns before newlines. *)
Definition crlf (s : list Z) : list Z := concat (map (λ c, if c =? 10 then [13; 10] else [c]) s).

Lemma crlf_cons c s : crlf (c :: s) = (if c =? 10 then [13; 10] else [c]) ++ crlf s.
Proof. done. Qed.

Lemma crlf_fold acc s :
  (length acc + length (crlf s) < CRLF_SIZE)%nat → foldl crlf_step acc s = acc ++ crlf s.
Proof.
  revert acc. induction s as [|c s IH]; intros acc Hl; [by rewrite app_nil_r|].
  cbn [foldl]. rewrite crlf_cons in *. unfold crlf_step at 2. unfold CRLF_SIZE in *.
  destruct (c =? 10); cbn [app length] in Hl.
  - rewrite bool_decide_eq_true_2 by lia. cbn [andb]. rewrite IH by (rewrite length_app; simpl; lia). by rewrite <- app_assoc.
  - cbn [andb]. rewrite decide_True by (simpl; lia). rewrite IH by (rewrite length_app; simpl; lia). by rewrite <- app_assoc.
Qed.

(** Text without newlines is cut to what the buffer holds. *)
Lemma crlf_cut acc s :
  Forall (λ c, c ≠ 10) s → (length acc ≤ CRLF_SIZE - 1)%nat →
  foldl crlf_step acc s = take (CRLF_SIZE - 1) (acc ++ s).
Proof.
  intros Hs. revert acc. induction Hs as [|c s Hc Hs IH]; intros acc Hl; cbn [foldl].
  - rewrite app_nil_r, take_ge by done. done.
  - unfold crlf_step at 2. zb_false (c =? 10). cbn [andb]. case_decide as Hd.
    + rewrite IH by (rewrite length_app; cbn [length]; lia). by rewrite <- app_assoc.
    + rewrite IH by done. rewrite !(take_app_le acc) by lia. done.
Qed.

Section console.
Context {H K : Type} `{AllocatorLaws H} `{Kernel K}.
#[local] Set Default Proof Using "Type*".

(** Text on a console stream: when the text fits the buffer after newline
    expansion, [fwrite] makes one [SYS_WRITE] of exactly the expanded text to
    descriptor 1, falls back on [SYS_PRINT] only when not all of it was taken,
    and reports all of its bytes as written. *)
Theorem console_text (s : io H K) f F bs r rs k :
  io_files s !! f = Some F → f ≠ 0 → f_is_console F ≠ 0 → bs ≠ [] → (length (crlf bs) < CRLF_SIZE)%nat →
  int80 (SYS_WRITE 1 (crlf bs)) (kern_of s) = (r, rs, k) →
  fwrite (Local bs) 1 (Z.of_nat (length bs)) f s =
    Some (Z.of_nat (length bs),
          with_kern_io (if i32 r =? Z.of_nat (length (crlf bs)) then k
                        else snd (int80 (SYS_PRINT (until_nul (crlf bs))) k)) s).
Proof.
  intros HF Hf Hc Hne Hl E. assert (length bs ≤ length (crlf bs))%nat as Hle.
  { clear. induction bs as [|c bs IH]; [done|]. rewrite crlf_cons, length_app. simpl. case_match; simpl; lia. }
  unfold CRLF_SIZE in *. unfold fwrite. zb_false (f =? 0). change (1 =? 0) with false. cbn [orb].
  rewrite (proj2 (Z.eqb_neq (Z.of_nat (length bs)) 0)) by (destruct bs; [done|simpl; lia]).
  rewrite (bind_some _ _ _ _ _ (file_some _ _ _ HF)). zb_false (f_is_console F =? 0). cbn [negb].
  rewrite Z.mul_1_l, u32_small by (unfold is_u32; lia). cbn [bytes_at]. rewrite Nat2Z.id, decide_True, take_ge by lia.
  rewrite bind_ret. unfold console_write. rewrite (crlf_fold [] bs) by (simpl; unfold CRLF_SIZE; lia). cbn [app].
  rewrite decide_True by (unfold CRLF_SIZE; lia). unfold bindM at 1. rewrite (bind_some _ _ _ _ _ (syscall_some _ _ _ _ _ E)). cbn [fst].
  destruct (i32 r =? Z.of_nat (length (crlf bs))); [done|].
  destruct (int80 (SYS_PRINT (until_nul (crlf bs))) k) as [[r2 rs2] k2] eqn:E2.
  rewrite (bind_some _ _ _ _ _ (syscall_some _ (with_kern_io k s) _ _ _ E2)). done.
Qed.

(** The limits of the console buffer: 256 newlines in one call fill all 512
    bytes and the terminator is stored past the end of the array; and of a text
    of 512 bytes or more without newlines only the first 511 are sent, although
    [fwrite] (and with it [fputs] and [puts]) reports all of them as written. *)
Theorem console_limits (s : io H K) :
  console_write (replicate 256 10) s = None ∧
  (∀ f F bs rs k, io_files s !! f = Some F → f ≠ 0 → f_is_console F ≠ 0 → Forall (λ c, c ≠ 10) bs →
     512 ≤ Z.of_nat (length bs) < 4294967296 → int80 (SYS_WRITE 1 (take 511 bs)) (kern_of s) = (511, rs, k) →
     fwrite (Local bs) 1 (Z.of_nat (length bs)) f s = Some (Z.of_nat (length bs), with_kern_io k s)).
Proof.
  split; [done|]. intros f F bs rs k HF Hf Hc Hn Hl E. unfold fwrite. zb_false (f =? 0). change (1 =? 0) with false. cbn [orb].
  rewrite (proj2 (Z.eqb_neq (Z.of_nat (length bs)) 0)) by lia.
  rewrite (bind_some _ _ _ _ _ (file_some _ _ _ HF)). zb_false (f_is_console F =? 0). cbn [negb].
  rewrite Z.mul_1_l, u32_small by (unfold is_u32; lia). cbn [bytes_at]. rewrite Nat2Z.id, decide_True, take_ge by lia.
  rewrite bind_ret. unfold console_write. rewrite (crlf_cut [] bs Hn) by (unfold CRLF_SIZE; simpl; lia). cbn [app].
  change (CRLF_SIZE - 1)%nat with 511%nat.
  assert (length (take 511 bs) = 511%nat) as Hlen by (rewrite length_take; lia).
  rewrite Hlen, decide_True by (unfold CRLF_SIZE; lia). unfold bindM at 1. rewrite (bind_some _ _ _ _ _ (syscall_some _ _ _ _ _ E)).
  cbn [fst]. change (i32 511) with 511. rewrite Z.eqb_refl. done.
Qed.
End console.

(** ** Witnesses *)

(** A file store: [SYS_FWRITE] replaces a file, [SYS_WRITE] takes everything. *)
Abbreviation disk := (gmap (list Z) (list Z)).
Definition disk_int80 (c : syscall) (k : disk) : Z * list Z * disk :=
  match c with
  | SYS_FWRITE path bs _ => (0, [], <[path := bs]> k)
  | SYS_WRITE _ bs => (Z.of_nat (length bs), [], k)
  | _ => (0, [], k)
  end.
#[local] Instance disk_kernel : Kernel disk := {| int80 := disk_int80 |}.
#[local] Instance disk_store : FileStore disk.
Proof. refine {| stored := id |}. intros k path bs type r rs k' [= <- <- <-] _. done. Defined.
#[local] Instance disk_laws : AllocatorLaws (heap Z) := heap_laws HEAP_FLOOR.

(** A stream at 4096 that writes to [/a]. *)
Definition out_file : FILE := set_path (lit "/a") (new_file 3 O_WRONLY).
Definition out_io : io (heap Z) disk := Io (Proc task0 ∅ 0) {[4096 := out_file]} [] [] (-2) 0.

Lemma out_writing : writing out_io 4096 out_file [] [].
Proof.
  split; [done|done|done|done|]. left. split; [done|]. split; [done|]. split; [done|].
  exists []. split; [exact task_init_rep|]. done.
Qed.


Lemma second_flush_drops_the_first_witness :
  ∃ n1 n2 s',
    (n1 <- fwrite (Local (lit "ab")) 1 (Z.of_nat (length (lit "ab"))) 4096;; r1 <- fflush 4096;;
     n2 <- fwrite (Local (lit "c")) 1 (Z.of_nat (length (lit "c"))) 4096;; r2 <- fflush 4096;; ret (n1, r1, n2, r2)) out_io =
      Some ((n1, 0, n2, 0), s') ∧
    0 ≤ n2 ≤ Z.of_nat (length (lit "c")) ∧
    (0 < n2 → stored (kern_of s') !! lit "/a" = Some (take (Z.to_nat n2) (lit "c"))).
Proof.
  apply (second_flush_drops_the_first out_io 4096 out_file [] (lit "ab") (lit "c") out_writing); try (vm_compute; congruence).
  - repeat constructor; vm_compute; congruence.
  - repeat constructor; vm_compute; congruence.
Defined.

(** A stream at 4096 over the nine bytes cached at 5246992, in a heap with two
    blocks. *)
Definition text : list Z := lit "one" ++ [10] ++ lit "two" ++ [10] ++ lit "x".
Definition in_file : FILE := set_rbuf 5246992 9 0 (new_file 3 O_RDONLY).
Definition in_io (h : heap Z) : io (heap Z) disk := Io (Proc h ∅ 0) {[4096 := in_file]} [] [] (-2) 0.

Lemma two_blocks : ∃ h : heap Z, heap_held HEAP_FLOOR h [(5247112, 8); (5246992, 104)] ∧
  seg (ram h) 5246992 text.
Proof.
  destruct task_first_block as (s1 & _ & Hr1).
  pose proof (malloc_rep HEAP_FLOOR s1 _ 8 Hr1 ltac:(unfold MAX_REQUEST; lia)) as Hm.
  destruct Hm as (s2 & _ & Hr2 & _).
  exists (with_ram s2 (write (ram s2) 5246992 text)). split; [|apply seg_write].
  exists [(104, true); (8, true); (3936, false)]. split; [apply rep_with_ram; exact Hr2|]. split; [split; [by left|]; split; [by left|exact I]|].
  apply Permutation_swap.
Qed.

Lemma in_reading h : seg (ram h) 5246992 text → reading (in_io h) 4096 in_file text.
Proof.
  intros Hs. split; [done|done|by left|]. exists text, 0%nat. split_and!; try done; [simpl; lia|].
  repeat constructor; vm_compute; congruence.
Qed.

Lemma fgets_line_witness : ∃ h : heap Z, ∃ s' F', reading s' 4096 F' (lit "two" ++ [10] ++ lit "x") ∧
  fgets 5247112 8 4096 (in_io h) = Some (5247112, s') ∧
  mem_of_io s' = write (ram h) 5247112 (lit "one" ++ [10; 0]).
Proof.
  destruct two_blocks as (h & Hh & Hs). exists h.
  destruct (fgets_line (in_io h) 4096 in_file text 5247112 8 (in_reading h Hs)) as (s' & F' & HR & _ & Hl); try lia.
  - apply (heap_held_block _ _ _ _ _ Hh). apply list_elem_of_here.
  - unfold disjoint. cbn. lia.
  - exists s', F'. split; [exact HR|]. apply Hl. done.
Defined.

Lemma getdelim_line_witness : ∃ h : heap Z, ∃ r line' n' s',
  getline 10 (Some (5247112, 2)) 4096 (in_io h) = Some ((r, Some (line', n')), s') ∧
  ((r = -1 ∧ text = []) ∨ (r = -1 ∧ text ≠ [] ∧ errno_of s' = ENOMEM) ∨
   (r = Z.of_nat (length (upto 10 text)) ∧ text ≠ [] ∧
    got_line s' 4096 [(5246992, 104)] line' n' (upto 10 text) (drop (length (upto 10 text)) text))).
Proof.
  destruct two_blocks as (h & Hh & Hs). exists h.
  refine (getdelim_line (in_io h) 4096 in_file [(5246992, 104)] 5247112 2 text 10 10 _ _ _ _ _ _); try (simpl; lia).
  - split; [by apply in_reading| | |apply seg_nil|done|unfold LIMIT; simpl; lia].
    + exists 104. split; [apply list_elem_of_here|cbn; lia].
    + exists 8. split; [exact Hh|lia].
  - vm_compute. congruence.
Defined.

Lemma fseek_ftell_witness : ∃ h : heap Z, ∃ r s' F', fseek 4096 4 SEEK_SET (in_io h) = Some (r, s') ∧
  (r = 0 ∧ ftell 4096 s' = Some (4, s') ∧ reading s' 4096 F' (lit "two" ++ [10] ++ lit "x")).
Proof.
  destruct two_blocks as (h & Hh & Hs). exists h.
  apply (fseek_ftell (in_io h) 4096 in_file text 0 4); try done; try (cbn; lia).
  - repeat constructor; vm_compute; congruence.
Defined.

Definition con_io : io (heap Z) disk := Io (Proc task0 ∅ 0) {[8 := console_file 1 O_WRONLY 1]} [] [] (-2) 0.

Lemma console_text_witness :
  fwrite (Local (lit "a" ++ [10])) 1 2 8 con_io = Some (2, with_kern_io ∅ con_io).
Proof.
  exact (console_text con_io 8 (console_file 1 O_WRONLY 1) (lit "a" ++ [10]) 3 [] ∅ eq_refl ltac:(lia) ltac:(cbn; lia)
           ltac:(done) ltac:(unfold CRLF_SIZE; simpl; lia) eq_refl).
Defined.

Lemma console_limits_witness :
  console_write (replicate 256 10) con_io = None ∧
  fwrite (Local (replicate 600 65)) 1 (Z.of_nat (length (replicate 600 65))) 8 con_io =
    Some (Z.of_nat (length (replicate 600 65)), with_kern_io ∅ con_io).
Proof.
  destruct (console_limits con_io) as [H1 H2]. split; [exact H1|].
  refine (H2 8 (console_file 1 O_WRONLY 1) (replicate 600 65) [] ∅ eq_refl _ _ _ _ _); [lia|cbn; lia| |vm_compute; split; congruence|].
  - by apply Forall_replicate.
  - vm_compute. reflexivity.
Defined.
