(* ===== verification/FileRead.v ===== *)
(** * Reading a file through a stream

    [fopen] with mode ["rb"], [fread] in chunks and [fclose], against what the
    kernel promises about files ([FileDisk]) and the heap about blocks
    ([AllocatorLaws]): a stream that [fopen] has given a cache reads the contents
    of the file.  The programs that read files are proved on top of this. *)

From S2P Require Import Prelude CMem CString CStdlib Alloc Sys Posix Stream StreamSpec.

(** The kernel's files: of a file that exists the size and the contents are
    answered, and neither this nor opening it (which may fail: descriptors run
    out) changes what the files are. *)
Class FileDisk (K : Type) `{Kernel K} := {
  obs_t : Type;
  obs : K → obs_t;                             (* what a program can find out *)
  contents : obs_t → list Z → option (list Z);   (* the files by name *)
  open_law : ∀ k path bs, contents (obs k) path = Some bs →
    obs (snd (int80 (SYS_OPEN (Some path) 0) k)) = obs k;
  stat_law : ∀ k path bs, contents (obs k) path = Some bs →
    ∃ r rs k', int80 (SYS_STAT (Some path)) k = (r, rs, k') ∧ 0 ≤ i32 r ∧ word_of rs = Z.of_nat (length bs) ∧ obs k' = obs k;
  fread_law : ∀ k path bs, contents (obs k) path = Some bs →
    ∃ r k', int80 (SYS_FREAD (Some path)) k = (r, bs, k') ∧ i32 r = Z.of_nat (length bs) ∧ obs k' = obs k;
  close_law : ∀ k fd, obs (snd (int80 (SYS_CLOSE fd) k)) = obs k;
  geterrno_law : ∀ k, obs (snd (int80 SYS_GETERRNO k)) = obs k;
}.

Section open.
Context {H K : Type} `{AllocatorLaws H} `{FileDisk K}.
#[local] Set Default Proof Using "Type*".
Abbreviation IO := (M (io H K)).

Lemma kernel_step c (s : io H K) : ∃ r bs k, lift (mv_syscall c) s = Some ((i32 r, bs), with_kern_io k s) ∧ int80 c (kern_of s) = (r, bs, k).
Proof. destruct (int80 c (kern_of s)) as [[r bs] k] eqn:E. exists r, bs, k. split; [by apply syscall_some|done]. Qed.

(** A string constant or a string of the caller: it stays where it is. *)
Definition string_at (s : io H K) (l : list (Z * Z)) (a : Z) (t : list Z) : Prop :=
  readable s l (At a) (t ++ [0]) ∧ Forall is_char t ∧ a ≠ 0.

Lemma string_cstr s l a t : string_at s l a t → cstr (mem_of_io s) a t.
Proof. intros ([Hs _] & Hc & _). by split. Qed.

Lemma path_some s l a t : string_at s l a t → lift (path_at a) s = Some (Some t, s).
Proof.
  intros Hs%string_cstr%cstring_ok. rewrite (lift_some _ _ (Some t) (io_proc s)); [by destruct s|].
  unfold path_at. fold (mem_of_io s). by rewrite Hs.
Qed.

Lemma string_keeps s s' l a t : keeps a_base l (heap_of s) (heap_of s') → string_at s l a t → string_at s' l a t.
Proof.
  intros Hk ([Hs Hx] & Hc & Ha). split_and!; [|done|done]. split; [|done]. eapply seg_lookup_eq; [|exact Hs].
  intros x Hr. apply Hk. by apply Hx.
Qed.

Lemma keeps_trans l (h1 h2 h3 : H) : keeps a_base l h1 h2 → keeps a_base l h2 h3 → keeps a_base l h1 h3.
Proof. intros H12 H23 x Hx. by rewrite H23, H12. Qed.

Lemma keeps_sub l x (h1 h2 : H) : keeps a_base (x :: l) h1 h2 → keeps a_base l h1 h2.
Proof. intros Hk y [Hy|(p & n & Hin & Hy)]; apply Hk; [by left|]. right. exists p, n. split; [by right|done]. Qed.

(** Writing into a block of its own. *)
Lemma keeps_write p n l (h : H) bs : held h ((p, n) :: l) → Z.of_nat (length bs) ≤ n →
  keeps a_base l h (a_set h (write (a_mem h) p bs)).
Proof.
  intros Hh Hn x Hx. rewrite a_mem_set. destruct (held_block _ _ p n Hh) as (Hb & _); [by left|].
  assert (¬ (p ≤ x < p + Z.of_nat (length bs))) as Hout.
  { destruct Hx as [Hx|(q & k & Hin & Hx)]; [lia|]. pose proof (held_disjoint _ _ _ _ _ _ Hh Hin) as Hd. unfold disjoint in Hd. lia. }
  apply lookup_write_out. lia.
Qed.

Lemma malloc_some n (s : io H K) l : held (heap_of s) l → 0 ≤ n ≤ HeapSpec.MAX_REQUEST →
  lift (c_malloc n) s = Some (0, s) ∨
  ∃ p sz h, lift (c_malloc n) s = Some (p, with_heap_io h s) ∧ p ≠ 0 ∧ n ≤ sz ∧ held h ((p, sz) :: l) ∧ keeps a_base l (heap_of s) h.
Proof.
  intros Hh Hn. destruct (malloc_law _ _ n Hh Hn) as [E|(p & sz & h & E & Hsz & Hh' & Hk)].
  - left. rewrite (lift_some _ _ 0 (io_proc s)); [by destruct s|]. unfold c_malloc. unfold heap_of in E. rewrite E. by destruct (io_proc s).
  - right. exists p, sz, h. pose proof (held_first _ _ _ _ Hh'). split; [|split_and!; [lia|done..]].
    apply lift_some. unfold c_malloc. unfold heap_of in E. by rewrite E.
Qed.

Lemma copy_path_ok k a t (s : io H K) : cstr (mem_of_io s) a t → copy_path k a s = Some (take k t, s).
Proof.
  revert a t. induction k as [|k IH]; intros a t Hs; [done|]. cbn [copy_path]. destruct t as [|c t].
  - apply cstr_nil in Hs. rewrite (bind_some _ _ _ _ _ (peekb_some _ _ _ Hs)). done.
  - apply cstr_cons in Hs as (Hc & Hch & Hs). rewrite (bind_some _ _ _ _ _ (peekb_some _ _ _ Hc)).
    unfold is_char in Hch. zb_false (c =? 0). rewrite (bind_some _ _ _ _ _ (IH _ _ Hs)). done.
Qed.

Lemma mode_rb mode (s : io H K) l : string_at s l mode (lit "rb") → mode_flags mode s = Some ((O_RDONLY, false), s).
Proof.
  intros Hs%string_cstr. change (lit "rb") with [chr "r"; chr "b"] in Hs. apply cstr_cons in Hs as (Hm0 & _ & Hs).
  apply cstr_cons in Hs as (Hm1 & _ & _). unfold mode_flags. rewrite (bind_some _ _ _ _ _ (peekb_some _ _ _ Hm0)).
  rewrite Z.eqb_refl. rewrite (bind_some _ _ _ O_RDONLY s); [done|]. by rewrite (bind_some _ _ _ _ _ (peekb_some _ _ _ Hm1)).
Qed.

(** [close] touches neither the files nor the process's own state. *)
(** The error exit of a call asks the kernel for the reason. *)
Lemma kernel_fail_some e (p : proc H K) : ∃ p', kernel_fail e p = Some (-1, p') ∧
  obs (p_kern p') = obs (p_kern p) ∧ p_heap p' = p_heap p.
Proof.
  unfold kernel_fail, errno_from_kernel. pose proof (geterrno_law (p_kern p)) as He.
  destruct (int80 SYS_GETERRNO (p_kern p)) as [[v bs] k2] eqn:E2. cbn in He.
  assert (∃ p2, (kernel_errno <- mv_syscall SYS_GETERRNO;; if 0 <? fst kernel_errno then set_errno (fst kernel_errno) else ret tt)
    p = Some (tt, p2) ∧ p_kern p2 = k2 ∧ p_heap p2 = p_heap p) as (p2 & Ee & Hk2 & Hh2).
  { erewrite bind_some by (unfold mv_syscall; rewrite E2; reflexivity). cbn [fst]. destruct (0 <? i32 v); by eexists. }
  rewrite (bind_some _ _ _ _ _ Ee). erewrite bind_some by reflexivity. destruct (p_errno p2 =? 0); eexists; (split; [reflexivity|]);
    (split; [|done]); cbn; by rewrite Hk2.
Qed.

Lemma close_some fd (s : io H K) : ∃ r s', lift (close fd) s = Some (r, s') ∧ obs (kern_of s') = obs (kern_of s) ∧
  heap_of s' = heap_of s ∧ io_files s' = io_files s.
Proof.
  pose proof (close_law (kern_of s) (u32 fd)) as Hc. destruct (int80 (SYS_CLOSE (u32 fd)) (kern_of s)) as [[r bs] k] eqn:E. cbn in Hc.
  unfold kern_of in E. assert (∃ r' p', close fd (io_proc s) = Some (r', p') ∧ obs (p_kern p') = obs (p_kern (io_proc s)) ∧
    p_heap p' = p_heap (io_proc s)) as (r' & p' & Ep & Hk & Hh).
  { unfold close. erewrite bind_some by (unfold mv_syscall; rewrite E; reflexivity). cbn [fst]. destruct (i32 r <? 0); [|by do 2 eexists].
    destruct (kernel_fail_some EBADF (Proc (p_heap (io_proc s)) k (p_errno (io_proc s)))) as (p' & Ep & Hk & Hh).
    exists (-1), p'. split; [exact Ep|]. split; [by rewrite Hk|by rewrite Hh]. }
  exists r', (with_proc p' s). split; [by apply lift_some|]. done.
Qed.

(** Opening a file that exists: a descriptor, or -1. *)
Lemma open_some path name bs (s : io H K) l : string_at s l path name → contents (obs (kern_of s)) name = Some bs →
  ∃ fd s', lift (open path O_RDONLY) s = Some (fd, s') ∧ obs (kern_of s') = obs (kern_of s) ∧
    heap_of s' = heap_of s ∧ io_files s' = io_files s ∧ (0 ≤ fd → ∃ k, s' = with_kern_io k s).
Proof.
  intros Hp Hc. pose proof (open_law _ _ _ Hc) as Ho.
  destruct (int80 (SYS_OPEN (Some name) 0) (kern_of s)) as [[r rs] k] eqn:E. cbn in Ho. unfold kern_of in E.
  assert (open path O_RDONLY (io_proc s) = (if i32 r <? 0 then kernel_fail ENOENT else ret (i32 r)) (Proc (p_heap (io_proc s)) k (p_errno (io_proc s)))) as Eo.
  { unfold open. pose proof Hp as (_ & _ & Hp0). zb_false (path =? 0).
    assert (path_at path (io_proc s) = Some (Some name, io_proc s)) as Ep
      by (unfold path_at; fold (mem_of_io s); by rewrite (cstring_ok _ _ _ (string_cstr _ _ _ _ Hp))).
    rewrite (bind_some _ _ _ _ _ Ep). change (u32 O_RDONLY) with 0.
    erewrite bind_some by (unfold mv_syscall; rewrite E; reflexivity). done. }
  destruct (i32 r <? 0) eqn:Hr.
  - destruct (kernel_fail_some ENOENT (Proc (p_heap (io_proc s)) k (p_errno (io_proc s)))) as (p' & Ep & Hk & Hh).
    exists (-1), (with_proc p' s). rewrite Ep in Eo. split; [by apply lift_some|].
    split; [change (obs (p_kern p') = obs (kern_of s)); by rewrite Hk|]. split; [exact Hh|]. split; [done|lia].
  - exists (i32 r), (with_kern_io k s). split; [by apply lift_some|]. split; [exact Ho|]. split; [done|]. split; [done|]. by exists k.
Qed.

(** A stream whose cache holds the file [bs], read up to position [i]. *)
Record cached (s : io H K) (f : Z) (F : FILE) (bs : list Z) (i : nat) : Prop := {
  c_file : io_files s !! f = Some F;
  c_buf : f_rbuf F ≠ 0;
  c_ungot : f_ungot F = -1;
  c_len : f_rlen F = Z.of_nat (length bs);
  c_pos : f_rpos F = Z.of_nat i;
  c_in : (i ≤ length bs)%nat;
  c_data : seg (mem_of_io s) (f_rbuf F) bs;
  c_u8 : Forall is_u8 bs
}.
Lemma cached_reading s f F bs i : cached s f F bs i → reading s f F (drop i bs).
Proof. intros [HF Hb Hu Hl Hp Hi Hs H8]. split; [done|done|by left|]. exists bs, i. by rewrite Hu. Qed.

(** The whole file in a cache. *)
Lemma slurp_ok path name bs f F sz (s : io H K) l :
  string_at s l path name → contents (obs (kern_of s)) name = Some bs → Forall is_u8 bs → Z.of_nat (length bs) < HeapSpec.MAX_REQUEST →
  io_files s !! f = Some F → f_ungot F = -1 → held (heap_of s) ((f, sz) :: l) →
  ∃ s' F', slurp path f s = Some (tt, s') ∧ obs (kern_of s') = obs (kern_of s) ∧ io_files s' !! f = Some F' ∧ f_fd F' = f_fd F ∧
    f_ungot F' = -1 ∧ f_wbuf F' = f_wbuf F ∧ keeps a_base l (heap_of s) (heap_of s') ∧ (∀ g, g ≠ f → io_files s' !! g = io_files s !! g) ∧
    (f_rbuf F' = 0 ∨ ∃ n, cached s' f F' bs 0 ∧ held (heap_of s') ((f_rbuf F', n) :: (f, sz) :: l)).
Proof.
  intros Hp Hc Hu Hb HF Hg Hh. unfold slurp. destruct (stat_law _ _ _ Hc) as (r & rs & k1 & E1 & Hr & Hw & Hk1).
  assert (lift (stat_size path) s = Some ((0, Z.of_nat (length bs)), with_kern_io k1 s)) as Es.
  { apply lift_some. unfold stat_size. assert (path_at path (io_proc s) = Some (Some name, io_proc s)) as Ep
      by (unfold path_at; fold (mem_of_io s); by rewrite (cstring_ok _ _ _ (string_cstr _ _ _ _ Hp))).
    rewrite (bind_some _ _ _ _ _ Ep). unfold kern_of in E1. erewrite bind_some by (unfold mv_syscall; rewrite E1; reflexivity).
    cbn [fst snd]. zb_false (i32 r <? 0). by rewrite Hw. }
  rewrite (bind_some _ _ _ _ _ Es). cbn [fst snd]. change (0 =? 0) with true. cbv iota. set (s1 := with_kern_io k1 s) in *.
  rewrite u32_small by (unfold HeapSpec.MAX_REQUEST in Hb; word_lia).
  destruct (malloc_some (Z.of_nat (length bs) + 1) s1 _ Hh ltac:(lia)) as [Em|(p & n & h & Em & Hp0 & Hn & Hh' & Hkeep)].
  { rewrite (bind_some _ _ _ _ _ Em). rewrite (bind_some _ _ _ _ _ (modify_some f F _ s1 HF)). change (negb (0 =? 0)) with false. cbv iota.
    eexists. exists (set_rbuf 0 0 0 F). split; [reflexivity|]. split; [exact Hk1|]. split; [apply files_with_file|]. split_and!; try done.
    - intros g Hgf. cbn. by rewrite lookup_insert_ne.
    - by left. }
  rewrite (bind_some _ _ _ _ _ Em). set (s2 := with_heap_io h s1) in *.
  rewrite (bind_some _ _ _ _ _ (modify_some f F _ s2 HF)). set (s3 := with_file f (set_rbuf p 0 0 F) s2).
  assert (keeps a_base l (heap_of s) h) as Hkl by (eapply keeps_sub; exact Hkeep).
  assert (string_at s3 l path name) as Hp3 by (eapply (string_keeps s); [exact Hkl|exact Hp]).
  zb_false (p =? 0). cbn [negb]. rewrite (bind_some _ _ _ _ _ (path_some s3 _ _ _ Hp3)).
  destruct (fread_law k1 name bs ltac:(by rewrite Hk1)) as (r2 & k2 & E2 & Hr2 & Hk2).
  rewrite (bind_some _ _ _ _ _ (syscall_some (SYS_FREAD (Some name)) s3 r2 bs k2 E2)). set (s4 := with_kern_io k2 s3).
  assert (mapped (mem_of_io s4) p (Z.of_nat (length bs))) as Hmap.
  { destruct (held_block _ _ p n Hh') as (_ & _ & _ & _ & Hm); [by left|]. intros i Hi. apply Hm. lia. }
  assert (lift (pokes p bs) s4 = Some (tt, with_mem_io (write (mem_of_io s4) p bs) s4)) as Epk.
  { apply lift_some. unfold pokes. fold (mem_of_io s4). by rewrite stores_ok, map_u8 by done. }
  cbn [snd fst]. rewrite (bind_some _ _ _ _ _ Epk). set (s5 := with_mem_io (write (mem_of_io s4) p bs) s4).
  rewrite (modify_some f (set_rbuf p 0 0 F) _ s5) by apply files_with_file.
  eexists. eexists. split; [reflexivity|]. split; [by rewrite <- Hk1; rewrite <- Hk2|]. split; [apply files_with_file|].
  split; [done|]. split; [done|]. split; [done|]. split.
  { eapply keeps_trans; [exact Hkl|]. eapply keeps_sub. eapply keeps_write; [exact Hh'|lia]. }
  split; [intros g Hgf; cbn; by rewrite !lookup_insert_ne|]. right. exists n. split.
  - split; cbn [f_rlen f_rpos f_rbuf f_ungot set_rbuf]; [apply files_with_file|done|done| |done|lia| |done].
    + rewrite Hr2. destruct (Z.ltb_spec 0 (Z.of_nat (length bs))); lia.
    + change (mem_of_io (with_file f _ s5)) with (mem_of_io s5). unfold s5. rewrite mem_with_mem. apply seg_write.
  - cbn. by apply held_write.
Qed.

(** [fopen] for reading: a file that exists is opened, unless there is no
    memory for the stream; when the stream has its cache, what it has to give is
    the contents of the file.  The caller's blocks, the other streams and the
    files are as before. *)
Theorem fopen_reads path name mode bs (s : io H K) l :
  string_at s l path name → string_at s l mode (lit "rb") → contents (obs (kern_of s)) name = Some bs →
  Forall is_u8 bs → Z.of_nat (length bs) < HeapSpec.MAX_REQUEST → held (heap_of s) l →
  ∃ f s', fopen path mode s = Some (f, s') ∧ obs (kern_of s') = obs (kern_of s) ∧
    keeps a_base l (heap_of s) (heap_of s') ∧
    (f = 0 ∨ ∃ F sz, f ≠ 0 ∧ io_files s' !! f = Some F ∧ 0 ≤ f_fd F ∧ f_ungot F = -1 ∧ f_wbuf F = 0 ∧
       (∀ g, g ≠ f → io_files s' !! g = io_files s !! g) ∧
       (f_rbuf F = 0 ∨ ∃ n, cached s' f F bs 0 ∧ held (heap_of s') ((f_rbuf F, n) :: (f, sz) :: l))).
Proof.
  intros Hp Hm Hc Hu Hb Hh. unfold fopen. rewrite (bind_some _ _ _ _ _ (mode_rb _ _ _ Hm)). change (O_RDONLY <? 0) with false. cbv iota.
  destruct (open_some path name bs s l Hp Hc) as (fd & s1 & Eo & Hk1 & Hh1 & Hf1 & Hs1). rewrite (bind_some _ _ _ _ _ Eo).
  destruct (Z.ltb_spec fd 0) as [_|Hfd].
  { exists 0, s1. split; [done|]. split; [done|]. split; [by intros x _; rewrite Hh1|by left]. }
  destruct (Hs1 Hfd) as [k1 ->]. clear Hs1 Hh1 Hf1. change (obs (kern_of (with_kern_io k1 s))) with (obs k1) in Hk1.
  set (s1 := with_kern_io k1 s) in *. unfold stream_new.
  destruct (malloc_some FILE_SIZE s1 l Hh) as [Em|(f & sz & h & Em & Hf0 & Hsz & Hh' & Hkeep)].
  { unfold FILE_SIZE, HeapSpec.MAX_REQUEST. lia. }
  { erewrite bind_some by (rewrite (bind_some _ _ _ _ _ Em); reflexivity). change (0 =? 0) with true. cbv iota.
    match goal with |- context [(lift (close ?d);;; ret 0) ?s] => destruct (close_some d s) as (r & s' & Ec & Hk & Hhp & Hfs) end.
    rewrite (bind_some _ _ _ _ _ Ec). exists 0, s'. split; [done|]. split; [by rewrite Hk|]. split; [by intros x _; rewrite Hhp|by left]. }
  erewrite bind_some by (rewrite (bind_some _ _ _ _ _ Em); zb_false (f =? 0); reflexivity).
  zb_false (f =? 0). cbn [snd]. change (Z.land O_RDONLY O_ACCMODE) with 0. set (F0 := new_file fd 0).
  set (s2 := with_file f F0 (with_heap_io h s1)).
  assert (string_at s2 l path name) as Hp2 by (eapply (string_keeps s); [exact Hkeep|exact Hp]).
  rewrite (bind_some _ _ _ _ _ (copy_path_ok 259 path name s2 (string_cstr _ _ _ _ Hp2))).
  rewrite (bind_some _ _ _ _ _ (modify_some f F0 _ s2 (files_with_file _ _ _))). change (negb (0 =? O_WRONLY)) with true. cbv iota.
  set (F1 := set_path (take 259 name) F0). set (s3 := with_file f F1 s2).
  destruct (slurp_ok path name bs f F1 sz s3 l) as (s4 & F4 & Es & Hk4 & HF4 & Hfd4 & Hug & Hwb & Hkp4 & Hfs4 & Hr4);
    [exact Hp2|by rewrite <- Hk1 in Hc|done|done|apply files_with_file|done|exact Hh'|].
  rewrite (bind_some _ _ _ _ _ Es), bind_ret. exists f, s4. split; [done|]. split; [by rewrite Hk4|].
  split; [eapply keeps_trans; [exact Hkeep|exact Hkp4]|]. right. exists F4, sz. split; [done|]. split; [done|]. rewrite Hfd4, Hwb.
  split; [done|]. split; [done|]. split; [done|]. split; [|exact Hr4].
  intros g Hgf. rewrite Hfs4 by done. cbn. by rewrite !lookup_insert_ne.
Qed.

(** ** Chunks *)

Lemma with_file_same f F (s : io H K) : io_files s !! f = Some F → with_file f F s = s.
Proof. intros HF. unfold with_file. rewrite insert_id by done. by destruct s. Qed.
Lemma set_rpos_same F : set_rpos (f_rpos F) F = F.
Proof. by destruct F. Qed.

Lemma serve_rbuf_ok k : ∀ d (s : io H K) f F bs i,
  io_files s !! f = Some F → f_rlen F = Z.of_nat (length bs) → f_rpos F = Z.of_nat i → (i ≤ length bs)%nat → seg (mem_of_io s) (f_rbuf F) bs →
  serve_rbuf k None d f s = Some (take k (drop i bs), with_file f (set_rpos (Z.of_nat (i + length (take k (drop i bs)))) F) s).
Proof.
  induction k as [|k IH]; intros d s f F bs i HF Hl Hp Hi Hs.
  { cbn [take length]. rewrite Nat.add_0_r, <- Hp, set_rpos_same, with_file_same by done. done. }
  cbn [serve_rbuf]. rewrite (bind_some _ _ _ _ _ (file_some _ _ _ HF)), Hl, Hp.
  destruct (drop i bs) as [|c t] eqn:Ed.
  - assert (length bs ≤ i)%nat by (apply (f_equal length) in Ed; rewrite length_drop in Ed; simpl in Ed; lia).
    zb_false (Z.of_nat i <? Z.of_nat (length bs)). cbn [take length]. rewrite Nat.add_0_r, <- Hp, set_rpos_same, with_file_same by done. done.
  - assert (bs !! i = Some c) as Hc by (rewrite <- (Nat.add_0_r i), <- lookup_drop, Ed; done).
    pose proof (lookup_lt_Some _ _ _ Hc). zb_true (Z.of_nat i <? Z.of_nat (length bs)).
    rewrite (bind_some _ _ _ _ _ (peekb_some _ _ _ (Hs _ _ Hc))). cbn [deliver]. rewrite bind_ret.
    set (F1 := set_rpos (Z.of_nat i + 1) F). erewrite bind_some by reflexivity. fold (with_file f F1 s).
    assert (t = drop (S i) bs) as -> by (rewrite (drop_S _ _ _ Hc) in Ed; congruence).
    erewrite bind_some by (apply (IH _ _ f F1 bs (S i)); [apply files_with_file|done|cbn; lia|lia|exact Hs]).
    unfold ret. do 2 f_equal. rewrite with_file_twice. cbn [take length]. by rewrite Nat.add_succ_r, Nat.add_succ_l.
Qed.

Lemma fread_cached n (s : io H K) f F bs i : cached s f F bs i → f ≠ 0 → 0 < n < 4294967296 →
  let t := take (Z.to_nat n) (drop i bs) in
  ∃ F', fread None 1 n f s = Some ((Z.of_nat (length t), t), with_file f F' s) ∧
    cached (with_file f F' s) f F' bs (i + length t) ∧ same_buf F F' ∧ f_wbuf F' = f_wbuf F.
Proof.
  intros [HF Hb Hu Hl Hp Hi Hs Hu8] Hf Hn t. unfold fread. zb_false (f =? 0). zb_false (n =? 0). change (1 =? 0) with false.
  cbn [orb]. rewrite Z.mul_1_l, u32_small by word_lia. rewrite (bind_some _ _ _ _ _ (file_some _ _ _ HF)), Hu.
  change (0 <=? -1) with false. cbn [andb]. rewrite bind_ret. zb_false (f_rbuf F =? 0). cbn [length negb].
  change (Z.of_nat 0) with 0. rewrite Z.sub_0_r.
  pose proof (serve_rbuf_ok (Z.to_nat n) 0 s f F bs i HF Hl Hp Hi Hs) as E. fold t in E.
  rewrite (bind_some _ _ _ _ _ E). set (F1 := set_rpos (Z.of_nat (i + length t)) F) in *.
  rewrite (bind_some _ _ _ _ _ (file_some f F1 _ (files_with_file _ _ _))).
  exists (if f_rlen F1 <=? f_rpos F1 then set_eof 1 F1 else F1). split; [|split; [|by destruct (_ <=? _)]].
  - destruct (f_rlen F1 <=? f_rpos F1); rewrite Z.div_1_r, ?Z.add_0_l; [|done].
    by rewrite (bind_some _ _ _ _ _ (modify_some f F1 _ _ (files_with_file _ _ _))), with_file_twice.
  - assert (length t = Nat.min (Z.to_nat n) (length bs - i)) as Ht by (unfold t; by rewrite length_take, length_drop).
    destruct (f_rlen F1 <=? f_rpos F1); (split; [apply files_with_file|..]; (done || lia)).
Qed.

(** [fseek] inside the cached file moves the position; past its end it fails. *)
Lemma fseek_cached (s : io H K) f F bs i off : cached s f F bs i → f ≠ 0 → is_i32 off → Z.of_nat (length bs) < 4294967296 →
  (0 ≤ off ≤ Z.of_nat (length bs) → ∃ F', fseek f off SEEK_SET s = Some (0, with_file f F' s) ∧
    cached (with_file f F' s) f F' bs (Z.to_nat off) ∧ same_buf F F' ∧ f_wbuf F' = f_wbuf F) ∧
  (¬ 0 ≤ off ≤ Z.of_nat (length bs) → ∃ F', fseek f off SEEK_SET s = Some (-1, with_proc (with_errno EINVAL (io_proc s)) (with_file f F' s)) ∧
    cached (with_file f F' s) f F' bs i ∧ same_buf F F' ∧ f_wbuf F' = f_wbuf F).
Proof.
  intros [HF Hb Hu Hl Hp Hi Hs Hu8] Hf Ho Hlen. unfold is_i32 in Ho. unfold fseek. zb_false (f =? 0).
  rewrite (bind_some _ _ _ _ _ (modify_some f F _ _ HF)). set (F1 := set_eof 0 (set_ungot (-1) F)).
  rewrite (bind_some _ _ _ _ _ (file_some f F1 _ (files_with_file _ _ _))). change (f_rbuf F1) with (f_rbuf F). change (f_rlen F1) with (f_rlen F).
  zb_false (f_rbuf F =? 0). cbn [negb]. change (SEEK_SET =? SEEK_SET) with true. cbv iota. rewrite Hl. split; intros Hr.
  - rewrite u32_small by word_lia. zb_false (off <? 0). zb_false (Z.of_nat (length bs) <? off). cbn [orb].
    exists (set_rpos off F1). split; [|split; [|done]].
    + unfold put_file. erewrite bind_some by reflexivity. fold (with_file f (set_rpos off F1) (with_file f F1 s)). by rewrite with_file_twice.
    + split; try done; [apply files_with_file|cbn; lia|lia].
  - assert ((off <? 0) || (Z.of_nat (length bs) <? u32 off) = true) as ->.
    { destruct (Z.ltb_spec off 0); [done|]. cbn [orb]. apply Z.ltb_lt. rewrite u32_small by word_lia. lia. }
    exists F1. split; [|split; [|done]]; [reflexivity|]. split; try done. apply files_with_file.
Qed.

(** ** Closing *)

Lemma free_some p n l (s : io H K) : held (heap_of s) ((p, n) :: l) →
  ∃ h, lift (c_free p) s = Some (tt, with_heap_io h s) ∧ held h l ∧ a_mem h = a_mem (heap_of s).
Proof.
  intros Hh. destruct (free_law _ _ _ _ Hh) as (h & E & Hl & Hm). exists h. split; [|done]. apply lift_some. unfold c_free.
  unfold heap_of in E. by rewrite E.
Qed.

Lemma fclose_reading (std : handles) f F n sz l bs (s : io H K) :
  reading s f F bs → f_wbuf F = 0 → f ≠ 0 → f ≠ h_stdin std → f ≠ h_stdout std → f ≠ h_stderr std →
  held (heap_of s) ((f_rbuf F, n) :: (f, sz) :: l) →
  ∃ r s', fclose std f s = Some (r, s') ∧ held (heap_of s') l ∧ obs (kern_of s') = obs (kern_of s) ∧
    mem_of_io s' = mem_of_io s ∧ io_files s' = delete f (io_files s).
Proof.
  intros [HF Hb _ _] Hw Hf H0' H1' H2' Hh. unfold fclose. zb_false (f =? 0). zb_false (f =? h_stdin std). zb_false (f =? h_stdout std).
  zb_false (f =? h_stderr std). cbn [orb].
  assert (fflush f s = Some (0, s)) as Ef.
  { unfold fflush. zb_false (f =? 0). rewrite (bind_some _ _ _ _ _ (file_some _ _ _ HF)), Hw. done. }
  rewrite (bind_some _ _ _ _ _ Ef), (bind_some _ _ _ _ _ (file_some _ _ _ HF)).
  assert (∃ c s1, (if 0 <=? f_fd F then lift (close (f_fd F)) else ret 0) s = Some (c, s1) ∧ obs (kern_of s1) = obs (kern_of s) ∧
    heap_of s1 = heap_of s ∧ io_files s1 = io_files s) as (c & s1 & Ec & Hk1 & Hh1 & Hf1).
  { destruct (0 <=? f_fd F); [apply close_some|by do 2 eexists]. }
  rewrite (bind_some _ _ _ _ _ Ec). rewrite <- Hf1 in HF. rewrite (bind_some _ _ _ _ _ (modify_some f F _ s1 HF)).
  rewrite Hw. change (negb (0 =? 0)) with false. cbv iota. rewrite bind_ret. zb_false (f_rbuf F =? 0). cbn [negb].
  set (s2 := with_file f (set_fd (-1) F) s1). rewrite <- Hh1 in Hh.
  destruct (free_some _ _ _ s2 Hh) as (h3 & E3 & Hh3 & Hm3). rewrite (bind_some _ _ _ _ _ E3). erewrite bind_some by reflexivity.
  match goal with |- context [(_ <- lift (c_free f);; _) ?s] => destruct (free_some f sz l s Hh3) as (h4 & E4 & Hh4 & Hm4) end.
  rewrite (bind_some _ _ _ _ _ E4). do 2 eexists. split; [reflexivity|]. split; [exact Hh4|]. split; [exact Hk1|]. split.
  - unfold mem_of_io, p_mem. cbn. rewrite Hm4. cbn. rewrite Hm3. 
    change (heap_of s2) with (heap_of s1). by rewrite Hh1.
  - cbn. rewrite Hf1. by rewrite delete_insert_eq.
Qed.
End open.
