(* ===== verification/Topo.v ===== *)
(** * Ordering the packages of an installation

    The depth-first topological sort of the package manager
    ([tools/hbpkg.c], [topo_visit] and [topo_sort]).  The node array and the
    output array are lists updated by index; an access outside either of them is
    a fault ([None]), and so is a recursion deeper than the fuel.  The theorems
    are about every array of nodes: the recursion ends, no access leaves an
    array, and the answer is an order in which each package comes after all of
    its dependencies, or [-1], which is given exactly when a package depends on
    itself through some chain. *)

From S2P Require Import Prelude.

Record dep_node := DepNode {
  dn_name : list Z;
  dn_dep_indices : list Z;
  dn_visited : bool;
  dn_in_stack : bool;
}.

(** [nodes[]], [order[]] and [*order_idx]. *)
Record topo_state := TopoState {
  ts_nodes : list dep_node;
  ts_order : list Z;
  ts_order_idx : Z;
}.

(** Array accesses at an [int] index. *)
Definition at_index {A} (l : list A) (i : Z) : option A :=
  if i <? 0 then None else l !! Z.to_nat i.

Definition set_index {A} (l : list A) (i : Z) (x : A) : option (list A) :=
  _ ← at_index l i; Some (<[Z.to_nat i := x]> l).

Definition set_flags (st : topo_state) (i : Z) (visited in_stack : bool) : option topo_state :=
  n ← at_index (ts_nodes st) i;
  ns ← set_index (ts_nodes st) i (DepNode (dn_name n) (dn_dep_indices n) visited in_stack);
  Some (TopoState ns (ts_order st) (ts_order_idx st)).

Definition push_order (st : topo_state) (i : Z) : option topo_state :=
  o ← set_index (ts_order st) (ts_order_idx st) i;
  Some (TopoState (ts_nodes st) o (ts_order_idx st + 1)).

(** The loop over [dep_indices]: an index outside the array is skipped, a failed
    visit ends the loop. *)
Fixpoint visit_deps (visit : topo_state → Z → option (topo_state * Z)) (count : Z)
    (deps : list Z) (st : topo_state) : option (topo_state * Z) :=
  match deps with
  | [] => Some (st, 0)
  | di :: deps' =>
      if (0 <=? di) && (di <? count) then
        '(st', r) ← visit st di;
        if negb (r =? 0) then Some (st', -1) else visit_deps visit count deps' st'
      else visit_deps visit count deps' st
  end.

Fixpoint topo_visit (fuel : nat) (count : Z) (st : topo_state) (i : Z) : option (topo_state * Z) :=
  match fuel with
  | O => None
  | S fuel' =>
      n ← at_index (ts_nodes st) i;
      if dn_in_stack n then Some (st, -1)
      else if dn_visited n then Some (st, 0)
      else
        st1 ← set_flags st i (dn_visited n) true;
        '(st2, r) ← visit_deps (topo_visit fuel' count) count (dn_dep_indices n) st1;
        if negb (r =? 0) then Some (st2, -1)
        else
          st3 ← set_flags st2 i true false;
          st4 ← push_order st3 i;
          Some (st4, 0)
  end.

(** The loop of [topo_sort] over the roots. *)
Fixpoint topo_roots (fuel : nat) (count : Z) (roots : list Z) (st : topo_state)
    : option (topo_state * Z) :=
  match roots with
  | [] => Some (st, ts_order_idx st)
  | i :: roots' =>
      n ← at_index (ts_nodes st) i;
      if dn_visited n then topo_roots fuel count roots' st
      else
        '(st', r) ← topo_visit fuel count st i;
        if negb (r =? 0) then Some (st', -1) else topo_roots fuel count roots' st'
  end.

(** The recursion is never deeper than the number of nodes and the one call that
    finds its node on the stack. *)
Definition topo_sort (nodes : list dep_node) (count : Z) (order_out : list Z)
    : option (topo_state * Z) :=
  topo_roots (S (length nodes)) count (seqZ 0 count) (TopoState nodes order_out 0).

(** ** The dependency graph *)

Definition depends (nodes : list dep_node) (i j : Z) : Prop :=
  ∃ n, nodes !! Z.to_nat i = Some n ∧ 0 ≤ i ∧ j ∈ dn_dep_indices n ∧ 0 ≤ j < Z.of_nat (length nodes).

Definition cyclic (nodes : list dep_node) : Prop := ∃ i, tc (depends nodes) i i.

(** An order built one package at a time, each after its dependencies. *)
Inductive ordered (nodes : list dep_node) : list Z → Prop :=
| ordered_nil : ordered nodes []
| ordered_snoc V i :
    ordered nodes V → i ∉ V → 0 ≤ i < Z.of_nat (length nodes) →
    (∀ j, depends nodes i j → j ∈ V) → ordered nodes (V ++ [i]).

Definition fresh (n : dep_node) : Prop := dn_visited n = false ∧ dn_in_stack n = false.

(** ** Proofs *)

Section topo.
Context (nodes : list dep_node) (out : list Z).
Implicit Types (stk V : list Z) (i j : Z).
#[local] Set Default Proof Using "Type".

Abbreviation count := (Z.of_nat (length nodes)).

(** The node array when the calls on the stack are those of [stk] and the
    finished nodes are [V], and the whole state then. *)
Definition flagged stk V : list dep_node :=
  imap (λ k n, DepNode (dn_name n) (dn_dep_indices n)
                 (bool_decide (Z.of_nat k ∈ V)) (bool_decide (Z.of_nat k ∈ stk))) nodes.

Definition st_of stk V : topo_state :=
  TopoState (flagged stk V) (V ++ drop (length V) out) (Z.of_nat (length V)).

Lemma flagged_length stk V : length (flagged stk V) = length nodes.
Proof. apply length_imap. Qed.

Lemma flagged_at stk V i n :
  0 ≤ i → nodes !! Z.to_nat i = Some n →
  at_index (flagged stk V) i =
    Some (DepNode (dn_name n) (dn_dep_indices n) (bool_decide (i ∈ V)) (bool_decide (i ∈ stk))).
Proof.
  intros Hi Hn. unfold at_index. zb_simpl. unfold flagged. rewrite list_lookup_imap, Hn. simpl.
  by rewrite Z2Nat.id by lia.
Qed.

Lemma node_at i : 0 ≤ i < count → ∃ n, nodes !! Z.to_nat i = Some n.
Proof. intros. apply lookup_lt_is_Some_2. lia. Qed.

Lemma set_index_at {A} (l : list A) i x :
  0 ≤ i < Z.of_nat (length l) → set_index l i x = Some (<[Z.to_nat i := x]> l).
Proof.
  intros Hi. unfold set_index, at_index. zb_simpl.
  destruct (lookup_lt_is_Some_2 l (Z.to_nat i)) as [y ->]; [lia|done].
Qed.

(** Setting the flags of node [i] to those of another stack and order that differ
    at [i] only. *)
Lemma set_flags_st stk V stk' V' i o k :
  0 ≤ i < count →
  (∀ j, j ≠ i → (j ∈ stk ↔ j ∈ stk') ∧ (j ∈ V ↔ j ∈ V')) →
  set_flags (TopoState (flagged stk V) o k) i (bool_decide (i ∈ V')) (bool_decide (i ∈ stk'))
  = Some (TopoState (flagged stk' V') o k).
Proof.
  intros Hi Heq. destruct (node_at i Hi) as [n Hn]. unfold set_flags. simpl.
  rewrite (flagged_at _ _ _ n) by (done || lia). simpl.
  rewrite set_index_at by (rewrite flagged_length; lia). simpl. f_equal. f_equal.
  apply list_eq. intros m. unfold flagged.
  destruct (decide (m = Z.to_nat i)) as [->|Hm].
  - rewrite list_lookup_insert_eq by (rewrite length_imap; lia).
    rewrite list_lookup_imap, Hn. simpl. by rewrite Z2Nat.id by lia.
  - rewrite list_lookup_insert_ne by done. rewrite !list_lookup_imap.
    destruct (nodes !! m) as [n'|]; [|done]. simpl.
    destruct (Heq (Z.of_nat m)) as [H1 H2]; [lia|].
    rewrite (bool_decide_ext _ _ H1), (bool_decide_ext _ _ H2). done.
Qed.

Lemma ordered_NoDup V : ordered nodes V → NoDup V.
Proof.
  induction 1 as [|V i ? ? ? ?]; [constructor|].
  apply NoDup_app. split_and!; [done| |apply NoDup_singleton].
  intros x Hx ->%list_elem_of_singleton. done.
Qed.

Lemma ordered_range V i : ordered nodes V → i ∈ V → 0 ≤ i < count.
Proof.
  induction 1 as [|V j ? ? ? ?]; [by intros ?%not_elem_of_nil|].
  rewrite elem_of_app, list_elem_of_singleton. naive_solver.
Qed.

Lemma NoDup_range_length V : NoDup V → (∀ i, i ∈ V → 0 ≤ i < count) → (length V ≤ length nodes)%nat.
Proof.
  intros HV HR. transitivity (length (seqZ 0 count)); [|rewrite length_seqZ; lia].
  apply submseteq_length, NoDup_submseteq; [done|]. intros i Hi%HR. apply elem_of_seqZ. lia.
Qed.

(** In an order each dependency stands before its dependents. *)
Lemma ordered_before V k i j :
  ordered nodes V → V !! k = Some i → depends nodes i j → ∃ k', (k' < k)%nat ∧ V !! k' = Some j.
Proof.
  induction 1 as [|V i' HV IH Hni Hr Hdep]; [done|]. intros Hk Hij.
  destruct (decide (k < length V)%nat) as [Hlt|Hge].
  - rewrite lookup_app_l in Hk by done. destruct (IH Hk Hij) as (k'&?&?).
    exists k'. split; [done|]. rewrite lookup_app_l by lia. done.
  - pose proof (lookup_lt_Some _ _ _ Hk) as Hl. rewrite length_app in Hl. simpl in Hl.
    replace k with (length V) in * by lia. rewrite lookup_app_mid in Hk. simplify_eq.
    destruct (list_elem_of_lookup_1 V j (Hdep j Hij)) as [k' Hk'].
    pose proof (lookup_lt_Some _ _ _ Hk'). exists k'. split; [done|]. by rewrite lookup_app_l.
Qed.

Lemma ordered_tc_before V i j :
  ordered nodes V → tc (depends nodes) i j →
  ∀ k, V !! k = Some i → ∃ k', (k' < k)%nat ∧ V !! k' = Some j.
Proof.
  intros HV. induction 1 as [i j Hij|i l j Hil Hlj IH]; intros k Hk.
  - by eapply ordered_before.
  - destruct (ordered_before V k i l) as (k1&?&Hk1); [done..|].
    destruct (IH k1 Hk1) as (k2&?&?). exists k2. split; [lia|done].
Qed.

Lemma ordered_acyclic V :
  ordered nodes V → (∀ i, 0 ≤ i < count → i ∈ V) → ¬ cyclic nodes.
Proof.
  intros HV Hall [i Hi].
  assert (0 ≤ i < count) as Hr.
  { inversion Hi as [? ? (n&Hn&?&_)|? ? ? (n&Hn&?&_)]; subst;
      apply lookup_lt_Some in Hn; lia. }
  destruct (list_elem_of_lookup_1 V i (Hall i Hr)) as [k Hk].
  destruct (ordered_tc_before V i i HV Hi k Hk) as (k'&?&Hk').
  pose proof (NoDup_lookup _ _ _ _ (ordered_NoDup V HV) Hk Hk'). lia.
Qed.

Context (Hout : (length nodes ≤ length out)%nat).
#[local] Set Default Proof Using "All".

Lemma push_order_st stk V i :
  (length V < length nodes)%nat →
  push_order (TopoState (flagged stk (V ++ [i])) (V ++ drop (length V) out) (Z.of_nat (length V))) i
  = Some (st_of stk (V ++ [i])).
Proof.
  intros HV. unfold push_order. simpl.
  rewrite set_index_at by (rewrite length_app, length_drop; lia). simpl. unfold st_of. f_equal. f_equal.
  - rewrite Nat2Z.id. destruct (drop (length V) out) as [|x l] eqn:E.
    { apply (f_equal length) in E. rewrite length_drop in E. simpl in E. lia. }
    rewrite insert_app_mid, length_app. simpl. rewrite <- app_assoc. simpl.
    rewrite <- drop_drop, E. done.
  - rewrite length_app. simpl. lia.
Qed.

(** What a call leaves behind: a longer order with the stack as it was, or a
    cycle. *)
Definition visited_ok stk V (targets : list Z) (o : option (topo_state * Z)) : Prop :=
  (∃ V' ex, o = Some (st_of stk V', 0) ∧ V' = V ++ ex ∧ ordered nodes V' ∧
     (∀ s, s ∈ stk → s ∉ V') ∧ (∀ t, t ∈ targets → t ∈ V')) ∨
  (∃ st, o = Some (st, -1) ∧ cyclic nodes).

Definition visit_pre (f : nat) stk V : Prop :=
  ordered nodes V ∧ NoDup stk ∧ (∀ s, s ∈ stk → 0 ≤ s < count) ∧
  (∀ s, s ∈ stk → s ∉ V) ∧ (length nodes - length stk < f)%nat.

Lemma visit_deps_ok f stk V i rest :
  (∀ V j, visit_pre f stk V → 0 ≤ j < count → (∀ s, s ∈ stk → tc (depends nodes) s j) →
     visited_ok stk V [j] (topo_visit f count (st_of stk V) j)) →
  visit_pre f stk V → i ∈ stk → (∀ s, s ∈ stk → s = i ∨ tc (depends nodes) s i) →
  (∀ j, j ∈ rest → 0 ≤ j < count → depends nodes i j) →
  visited_ok stk V (filter (λ j, 0 ≤ j < count) rest)
    (visit_deps (topo_visit f count) count rest (st_of stk V)).
Proof.
  intros IH Hpre Hi Hstk. revert V Hpre. induction rest as [|j rest IHr]; intros V Hpre Hdep; simpl.
  { left. exists V, []. rewrite app_nil_r. destruct Hpre as (?&?&?&?&?). split_and!; try done.
    intros t Ht. by apply not_elem_of_nil in Ht. }
  destruct ((0 <=? j) && (j <? count)) eqn:E; bool_hyps; try discriminate.
  2-4: rewrite filter_cons_False by lia; apply IHr; [done|set_solver].
  rewrite filter_cons_True by lia.
  destruct (IH V j) as [(V1&ex&->&->&HV1&Hs&Ht)|(st&->&Hc)]; [done|lia| | |].
  - assert (depends nodes i j) by (apply Hdep; [set_solver|lia]).
    intros s [->|Hsi]%Hstk; [by apply tc_once|by eapply tc_r].
  - simpl. destruct Hpre as (?&?&?&?&?).
    destruct (IHr (V ++ ex)) as [(V2&ex2&->&->&HV2&Hs2&Ht2)|(st&->&Hc)]; [done|set_solver| |].
    + left. exists ((V ++ ex) ++ ex2), (ex ++ ex2). rewrite app_assoc. split_and!; try done.
      intros t [->|Hin]%elem_of_cons; [|by apply Ht2].
      apply elem_of_app. left. apply Ht. set_solver.
    + right. by exists st.
  - simpl. right. by exists st.
Qed.

Lemma topo_visit_ok f stk V i :
  visit_pre f stk V → 0 ≤ i < count → (∀ s, s ∈ stk → tc (depends nodes) s i) →
  visited_ok stk V [i] (topo_visit f count (st_of stk V) i).
Proof.
  revert stk V i. induction f as [|f IH]; intros stk V i (HV&Hnd&Hr&Hd&Hf) Hi Hreach; [lia|].
  destruct (node_at i Hi) as [n Hn]. simpl.
  rewrite (flagged_at _ _ _ n) by (done || lia). simpl.
  case_bool_decide as Hin; [right; eexists; split; [done|]; exists i; by apply Hreach|].
  case_bool_decide as Hvis.
  { left. exists V, []. rewrite app_nil_r. split_and!; try done. set_solver. }
  assert (Hst1 : visit_pre f (i :: stk) V).
  { assert (NoDup (i :: stk)) by (by constructor).
    assert (∀ s, s ∈ i :: stk → 0 ≤ s < count) by (intros s [->|?]%elem_of_cons; [done|by apply Hr]).
    split_and!; try done; [set_solver|].
    pose proof (NoDup_range_length (i :: stk)) as Hl. simpl in *. specialize (Hl ltac:(done) ltac:(done)). lia. }
  unfold st_of at 1.
  pose proof (set_flags_st stk V (i :: stk) V i (V ++ drop (length V) out) (Z.of_nat (length V)) Hi) as E1.
  rewrite (bool_decide_eq_false_2 (i ∈ V)), (bool_decide_eq_true_2 (i ∈ i :: stk)) in E1 by set_solver.
  rewrite E1 by set_solver. simpl. fold (st_of (i :: stk) V).
  destruct (visit_deps_ok f (i :: stk) V i (dn_dep_indices n))
    as [(V'&ex&->&->&HV'&Hs&Ht)|(st&->&Hc)]; [by auto|done|set_solver| | | |].
  - intros s [->|?]%elem_of_cons; [by left|right; by apply Hreach].
  - intros j Hj Hjr. exists n. split_and!; (done || lia).
  - simpl. unfold st_of at 1. assert (i ∉ V ++ ex) by (apply Hs; set_solver).
    assert (Hord : ordered nodes ((V ++ ex) ++ [i])).
    { constructor; try done. intros j (n'&Hn'&_&Hj&Hjr). simplify_eq. apply Ht.
      apply list_elem_of_filter. done. }
    pose proof (set_flags_st (i :: stk) (V ++ ex) stk ((V ++ ex) ++ [i]) i
      ((V ++ ex) ++ drop (length (V ++ ex)) out) (Z.of_nat (length (V ++ ex))) Hi) as E2.
    rewrite (bool_decide_eq_true_2 (i ∈ (V ++ ex) ++ [i])), (bool_decide_eq_false_2 (i ∈ stk)) in E2 by set_solver.
    rewrite E2 by set_solver. simpl.
    assert (length ((V ++ ex) ++ [i]) ≤ length nodes)%nat as Hlen.
    { apply NoDup_range_length; [by apply ordered_NoDup|]. intros. by eapply ordered_range. }
    rewrite length_app in Hlen. simpl in Hlen. rewrite push_order_st by lia. simpl.
    left. exists ((V ++ ex) ++ [i]), (ex ++ [i]). split_and!; [done|by rewrite !app_assoc|done| |set_solver].
    intros s Hs1. specialize (Hs s). set_solver.
  - simpl. right. by exists st.
Qed.

Lemma topo_roots_ok roots V :
  ordered nodes V → (∀ i, i ∈ roots → 0 ≤ i < count) →
  (∃ V' ex, topo_roots (S (length nodes)) count roots (st_of [] V) = Some (st_of [] V', Z.of_nat (length V')) ∧
     V' = V ++ ex ∧ ordered nodes V' ∧ (∀ i, i ∈ roots → i ∈ V')) ∨
  (∃ st, topo_roots (S (length nodes)) count roots (st_of [] V) = Some (st, -1) ∧ cyclic nodes).
Proof.
  revert V. induction roots as [|i roots IH]; intros V HV His.
  { left. exists V, []. rewrite app_nil_r. split_and!; try done. set_solver. }
  assert (Hi : 0 ≤ i < count) by set_solver. destruct (node_at i Hi) as [n Hn].
  cbn [topo_roots]. change (ts_nodes (st_of [] V)) with (flagged [] V).
  rewrite (flagged_at _ _ _ n) by (done || lia). rewrite some_bind. cbn [dn_visited].
  case_bool_decide as Hvis.
  { destruct (IH V) as [(V'&ex&->&->&?&?)|?]; [done|set_solver| |by right].
    left. exists (V ++ ex), ex. split_and!; try done. set_solver. }
  destruct (topo_visit_ok (S (length nodes)) [] V i) as [(V1&ex&->&->&HV1&_&Ht)|(st&->&Hc)].
  - split_and!; [done|constructor|set_solver..|simpl; lia].
  - done.
  - set_solver.
  - rewrite some_bind. cbn iota beta. change (negb (0 =? 0)) with false. cbn iota.
    destruct (IH (V ++ ex)) as [(V'&ex'&->&->&?&?)|?]; [done|set_solver| |by right].
    left. exists ((V ++ ex) ++ ex'), (ex ++ ex'). rewrite app_assoc. split_and!; try done.
    specialize (Ht i). set_solver.
  - right. rewrite some_bind. exists st. done.
Qed.

Context (Hfresh : Forall fresh nodes).

Lemma fresh_state : TopoState nodes out 0 = st_of [] [].
Proof.
  unfold st_of. simpl. rewrite drop_0. f_equal. apply list_eq. intros k. unfold flagged.
  rewrite list_lookup_imap. destruct (nodes !! k) as [[a b c d]|] eqn:E; [|done]. simpl.
  rewrite Forall_forall in Hfresh. destruct (Hfresh (DepNode a b c d)) as [Hc Hd].
  { by eapply list_elem_of_lookup_2. }
  simpl in *. by subst.
Qed.

Lemma topo_sort_cases :
  (∃ V, topo_sort nodes count out = Some (st_of [] V, count) ∧
     V ≡ₚ seqZ 0 count ∧ ordered nodes V) ∨
  (∃ st, topo_sort nodes count out = Some (st, -1) ∧ cyclic nodes).
Proof.
  unfold topo_sort. rewrite fresh_state.
  destruct (topo_roots_ok (seqZ 0 count) []) as [(V&ex&->&->&HV&Hall)|?].
  - constructor.
  - intros i ?%elem_of_seqZ. lia.
  - left. exists ([] ++ ex). rewrite app_nil_l in *.
    assert (ex ≡ₚ seqZ 0 count) as Hp.
    { apply NoDup_Permutation; [by apply ordered_NoDup|apply NoDup_seqZ|].
      intros i. rewrite elem_of_seqZ. split; [|intros; apply Hall; apply elem_of_seqZ; lia].
      intros Hi. pose proof (ordered_range _ _ HV Hi). lia. }
    rewrite Hp at 2. rewrite length_seqZ. split_and!; try done. f_equal. f_equal. lia.
  - by right.
Qed.
End topo.

(** [C8] The sort of any array of [count] fresh nodes, into an array of at least that
    many entries, ends without leaving an array: either it answers [count] and
    the first [count] entries of [order_out] are the indices [0 .. count-1], each
    once, with every dependency in front of each package that needs it, or it
    answers [-1] and some package depends on itself through a chain. *)
Theorem topo_sort_order (nodes : list dep_node) (order_out : list Z) :
  Forall fresh nodes → (length nodes ≤ length order_out)%nat →
  ∃ st r, topo_sort nodes (Z.of_nat (length nodes)) order_out = Some (st, r) ∧
    ((r = Z.of_nat (length nodes) ∧
      let order := take (length nodes) (ts_order st) in
      order ≡ₚ seqZ 0 (Z.of_nat (length nodes)) ∧
      ∀ k i j, order !! k = Some i → depends nodes i j → ∃ k', (k' < k)%nat ∧ order !! k' = Some j) ∨
     (r = -1 ∧ cyclic nodes)).
Proof.
  intros Hf Ho. destruct (topo_sort_cases nodes order_out Ho Hf) as [(V&->&Hp&HV)|(st&->&Hc)].
  - eexists _, _. split; [done|left]. split; [done|]. simpl.
    assert (length V = length nodes) as Hl by (rewrite Hp, length_seqZ; lia).
    rewrite <- Hl, take_app_length. rewrite Hl. split; [done|].
    intros k i j. by apply ordered_before.
  - exists st, (-1). split; [done|]. by right.
Qed.

Definition leaf (deps : list Z) : dep_node := DepNode (lit "pkg") deps false false.

Lemma topo_sort_order_witness :
  ∃ st r, topo_sort [leaf [2; 1]; leaf []; leaf [1; 7; -3]] 3 [9; 9; 9] = Some (st, r) ∧
    ((r = 3 ∧
      let order := take 3 (ts_order st) in
      order ≡ₚ seqZ 0 3 ∧
      ∀ k i j, order !! k = Some i → depends [leaf [2; 1]; leaf []; leaf [1; 7; -3]] i j →
        ∃ k', (k' < k)%nat ∧ order !! k' = Some j) ∨
     (r = -1 ∧ cyclic [leaf [2; 1]; leaf []; leaf [1; 7; -3]])).
Proof.
  apply (topo_sort_order [leaf [2; 1]; leaf []; leaf [1; 7; -3]] [9; 9; 9]).
  - repeat constructor.
  - simpl. lia.
Defined.

(** The cycle test is exact: [topo_sort] answers [-1] when and only when the
    dependencies of the packages contain a cycle. *)
Theorem topo_sort_cycle (nodes : list dep_node) (order_out : list Z) :
  Forall fresh nodes → (length nodes ≤ length order_out)%nat →
  (∃ st, topo_sort nodes (Z.of_nat (length nodes)) order_out = Some (st, -1)) ↔ cyclic nodes.
Proof.
  intros Hf Ho. destruct (topo_sort_cases nodes order_out Ho Hf) as [(V&->&Hp&HV)|(st&->&Hc)].
  - split; [intros [st Hst]; simplify_eq; lia|]. intros Hc. exfalso.
    apply (ordered_acyclic nodes V HV); [|done].
    intros i Hi. rewrite Hp. apply elem_of_seqZ. lia.
  - split; [done|]. intros _. by exists st.
Qed.

Lemma topo_sort_cycle_witness :
  (∃ st, topo_sort [leaf [1]; leaf [2]; leaf [1]] 3 [0; 0; 0] = Some (st, -1)) ∧
  cyclic [leaf [1]; leaf [2]; leaf [1]].
Proof.
  assert (∃ st, topo_sort [leaf [1]; leaf [2]; leaf [1]] 3 [0; 0; 0] = Some (st, -1)) as H
    by (eexists; vm_compute; reflexivity).
  split; [exact H|].
  apply (topo_sort_cycle [leaf [1]; leaf [2]; leaf [1]] [0; 0; 0]); [repeat constructor|simpl; lia|exact H].
Defined.
