(* ===== verification/Sha256.v ===== *)
(** * SHA-256

    The two implementations the repository has of the hash: [sha256_hex] of the
    package manager ([tools/hbpkg.c]), with a 64-word schedule and any message
    length, and the demonstration program [samples/sha256.c], which keeps the
    schedule in sixteen rolling words and hashes one block.  An [unsigned int] is
    a [Z] with its wrap-around written out; an array access out of range, or of an
    entry of [w] that was not written yet, is a fault.

    [Fips] states the standard's definition of the digest: padding as a byte
    sequence, the schedule by its recurrence, the rotation as an exchange of the
    two parts of a word.  [sha256_hex] computes it for every message, the two
    compression functions agree on every block and state, and the demonstration
    prints the digest of the text it names. *)

From S2P Require Import Prelude.

(** ** [unsigned int] operations *)

Definition shl32 (x n : Z) : Z := u32 (Z.shiftl x n).
Definition not32 (x : Z) : Z := u32 (Z.lnot x).

(** [x >> n | x << (32 - n)] *)
Definition rot (x n : Z) : Z := Z.lor (Z.shiftr x n) (shl32 x (32 - n)).

(** ** [sha256_hex] of tools/hbpkg.c *)

Definition K : list Z := concat [
   [0x428a2f98; 0x71374491; 0xb5c0fbcf; 0xe9b5dba5];
   [0x3956c25b; 0x59f111f1; 0x923f82a4; 0xab1c5ed5];
   [0xd807aa98; 0x12835b01; 0x243185be; 0x550c7dc3];
   [0x72be5d74; 0x80deb1fe; 0x9bdc06a7; 0xc19bf174];
   [0xe49b69c1; 0xefbe4786; 0x0fc19dc6; 0x240ca1cc];
   [0x2de92c6f; 0x4a7484aa; 0x5cb0a9dc; 0x76f988da];
   [0x983e5152; 0xa831c66d; 0xb00327c8; 0xbf597fc7];
   [0xc6e00bf3; 0xd5a79147; 0x06ca6351; 0x14292967];
   [0x27b70a85; 0x2e1b2138; 0x4d2c6dfc; 0x53380d13];
   [0x650a7354; 0x766a0abb; 0x81c2c92e; 0x92722c85];
   [0xa2bfe8a1; 0xa81a664b; 0xc24b8b70; 0xc76c51a3];
   [0xd192e819; 0xd6990624; 0xf40e3585; 0x106aa070];
   [0x19a4c116; 0x1e376c08; 0x2748774c; 0x34b0bcb5];
   [0x391c0cb3; 0x4ed8aa4a; 0x5b9cca4f; 0x682e6ff3];
   [0x748f82ee; 0x78a5636f; 0x84c87814; 0x8cc70208];
   [0x90befffa; 0xa4506ceb; 0xbef9a3f7; 0xc67178f2]].

(** The eight words [h[0..7]], and the working variables [a .. hh]. *)
Record words8 := W8 { wa : Z; wb : Z; wc : Z; wd : Z; we : Z; wf : Z; wg : Z; wh : Z }.

Definition h_init : words8 :=
  W8 0x6a09e667 0xbb67ae85 0x3c6ef372 0xa54ff53a 0x510e527f 0x9b05688c 0x1f83d9ab 0x5be0cd19.

(** [size_t total = len + 1; while (total % 64 != 56) total++; total += 8;] *)
Fixpoint round_up (fuel : nat) (total : Z) : option Z :=
  match fuel with
  | O => None
  | S f => if negb (total `mod` 64 =? 56) then round_up f (total + 1) else Some total
  end.

Definition padded_total (len : Z) : option Z := t ← round_up 64 (len + 1); Some (t + 8).

(** [memcpy(msg, data, len)] into the zeroed block of [total] bytes. *)
Definition put_byte (msg : list Z) (i b : Z) : option (list Z) :=
  if (0 <=? i) && (i <? Z.of_nat (length msg)) then Some (<[Z.to_nat i := u8 b]> msg) else None.

Definition copy_in (msg data : list Z) : option (list Z) :=
  if (length data <=? length msg)%nat then Some (data ++ drop (length data) msg) else None.

(** [for (i = 0; i < 8; i++) msg[total - 1 - i] = (uint8_t)(bit_len >> (i * 8));] *)
Fixpoint put_length (k : nat) (i total bit_len : Z) (msg : list Z) : option (list Z) :=
  match k with
  | O => Some msg
  | S k' =>
      msg' ← put_byte msg (total - 1 - i) (u8 (Z.shiftr bit_len (i * 8)));
      put_length k' (i + 1) total bit_len msg'
  end.

Definition pad (data : list Z) : option (list Z) :=
  let len := Z.of_nat (length data) in
  total ← padded_total len;
  msg ← copy_in (replicate (Z.to_nat total) 0) data;
  msg ← put_byte msg len 0x80;
  let bit_len := u64 (u64 len * 8) in
  put_length 8 0 total bit_len msg.

(** [w[0..15]], four bytes each. *)
Definition load_be (msg : list Z) (p : nat) : option Z :=
  b0 ← msg !! p; b1 ← msg !! (p + 1)%nat; b2 ← msg !! (p + 2)%nat; b3 ← msg !! (p + 3)%nat;
  Some (Z.lor (Z.lor (Z.lor (shl32 b0 24) (shl32 b1 16)) (shl32 b2 8)) b3).

Definition first_words (msg : list Z) (block : nat) : option (list Z) :=
  mapM (λ i, load_be msg (block + i * 4)%nat) (seq 0 16).

Definition s0 (x : Z) : Z := Z.lxor (Z.lxor (rot x 7) (rot x 18)) (Z.shiftr x 3).
Definition s1 (x : Z) : Z := Z.lxor (Z.lxor (rot x 17) (rot x 19)) (Z.shiftr x 10).

(** [for (i = 16; i < 64; i++) w[i] = w[i-16] + s0 + w[i-7] + s1;] *)
Fixpoint extend (k : nat) (w : list Z) : option (list Z) :=
  match k with
  | O => Some w
  | S k' =>
      let i := length w in
      w15 ← w !! (i - 15)%nat; w2 ← w !! (i - 2)%nat;
      w16 ← w !! (i - 16)%nat; w7 ← w !! (i - 7)%nat;
      extend k' (w ++ [u32 (w16 + s0 w15 + w7 + s1 w2)])
  end.

Definition S1 (e : Z) : Z := Z.lxor (Z.lxor (rot e 6) (rot e 11)) (rot e 25).
Definition S0 (a : Z) : Z := Z.lxor (Z.lxor (rot a 2) (rot a 13)) (rot a 22).
Definition ch (e f g : Z) : Z := Z.lxor (Z.land e f) (Z.land (not32 e) g).
Definition maj (a b c : Z) : Z := Z.lxor (Z.lxor (Z.land a b) (Z.land a c)) (Z.land b c).

Definition sha_round (k w : Z) (r : words8) : words8 :=
  let temp1 := u32 (wh r + S1 (we r) + ch (we r) (wf r) (wg r) + k + w) in
  let temp2 := u32 (S0 (wa r) + maj (wa r) (wb r) (wc r)) in
  W8 (u32 (temp1 + temp2)) (wa r) (wb r) (wc r) (u32 (wd r + temp1)) (we r) (wf r) (wg r).

Fixpoint sha_rounds (k : nat) (i : nat) (w : list Z) (r : words8) : option words8 :=
  match k with
  | O => Some r
  | S k' => ki ← K !! i; wi ← w !! i; sha_rounds k' (S i) w (sha_round ki wi r)
  end.

Definition add8 (h r : words8) : words8 :=
  W8 (u32 (wa h + wa r)) (u32 (wb h + wb r)) (u32 (wc h + wc r)) (u32 (wd h + wd r))
     (u32 (we h + we r)) (u32 (wf h + wf r)) (u32 (wg h + wg r)) (u32 (wh h + wh r)).

(** One turn of the block loop once the sixteen words are loaded, and the turn. *)
Definition compress_words (h : words8) (w16 : list Z) : option words8 :=
  w ← extend 48 w16; r ← sha_rounds 64 0 w h; Some (add8 h r).

Definition compress_at (msg : list Z) (block : nat) (h : words8) : option words8 :=
  w ← first_words msg block; compress_words h w.

(** [for (block = 0; block < total; block += 64)] *)
Fixpoint blocks_loop (fuel : nat) (msg : list Z) (block : nat) (h : words8) : option words8 :=
  match fuel with
  | O => None
  | S f =>
      if (block <? length msg)%nat then
        h' ← compress_at msg block h; blocks_loop f msg (block + 64)%nat h'
      else Some h
  end.

(** [snprintf(out, 9, "%08x", v)]: eight hexadecimal digits, leading zeros kept. *)
Definition hex_digit (d : Z) : Z := if d <? 10 then 48 + d else 87 + d.
Definition hex8 (v : Z) : list Z :=
  map (λ i, hex_digit (Z.land (Z.shiftr v i) 15)) [28; 24; 20; 16; 12; 8; 4; 0].

Definition hex_out (h : words8) : list Z :=
  hex8 (wa h) ++ hex8 (wb h) ++ hex8 (wc h) ++ hex8 (wd h) ++
  hex8 (we h) ++ hex8 (wf h) ++ hex8 (wg h) ++ hex8 (wh h).

(** The text left in [out_hex64]; [calloc_ok] says whether the block for the
    padded message was obtained. *)
Definition sha256_hex (calloc_ok : bool) (data : list Z) : option (list Z) :=
  if negb calloc_ok then Some (replicate 64 48)
  else
    msg ← pad data;
    h ← blocks_loop (S (length msg)) msg 0 h_init;
    Some (hex_out h).

(** ** samples/sha256.c *)

Module Demo.

(** The globals the routines keep: [H0..H7], [ra..rh], [W0..W15], [wi], [wv] and
    [T2]; [tmp], [T1], [S0] and the other temporaries are assigned before each
    use. *)
Record globals := Globals {
  g_H : words8; g_r : words8; g_W : list Z; g_wi : Z; g_wv : Z; g_T2 : Z }.

(** The chain of tests that assigns [T2] from [wi], in order: [if (wi==i) {T2=k;}]. *)
Definition getK_table : list (Z * Z) := [
  (0, 0x428a2f98); (1, 0x71374491); (2, 0xb5c0fbcf); (3, 0xe9b5dba5);
  (4, 0x3956c25b); (5, 0x59f111f1); (6, 0x923f82a4); (7, 0xab1c5ed5);
  (8, 0xd807aa98); (9, 0x12835b01); (10, 0x243185be); (11, 0x550c7dc3);
  (12, 0x72be5d74); (13, 0x80deb1fe); (14, 0x9bdc06a7); (15, 0xc19bf174);
  (16, 0xe49b69c1); (17, 0xefbe4786); (18, 0x0fc19dc6); (19, 0x240ca1cc);
  (20, 0x2de92c6f); (21, 0x4a7484aa); (22, 0x5cb0a9dc); (23, 0x76f988da);
  (24, 0x983e5152); (25, 0xa831c66d); (26, 0xb00327c8); (27, 0xbf597fc7);
  (28, 0xc6e00bf3); (29, 0xd5a79147); (30, 0x06ca6351); (31, 0x14292967);
  (32, 0x27b70a85); (33, 0x2e1b2138); (34, 0x4d2c6dfc); (35, 0x53380d13);
  (36, 0x650a7354); (37, 0x766a0abb); (38, 0x81c2c92e); (39, 0x92722c85);
  (40, 0xa2bfe8a1); (41, 0xa81a664b); (42, 0xc24b8b70); (43, 0xc76c51a3);
  (44, 0xd192e819); (45, 0xd6990624); (46, 0xf40e3585); (47, 0x106aa070);
  (48, 0x19a4c116); (49, 0x1e376c08); (50, 0x2748774c); (51, 0x34b0bcb5);
  (52, 0x391c0cb3); (53, 0x4ed8aa4a); (54, 0x5b9cca4f); (55, 0x682e6ff3);
  (56, 0x748f82ee); (57, 0x78a5636f); (58, 0x84c87814); (59, 0x8cc70208);
  (60, 0x90befffa); (61, 0xa4506ceb); (62, 0xbef9a3f7); (63, 0xc67178f2)].

Definition getK (wi T2 : Z) : Z :=
  foldl (λ T2 '(i, k), if wi =? i then k else T2) T2 getK_table.

(** The chains that read and assign [W0..W15] by the value of [tmp]: no test is
    true, and nothing is assigned, when [tmp] is above 15. *)
Definition read_W (W : list Z) (tmp wv : Z) : Z := default wv (W !! Z.to_nat tmp).
Definition set_W (W : list Z) (tmp wv : Z) : list Z := <[Z.to_nat tmp := wv]> W.

Definition expand_W (g : globals) : globals :=
  let wi := g_wi g in
  let wv := read_W (g_W g) (Z.land (u32 (wi - 15)) 15) (g_wv g) in
  let ms0 := Z.lxor (Z.lxor (Z.lor (Z.shiftr wv 7) (shl32 wv 25)) (Z.lor (Z.shiftr wv 18) (shl32 wv 14)))
                    (Z.shiftr wv 3) in
  let wv := read_W (g_W g) (Z.land (u32 (wi - 2)) 15) wv in
  let ms1 := Z.lxor (Z.lxor (Z.lor (Z.shiftr wv 17) (shl32 wv 15)) (Z.lor (Z.shiftr wv 19) (shl32 wv 13)))
                    (Z.shiftr wv 10) in
  let wv := read_W (g_W g) (Z.land (u32 (wi - 7)) 15) wv in
  let mw7 := wv in
  let wv := read_W (g_W g) (Z.land wi 15) wv in
  let mw16 := wv in
  let wv := u32 (mw16 + ms0 + mw7 + ms1) in
  Globals (g_H g) (g_r g) (set_W (g_W g) (Z.land wi 15) wv) wi wv (g_T2 g).

Definition round (g : globals) : globals :=
  let wv := read_W (g_W g) (Z.land (g_wi g) 15) (g_wv g) in
  let T2 := getK (g_wi g) (g_T2 g) in
  let r := g_r g in
  let re := we r in let ra := wa r in
  let S1 := Z.lxor (Z.lxor (Z.lor (Z.shiftr re 6) (shl32 re 26)) (Z.lor (Z.shiftr re 11) (shl32 re 21)))
                   (Z.lor (Z.shiftr re 25) (shl32 re 7)) in
  let Ch := Z.lxor (Z.land re (wf r)) (Z.land (not32 re) (wg r)) in
  let T1 := u32 (wh r + S1 + Ch + T2 + wv) in
  let S0 := Z.lxor (Z.lxor (Z.lor (Z.shiftr ra 2) (shl32 ra 30)) (Z.lor (Z.shiftr ra 13) (shl32 ra 19)))
                   (Z.lor (Z.shiftr ra 22) (shl32 ra 10)) in
  let Maj := Z.lxor (Z.lxor (Z.land ra (wb r)) (Z.land ra (wc r))) (Z.land (wb r) (wc r)) in
  let tmp := u32 (S0 + Maj) in
  Globals (g_H g)
    (W8 (u32 (T1 + tmp)) (wa r) (wb r) (wc r) (u32 (wd r + T1)) (we r) (wf r) (wg r))
    (g_W g) (u32 (g_wi g + 1)) wv T2.

Definition turn (g : globals) : globals :=
  round (if 16 <=? g_wi g then expand_W g else g).

(** [while (wi < 64)] *)
Fixpoint turns (fuel : nat) (g : globals) : option globals :=
  match fuel with
  | O => None
  | S f => if g_wi g <? 64 then turns f (turn g) else Some g
  end.

Definition sha256_compress (g : globals) : option globals :=
  g' ← turns 65 (Globals (g_H g) (g_H g) (g_W g) 0 (g_wv g) (g_T2 g));
  Some (Globals (add8 (g_H g') (g_r g')) (g_r g') (g_W g') (g_wi g') (g_wv g') (g_T2 g')).

(** The digits [print_hex32] sends to the console. *)
Fixpoint print_loop (fuel : nat) (phv phi : Z) : list Z :=
  match fuel with
  | O => []
  | S f =>
      if 0 <=? phi then
        let phd := Z.land (Z.shiftr phv phi) 15 in
        (if phd <? 10 then 48 + phd else 87 + phd) :: print_loop f phv (phi - 4)
      else []
  end.

Definition print_hex32 (phv : Z) : list Z := print_loop 9 phv 28.

(** The console output of [main]. *)
Definition sha_main : option (list Z) :=
  g ← sha256_compress (Globals h_init (W8 0 0 0 0 0 0 0 0)
        [0x48656C6C; 0x6F2C204D; 0x656C6C69; 0x766F7261; 0x21800000; 0; 0; 0;
         0; 0; 0; 0; 0; 0; 0; 0x00000088] 0 0 0);
  let h := g_H g in
  Some (lit "SHA-256(" ++ [34] ++ lit "Hello, Mellivora!" ++ [34] ++ lit ") = " ++
        print_hex32 (wa h) ++ print_hex32 (wb h) ++ print_hex32 (wc h) ++ print_hex32 (wd h) ++
        print_hex32 (we h) ++ print_hex32 (wf h) ++ print_hex32 (wg h) ++ print_hex32 (wh h) ++ [10]).

End Demo.

(** ** The standard *)

Module Fips.

Definition ROTR (n x : Z) : Z := x `div` 2 ^ n + x `mod` 2 ^ n * 2 ^ (32 - n).
Definition SHR (n x : Z) : Z := x `div` 2 ^ n.
Definition sigma0 (x : Z) : Z := Z.lxor (Z.lxor (ROTR 7 x) (ROTR 18 x)) (SHR 3 x).
Definition sigma1 (x : Z) : Z := Z.lxor (Z.lxor (ROTR 17 x) (ROTR 19 x)) (SHR 10 x).
Definition Sigma0 (x : Z) : Z := Z.lxor (Z.lxor (ROTR 2 x) (ROTR 13 x)) (ROTR 22 x).
Definition Sigma1 (x : Z) : Z := Z.lxor (Z.lxor (ROTR 6 x) (ROTR 11 x)) (ROTR 25 x).
Definition Ch (x y z : Z) : Z := Z.lxor (Z.land x y) (Z.land (4294967295 - x) z).
Definition Maj (x y z : Z) : Z := Z.lxor (Z.lxor (Z.land x y) (Z.land x z)) (Z.land y z).

(** Big-endian value of bytes, and the bytes of a value. *)
Definition be_value (bs : list Z) : Z := foldl (λ v b, v * 256 + b) 0 bs.
Fixpoint be_bytes (n : nat) (v : Z) : list Z :=
  match n with O => [] | S n' => be_bytes n' (v `div` 256) ++ [v `mod` 256] end.

(** The message, a one bit, the fewest zeros that leave eight bytes of the last
    block, and the length in bits in those. *)
Definition padding (msg : list Z) : list Z :=
  let l := Z.of_nat (length msg) in
  msg ++ [128] ++ replicate (Z.to_nat ((55 - l) `mod` 64)) 0 ++ be_bytes 8 (8 * l).

(** The [t]-th word of the block that starts at byte [p]. *)
Definition M (msg : list Z) (p t : nat) : Z := be_value (take 4 (drop (p + 4 * t) msg)).

Definition schedule (M W : nat → Z) : Prop :=
  (∀ t, (t < 16)%nat → W t = M t) ∧
  (∀ t, (16 ≤ t < 64)%nat →
     W t = u32 (sigma1 (W (t - 2)%nat) + W (t - 7)%nat + sigma0 (W (t - 15)%nat) + W (t - 16)%nat)).

Definition step (W : nat → Z) (r : words8) (t : nat) : words8 :=
  let T1 := wh r + Sigma1 (we r) + Ch (we r) (wf r) (wg r) + nth t K 0 + W t in
  let T2 := Sigma0 (wa r) + Maj (wa r) (wb r) (wc r) in
  W8 (u32 (T1 + T2)) (wa r) (wb r) (wc r) (u32 (wd r + T1)) (we r) (wf r) (wg r).

(** One block, and the blocks of a padded message from byte [p] on. *)
Definition block (M : nat → Z) (h h' : words8) : Prop :=
  ∃ W, schedule M W ∧ h' = add8 h (foldl (step W) h (seq 0 64)).

Inductive blocks (msg : list Z) : nat → words8 → words8 → Prop :=
| blocks_end h : blocks msg (length msg) h h
| blocks_more p h h1 h2 :
    block (M msg p) h h1 → blocks msg (p + 64) h1 h2 → blocks msg p h h2.

Definition digest (msg : list Z) (d : words8) : Prop := blocks (padding msg) 0 h_init d.

End Fips.

(** The standard's own example. *)
Example abc_digest :
  sha256_hex true (lit "abc") =
  Some (lit "ba7816bf8f01cfea414140de5dae2223b00361a396177a9cb410ff61f20015ad").
Proof. vm_compute. reflexivity. Qed.

(** ** The rolling schedule *)

Section rolling.
Implicit Types (w W : list Z) (t : nat).

Lemma extend_app k w w' : extend k w = Some w' → ∃ ex, w' = w ++ ex ∧ length ex = k.
Proof.
  revert w w'. induction k as [|k IH]; intros w w' H; simpl in H.
  - simplify_eq. exists []. by rewrite app_nil_r.
  - bind_inv. destruct (IH _ _ H) as (ex&->&Hl). eexists (_ :: ex).
    rewrite <- app_assoc. split; [done|]. simpl. lia.
Qed.

(** What [extend] writes at each index. *)
Lemma extend_at k w w' t :
  (16 ≤ length w)%nat → extend k w = Some w' → (length w ≤ t < length w + k)%nat →
  ∃ w15 w2 w16 w7 : Z, w' !! (t - 15)%nat = Some w15 ∧ w' !! (t - 2)%nat = Some w2 ∧
    w' !! (t - 16)%nat = Some w16 ∧ w' !! (t - 7)%nat = Some w7 ∧
    w' !! t = Some (u32 (w16 + s0 w15 + w7 + s1 w2)).
Proof.
  revert w. induction k as [|k IH]; intros w Hw H Ht; [lia|]. simpl in H. bind_inv.
  destruct (decide (t = length w)) as [->|].
  - apply extend_app in H as (ex&->&_). rewrite <- app_assoc. simpl.
    eexists _, _, _, _. rewrite lookup_app_mid. split_and!;
      first [by erewrite lookup_app_l_Some | done].
  - apply (IH _) in H; [done|rewrite length_app; simpl; lia..].
Qed.

Lemma extend_total k w : (16 ≤ length w)%nat → ∃ w', extend k w = Some w'.
Proof.
  revert w. induction k as [|k IH]; intros w Hw; simpl; [by eexists|].
  destruct (lookup_lt_is_Some_2 w (length w - 15)) as [a ->]; [lia|].
  destruct (lookup_lt_is_Some_2 w (length w - 2)) as [b ->]; [lia|].
  destruct (lookup_lt_is_Some_2 w (length w - 16)) as [c ->]; [lia|].
  destruct (lookup_lt_is_Some_2 w (length w - 7)) as [d ->]; [lia|].
  simpl. apply IH. rewrite length_app. simpl. lia.
Qed.

(** The rolling words before turn [t] are the last sixteen of the schedule. *)
Definition rolled w W t : Prop :=
  length W = 16%nat ∧
  ∀ j, (j < Nat.max 16 t)%nat → (t ≤ j + 16)%nat → W !! (j `mod` 16)%nat = w !! j.

Lemma land15 t : Z.to_nat (Z.land (Z.of_nat t) 15) = (t `mod` 16)%nat.
Proof. rewrite (land_mask _ 15 4) by done. change (2 ^ 4) with (Z.of_nat 16). rewrite <- Nat2Z.inj_mod. lia. Qed.

Lemma land15_back t k : (k ≤ t)%nat → (t < 64)%nat →
  Z.to_nat (Z.land (u32 (Z.of_nat t - Z.of_nat k)) 15) = ((t - k) `mod` 16)%nat.
Proof.
  intros. rewrite u32_small by word_lia. rewrite <- Nat2Z.inj_sub by done. apply land15.
Qed.

Lemma read_W_at w W t k (x wv : Z) :
  rolled w W t → (0 < k ≤ 16)%nat → (k ≤ t < 64)%nat → w !! (t - k)%nat = Some x →
  Demo.read_W W (Z.land (u32 (Z.of_nat t - Z.of_nat k)) 15) wv = x.
Proof.
  intros [_ HW] ?? Hx. unfold Demo.read_W. rewrite land15_back by lia.
  rewrite HW by lia. by rewrite Hx.
Qed.

Lemma mod16_sub t : (16 ≤ t)%nat → (t `mod` 16 = (t - 16) `mod` 16)%nat.
Proof. intros. replace t with ((t - 16) + 1 * 16)%nat at 1 by lia. by rewrite Nat.Div0.mod_add. Qed.

Lemma mod16_ne t j : (t - 16 < j < t)%nat → (16 ≤ t)%nat → (t `mod` 16 ≠ j `mod` 16)%nat.
Proof.
  intros. pose proof (Nat.div_mod_eq t 16). pose proof (Nat.div_mod_eq j 16). lia.
Qed.

(** The chain of tests is the table. *)
Lemma getK_K t ki T2 : K !! t = Some ki → Demo.getK (Z.of_nat t) T2 = ki.
Proof.
  intros Ht. pose proof (lookup_lt_Some _ _ _ Ht) as Hl. change (length K) with 64%nat in Hl.
  assert (∀ t, (t < 64)%nat → nth t K 0 = Demo.getK (Z.of_nat t) T2) as Hall.
  { clear. intros t Ht. do 64 (destruct t as [|t]; [reflexivity|]). lia. }
  rewrite <- Hall by done. by apply nth_lookup_Some.
Qed.

(** One turn of the loop keeps the rolling words in step with the schedule and
    does the round of the other implementation. *)
Lemma turn_ok w W t (wi ki : Z) h r (wv T2 : Z) :
  rolled w W t → (t < 64)%nat → length w = 64%nat →
  (∀ t, (16 ≤ t < 64)%nat → ∃ w15 w2 w16 w7 : Z, w !! (t - 15)%nat = Some w15 ∧
     w !! (t - 2)%nat = Some w2 ∧ w !! (t - 16)%nat = Some w16 ∧ w !! (t - 7)%nat = Some w7 ∧
     w !! t = Some (u32 (w16 + s0 w15 + w7 + s1 w2))) →
  w !! t = Some wi → K !! t = Some ki →
  ∃ W', Demo.turn (Demo.Globals h r W (Z.of_nat t) wv T2)
          = Demo.Globals h (sha_round ki wi r) W' (Z.of_nat (S t)) wi ki ∧ rolled w W' (S t).
Proof.
  intros HW Ht Hlen Hrec Hwi Hki. unfold Demo.turn. simpl.
  assert (Hround : ∀ W' wv', rolled w W' (S t) →
    Demo.round (Demo.Globals h r W' (Z.of_nat t) wv' T2)
    = Demo.Globals h (sha_round ki wi r) W' (Z.of_nat (S t)) wi ki).
  { intros W' wv' [Hl HW']. unfold Demo.round, Demo.read_W.
    cbn [Demo.g_H Demo.g_r Demo.g_W Demo.g_wi Demo.g_wv Demo.g_T2].
    rewrite land15, HW' by lia. rewrite Hwi. cbn [default].
    rewrite (getK_K t ki T2 Hki).
    rewrite (u32_small (Z.of_nat t + 1)) by word_lia. unfold sha_round. simpl.
    replace (Z.of_nat t + 1) with (Z.of_nat (S t)) by lia. reflexivity. }
  destruct (Z.leb_spec 16 (Z.of_nat t)) as [H16|H16].
  - destruct (Hrec t) as (w15&w2&w16&w7&E15&E2&E16&E7&Et); [lia|].
    rewrite Hwi in Et. simplify_eq.
    unfold Demo.expand_W. cbn [Demo.g_wi Demo.g_W Demo.g_wv Demo.g_H Demo.g_r Demo.g_T2].
    pose proof (read_W_at w W t 15 w15) as R15. pose proof (read_W_at w W t 2 w2) as R2.
    pose proof (read_W_at w W t 7 w7) as R7. simpl in R15, R2, R7.
    rewrite R15, R2, R7 by (done || lia).
    unfold Demo.read_W. rewrite land15. pose proof HW as [Hl HW0].
    rewrite (mod16_sub t) by lia. rewrite HW0 by lia. rewrite E16. simpl.
    unfold Demo.set_W. rewrite land15.
    fold (s0 w15) (s1 w2). eexists. split; [apply Hround|].
    all: split; [by rewrite length_insert|intros j Hj1 Hj2].
    all: destruct (decide (j = t)) as [->|Hjt];
      [rewrite list_lookup_insert_eq by (rewrite Hl; apply Nat.mod_upper_bound; lia); by rewrite Hwi|].
    all: rewrite list_lookup_insert_ne by (apply mod16_ne; lia); apply HW0; lia.
  - assert (rolled w W (S t)).
    { destruct HW as [Hl HW0]. split; [done|]. intros j ??. apply HW0; lia. }
    exists W. split; [by apply Hround|done].
Qed.

Lemma turns_ok w k t W h r (wv T2 : Z) :
  rolled w W t → (t + k = 64)%nat → length w = 64%nat →
  (∀ t, (16 ≤ t < 64)%nat → ∃ w15 w2 w16 w7 : Z, w !! (t - 15)%nat = Some w15 ∧
     w !! (t - 2)%nat = Some w2 ∧ w !! (t - 16)%nat = Some w16 ∧ w !! (t - 7)%nat = Some w7 ∧
     w !! t = Some (u32 (w16 + s0 w15 + w7 + s1 w2))) →
  ∃ W' r' wv' T2', Demo.turns (S k) (Demo.Globals h r W (Z.of_nat t) wv T2)
      = Some (Demo.Globals h r' W' 64 wv' T2') ∧ sha_rounds k t w r = Some r'.
Proof.
  revert t W r wv T2. induction k as [|k IH]; intros t W r wv T2 HW Htk Hl Hrec.
  - replace (Z.of_nat t) with 64 by lia. simpl. eexists _, _, _, _. done.
  - destruct (lookup_lt_is_Some_2 w t) as [wi Hwi]; [lia|].
    destruct (lookup_lt_is_Some_2 K t) as [ki Hki]; [simpl; lia|].
    destruct (turn_ok w W t wi ki h r wv T2) as (W1&E1&HW1); [done|lia|done..|].
    destruct (IH (S t) W1 (sha_round ki wi r) wi ki) as (W2&r2&wv2&T22&E2&E3); [done|lia|done..|].
    exists W2, r2, wv2, T22. split.
    + rewrite <- E2, <- E1. cbn [Demo.turns Demo.g_wi]. zb_simpl. done.
    + rewrite <- E3. cbn [sha_rounds]. by rewrite Hki, Hwi.
Qed.

End rolling.

(** [C12] The demonstration's compression of the block in [W0..W15], with its schedule
    kept in sixteen rolling words, leaves in [H0..H7] what the package manager's
    64-word compression computes from the same state and block. *)
Theorem sha256_compress_agrees (h r : words8) (W : list Z) (wi wv T2 : Z) :
  length W = 16%nat →
  ∃ g' h', Demo.sha256_compress (Demo.Globals h r W wi wv T2) = Some g' ∧
    compress_words h W = Some h' ∧ Demo.g_H g' = h'.
Proof.
  intros HW. destruct (extend_total 48 W) as [w Hw]; [lia|].
  destruct (extend_app _ _ _ Hw) as (ex&Hwe&Hex).
  assert (length w = 64%nat) as Hl by (rewrite Hwe, length_app; lia).
  destruct (turns_ok w 64 0 W h h wv T2) as (W'&r'&wv'&T2'&E1&E2); [|done|done|..].
  - split; [done|]. intros j ??. rewrite Nat.mod_small by lia. rewrite Hwe, lookup_app_l by lia. done.
  - intros t Ht. apply (extend_at 48 W); [lia|done|lia].
  - unfold Demo.sha256_compress, compress_words. cbn [Demo.g_H Demo.g_W Demo.g_wv Demo.g_T2].
    change 0 with (Z.of_nat 0). rewrite E1, Hw. rewrite !some_bind, E2. rewrite some_bind.
    eexists _, _. split_and!; reflexivity.
Qed.

Lemma sha256_compress_agrees_witness :
  ∃ g' h', Demo.sha256_compress (Demo.Globals h_init h_init (seqZ 1 16) 7 8 9) = Some g' ∧
    compress_words h_init (seqZ 1 16) = Some h' ∧ Demo.g_H g' = h'.
Proof. apply (sha256_compress_agrees h_init h_init (seqZ 1 16) 7 8 9). reflexivity. Defined.

(** ** The digest of the standard *)

Section fips.
Implicit Types (msg data : list Z) (x n : Z).

Lemma rot_ROTR x n : 0 < n < 32 → is_u32 x → rot x n = Fips.ROTR n x.
Proof.
  intros Hn Hx. unfold rot, Fips.ROTR, shl32, u32, is_u32 in *.
  rewrite Z.shiftr_div_pow2, Z.shiftl_mul_pow2 by lia.
  assert (4294967296 = 2 ^ n * 2 ^ (32 - n)) as E
    by (rewrite <- Z.pow_add_r by lia; by replace (n + (32 - n)) with 32 by lia).
  rewrite E in *.
  rewrite Z.mul_mod_distr_r by lia.
  rewrite Z.lor_comm, <- Z.shiftl_mul_pow2, lor_shiftl_add by
    (lia || (split; [apply Z.div_pos; lia|apply Z.div_lt_upper_bound; lia])).
  rewrite Z.shiftl_mul_pow2 by lia. lia.
Qed.

Lemma s0_sigma0 x : is_u32 x → s0 x = Fips.sigma0 x.
Proof.
  intros. unfold s0, Fips.sigma0, Fips.SHR. rewrite !rot_ROTR by (done || lia).
  by rewrite shiftr_div by lia.
Qed.
Lemma s1_sigma1 x : is_u32 x → s1 x = Fips.sigma1 x.
Proof.
  intros. unfold s1, Fips.sigma1, Fips.SHR. rewrite !rot_ROTR by (done || lia).
  by rewrite shiftr_div by lia.
Qed.
Lemma S0_Sigma0 x : is_u32 x → S0 x = Fips.Sigma0 x.
Proof. intros. unfold S0, Fips.Sigma0. by rewrite !rot_ROTR by (done || lia). Qed.
Lemma S1_Sigma1 x : is_u32 x → S1 x = Fips.Sigma1 x.
Proof. intros. unfold S1, Fips.Sigma1. by rewrite !rot_ROTR by (done || lia). Qed.

Lemma not32_sub x : is_u32 x → not32 x = 4294967295 - x.
Proof. intros. unfold not32, Z.lnot. word_lia. Qed.

Definition u32s (r : words8) : Prop :=
  is_u32 (wa r) ∧ is_u32 (wb r) ∧ is_u32 (wc r) ∧ is_u32 (wd r) ∧
  is_u32 (we r) ∧ is_u32 (wf r) ∧ is_u32 (wg r) ∧ is_u32 (wh r).

Lemma add8_u32s h r : u32s (add8 h r).
Proof. unfold u32s. simpl. split_and!; auto with word. Qed.

Lemma sha_round_step W t k r :
  u32s r → K !! t = Some k → sha_round k (W t) r = Fips.step W r t ∧ u32s (Fips.step W r t).
Proof.
  intros (?&?&?&?&?&?&?&?) Hk. split.
  - unfold sha_round, Fips.step, ch, Fips.Ch, maj, Fips.Maj.
    rewrite (nth_lookup_Some _ _ _ _ Hk), S0_Sigma0, S1_Sigma1, not32_sub by done. f_equal.
    + autorewrite with word. f_equal.
    + autorewrite with word. done.
  - unfold Fips.step, u32s. simpl. split_and!; auto with word.
Qed.

Lemma sha_rounds_steps k i w r :
  u32s r → (i + k ≤ 64)%nat → (64 ≤ length w)%nat →
  sha_rounds k i w r = Some (foldl (Fips.step (λ t, nth t w 0)) r (seq i k)).
Proof.
  revert i r. induction k as [|k IH]; intros i r Hr Hi Hw; simpl; [done|].
  destruct (lookup_lt_is_Some_2 K i) as [ki Hki]; [simpl; lia|].
  destruct (lookup_lt_is_Some_2 w i) as [wi Hwi]; [lia|].
  rewrite Hki, Hwi. simpl.
  destruct (sha_round_step (λ t, nth t w 0) i ki r Hr Hki) as [E Hs].
  simpl in E. rewrite (nth_lookup_Some _ _ _ _ Hwi) in E. rewrite E. apply IH; [done|lia..].
Qed.

Lemma extend_u32 k w w' : Forall is_u32 w → extend k w = Some w' → Forall is_u32 w'.
Proof.
  revert w. induction k as [|k IH]; intros w Hw H; simpl in H; [by simplify_eq|].
  bind_inv. apply IH in H; [done|]. apply Forall_app_2; [done|]. repeat constructor; word_lia.
Qed.

Lemma compress_words_block h w16 :
  u32s h → length w16 = 16%nat → Forall is_u32 w16 →
  ∃ h', compress_words h w16 = Some h' ∧ Fips.block (λ t, nth t w16 0) h h' ∧ u32s h'.
Proof.
  intros Hh Hl Hu. destruct (extend_total 48 w16) as [w Hw]; [lia|].
  destruct (extend_app _ _ _ Hw) as (ex&Hwe&Hex).
  pose proof (extend_u32 _ _ _ Hu Hw) as Hwu. rewrite Forall_forall in Hwu.
  unfold compress_words. rewrite Hw, some_bind.
  assert (64 ≤ length w)%nat as Hwl by (rewrite Hwe, length_app; lia).
  rewrite (sha_rounds_steps 64 0 w h Hh (le_n 64) Hwl), some_bind.
  eexists. split; [done|]. split; [|apply add8_u32s].
  exists (λ t, nth t w 0). split; [|done]. split.
  - intros t Ht. rewrite Hwe. apply app_nth1. lia.
  - intros t Ht. destruct (extend_at 48 w16 w t) as (w15&w2&w16'&w7&E15&E2&E16&E7&Et); [lia|done|lia|].
    rewrite (nth_lookup_Some _ _ _ _ E15), (nth_lookup_Some _ _ _ _ E2),
      (nth_lookup_Some _ _ _ _ E16), (nth_lookup_Some _ _ _ _ E7), (nth_lookup_Some _ _ _ _ Et).
    rewrite s0_sigma0, s1_sigma1 by (eapply Hwu, list_elem_of_lookup_2; done). f_equal. lia.
Qed.

(** *** Words of a block *)

Lemma shl_lor_be b0 b1 b2 b3 :
  is_u8 b0 → is_u8 b1 → is_u8 b2 → is_u8 b3 →
  Z.lor (Z.lor (Z.lor (shl32 b0 24) (shl32 b1 16)) (shl32 b2 8)) b3 = Fips.be_value [b0; b1; b2; b3].
Proof.
  intros. unfold shl32. rewrite !Z.shiftl_mul_pow2 by lia. rewrite !u32_small by word_lia.
  unfold is_u8 in *.
  rewrite <- (Z.shiftl_mul_pow2 b0), lor_shiftl_add by lia.
  replace (b0 * 2 ^ 24 + b1 * 2 ^ 16) with (Z.shiftl (b0 * 2 ^ 8 + b1) 16)
    by (rewrite Z.shiftl_mul_pow2; lia).
  rewrite lor_shiftl_add by lia.
  replace ((b0 * 2 ^ 8 + b1) * 2 ^ 16 + b2 * 2 ^ 8) with (Z.shiftl ((b0 * 2 ^ 8 + b1) * 2 ^ 8 + b2) 8)
    by (rewrite Z.shiftl_mul_pow2; lia).
  rewrite lor_shiftl_add by lia. unfold Fips.be_value. cbn [foldl]. lia.
Qed.

Lemma four_at msg p : (p + 4 ≤ length msg)%nat →
  ∃ b0 b1 b2 b3, msg !! p = Some b0 ∧ msg !! (p + 1)%nat = Some b1 ∧ msg !! (p + 2)%nat = Some b2 ∧
    msg !! (p + 3)%nat = Some b3 ∧ take 4 (drop p msg) = [b0; b1; b2; b3].
Proof.
  intros Hp.
  destruct (drop p msg) as [|b0 [|b1 [|b2 [|b3 l]]]] eqn:E;
    try (apply (f_equal length) in E; rewrite length_drop in E; simpl in E; lia).
  exists b0, b1, b2, b3.
  assert (∀ i, msg !! (p + i)%nat = (b0 :: b1 :: b2 :: b3 :: l) !! i) as H
    by (intros i; rewrite <- E, lookup_drop; done).
  rewrite <- (Nat.add_0_r p) at 1. rewrite !H. done.
Qed.

Lemma load_be_ok msg p : Forall is_u8 msg → (p + 4 ≤ length msg)%nat →
  load_be msg p = Some (Fips.be_value (take 4 (drop p msg))) ∧
  is_u32 (Fips.be_value (take 4 (drop p msg))).
Proof.
  intros Hu Hp. destruct (four_at msg p Hp) as (b0&b1&b2&b3&E0&E1&E2&E3&->).
  rewrite Forall_forall in Hu.
  assert (is_u8 b0 ∧ is_u8 b1 ∧ is_u8 b2 ∧ is_u8 b3) as (?&?&?&?)
    by (split_and!; eapply Hu, list_elem_of_lookup_2; done).
  unfold load_be. rewrite E0, E1, E2, E3. simpl. split.
  - by rewrite shl_lor_be.
  - unfold Fips.be_value, is_u8, is_u32 in *. cbn [foldl]. lia.
Qed.

Lemma compress_at_block msg p h :
  Forall is_u8 msg → (p + 64 ≤ length msg)%nat → u32s h →
  ∃ h', compress_at msg p h = Some h' ∧ Fips.block (Fips.M msg p) h h' ∧ u32s h'.
Proof.
  intros Hu Hp Hh. unfold compress_at.
  set (ws := map (λ i, Fips.be_value (take 4 (drop (p + i * 4) msg))) (seq 0 16)).
  assert (first_words msg p = Some ws) as ->.
  { unfold first_words, ws. apply mapM_Some, Forall2_fmap_r, Forall_Forall2_diag, Forall_seq.
    intros i Hi. apply load_be_ok; [done|lia]. }
  rewrite some_bind. destruct (compress_words_block h ws) as (h'&->&(W&[HW0 HW1]&->)&Hh').
  - done.
  - unfold ws. by rewrite length_map, length_seq.
  - unfold ws. apply Forall_fmap, Forall_seq. intros i Hi. apply load_be_ok; [done|lia].
  - eexists. split; [done|]. split; [|done]. exists W. split; [|done]. split; [|done].
    intros t Ht. rewrite HW0 by done. unfold ws, Fips.M.
    rewrite (nth_indep _ 0 (Fips.be_value (take 4 (drop (p + 0 * 4) msg))))
      by (rewrite length_map, length_seq; lia).
    rewrite (map_nth (λ i, Fips.be_value (take 4 (drop (p + i * 4) msg)))), seq_nth by lia.
    do 3 f_equal. lia.
Qed.

Lemma blocks_loop_ok f msg (n p : nat) h :
  Forall is_u8 msg → (length msg = p + 64 * n)%nat → (n < f)%nat → u32s h →
  ∃ h', blocks_loop f msg p h = Some h' ∧ Fips.blocks msg p h h'.
Proof.
  intros Hu. revert p f h. induction n as [|n IH]; intros p f h Hl Hf Hh; (destruct f as [|f]; [lia|]); simpl.
  - destruct (Nat.ltb_spec p (length msg)); [lia|]. exists h. split; [done|].
    replace p with (length msg) by lia. constructor.
  - destruct (Nat.ltb_spec p (length msg)); [|lia].
    destruct (compress_at_block msg p h) as (h1&->&Hb&Hh1); [done|lia|done|]. simpl.
    destruct (IH (p + 64)%nat f h1) as (h2&->&?); [lia..|done|].
    exists h2. split; [done|]. by econstructor.
Qed.
End fips.

(** *** Padding *)

Section padding.
Implicit Types (msg data pre suf : list Z).

Lemma round_up_ok f t : (56 - t) `mod` 64 < Z.of_nat f → round_up f t = Some (t + (56 - t) `mod` 64).
Proof.
  revert t. induction f as [|f IH]; intros t Hf; [dlia|]. simpl.
  destruct (Z.eqb_spec (t `mod` 64) 56); simpl.
  - f_equal. dlia.
  - rewrite IH by dlia. f_equal. dlia.
Qed.

Lemma padded_total_ok len : padded_total len = Some (len + 9 + (55 - len) `mod` 64).
Proof.
  unfold padded_total. rewrite round_up_ok by dlia. simpl. f_equal.
  replace (56 - (len + 1)) with (55 - len) by lia. lia.
Qed.

Lemma put_at pre b suf c :
  put_byte (pre ++ b :: suf) (Z.of_nat (length pre)) c = Some (pre ++ u8 c :: suf).
Proof.
  unfold put_byte. rewrite length_app. simpl. zb_simpl. simpl. by rewrite Nat2Z.id, insert_app_mid.
Qed.

Lemma put_length_ok k pre suf (i total bl : Z) :
  Z.of_nat (length suf) = i → total = Z.of_nat (length pre + k + length suf) →
  put_length k i total bl (pre ++ replicate k 0 ++ suf)
  = Some (pre ++ Fips.be_bytes k (Z.shiftr bl (i * 8)) ++ suf).
Proof.
  revert i suf. induction k as [|k IH]; intros i suf Hi Ht; [done|].
  cbn [put_length]. replace (replicate (S k) 0) with (replicate k 0 ++ [0])
    by (by rewrite <- replicate_cons_app).
  rewrite <- app_assoc. simpl. rewrite (app_assoc pre).
  replace (total - 1 - i) with (Z.of_nat (length (pre ++ replicate k 0)))
    by (rewrite length_app, length_replicate; lia).
  rewrite put_at, some_bind, <- app_assoc.
  rewrite (IH (i + 1)) by (simpl; lia). do 2 f_equal.
  rewrite <- app_assoc. simpl.
  replace ((i + 1) * 8) with (i * 8 + 8) by lia. rewrite <- Z.shiftr_shiftr by lia.
  rewrite (Z.shiftr_div_pow2 _ 8) by lia. rewrite u8_idemp. done.
Qed.

Lemma pad_padding data :
  8 * Z.of_nat (length data) < 2 ^ 64 → pad data = Some (Fips.padding data).
Proof.
  intros Hl. unfold pad. rewrite padded_total_ok, some_bind. cbv zeta.
  set (len := Z.of_nat (length data)) in *.
  set (z := Z.to_nat ((55 - len) `mod` 64)).
  assert (Z.to_nat (len + 9 + (55 - len) `mod` 64) = length data + (1 + z + 8))%nat as ->
    by (unfold z, len; pose proof (Z.mod_pos_bound (55 - Z.of_nat (length data)) 64); lia).
  unfold copy_in. rewrite length_replicate. destruct (Nat.leb_spec (length data) (length data + (1 + z + 8))); [|lia].
  rewrite some_bind, drop_replicate.
  replace (length data + (1 + z + 8) - length data)%nat with (S (z + 8)) by lia. cbn [replicate].
  unfold len at 1. rewrite put_at, some_bind.
  rewrite replicate_add.
  replace (data ++ u8 128 :: replicate z 0 ++ replicate 8 0)
    with ((data ++ u8 128 :: replicate z 0) ++ replicate 8 0 ++ [])
    by (by rewrite app_nil_r, <- app_assoc).
  rewrite put_length_ok.
  - unfold Fips.padding. fold len. fold z. rewrite <- app_assoc, app_nil_r.
    rewrite Z.mul_0_l, Z.shiftr_0_r. unfold u64 in *. rewrite (Z.mod_small len), Z.mod_small by lia.
    rewrite Z.mul_comm. done.
  - done.
  - rewrite length_app. simpl. rewrite length_replicate. unfold z, len in *. dlia.
Qed.

Lemma length_be_bytes k v : length (Fips.be_bytes k v) = k.
Proof. revert v. induction k as [|k IH]; intros v; simpl; [done|]. rewrite length_app, IH. simpl. lia. Qed.

Lemma be_bytes_u8 k v : Forall is_u8 (Fips.be_bytes k v).
Proof.
  revert v. induction k as [|k IH]; intros v; simpl; [constructor|].
  apply Forall_app_2; [apply IH|]. repeat constructor; word_lia.
Qed.

Lemma padding_length data : ∃ n, length (Fips.padding data) = (64 * n)%nat.
Proof.
  unfold Fips.padding. rewrite !length_app, length_replicate, length_be_bytes. simpl.
  exists (Z.to_nat ((Z.of_nat (length data) + 9 + (55 - Z.of_nat (length data)) `mod` 64) `div` 64)). dlia.
Qed.

Lemma padding_u8 data : Forall is_u8 data → Forall is_u8 (Fips.padding data).
Proof.
  intros. unfold Fips.padding. cbv zeta. cbn [app].
  apply Forall_app_2; [done|]. constructor; [word_lia|].
  apply Forall_app_2; [apply Forall_is_u8_replicate; word_lia|apply be_bytes_u8].
Qed.
End padding.

(** [C7] The package manager's [sha256_hex] writes, for every message shorter than
    [2^61] bytes, the 64 hexadecimal digits of the digest the standard (FIPS
    180-4) defines; it ends and stays inside the padded message and its tables. *)
Theorem sha256_hex_fips (data : list Z) :
  Forall is_u8 data → 8 * Z.of_nat (length data) < 2 ^ 64 →
  ∃ d, Fips.digest data d ∧ sha256_hex true data = Some (hex_out d).
Proof.
  intros Hu Hl. unfold sha256_hex. simpl negb. cbn iota. rewrite pad_padding, some_bind by done.
  destruct (padding_length data) as [n Hn].
  destruct (blocks_loop_ok (S (length (Fips.padding data))) (Fips.padding data) n 0 h_init) as (d&->&Hd).
  - by apply padding_u8.
  - lia.
  - lia.
  - unfold u32s. simpl. word_lia.
  - exists d. split; [exact Hd|reflexivity].
Qed.

Lemma sha256_hex_fips_witness :
  ∃ d, Fips.digest (lit "abc") d ∧ sha256_hex true (lit "abc") = Some (hex_out d).
Proof.
  apply (sha256_hex_fips (lit "abc")).
  - repeat constructor; vm_compute; congruence.
  - reflexivity.
Defined.

(** The demonstration program prints the label and, after it, the digest the
    package manager computes for the same text. *)
Theorem sha_demo_prints_digest :
  Demo.sha_main = (λ h, lit "SHA-256(" ++ [34] ++ lit "Hello, Mellivora!" ++ [34] ++ lit ") = " ++ h ++ [10])
              <$> sha256_hex true (lit "Hello, Mellivora!").
Proof. vm_compute. reflexivity. Qed.
