(* ===== verification/HostText.v ===== *)
(** * Strings of the host tools

    The package manager runs on the build host and keeps every string in a
    fixed buffer that stays terminated.  A C string is the list of its
    characters, without the terminator; what a call such as
    [strncpy(f, s, sizeof(f) - 1)] leaves in a terminated buffer is the string
    cut to the buffer.  The functions below are the ones of the C library that
    [tools/hbpkg.c] calls, on such lists, with the classification of the C
    locale. *)

From S2P Require Import Prelude CMem CString.

Definition is_space (c : Z) : bool := (c =? 32) || ((9 <=? c) && (c <=? 13)).
Definition is_digit (c : Z) : bool := (48 <=? c) && (c <=? 57).
Definition is_alpha (c : Z) : bool := ((65 <=? c) && (c <=? 90)) || ((97 <=? c) && (c <=? 122)).
Definition is_alnum (c : Z) : bool := is_alpha c || is_digit c.

(** A C string has no NUL character. *)
Definition c_text (s : list Z) : Prop := Forall (λ c, c ≠ 0) s.

(** The string in a buffer: the bytes before the first NUL. *)
Definition cut0 (bs : list Z) : list Z := (span (λ c, negb (c =? 0)) bs).1.

(** [strncpy(f, s, size - 1)] and [snprintf(f, size, ...)] with the terminator
    kept: the string that is left in the buffer. *)
Definition clip (size : nat) (s : list Z) : list Z := take (size - 1) s.

(** The text from the first character satisfying [P] on. *)
Definition from (P : Z → bool) (s : list Z) : list Z := (span (λ c, negb (P c)) s).2.
Definition before (P : Z → bool) (s : list Z) : list Z := (span (λ c, negb (P c)) s).1.

(** [strchr]: the text after the character found and the text before it. *)
Definition strchr_split (c : Z) (s : list Z) : option (list Z * list Z) :=
  match from (Z.eqb c) s with
  | [] => None
  | _ :: rest => Some (before (Z.eqb c) s, rest)
  end.

Definition skip_blanks (s : list Z) : list Z := from (λ c, negb (is_space c)) s.

(** [strstr(s, t) != NULL] *)
Definition contains (t s : list Z) : bool :=
  match t with [] => true | _ => match find_sub t s with Some _ => true | None => false end end.

(** The sign of [strcmp(s, t)]: characters compare as [unsigned char]. *)
Fixpoint strcmp_sign (s t : list Z) : Z :=
  match s, t with
  | [], [] => 0
  | [], _ :: _ => -1
  | _ :: _, [] => 1
  | x :: s', y :: t' => if x <? y then -1 else if y <? x then 1 else strcmp_sign s' t'
  end.

(** [strcmp(s, t) == 0] *)
Definition streq (s t : list Z) : bool := bool_decide (s = t).

(** The digits of a number, the value of a digit string. *)
Fixpoint dec_digits (k : nat) (n : Z) : list Z :=
  match k with
  | O => []
  | S k' => if n <? 10 then [48 + n] else dec_digits k' (n `div` 10) ++ [48 + n `mod` 10]
  end.

(** [%u] and [%d] of a number that is not negative. *)
Definition dec_text (n : Z) : list Z := dec_digits 20 n.

Definition dec_value (ds : list Z) : Z := foldl (λ v c, v * 10 + (c - 48)) 0 ds.

(** [%-ws]: the text and the blanks that fill it up to [w]. *)
Definition left_pad (w : nat) (s : list Z) : list Z := s ++ replicate (w - length s) 32.

(** ** Facts *)

Section text_facts.
Implicit Types (s t : list Z) (P : Z → bool).

Lemma span_app P s t : (span P (s ++ t)) =
  match (span P s).2 with
  | [] => (s ++ (span P t).1, (span P t).2)
  | _ => ((span P s).1, (span P s).2 ++ t)
  end.
Proof.
  induction s as [|x s IH]; simpl; [by destruct (span P t)|].
  destruct (P x) eqn:E; [|done]. rewrite IH.
  pose proof (span_spec P s) as Hs. destruct (span P s) as [u v]. simpl in *.
  destruct v; [|done]. by destruct (span P t).
Qed.

Lemma span_all P s : Forall (λ c, P c = true) s → span P s = (s, []).
Proof. induction 1 as [|x s Hx Hs IH]; simpl; [done|]. by rewrite Hx, IH. Qed.

(** A run of characters satisfying [P], ended by one that does not. *)
Lemma span_run P s c t :
  Forall (λ c, P c = true) s → P c = false → span P (s ++ c :: t) = (s, c :: t).
Proof. intros Hs Hc. rewrite span_app, span_all by done. simpl. rewrite Hc. simpl. by rewrite app_nil_r. Qed.

Lemma span_end P s t :
  Forall (λ c, P c = true) s → match t with [] => True | c :: _ => P c = false end →
  span P (s ++ t) = (s, t).
Proof.
  intros Hs Ht. destruct t as [|c t]; [rewrite app_nil_r; by apply span_all|by apply span_run].
Qed.

Lemma strchr_split_at c s t : c ∉ s → strchr_split c (s ++ c :: t) = Some (s, t).
Proof.
  intros Hc. unfold strchr_split, from, before.
  rewrite span_run; [done| |by rewrite Z.eqb_refl].
  apply Forall_forall. intros x Hx. apply negb_true_iff, Z.eqb_neq. congruence.
Qed.

Lemma strchr_split_none c s : c ∉ s → strchr_split c s = None.
Proof.
  intros Hc. unfold strchr_split, from. rewrite span_all; [done|].
  apply Forall_forall. intros x Hx. apply negb_true_iff, Z.eqb_neq. congruence.
Qed.

Lemma cut0_chars s t : c_text s → cut0 (s ++ 0 :: t) = s.
Proof.
  intros Hs. unfold cut0. rewrite span_run; [done| |done].
  eapply Forall_impl; [done|]. intros x Hx. by apply negb_true_iff, Z.eqb_neq.
Qed.

Lemma Forall_span (Q : Z → Prop) P s : Forall Q s → Forall Q (span P s).1 ∧ Forall Q (span P s).2.
Proof.
  induction 1 as [|x s Hx Hs [IH1 IH2]]; simpl; [by split|].
  destruct (P x); [|split; [constructor|by constructor]].
  destruct (span P s). simpl in *. split; [by constructor|done].
Qed.

Lemma cut0_text s : c_text (cut0 s).
Proof.
  unfold cut0. pose proof (span_spec (λ c, negb (c =? 0)) s) as H. destruct (span _ s) as [a b]. simpl.
  destruct H as (_&Ha&_). eapply Forall_impl; [exact Ha|]. simpl.
  intros x Hx%negb_true_iff%Z.eqb_neq. done.
Qed.

Lemma clip_small (n : nat) s : (length s < n)%nat → clip n s = s.
Proof. intros. unfold clip. apply take_ge. lia. Qed.

Lemma clip_length (n : nat) s : (0 < n)%nat → (length (clip n s) < n)%nat.
Proof. intros. unfold clip. rewrite length_take. lia. Qed.

Lemma strcmp_sign_0 s t : strcmp_sign s t = 0 ↔ s = t.
Proof.
  revert t. induction s as [|x s IH]; intros [|y t]; simpl; try (split; [lia|done]); [done|].
  destruct (Z.ltb_spec x y); [split; [lia|intros; simplify_eq; lia]|].
  destruct (Z.ltb_spec y x); [split; [lia|intros; simplify_eq; lia]|].
  rewrite IH. replace x with y by lia. split; [by intros ->|congruence].
Qed.

Lemma strcmp_sign_antisym s t : strcmp_sign t s = - strcmp_sign s t.
Proof.
  revert t. induction s as [|x s IH]; intros [|y t]; simpl; try done.
  destruct (Z.ltb_spec x y), (Z.ltb_spec y x); try lia. apply IH.
Qed.

Lemma strcmp_sign_trans s t r : strcmp_sign s t ≤ 0 → strcmp_sign t r ≤ 0 → strcmp_sign s r ≤ 0.
Proof.
  revert t r. induction s as [|x s IH]; intros [|y t] [|z r]; simpl; try lia.
  intros H1 H2.
  assert (x ≤ y) by (destruct (Z.ltb_spec x y); [lia|]; destruct (Z.ltb_spec y x); lia).
  assert (y ≤ z) by (destruct (Z.ltb_spec y z); [lia|]; destruct (Z.ltb_spec z y); lia).
  destruct (Z.ltb_spec x z); [lia|]. assert (x = y) as -> by lia. assert (y = z) as -> by lia.
  rewrite !Z.ltb_irrefl in *. by eapply IH.
Qed.

Lemma strcmp_sign_values s t : strcmp_sign s t = -1 ∨ strcmp_sign s t = 0 ∨ strcmp_sign s t = 1.
Proof.
  revert t. induction s as [|x s IH]; intros [|y t]; simpl; auto.
  destruct (x <? y); auto. destruct (y <? x); auto.
Qed.

(** *** Decimal numbers *)

Lemma dec_digits_digit k n : 0 ≤ n → Forall (λ c, is_digit c = true) (dec_digits k n).
Proof.
  revert n. induction k as [|k IH]; intros n Hn; simpl; [constructor|].
  assert (∀ d, 0 ≤ d < 10 → is_digit (48 + d) = true) as Hd
    by (intros d ?; unfold is_digit; rewrite andb_true_iff, !Z.leb_le; lia).
  destruct (Z.ltb_spec n 10); [constructor; [apply Hd; lia|constructor]|].
  apply Forall_app_2; [apply IH; dlia|]. constructor; [apply Hd; dlia|constructor].
Qed.

Lemma dec_digits_value k n : 0 ≤ n < 10 ^ Z.of_nat k → dec_value (dec_digits k n) = n.
Proof.
  revert n. induction k as [|k IH]; intros n Hn; simpl; [simpl in Hn; unfold dec_value; simpl; lia|].
  destruct (Z.ltb_spec n 10); [unfold dec_value; simpl; lia|].
  unfold dec_value in *. rewrite foldl_app, IH.
  - simpl. dlia.
  - replace (Z.of_nat (S k)) with (1 + Z.of_nat k) in Hn by lia. rewrite Z.pow_add_r in Hn by lia. dlia.
Qed.

Lemma dec_digit n : 0 ≤ n → Forall (λ c, is_digit c = true) (dec_text n).
Proof. apply dec_digits_digit. Qed.

Lemma dec_value_dec n : 0 ≤ n < 2 ^ 64 → dec_value (dec_text n) = n.
Proof. intros. apply dec_digits_value. simpl. lia. Qed.

Lemma dec_head n : 0 ≤ n → ∃ c s, dec_text n = c :: s ∧ is_digit c = true.
Proof.
  intros Hn. pose proof (dec_digit n Hn) as H. destruct (dec_text n) as [|c s] eqn:E.
  - unfold dec_text in E. cbn [dec_digits] in E. destruct (n <? 10); [done|]. by apply app_nil in E as [_ ?].
  - exists c, s. split; [done|]. by inversion H.
Qed.

Lemma is_digit_range c : is_digit c = true ↔ 48 ≤ c ≤ 57.
Proof. unfold is_digit. rewrite andb_true_iff, !Z.leb_le. done. Qed.
End text_facts.
