(* ===== verification/SemVer.v ===== *)
(** * Package versions

    [semver_parse], [semver_cmp] and [semver_satisfies] of [tools/hbpkg.c].
    [sscanf] with [%u] and literal dots is modelled as the C library reads it:
    blanks, an optional sign and digits for each [%u], the conversions counted
    until one fails; the value is the digits' 64-bit reading (saturating, as
    [strtoul]) stored in an [unsigned int].  The subtractions of [semver_cmp] are
    those of a 32-bit [int]. *)

From S2P Require Import Prelude CMem CString HostText.

Record semver_t := SemVer { major : Z; minor : Z; patch : Z; pre : list Z }.

#[global] Instance semver_eq_dec : EqDecision semver_t.
Proof. solve_decision. Defined.

(** [strtoul(s, NULL, 10)]: the value and the rest; [None]: no digits. *)
Definition scan_uint (s : list Z) : option (Z * list Z) :=
  let s := skip_blanks s in
  let '(neg, s) :=
    match s with
    | c :: r => if c =? 45 then (true, r) else if c =? 43 then (false, r) else (false, s)
    | [] => (false, s)
    end in
  let '(ds, rest) := span is_digit s in
  match ds with
  | [] => None
  | _ =>
      let v := dec_value ds in
      let v := if 2 ^ 64 <=? v then 2 ^ 64 - 1 else if neg then u64 (- v) else v in
      Some (v, rest)
  end.

Definition strtoul_text (s : list Z) : Z := match scan_uint s with Some (v, _) => v | None => 0 end.

(** [sscanf(s, "%u.%u. ...")] with [k] conversions: the values assigned, which is
    also what the count it returns is compared by. *)
Fixpoint scan_dotted (k : nat) (s : list Z) : list Z :=
  match k with
  | O => []
  | S k' =>
      match scan_uint s with
      | None => []
      | Some (v, rest) =>
          u32 v :: match rest with
                   | c :: rest' => if c =? 46 then scan_dotted k' rest' else []
                   | [] => []
                   end
      end
  end.

(** [out] with the fields the conversions assigned. *)
Definition assign (out : semver_t) (vs : list Z) : semver_t :=
  SemVer (default (major out) (vs !! 0%nat)) (default (minor out) (vs !! 1%nat))
         (default (patch out) (vs !! 2%nat)) (pre out).

Definition semver_parse (str : list Z) : semver_t :=
  let str := match str with c :: r => if (c =? 118) || (c =? 86) then r else str | [] => str end in
  let vs := scan_dotted 3 str in
  let out := assign (SemVer 0 0 0 []) vs in
  let out :=
    if (length vs <? 3)%nat then
      let vs2 := scan_dotted 2 str in
      let out := assign out vs2 in
      if (length vs2 <? 2)%nat then SemVer (u32 (strtoul_text str)) (minor out) (patch out) (pre out) else out
    else out in
  match strchr_split 45 str with
  | Some (_, rest) => SemVer (major out) (minor out) (patch out) (clip 16 rest)
  | None => out
  end.

(** [(int)x - (int)y] *)
Definition int_sub (x y : Z) : Z := i32 (i32 x - i32 y).

Definition semver_cmp (a b : semver_t) : Z :=
  if negb (major a =? major b) then int_sub (major a) (major b)
  else if negb (minor a =? minor b) then int_sub (minor a) (minor b)
  else if negb (patch a =? patch b) then int_sub (patch a) (patch b)
  else
    let a_pre := match pre a with [] => false | _ => true end in
    let b_pre := match pre b with [] => false | _ => true end in
    if a_pre && negb b_pre then -1
    else if negb a_pre && b_pre then 1
    else strcmp_sign (pre a) (pre b).

(** The operator a constraint starts with and the number of its characters. *)
Definition constraint_op (constraint : list Z) : list Z * nat :=
  match constraint with
  | c :: r =>
      if c =? 94 then (lit "^", 1%nat)
      else if c =? 126 then (lit "~", 1%nat)
      else if is_prefix (lit ">=") constraint then (lit ">=", 2%nat)
      else if is_prefix (lit "<=") constraint then (lit "<=", 2%nat)
      else if c =? 62 then (lit ">", 1%nat)
      else if c =? 60 then (lit "<", 1%nat)
      else (lit "=", 0%nat)
  | [] => (lit "=", 0%nat)
  end.

(** [constraint] is [None] for the NULL pointer. *)
Definition semver_satisfies (ver : semver_t) (constraint : option (list Z)) : bool :=
  match constraint with
  | None => true
  | Some [] => true
  | Some c =>
      let '(op, op_len) := constraint_op c in
      let ver_str := clip 32 (drop op_len c) in
      let req := semver_parse ver_str in
      let cmp := semver_cmp ver req in
      if streq op (lit "^") then (major ver =? major req) && (0 <=? cmp)
      else if streq op (lit "~") then
        (major ver =? major req) && (minor ver =? minor req) && (0 <=? cmp)
      else if streq op (lit ">=") then 0 <=? cmp
      else if streq op (lit "<=") then cmp <=? 0
      else if streq op (lit ">") then 0 <? cmp
      else if streq op (lit "<") then cmp <? 0
      else cmp =? 0
  end.

(** ** Reference *)

(** The text of a version. *)
Definition semver_text (v : semver_t) : list Z :=
  dec_text (major v) ++ [46] ++ dec_text (minor v) ++ [46] ++ dec_text (patch v) ++
  match pre v with [] => [] | p => 45 :: p end.

(** A version whose numbers fit in an [int] and whose tag fits in [pre]. *)
Definition int_version (v : semver_t) : Prop :=
  0 ≤ major v < 2147483648 ∧ 0 ≤ minor v < 2147483648 ∧ 0 ≤ patch v < 2147483648 ∧
  (length (pre v) ≤ 15)%nat.

(** Precedence: numbers first, then a release above its pre-releases, then the tags. *)
Definition precedes (a b : semver_t) : Prop :=
  major a < major b ∨ (major a = major b ∧
  (minor a < minor b ∨ (minor a = minor b ∧
  (patch a < patch b ∨ (patch a = patch b ∧
  ((pre a ≠ [] ∧ pre b = []) ∨ (pre a ≠ [] ∧ pre b ≠ [] ∧ strcmp_sign (pre a) (pre b) < 0))))))).

#[global] Instance precedes_dec a b : Decision (precedes a b).
Proof. unfold precedes. apply _. Defined.

(** ** Proofs *)

Lemma skip_blanks_digit c s : is_digit c = true → skip_blanks (c :: s) = c :: s.
Proof.
  intros Hc%is_digit_range. unfold skip_blanks, from. simpl.
  unfold is_space. zb_simpl. simpl. done.
Qed.

Lemma scan_uint_dec n t :
  0 ≤ n < 4294967296 → match t with [] => True | c :: _ => is_digit c = false end →
  scan_uint (dec_text n ++ t) = Some (n, t).
Proof.
  intros Hn Ht. destruct (dec_head n) as (c&s&E&Hc); [lia|].
  pose proof (dec_digit n ltac:(lia)) as Hd. unfold scan_uint.
  rewrite E. cbn [app]. rewrite skip_blanks_digit by done.
  apply is_digit_range in Hc. zb_simpl. rewrite app_comm_cons, <- E.
  rewrite span_end by done. rewrite E at 1. rewrite dec_value_dec by lia. zb_simpl. done.
Qed.

Lemma dec_no_dash n : 0 ≤ n → 45 ∉ dec_text n.
Proof.
  intros Hn Hin. pose proof (dec_digit n Hn) as H. rewrite Forall_forall in H.
  apply H, is_digit_range in Hin. lia.
Qed.

Lemma semver_parse_text (v : semver_t) (letter : list Z) :
  letter = [] ∨ letter = lit "v" ∨ letter = lit "V" →
  is_u32 (major v) → is_u32 (minor v) → is_u32 (patch v) →
  semver_parse (letter ++ semver_text v) =
  SemVer (major v) (minor v) (patch v) (take 15 (pre v)).
Proof.
  intros Hl H1 H2 H3. unfold is_u32 in *.
  assert (semver_parse (letter ++ semver_text v) = semver_parse (118 :: semver_text v)) as ->.
  { destruct Hl as [-> | [-> | ->]]; [|done..]. simpl. unfold semver_parse at 1 2.
    destruct (dec_head (major v)) as (c&s&E&Hc); [lia|].
    replace (semver_text v) with (c :: (s ++ [46] ++ dec_text (minor v) ++ [46] ++ dec_text (patch v) ++
      match pre v with [] => [] | p => 45 :: p end)) by (unfold semver_text; by rewrite E).
    apply is_digit_range in Hc. zb_simpl. done. }
  unfold semver_parse. simpl (118 =? 118). cbn [orb].
  assert (scan_dotted 3 (semver_text v) = [major v; minor v; patch v]) as Hs.
  { unfold semver_text. cbn [scan_dotted app]. rewrite scan_uint_dec by (done || lia).
    change (46 =? 46) with true. cbn iota. rewrite scan_uint_dec by (done || lia).
    change (46 =? 46) with true. cbn iota. rewrite scan_uint_dec by (lia || by destruct (pre v)).
    rewrite !u32_small by done. destruct (pre v); done. }
  rewrite Hs. cbn [length Nat.ltb Nat.leb assign lookup list_lookup default].
  assert (∀ t, strchr_split 45 (dec_text (major v) ++ 46 :: dec_text (minor v) ++ 46 :: dec_text (patch v) ++ t) =
    match strchr_split 45 t with Some (a, r) =>
      Some (dec_text (major v) ++ 46 :: dec_text (minor v) ++ 46 :: dec_text (patch v) ++ a, r) | None => None end) as Hsplit.
  2: { unfold semver_text. cbn [app]. rewrite Hsplit. destruct (pre v) as [|c p] eqn:E.
       - by rewrite strchr_split_none by apply not_elem_of_nil.
       - replace (45 :: c :: p) with ([] ++ 45 :: c :: p) by done.
         rewrite strchr_split_at by apply not_elem_of_nil. done. }
  intros t. unfold strchr_split, from, before.
  set (h := dec_text (major v) ++ 46 :: dec_text (minor v) ++ 46 :: dec_text (patch v)).
  replace (dec_text (major v) ++ 46 :: dec_text (minor v) ++ 46 :: dec_text (patch v) ++ t) with (h ++ t)
    by (unfold h; by rewrite <- app_assoc; simpl; rewrite <- app_assoc).
  assert (45 ∉ h) as Hh.
  { unfold h. pose proof (dec_no_dash (major v)). pose proof (dec_no_dash (minor v)).
    pose proof (dec_no_dash (patch v)). rewrite !elem_of_app, !elem_of_cons, !elem_of_app, !elem_of_cons. naive_solver lia. }
  rewrite span_app, span_all.
  - simpl. destruct (span _ t) as [a [|x r]]; simpl; [done|].
    unfold h. by rewrite <- app_assoc; simpl; rewrite <- app_assoc.
  - apply Forall_forall. intros x Hx. apply negb_true_iff, Z.eqb_neq. congruence.
Qed.

(** The text of a version, with or without a leading [v], parses to the version;
    a longer pre-release tag is cut to its first fifteen characters. *)
Theorem semver_roundtrip (v : semver_t) (letter : list Z) :
  letter = [] ∨ letter = lit "v" ∨ letter = lit "V" →
  is_u32 (major v) → is_u32 (minor v) → is_u32 (patch v) →
  semver_parse (letter ++ semver_text v) =
  SemVer (major v) (minor v) (patch v) (take 15 (pre v)).
Proof. apply semver_parse_text. Qed.

Lemma int_sub_small x y :
  0 ≤ x < 2147483648 → 0 ≤ y < 2147483648 → int_sub x y = x - y.
Proof. intros. unfold int_sub. rewrite (i32_small x), (i32_small y), i32_small by word_lia. done. Qed.

Lemma semver_cmp_sign a b :
  int_version a → int_version b →
  (semver_cmp a b < 0 ↔ precedes a b) ∧ (semver_cmp a b = 0 ↔ a = b).
Proof.
  intros (?&?&?&_) (?&?&?&_). unfold semver_cmp, precedes.
  destruct a as [a1 a2 a3 ap], b as [b1 b2 b3 bp]; simpl in *.
  rewrite !int_sub_small by lia.
  destruct (Z.eqb_spec a1 b1); simpl; [|split; [lia|split; [lia|congruence]]].
  destruct (Z.eqb_spec a2 b2); simpl; [|split; [lia|split; [lia|congruence]]].
  destruct (Z.eqb_spec a3 b3); simpl; [|split; [lia|split; [lia|congruence]]].
  subst. pose proof (strcmp_sign_0 ap bp) as Hs0.
  destruct ap as [|c ap], bp as [|d bp]; cbn [andb negb]; split.
  - simpl. naive_solver lia.
  - simpl. naive_solver.
  - naive_solver lia.
  - split; [lia|naive_solver].
  - naive_solver lia.
  - split; [lia|naive_solver].
  - split; [|naive_solver lia]. intros. do 3 (right; split; [done|]). by right.
  - rewrite Hs0. naive_solver.
Qed.

Lemma semver_cmp_antisym a b :
  int_version a → int_version b → semver_cmp b a = - semver_cmp a b.
Proof.
  intros (?&?&?&_) (?&?&?&_). unfold semver_cmp. rewrite !int_sub_small by done.
  rewrite (Z.eqb_sym (major b)), (Z.eqb_sym (minor b)), (Z.eqb_sym (patch b)).
  destruct (major a =? major b), (minor a =? minor b), (patch a =? patch b); simpl; try lia.
  destruct (pre a) as [|c ap], (pre b) as [|d bp]; cbn [andb negb]; try done.
  apply strcmp_sign_antisym.
Qed.

(** Versions whose numbers fit in an [int] are totally ordered by [semver_cmp]:
    its sign decides precedence (numbers first, a release above its
    pre-releases), it is 0 exactly for equal versions, reversing the arguments
    reverses the sign, and the order is transitive. *)
Theorem semver_cmp_order (a b c : semver_t) :
  int_version a → int_version b → int_version c →
  (semver_cmp a b < 0 ↔ precedes a b) ∧
  (semver_cmp a b = 0 ↔ a = b) ∧
  semver_cmp b a = - semver_cmp a b ∧
  (semver_cmp a b ≤ 0 → semver_cmp b c ≤ 0 → semver_cmp a c ≤ 0).
Proof.
  intros Ha Hb Hc. destruct (semver_cmp_sign a b Ha Hb) as [H1 H2].
  split_and!; [done..|by apply semver_cmp_antisym|].
  destruct Ha as (?&?&?&_), Hb as (?&?&?&_), Hc as (?&?&?&_). clear H1 H2.
  unfold semver_cmp. rewrite !int_sub_small by done.
  destruct a as [a1 a2 a3 ap], b as [b1 b2 b3 bp], c as [c1 c2 c3 cp]; simpl in *.
  destruct (Z.eqb_spec a1 b1), (Z.eqb_spec b1 c1), (Z.eqb_spec a1 c1); simpl; try lia.
  destruct (Z.eqb_spec a2 b2), (Z.eqb_spec b2 c2), (Z.eqb_spec a2 c2); simpl; try lia.
  destruct (Z.eqb_spec a3 b3), (Z.eqb_spec b3 c3), (Z.eqb_spec a3 c3); simpl; try lia.
  pose proof (strcmp_sign_trans ap bp cp) as Ht.
  destruct ap, bp, cp; cbn [andb negb]; simpl; lia || done.
Qed.

Lemma semver_cmp_order_witness :
  (semver_cmp (SemVer 1 2 3 (lit "rc.1")) (SemVer 1 2 3 []) < 0 ↔
     precedes (SemVer 1 2 3 (lit "rc.1")) (SemVer 1 2 3 [])) ∧
  (semver_cmp (SemVer 1 2 3 (lit "rc.1")) (SemVer 1 2 3 []) = 0 ↔
     SemVer 1 2 3 (lit "rc.1") = SemVer 1 2 3 []) ∧
  semver_cmp (SemVer 1 2 3 []) (SemVer 1 2 3 (lit "rc.1")) =
    - semver_cmp (SemVer 1 2 3 (lit "rc.1")) (SemVer 1 2 3 []) ∧
  (semver_cmp (SemVer 1 2 3 (lit "rc.1")) (SemVer 1 2 3 []) ≤ 0 →
   semver_cmp (SemVer 1 2 3 []) (SemVer 2 0 0 []) ≤ 0 →
   semver_cmp (SemVer 1 2 3 (lit "rc.1")) (SemVer 2 0 0 []) ≤ 0).
Proof.
  apply (semver_cmp_order (SemVer 1 2 3 (lit "rc.1")) (SemVer 1 2 3 []) (SemVer 2 0 0 []));
    unfold int_version; simpl; lia.
Defined.

Lemma semver_roundtrip_witness :
  semver_parse (lit "v" ++ semver_text (SemVer 1 20 4294967295 (lit "beta.2"))) =
  SemVer 1 20 4294967295 (take 15 (lit "beta.2")).
Proof.
  apply (semver_roundtrip (SemVer 1 20 4294967295 (lit "beta.2")) (lit "v")).
  - right. left. reflexivity.
  - unfold is_u32. simpl. lia.
  - unfold is_u32. simpl. lia.
  - unfold is_u32. simpl. lia.
Defined.

(** ** Constraints *)

Inductive range := Caret | Tilde | AtLeast | AtMost | Above | Below | Exactly.

Definition range_text (r : range) : list Z :=
  match r with
  | Caret => lit "^" | Tilde => lit "~" | AtLeast => lit ">=" | AtMost => lit "<="
  | Above => lit ">" | Below => lit "<" | Exactly => []
  end.

(** What a range of versions means. *)
Definition in_range (r : range) (ver req : semver_t) : Prop :=
  match r with
  | Caret => major ver = major req ∧ ¬ precedes ver req
  | Tilde => major ver = major req ∧ minor ver = minor req ∧ ¬ precedes ver req
  | AtLeast => ¬ precedes ver req
  | AtMost => ver = req ∨ precedes ver req
  | Above => ¬ precedes ver req ∧ ver ≠ req
  | Below => precedes ver req
  | Exactly => ver = req
  end.

Lemma semver_text_head v : 0 ≤ major v → ∃ c s, semver_text v = c :: s ∧ is_digit c = true.
Proof.
  intros Hv. destruct (dec_head (major v) Hv) as (c&s&E&Hc). exists c. unfold semver_text. rewrite E.
  eexists. split; [reflexivity|done].
Qed.

Lemma constraint_op_text r v :
  0 ≤ major v →
  constraint_op (range_text r ++ semver_text v) =
    (match r with Exactly => lit "=" | _ => range_text r end, length (range_text r)).
Proof.
  intros Hv. destruct (semver_text_head v Hv) as (c&s&->&Hc%is_digit_range).
  destruct r; cbn [range_text app]; unfold constraint_op;
    change (lit ">=") with [62; 61]; change (lit "<=") with [60; 61];
    change (lit ">") with [62]; change (lit "<") with [60]; change (lit "^") with [94];
    change (lit "~") with [126]; cbn [app is_prefix]; zb_simpl; reflexivity.
Qed.

(** [C26] A constraint made of an operator and a version accepts exactly the versions
    the operator stands for: [^] the same major number, [~] the same major and
    minor number, not below the version; [>=], [<=], [>] and [<] by precedence;
    no operator only the version itself. *)
Theorem semver_satisfies_range (r : range) (ver req : semver_t) :
  int_version ver → int_version req → (length (semver_text req) ≤ 31)%nat →
  semver_satisfies ver (Some (range_text r ++ semver_text req)) = true ↔ in_range r ver req.
Proof.
  intros Hv Hr Hl. pose proof Hr as (?&?&?&Hp).
  assert (semver_parse (clip 32 (drop (length (range_text r)) (range_text r ++ semver_text req))) = req) as E.
  { rewrite drop_app_length, clip_small by lia.
    pose proof (semver_parse_text req [] (or_introl eq_refl)) as R. rewrite app_nil_l in R.
    unfold is_u32 in R. rewrite R by lia. rewrite take_ge by lia. by destruct req. }
  assert (semver_satisfies ver (Some (range_text r ++ semver_text req)) =
    let cmp := semver_cmp ver req in
    match r with
    | Caret => (major ver =? major req) && (0 <=? cmp)
    | Tilde => (major ver =? major req) && (minor ver =? minor req) && (0 <=? cmp)
    | AtLeast => 0 <=? cmp | AtMost => cmp <=? 0 | Above => 0 <? cmp | Below => cmp <? 0
    | Exactly => cmp =? 0
    end) as ->.
  { unfold semver_satisfies. destruct (range_text r ++ semver_text req) as [|c0 s0] eqn:E0.
    { destruct (semver_text_head req) as (c&s&Es&_); [lia|]. rewrite Es in E0.
      by apply app_nil in E0 as [_ ?]. }
    rewrite <- E0 in E |- *. rewrite constraint_op_text by lia. cbv zeta beta iota. rewrite E. by destruct r. }
  destruct (semver_cmp_sign ver req Hv Hr) as [Hlt Heq]. cbv zeta.
  destruct r; simpl; rewrite ?andb_true_iff, ?Z.eqb_eq, ?Z.leb_le, ?Z.ltb_lt, <- ?Hlt, <- ?Heq; lia.
Qed.

Lemma semver_satisfies_range_witness :
  semver_satisfies (SemVer 1 4 0 []) (Some (range_text Caret ++ semver_text (SemVer 1 2 3 []))) = true
  ↔ in_range Caret (SemVer 1 4 0 []) (SemVer 1 2 3 []).
Proof.
  apply (semver_satisfies_range Caret (SemVer 1 4 0 []) (SemVer 1 2 3 [])).
  - unfold int_version. simpl. lia.
  - unfold int_version. simpl. lia.
  - vm_compute. lia.
Defined.

(** The sign character of an exact constraint is not skipped: [=1.2.3] is read as
    a version that starts with [=], which is 0.0.0, so it refuses 1.2.3 and
    accepts 0.0.0; and versions from [2^31] on compare the wrong way round. *)
Theorem semver_limits :
  semver_satisfies (SemVer 1 2 3 []) (Some (lit "=1.2.3")) = false ∧
  semver_satisfies (SemVer 0 0 0 []) (Some (lit "=1.2.3")) = true ∧
  semver_cmp (semver_parse (lit "3000000000.0.0")) (semver_parse (lit "1.0.0")) < 0.
Proof. vm_compute. done. Qed.
