(* ===== verification/PkgMeta.v ===== *)
(** * Package metadata

    [meta_parse_toml] and [meta_verify_sig] of [tools/hbpkg.c]: the line reader
    over [HBPKG/meta.toml].  The file is its byte list; a field of [pkg_meta_t] is
    the string it holds, cut to the field's size when it is assigned; the array
    values are read by a loop over the rest of the line. *)

From S2P Require Import Prelude CMem CString HostText.

Definition HBPKG_MAX_DEPS : nat := 32.
Definition HBPKG_MAX_FILES : nat := 1024.

Record pkg_meta_t := PkgMeta {
  m_name : list Z;
  m_version : list Z;
  m_description : list Z;
  m_author : list Z;
  m_license : list Z;
  m_arch : list Z;
  m_deps : list (list Z);
  m_files : list (list Z);
}.

(** [memset(&meta, 0, sizeof(meta))] *)
Definition empty_meta : pkg_meta_t := PkgMeta [] [] [] [] [] [] [] [].

(** [fgets(line, size, fp)]: the bytes put in [line] and the rest of the file. *)
Fixpoint fgets_bytes (n : nat) (s : list Z) : list Z * list Z :=
  match n, s with
  | O, _ => ([], s)
  | _, [] => ([], [])
  | S n', c :: s' =>
      if c =? 10 then ([c], s') else let '(l, r) := fgets_bytes n' s' in (c :: l, r)
  end.

Definition fgets_line_of (size : nat) (s : list Z) : option (list Z * list Z) :=
  match s with [] => None | _ => Some (fgets_bytes (size - 1) s) end.

(** [while (end > s && isspace( *end)) *end-- = 0]: the first character stays. *)
Definition rtrim (s : list Z) : list Z :=
  match s with [] => [] | c :: r => c :: rev (skip_blanks (rev r)) end.

(** The quotes around a value of at least two characters. *)
Definition unquote (val : list Z) : list Z :=
  match val with
  | c :: r => if (2 <=? length val)%nat && (c =? 34) && (List.last val 0 =? 34) then removelast r else val
  | [] => val
  end.

(** One round of the loops over [deps = [...]] and [files = [...]], [p] at [rest]:
    [None] ends the loop. *)
Definition array_item (size : nat) (p : list Z) : option (list Z * list Z) :=
  let p := from (λ c, negb (is_space c || (c =? 44))) p in
  match p with
  | [] => None
  | c :: r =>
      if c =? 93 then None
      else
        let p := if c =? 34 then r else p in
        match strchr_split 34 p with
        | Some (item, rest) => Some (clip size item, rest)
        | None =>
            match strchr_split 44 p with
            | Some (item, rest) => Some (clip size item, rest)
            | None =>
                match strchr_split 93 p with
                | Some (item, rest) => Some (clip size item, rest)
                | None => None
                end
            end
        end
  end.

Fixpoint array_loop (fuel : nat) (max size : nat) (p : list Z) (items : list (list Z))
    : option (list (list Z)) :=
  match fuel with
  | O => None
  | S f =>
      match p with
      | [] => Some items
      | _ =>
          if (max <=? length items)%nat then Some items
          else match array_item size p with
               | None => Some items
               | Some (item, p') => array_loop f max size p' (items ++ [item])
               end
      end
  end.

(** Each round moves past at least one character of the value. *)
Definition array_value (max size : nat) (val : list Z) (items : list (list Z))
    : option (list (list Z)) :=
  let p := match val with c :: r => if c =? 91 then r else val | [] => val end in
  array_loop (S (length p)) max size p items.

Definition assign_key (key val : list Z) (o : pkg_meta_t) : option pkg_meta_t :=
  let '(PkgMeta n v d a l ar ds fs) := o in
  if streq key (lit "name") then Some (PkgMeta (clip 64 val) v d a l ar ds fs)
  else if streq key (lit "version") then Some (PkgMeta n (clip 32 val) d a l ar ds fs)
  else if streq key (lit "description") then Some (PkgMeta n v (clip 256 val) a l ar ds fs)
  else if streq key (lit "author") then Some (PkgMeta n v d (clip 64 val) l ar ds fs)
  else if streq key (lit "license") then Some (PkgMeta n v d a (clip 32 val) ar ds fs)
  else if streq key (lit "arch") then Some (PkgMeta n v d a l (clip 16 val) ds fs)
  else if streq key (lit "deps") || streq key (lit "dependencies") then
    ds' ← array_value HBPKG_MAX_DEPS 64 val ds; Some (PkgMeta n v d a l ar ds' fs)
  else if streq key (lit "files") then
    fs' ← array_value HBPKG_MAX_FILES 256 val fs; Some (PkgMeta n v d a l ar ds fs')
  else Some o.

(** The body of the line loop. *)
Definition toml_line (buf : list Z) (o : pkg_meta_t) : option pkg_meta_t :=
  let line := before (λ c, (c =? 13) || (c =? 10)) (cut0 buf) in
  match line with
  | [] => Some o
  | c :: _ =>
      if c =? 35 then Some o
      else match strchr_split 61 line with
           | None => Some o
           | Some (key, val) =>
               assign_key (rtrim (skip_blanks key)) (unquote (rtrim (skip_blanks val))) o
           end
  end.

Fixpoint toml_lines (fuel : nat) (s : list Z) (o : pkg_meta_t) : option pkg_meta_t :=
  match fuel with
  | O => None
  | S f =>
      match fgets_line_of 512 s with
      | None => Some o
      | Some (buf, rest) => o' ← toml_line buf o; toml_lines f rest o'
      end
  end.

(** The result, the metadata and the reason a file is refused; [None] in place of
    the file is a failed [fopen]. *)
Inductive meta_error := CannotOpen | MissingName | MissingVersion.

Definition meta_parse_toml (file : option (list Z)) (o : pkg_meta_t)
    : option (Z * pkg_meta_t * option meta_error) :=
  match file with
  | None => Some (-1, o, Some CannotOpen)
  | Some s =>
      o ← toml_lines (S (length s)) s o;
      match m_name o with
      | [] => Some (-1, o, Some MissingName)
      | _ =>
          match m_version o with
          | [] => Some (-1, o, Some MissingVersion)
          | _ => Some (0, o, None)
          end
      end
  end.

(** The signature check: neither argument is looked at. *)
Definition meta_verify_sig (meta : pkg_meta_t) (key_path : list Z) : bool := true.

(** ** Totality: the loops end *)

Lemma span_snd_length P (s : list Z) : (length (span P s).2 ≤ length s)%nat.
Proof. pose proof (span_length P s). lia. Qed.

Lemma strchr_split_shorter c (s a r : list Z) : strchr_split c s = Some (a, r) → (length r < length s)%nat.
Proof.
  unfold strchr_split, from, before. pose proof (span_snd_length (λ x, negb (c =? x)) s) as H.
  destruct (span _ s) as [u [|x v]]; simpl in *; [done|]. intros [= _ <-]. lia.
Qed.

Lemma array_item_shorter size p item p' :
  array_item size p = Some (item, p') → (length p' < length p)%nat ∧ (0 < size → length item < size)%nat.
Proof.
  unfold array_item. set (q := from _ p).
  assert (length q ≤ length p)%nat as Hq by apply span_snd_length. clearbody q.
  destruct q as [|c r]; [done|]. destruct (c =? 93); [done|].
  set (w := if c =? 34 then r else c :: r).
  assert (length w ≤ length (c :: r))%nat as Hw by (unfold w; destruct (c =? 34); simpl; lia). clearbody w.
  destruct (strchr_split 34 w) as [[a b]|] eqn:E1; [|destruct (strchr_split 44 w) as [[a b]|] eqn:E2;
    [|destruct (strchr_split 93 w) as [[a b]|] eqn:E3; [|done]]]; intros [= <- <-];
    (split; [|intros; by apply clip_length]).
  - apply strchr_split_shorter in E1. lia.
  - apply strchr_split_shorter in E2. lia.
  - apply strchr_split_shorter in E3. lia.
Qed.

(** A list of items within the bounds of the array they are stored in. *)
Definition bounded (max size : nat) (items : list (list Z)) : Prop :=
  (length items ≤ max)%nat ∧ Forall (λ i, (length i < size)%nat) items.

Lemma array_loop_total f max size p items :
  (length p < f)%nat → (0 < size)%nat → bounded max size items →
  ∃ items', array_loop f max size p items = Some items' ∧ bounded max size items' ∧
    ∃ ex, items' = items ++ ex.
Proof.
  revert p items. induction f as [|f IH]; intros p items Hp Hs [Hm Hi]; [lia|].
  assert (∃ ex, items = items ++ ex) as Hex by (exists []; by rewrite app_nil_r).
  simpl. destruct p as [|c p]; [by exists items|].
  destruct (Nat.leb_spec max (length items)); [by exists items|].
  destruct (array_item size (c :: p)) as [[item p']|] eqn:E; [|by exists items].
  apply array_item_shorter in E as [El Ei].
  destruct (IH p' (items ++ [item])) as (items'&->&Hb&ex&->); [lia|done| |].
  - split; [rewrite length_app; simpl; lia|]. apply Forall_app_2; [done|]. repeat constructor. by apply Ei.
  - eexists. split; [done|]. split; [done|]. exists ([item] ++ ex). by rewrite app_assoc.
Qed.

Lemma array_value_total max size val items :
  (0 < size)%nat → bounded max size items →
  ∃ items', array_value max size val items = Some items' ∧ bounded max size items'.
Proof.
  intros Hs Hb. unfold array_value. edestruct array_loop_total as (items'&->&?&_); [|done|done|by eexists]. lia.
Qed.

(** The bounds of the fields of [pkg_meta_t]. *)
Definition meta_fits (o : pkg_meta_t) : Prop :=
  (length (m_name o) < 64)%nat ∧ (length (m_version o) < 32)%nat ∧ (length (m_description o) < 256)%nat ∧
  (length (m_author o) < 64)%nat ∧ (length (m_license o) < 32)%nat ∧ (length (m_arch o) < 16)%nat ∧
  bounded HBPKG_MAX_DEPS 64 (m_deps o) ∧ bounded HBPKG_MAX_FILES 256 (m_files o).

Lemma assign_key_total key val o :
  meta_fits o → ∃ o', assign_key key val o = Some o' ∧ meta_fits o'.
Proof.
  destruct o as [n v d a l ar ds fs]. unfold meta_fits. simpl. intros (?&?&?&?&?&?&?&?).
  assert (∀ k s, (0 < k)%nat → (length (clip k s) < k)%nat) as Hc by (intros; by apply clip_length).
  unfold assign_key.
  do 6 (destruct (streq key _); [eexists; split; [done|]; simpl; split_and!; try done; apply Hc; lia|]).
  destruct (_ || _).
  { destruct (array_value_total HBPKG_MAX_DEPS 64 val ds) as (i&->&?); [lia|done|]. by eexists. }
  destruct (streq key _); [|by eexists].
  destruct (array_value_total HBPKG_MAX_FILES 256 val fs) as (i&->&?); [lia|done|]. by eexists.
Qed.

Lemma toml_line_total buf o : meta_fits o → ∃ o', toml_line buf o = Some o' ∧ meta_fits o'.
Proof.
  intros Ho. unfold toml_line. destruct (before _ _) as [|c line]; [by eexists|].
  destruct (c =? 35); [by eexists|].
  destruct (strchr_split 61 (c :: line)) as [[key val]|]; [|by eexists]. by apply assign_key_total.
Qed.

Lemma fgets_bytes_shorter n s : (0 < n)%nat → s ≠ [] → (length (fgets_bytes n s).2 < length s)%nat.
Proof.
  assert (∀ n s, length (fgets_bytes n s).2 ≤ length s)%nat as Hle.
  { clear. induction n as [|n IH]; intros [|c s]; simpl; try lia. destruct (c =? 10); simpl; [lia|].
    specialize (IH s). destruct (fgets_bytes n s). simpl in *. lia. }
  intros Hn Hs. destruct n as [|n], s as [|c s]; try done; [lia|]. simpl. destruct (c =? 10); simpl; [lia|].
  specialize (Hle n s). destruct (fgets_bytes n s). simpl in *. lia.
Qed.

Lemma toml_lines_total f s o :
  (length s < f)%nat → meta_fits o → ∃ o', toml_lines f s o = Some o' ∧ meta_fits o'.
Proof.
  revert s o. induction f as [|f IH]; intros s o Hs Ho; [lia|]. cbn [toml_lines].
  unfold fgets_line_of. destruct s as [|c s]; [by eexists|].
  pose proof (fgets_bytes_shorter (512 - 1) (c :: s) ltac:(lia) ltac:(done)) as Hl.
  destruct (fgets_bytes (512 - 1) (c :: s)) as [buf rest] eqn:E. cbn [snd] in Hl.
  destruct (toml_line_total buf o Ho) as (o1&->&Ho1). rewrite some_bind. apply IH; [lia|done].
Qed.

(** [C22] For every file, of any bytes and line lengths, the parser ends with every
    field inside its buffer, at most 32 dependencies and 1024 files; it answers 0
    exactly when both a name and a version were found. *)
Theorem meta_parse_bounded (s : list Z) :
  ∃ r o e, meta_parse_toml (Some s) empty_meta = Some (r, o, e) ∧ meta_fits o ∧
    (r = 0 ↔ m_name o ≠ [] ∧ m_version o ≠ []) ∧ (r = 0 ∨ r = -1).
Proof.
  destruct (toml_lines_total (S (length s)) s empty_meta) as (o&E&Ho); [lia| |].
  { unfold meta_fits, bounded. simpl. split_and!; try lia; constructor. }
  unfold meta_parse_toml. rewrite E, some_bind.
  destruct (m_name o) eqn:En; [|destruct (m_version o) eqn:Ev].
  - exists (-1), o, (Some MissingName). rewrite En. split_and!; try done; naive_solver.
  - exists (-1), o, (Some MissingVersion). rewrite Ev. split_and!; try done; naive_solver.
  - exists 0, o, None. rewrite En, Ev. split_and!; try done; naive_solver.
Qed.

(** ** Files written in the documented form *)

(** A character that may stand between the quotes. *)
Definition plain (c : Z) : Prop := is_char c ∧ c ≠ 34 ∧ c ≠ 10 ∧ c ≠ 13.

Definition quoted (s : list Z) : list Z := 34 :: s ++ [34].

Fixpoint array_body (items : list (list Z)) : list Z :=
  match items with
  | [] => []
  | [i] => quoted i
  | i :: is' => quoted i ++ [44; 32] ++ array_body is'
  end.

Definition array_text (items : list (list Z)) : list Z := [91] ++ array_body items ++ [93].

Definition key_line (key value : list Z) : list Z := key ++ lit " = " ++ value ++ [10].

Definition meta_text (o : pkg_meta_t) : list Z :=
  key_line (lit "name") (quoted (m_name o)) ++
  key_line (lit "version") (quoted (m_version o)) ++
  key_line (lit "description") (quoted (m_description o)) ++
  key_line (lit "author") (quoted (m_author o)) ++
  key_line (lit "license") (quoted (m_license o)) ++
  key_line (lit "arch") (quoted (m_arch o)) ++
  key_line (lit "deps") (array_text (m_deps o)) ++
  key_line (lit "files") (array_text (m_files o)).

(** Every string of the metadata is plain and the array lines fit in the reader's buffer. *)
Definition meta_plain (o : pkg_meta_t) : Prop :=
  Forall plain (m_name o) ∧ Forall plain (m_version o) ∧ Forall plain (m_description o) ∧
  Forall plain (m_author o) ∧ Forall plain (m_license o) ∧ Forall plain (m_arch o) ∧
  Forall (Forall plain) (m_deps o) ∧ Forall (Forall plain) (m_files o) ∧
  (length (array_text (m_deps o)) ≤ 500)%nat ∧ (length (array_text (m_files o)) ≤ 500)%nat.

Lemma plain_no_quote s : Forall plain s → 34 ∉ s.
Proof. intros H Hin. rewrite Forall_forall in H. destruct (H _ Hin) as (_&?&_). done. Qed.

Lemma array_item_quoted size i rest :
  Forall plain i → (length i < size)%nat → array_item size (quoted i ++ rest) = Some (i, rest).
Proof.
  intros Hi Hs. unfold array_item, quoted. cbn [app].
  change (from (λ c, negb (is_space c || (c =? 44))) (34 :: ?s)) with (34 :: s). cbv iota zeta.
  change (34 =? 93) with false. change (34 =? 34) with true. cbv iota.
  rewrite <- app_assoc. cbn [app]. rewrite strchr_split_at by (by apply plain_no_quote).
  by rewrite clip_small.
Qed.

Lemma array_item_comma size p : array_item size ([44; 32] ++ p) = array_item size p.
Proof. unfold array_item, from. cbn -[strchr_split]. by destruct (span _ p). Qed.

Lemma array_loop_items f max size done items :
  Forall (Forall plain) items → Forall (λ i, (length i < size)%nat) items →
  (length (done ++ items) ≤ max)%nat → (length items < f)%nat →
  array_loop f max size (array_body items ++ [93]) done = Some (done ++ items) ∧
  (items ≠ [] → array_loop f max size ([44; 32] ++ array_body items ++ [93]) done = Some (done ++ items)).
Proof.
  intros Hp Hs. revert f done.
  induction items as [|i items IH]; intros f dn Hm Hf; (destruct f as [|f]; [simpl in Hf; lia|]).
  { split; [|done]. rewrite app_nil_r. cbn. destruct (Nat.leb_spec max (length dn)); done. }
  rewrite length_app in Hm. simpl in Hm, Hf.
  inversion Hp as [|? ? Hp1 Hp2]; subst. inversion Hs as [|? ? Hs1 Hs2]; subst.
  assert (array_body (i :: items) ++ [93] = quoted i ++ match items with [] => [93] | _ => [44; 32] ++ array_body items ++ [93] end) as E.
  { destruct items; [done|]. cbn [array_body]. rewrite <- !app_assoc. done. }
  assert (array_loop f max size (match items with [] => [93] | _ => [44; 32] ++ array_body items ++ [93] end) (dn ++ [i])
    = Some (dn ++ i :: items)) as Hrest.
  { specialize (IH Hp2 Hs2 f (dn ++ [i])).
    destruct IH as [IH1 IH2]; [rewrite !length_app; simpl; lia|lia|].
    rewrite <- app_assoc in IH1, IH2. destruct items; [apply IH1|by apply IH2]. }
  rewrite E. split; [|intros _].
  - cbn [array_loop quoted app]. destruct (Nat.leb_spec max (length dn)); [lia|].
    change (34 :: (i ++ [34]) ++ ?r) with (quoted i ++ r). rewrite array_item_quoted by done. apply Hrest.
  - cbn [array_loop]. cbn [app]. destruct (Nat.leb_spec max (length dn)); [lia|].
    change (44 :: 32 :: ?r) with ([44; 32] ++ r). rewrite array_item_comma, array_item_quoted by done. apply Hrest.
Qed.

Lemma length_array_body items : (length items ≤ length (array_body items))%nat.
Proof.
  induction items as [|i items IH]; [done|]. destruct items as [|j items]; simpl in *; [lia|].
  rewrite !length_app. simpl in *. lia.
Qed.

Lemma array_value_text max size items :
  Forall (Forall plain) items → bounded max size items →
  array_value max size (array_text items) [] = Some items.
Proof.
  intros Hp [Hm Hs]. unfold array_value, array_text. cbn [app]. change (91 =? 91) with true. cbn iota.
  apply (array_loop_items _ max size [] items); try done.
  rewrite length_app. pose proof (length_array_body items). simpl. lia.
Qed.

(** *** One line *)

Definition key_word (key : list Z) : Prop := key ≠ [] ∧ Forall (λ c, 97 ≤ c ≤ 122) key.

(** A value without control characters whose first and last characters are not blanks. *)
Definition tight (v : list Z) : Prop :=
  ∃ c m d, v = c :: m ++ [d] ∧ is_space c = false ∧ is_space d = false.

Lemma skip_blanks_id s : match s with [] => True | c :: _ => is_space c = false end → skip_blanks s = s.
Proof. destruct s as [|c s]; [done|]. intros Hc. unfold skip_blanks, from. simpl. by rewrite Hc. Qed.

Lemma skip_blanks_blank s : skip_blanks (32 :: s) = skip_blanks s.
Proof. unfold skip_blanks, from. simpl. by destruct (span _ s). Qed.

Lemma rtrim_id c m d : is_space d = false → rtrim (c :: m ++ [d]) = c :: m ++ [d].
Proof.
  intros Hd. unfold rtrim. rewrite rev_app_distr. simpl rev at 2. cbn [app].
  rewrite skip_blanks_id by done. simpl. by rewrite rev_involutive.
Qed.

Lemma word_trimmed key : key_word key → rtrim (skip_blanks (key ++ [32])) = key.
Proof.
  intros [Hn Hk]. assert (∀ c, 97 ≤ c ≤ 122 → is_space c = false) as Hsp
    by (intros c ?; unfold is_space; zb_simpl; done).
  destruct key as [|c r]; [done|]. inversion Hk as [|? ? Hc Hr]; subst. cbn [app].
  rewrite skip_blanks_id by (by apply Hsp). unfold rtrim. rewrite rev_app_distr. cbn [rev app].
  rewrite skip_blanks_blank, skip_blanks_id, rev_involutive; [done|].
  destruct (rev r) as [|d q] eqn:E; [done|]. apply Hsp. rewrite Forall_forall in Hr.
  apply Hr, list_elem_of_In, in_rev. rewrite E. by left.
Qed.

Lemma toml_line_key key v o :
  key_word key → tight v → Forall (λ c, is_char c ∧ c ≠ 10 ∧ c ≠ 13) v →
  toml_line (key_line key v) o = assign_key key (unquote v) o.
Proof.
  intros Hk (c&m&d&Hv&Hc&Hd) Hch. pose proof Hk as [Hn Hkl]. unfold toml_line, key_line.
  set (l := key ++ lit " = " ++ v).
  replace (key ++ lit " = " ++ v ++ [10]) with (l ++ [10]) by (unfold l; by rewrite <- !app_assoc).
  assert (Forall (λ c, is_char c ∧ c ≠ 10 ∧ c ≠ 13) l) as Hl.
  { unfold l. apply Forall_app_2; [|apply Forall_app_2; [|done]].
    - eapply Forall_impl; [done|]. unfold is_char. intros. simpl in *. lia.
    - repeat constructor; simpl; unfold is_char; vm_compute; congruence. }
  assert (cut0 (l ++ [10]) = l ++ [10]) as ->.
  { unfold cut0. rewrite span_all; [done|]. apply Forall_app_2; [|by repeat constructor].
    eapply Forall_impl; [done|]. intros x [Hx _]. apply negb_true_iff, Z.eqb_neq. unfold is_char in Hx. lia. }
  assert (before (λ c, (c =? 13) || (c =? 10)) (l ++ [10]) = l) as ->.
  { unfold before. rewrite span_run; [done| |done]. eapply Forall_impl; [done|]. simpl. intros x (_&?&?).
    zb_simpl. done. }
  assert (strchr_split 61 l = Some (key ++ [32], 32 :: v)) as Hs.
  { unfold l. replace (key ++ lit " = " ++ v) with ((key ++ [32]) ++ 61 :: 32 :: v) by (by rewrite <- app_assoc).
    apply strchr_split_at. rewrite elem_of_app, list_elem_of_singleton. intros [Hin|?]; [|lia].
    rewrite Forall_forall in Hkl. apply Hkl in Hin. lia. }
  destruct l as [|x l'] eqn:El; [by destruct key|].
  assert ((x =? 35) = false) as ->.
  { unfold l in El. destruct key as [|y key]; [done|]. cbn in El. simplify_eq.
    inversion Hkl; subst. apply Z.eqb_neq. lia. }
  rewrite Hs, word_trimmed, skip_blanks_blank by done. rewrite Hv, skip_blanks_id, rtrim_id by done. done.
Qed.

Lemma fgets_bytes_line n s rest :
  10 ∉ s → (length s < n)%nat → fgets_bytes n (s ++ 10 :: rest) = (s ++ [10], rest).
Proof.
  revert n. induction s as [|c s IH]; intros n Hs Hn; (destruct n as [|n]; [simpl in Hn; lia|]); [done|].
  simpl in *. apply not_elem_of_cons in Hs as [? Hs]. zb_simpl. rewrite IH by (done || lia). done.
Qed.

Lemma toml_lines_key f key v rest o :
  key_word key → tight v → Forall (λ c, is_char c ∧ c ≠ 10 ∧ c ≠ 13) v →
  (length key + length v ≤ 507)%nat →
  toml_lines (S f) (key_line key v ++ rest) o = assign_key key (unquote v) o ≫= toml_lines f rest.
Proof.
  intros Hk Hv Hch Hlen. cbn [toml_lines]. unfold fgets_line_of.
  destruct (key_line key v ++ rest) as [|c s] eqn:E.
  { unfold key_line in E. destruct Hk. by destruct key. }
  rewrite <- E. replace (key_line key v ++ rest) with ((key ++ lit " = " ++ v) ++ 10 :: rest)
    by (unfold key_line; rewrite <- !app_assoc; done).
  rewrite fgets_bytes_line.
  - replace ((key ++ lit " = " ++ v) ++ [10]) with (key_line key v) by (unfold key_line; by rewrite <- !app_assoc).
    by rewrite toml_line_key.
  - rewrite !elem_of_app. destruct Hk as [_ Hk]. rewrite Forall_forall in Hk, Hch.
    intros [Hin|[Hin|Hin]]; [apply Hk in Hin; lia| |apply Hch in Hin; naive_solver].
    vm_compute in Hin. by repeat (apply elem_of_cons in Hin as [?|Hin]; [done|]); apply not_elem_of_nil in Hin.
  - rewrite !length_app. change (length (lit " = ")) with 3%nat. lia.
Qed.

Lemma quoted_tight s : tight (quoted s).
Proof. exists 34, s, 34. done. Qed.

Lemma quoted_chars s : Forall plain s → Forall (λ c, is_char c ∧ c ≠ 10 ∧ c ≠ 13) (quoted s).
Proof.
  intros Hs. unfold quoted. constructor; [unfold is_char; lia|]. apply Forall_app_2.
  - eapply Forall_impl; [done|]. unfold plain. naive_solver.
  - repeat constructor; unfold is_char; lia.
Qed.

Lemma unquote_quoted s : unquote (quoted s) = s.
Proof.
  unfold unquote, quoted. replace (length (34 :: s ++ [34])) with (S (S (length s)))
    by (simpl; rewrite length_app; simpl; lia).
  rewrite app_comm_cons, List.last_last. simpl. by rewrite removelast_last.
Qed.

Lemma array_tight items : tight (array_text items).
Proof. exists 91, (array_body items), 93. done. Qed.

Lemma array_chars items :
  Forall (Forall plain) items → Forall (λ c, is_char c ∧ c ≠ 10 ∧ c ≠ 13) (array_text items).
Proof.
  intros H. unfold array_text. apply Forall_app_2; [repeat constructor; unfold is_char; lia|].
  apply Forall_app_2; [|repeat constructor; unfold is_char; lia].
  induction H as [|i is' Hi His IH]; [constructor|]. destruct is' as [|j is']; [by apply quoted_chars|].
  cbn [array_body]. apply Forall_app_2; [by apply quoted_chars|].
  apply Forall_app_2; [repeat constructor; unfold is_char; lia|exact IH].
Qed.

Lemma unquote_array items : unquote (array_text items) = array_text items.
Proof. unfold unquote, array_text. cbn [app]. rewrite andb_false_r. done. Qed.

Lemma length_quoted s : length (quoted s) = (length s + 2)%nat.
Proof. unfold quoted. simpl. rewrite length_app. simpl. lia. Qed.

Ltac word_ok := split; [done|]; repeat (constructor; [vm_compute; split; congruence|]); constructor.

(** The line of a quoted string, and of an array. *)
Lemma line_quoted f key s rest o :
  key_word key → Forall plain s → (length key ≤ 20)%nat → (length s ≤ 256)%nat →
  toml_lines (S f) (key_line key (quoted s) ++ rest) o = assign_key key s o ≫= toml_lines f rest.
Proof.
  intros. rewrite toml_lines_key, unquote_quoted; try done; [apply quoted_tight|by apply quoted_chars|].
  rewrite length_quoted. lia.
Qed.

Lemma line_array f key items rest o :
  key_word key → Forall (Forall plain) items → (length key ≤ 5)%nat → (length (array_text items) ≤ 500)%nat →
  toml_lines (S f) (key_line key (array_text items) ++ rest) o
  = assign_key key (array_text items) o ≫= toml_lines f rest.
Proof.
  intros. rewrite toml_lines_key, unquote_array; try done; [apply array_tight|by apply array_chars|lia].
Qed.

(** The effect of each key. *)
Create Rewrite HintDb toml.

Section keys.
Context (n v d a l ar : list Z) (ds fs : list (list Z)) (val : list Z).
Let o := PkgMeta n v d a l ar ds fs.

Lemma key_name : assign_key (lit "name") val o = Some (PkgMeta (clip 64 val) v d a l ar ds fs).
Proof. done. Qed.
Lemma key_version : assign_key (lit "version") val o = Some (PkgMeta n (clip 32 val) d a l ar ds fs).
Proof. done. Qed.
Lemma key_description : assign_key (lit "description") val o = Some (PkgMeta n v (clip 256 val) a l ar ds fs).
Proof. done. Qed.
Lemma key_author : assign_key (lit "author") val o = Some (PkgMeta n v d (clip 64 val) l ar ds fs).
Proof. done. Qed.
Lemma key_license : assign_key (lit "license") val o = Some (PkgMeta n v d a (clip 32 val) ar ds fs).
Proof. done. Qed.
Lemma key_arch : assign_key (lit "arch") val o = Some (PkgMeta n v d a l (clip 16 val) ds fs).
Proof. done. Qed.
Lemma key_deps : assign_key (lit "deps") val o
  = (ds' ← array_value HBPKG_MAX_DEPS 64 val ds; Some (PkgMeta n v d a l ar ds' fs)).
Proof. done. Qed.
Lemma key_files : assign_key (lit "files") val o
  = (fs' ← array_value HBPKG_MAX_FILES 256 val fs; Some (PkgMeta n v d a l ar ds fs')).
Proof. done. Qed.
End keys.

#[local] Hint Rewrite key_name key_version key_description key_author key_license key_arch key_deps
  key_files @some_bind : toml.

Ltac line_ok := first [done | word_ok | vm_compute; lia | lia].

Lemma meta_text_parsed f o :
  meta_fits o → meta_plain o → toml_lines (8 + S f) (meta_text o) empty_meta = Some o.
Proof.
  destruct o as [n v d a l ar ds fs]. unfold meta_fits, meta_plain.
  cbn [m_name m_version m_description m_author m_license m_arch m_deps m_files].
  intros (?&?&?&?&?&?&Hds&Hfs) (?&?&?&?&?&?&Pd&Pf&?&?). unfold meta_text, empty_meta.
  cbn [m_name m_version m_description m_author m_license m_arch m_deps m_files Nat.add].
  do 6 (rewrite line_quoted by line_ok; autorewrite with toml).
  rewrite line_array by line_ok. autorewrite with toml. rewrite array_value_text by done. autorewrite with toml.
  rewrite <- (app_nil_r (key_line (lit "files") _)).
  rewrite line_array by line_ok. autorewrite with toml. rewrite array_value_text by done. autorewrite with toml.
  by rewrite !clip_small by done.
Qed.

(** [C16] Metadata written in the documented form, one key per line with quoted strings
    and arrays of quoted strings, is read back field for field. *)
Theorem meta_roundtrip (o : pkg_meta_t) :
  meta_fits o → meta_plain o → m_name o ≠ [] → m_version o ≠ [] →
  meta_parse_toml (Some (meta_text o)) empty_meta = Some (0, o, None).
Proof.
  intros Hf Hp Hn Hv. unfold meta_parse_toml.
  assert (∃ k, S (length (meta_text o)) = (8 + S k)%nat) as [k ->].
  { exists (length (meta_text o) - 8)%nat. unfold meta_text, key_line. rewrite !length_app. simpl. lia. }
  rewrite meta_text_parsed, some_bind by done. destruct (m_name o); [done|]. by destruct (m_version o).
Qed.

Definition sample_meta : pkg_meta_t :=
  PkgMeta (lit "editor") (lit "1.2.0") (lit "A text editor = small") (lit "A. Author") (lit "MIT")
    (lit "x86") [lit "libtext"; lit "term"] [lit "bin/editor"; lit "share/editor/help.txt"].

Lemma meta_roundtrip_witness :
  meta_parse_toml (Some (meta_text sample_meta)) empty_meta = Some (0, sample_meta, None).
Proof.
  apply (meta_roundtrip sample_meta).
  - unfold meta_fits, bounded, HBPKG_MAX_DEPS, HBPKG_MAX_FILES. cbn.
    split_and!; try lia; repeat constructor; lia.
  - unfold meta_plain, plain, is_char. cbn. split_and!; try lia; repeat constructor; vm_compute; congruence.
  - discriminate.
  - discriminate.
Defined.
