(* ===== verification/PkgDb.v ===== *)
(** * The database of installed packages

    [/var/pkg/installed.db] as [tools/hbpkg.c] keeps it: a file of 256-byte
    records, appended to by [db_pkg_add], scanned by [db_pkg_get], [db_pkg_list]
    and [cmd_audit], and rewritten through a temporary file by [db_pkg_remove].

    The host the tool runs on is a state, [host]: the files by path, the shell
    commands run so far and the text printed so far.  What the tool cannot know is
    the class [HostOps]: what [system] does, whether a file can be opened for
    writing, how much of what is written to it between [fopen] and [fclose]
    reaches it, whether it can be renamed or removed, the text of the current
    time and of [errno].  The tool looks at none of the answers of [fwrite],
    [fclose], [rename] and [remove]; [host_stores] is a host on which these
    calls do not fail.  A record is its 256
    bytes; a string in it runs to the first NUL, past the end of its field if there
    is none in it, and a record without any is a fault. *)

From S2P Require Import Prelude CMem CString HostText PkgMeta.

Abbreviation path := (list Z).
Abbreviation files := (gmap (list Z) (list Z)).

Record host := Host {
  h_files : files;
  h_cmds : list (list Z);
  h_out : list (Z * list Z);
}.

Class HostOps := {
  run_shell : list Z → files → Z * files;
  may_write : files → path → bool;
  persist : files → path → list Z → list Z;
  may_rename : files → path → path → bool;
  may_unlink : files → path → bool;
  now_text : list Z;
  errno_string : list Z;
}.

(** What [fwrite] and [fclose], [rename] and [remove] do when they report success. *)
Record host_stores `{HostOps} : Prop := {
  stores_all : ∀ fs p bs, persist fs p bs = bs;
  renames : ∀ fs p q, may_rename fs p q = true;
  unlinks : ∀ fs p, may_unlink fs p = true;
}.

Definition HBPKG_DB_PATH : path := lit "/var/pkg/installed.db".
Definition HBPKG_CACHE_DIR : path := lit "/var/pkg/cache".
Definition HBPKG_REPO_INDEX : path := lit "/var/pkg/index.db".
Definition HBPKG_REPO_URL : path := lit "https://pkg.mellivora.os/repo".
Definition HBPKG_REC_SIZE : nat := 256.
Definition PATH_MAX : nat := 4096.

(** ** Printing and logging *)

Definition print_to (fd : Z) (msg : list Z) : M host unit :=
  λ s, Some (tt, Host (h_files s) (h_cmds s) (h_out s ++ [(fd, msg)])).
Definition printf_out (msg : list Z) : M host unit := print_to 1 msg.

Definition log_info (msg : list Z) : M host unit := print_to 1 (lit "[hbpkg] " ++ msg ++ [10]).
Definition log_warn (msg : list Z) : M host unit := print_to 2 (lit "[hbpkg] WARNING: " ++ msg ++ [10]).
Definition log_error (msg : list Z) : M host unit := print_to 2 (lit "[hbpkg] ERROR: " ++ msg ++ [10]).

(** ** Records *)

(** A [char] array of [n] bytes holding a string. *)
Definition field (n : nat) (s : list Z) : list Z := take n (s ++ replicate n 0).

Definition le_bytes (v : Z) : list Z :=
  [v `mod` 256; (v `div` 256) `mod` 256; (v `div` 65536) `mod` 256; (v `div` 16777216) `mod` 256].

(** [strncat(s, t, size - strlen(s) - 1)] *)
Definition strncat_clip (size : nat) (s t : list Z) : list Z := s ++ take (size - length s - 1) t.

(** The loop that joins the dependency names into [rec.deps]. *)
Fixpoint deps_loop (i : nat) (deps : list (list Z)) (acc : list Z) : list Z :=
  match deps with
  | [] => acc
  | d :: deps' =>
      if (i <? HBPKG_MAX_DEPS)%nat then
        let acc := if (0 <? i)%nat then strncat_clip 64 acc [44] else acc in
        deps_loop (S i) deps' (strncat_clip 64 acc d)
      else acc
  end.

Section host_ops.
Context `{HostOps}.

Definition make_record (meta : pkg_meta_t) : list Z :=
  field 64 (clip 64 (m_name meta)) ++ field 32 (clip 32 (m_version meta)) ++
  field 32 (clip 32 (m_description meta)) ++ field 64 (deps_loop 0 (m_deps meta) []) ++
  field 32 (clip 32 now_text) ++ le_bytes (u32 (Z.of_nat (length (m_files meta)))) ++ replicate 28 0.

(** The string that starts at an offset of a record. *)
Definition str_in (rec : list Z) (off : nat) : option (list Z) :=
  match from (Z.eqb 0) (drop off rec) with
  | [] => None
  | _ => Some (cut0 (drop off rec))
  end.

Definition rec_name (rec : list Z) : option (list Z) := str_in rec 0.

(** [fread(&rec, sizeof(rec), 1, fp) == 1] *)
Definition fread_rec (s : list Z) : option (list Z * list Z) :=
  if (HBPKG_REC_SIZE <=? length s)%nat then Some (take HBPKG_REC_SIZE s, drop HBPKG_REC_SIZE s) else None.

(** [fopen(path, "rb")] *)
Definition fopen_read (p : path) : M host (option (list Z)) := λ s, Some (h_files s !! p, s).

Definition set_files (fs : files) : M host unit := λ s, Some (tt, Host fs (h_cmds s) (h_out s)).
Definition get_files : M host files := λ s, Some (h_files s, s).
Definition of_option {A} (o : option A) : M host A := λ s, a ← o; Some (a, s).

(** ** [db_pkg_get] *)

Fixpoint get_loop (fuel : nat) (s name : list Z) : option (option (list Z)) :=
  match fuel with
  | O => None
  | S f =>
      match fread_rec s with
      | None => Some None
      | Some (rec, s') =>
          n ← rec_name rec;
          if streq n name then Some (Some rec) else get_loop f s' name
      end
  end.

Definition db_pkg_get (name : list Z) : M host (Z * list Z) :=
  fp <- fopen_read HBPKG_DB_PATH ;;
  match fp with
  | None => ret (-1, [])
  | Some s =>
      r <- of_option (get_loop (S (length s)) s name) ;;
      match r with Some rec => ret (0, rec) | None => ret (-1, []) end
  end.

Definition db_pkg_installed (name : list Z) : M host bool :=
  r <- db_pkg_get name ;; ret (fst r =? 0).

(** ** [db_pkg_add] *)

(** The database after a record was appended, as far as the host stored it. *)
Definition added (fs : files) (meta : pkg_meta_t) : files :=
  <[HBPKG_DB_PATH := default [] (fs !! HBPKG_DB_PATH) ++ persist fs HBPKG_DB_PATH (make_record meta)]> fs.

(** [mkdir] adds directories, which the file map does not hold. *)
Definition db_ensure_dirs : M host Z := ret 0.

Definition db_pkg_add (meta : pkg_meta_t) : M host Z :=
  db_ensure_dirs ;;;
  fs <- get_files ;;
  if negb (may_write fs HBPKG_DB_PATH) then
    log_error (lit "Cannot open DB for writing: " ++ errno_string) ;;; ret (-1)
  else
    set_files (added fs meta) ;;; ret 0.

(** ** [db_pkg_remove] *)

Fixpoint remove_loop (fuel : nat) (s name out : list Z) (found : bool) : option (list Z * bool) :=
  match fuel with
  | O => None
  | S f =>
      match fread_rec s with
      | None => Some (out, found)
      | Some (rec, s') =>
          n ← rec_name rec;
          if streq n name then remove_loop f s' name out true
          else remove_loop f s' name (out ++ rec) found
      end
  end.

(** [remove(p)] and [rename(p, q)], whose answers are not looked at. *)
Definition remove_file (p : path) : M host unit :=
  fs <- get_files ;;
  if may_unlink fs p then set_files (delete p fs) else ret tt.

Definition rename_file (p q : path) : M host unit :=
  fs <- get_files ;;
  if may_rename fs p q then set_files (<[q := default [] (fs !! p)]> (delete p fs)) else ret tt.

Definition tmp_path : path := clip PATH_MAX (HBPKG_DB_PATH ++ lit ".tmp").

Definition db_pkg_remove (name : list Z) : M host Z :=
  fp <- fopen_read HBPKG_DB_PATH ;;
  match fp with
  | None => ret (-1)
  | Some s =>
      fs <- get_files ;;
      if negb (may_write fs tmp_path) then ret (-1)
      else
        set_files (<[tmp_path := []]> fs) ;;;
        r <- of_option (remove_loop (S (length s)) s name [] false) ;;
        fs <- get_files ;;
        set_files (<[tmp_path := persist fs tmp_path (fst r)]> fs) ;;;
        if negb (snd r) then remove_file tmp_path ;;; ret (-1)
        else rename_file tmp_path HBPKG_DB_PATH ;;; ret 0
  end.

(** ** Listing *)

Definition row (name version description : list Z) : list Z :=
  left_pad 24 name ++ lit "  " ++ left_pad 12 version ++ lit "  " ++ description ++ [10].

Definition print_header : M host unit :=
  printf_out (row (lit "Name") (lit "Version") (lit "Description")) ;;;
  printf_out (row (lit "------------------------") (lit "------------")
                (lit "----------------------------------------------")).

Fixpoint list_loop (fuel : nat) (s : list Z) : M host unit :=
  match fuel with
  | O => fault
  | S f =>
      match fread_rec s with
      | None => ret tt
      | Some (rec, s') =>
          if negb (List.hd 0 rec =? 0) then
            n <- of_option (str_in rec 0) ;; v <- of_option (str_in rec 64) ;; d <- of_option (str_in rec 96) ;;
            printf_out (row n v d) ;;; list_loop f s'
          else list_loop f s'
      end
  end.

(** [strtok]: the next token and what follows it. *)
Definition strtok_text (delim : Z) (s : option (list Z)) : option (list Z) * option (list Z) :=
  match s with
  | None => (None, None)
  | Some s =>
      match from (λ c, negb (c =? delim)) s with
      | [] => (None, None)
      | t =>
          match strchr_split delim t with
          | Some (tok, rest) => (Some tok, Some rest)
          | None => (Some t, None)
          end
      end
  end.

(** The columns of an index line. *)
Definition columns (line : list Z) : option (list Z) * option (list Z) * option (list Z) :=
  let '(n, r) := strtok_text 9 (Some (cut0 line)) in
  let '(v, r) := strtok_text 9 r in
  let '(d, _) := strtok_text 10 r in
  (n, v, d).

Fixpoint index_loop (fuel : nat) (s : list Z) : M host unit :=
  match fuel with
  | O => fault
  | S f =>
      match fgets_line_of 512 s with
      | None => ret tt
      | Some (line, s') =>
          match columns line with
          | (Some n, Some v, d) => printf_out (row n v (default [] d)) ;;; index_loop f s'
          | _ => index_loop f s'
          end
      end
  end.

Definition db_pkg_list (installed_only : bool) : M host Z :=
  if installed_only then
    fp <- fopen_read HBPKG_DB_PATH ;;
    match fp with
    | None => log_warn (lit "No packages installed.") ;;; ret 0
    | Some s => print_header ;;; list_loop (S (length s)) s ;;; ret 0
    end
  else
    fp <- fopen_read HBPKG_REPO_INDEX ;;
    match fp with
    | None => log_warn (lit "No package index. Run 'hbpkg update' first.") ;;; ret 1
    | Some s => print_header ;;; index_loop (S (length s)) s ;;; ret 0
    end.

End host_ops.

(** ** The database as a list of records *)

Definition rec_ok (r : list Z) : Prop := length r = HBPKG_REC_SIZE ∧ is_Some (rec_name r).

Definition named (name r : list Z) : bool := bool_decide (rec_name r = Some name).

Definition find_rec (name : list Z) (recs : list (list Z)) : Z * list Z :=
  match List.find (named name) recs with Some r => (0, r) | None => (-1, []) end.

Definition remove_recs (name : list Z) (recs : list (list Z)) : list (list Z) :=
  List.filter (λ r, negb (named name r)) recs.

(** The file holds these records; an absent file holds none. *)
Definition db_view (st : host) (recs : list (list Z)) : Prop :=
  default [] (h_files st !! HBPKG_DB_PATH) = concat recs ∧ Forall rec_ok recs.

Section db.
Implicit Types (s name r : list Z) (recs : list (list Z)).

Lemma fread_rec_app r s : length r = HBPKG_REC_SIZE → fread_rec (r ++ s) = Some (r, s).
Proof.
  intros Hr. unfold fread_rec. rewrite <- Hr, length_app. destruct (Nat.leb_spec (length r) (length r + length s)); [|lia].
  by rewrite take_app_length, drop_app_length.
Qed.

Lemma named_streq name r n : rec_name r = Some n → named name r = streq n name.
Proof. intros E. unfold named, streq. rewrite E. apply bool_decide_ext. split; congruence. Qed.

Lemma get_loop_concat f recs name :
  Forall rec_ok recs → (length recs < f)%nat →
  get_loop f (concat recs) name = Some (List.find (named name) recs).
Proof.
  revert recs. induction f as [|f IH]; intros recs Hr Hf; [lia|].
  destruct Hr as [|r recs [Hl [n Hn]] Hr]; [done|]. cbn [concat get_loop].
  rewrite fread_rec_app by done. simpl. rewrite Hn. simpl. rewrite (named_streq name r n Hn).
  destruct (streq n name); [done|]. apply IH; [done|]. simpl in Hf. lia.
Qed.

Lemma remove_loop_concat f recs name out found :
  Forall rec_ok recs → (length recs < f)%nat →
  remove_loop f (concat recs) name out found
  = Some (out ++ concat (remove_recs name recs), found || existsb (named name) recs).
Proof.
  revert recs out found. induction f as [|f IH]; intros recs out found Hr Hf; [lia|].
  destruct Hr as [|r recs [Hl [n Hn]] Hr]; [simpl; by rewrite app_nil_r, orb_false_r|].
  cbn [concat remove_loop]. rewrite fread_rec_app by done. simpl. rewrite Hn. simpl.
  rewrite (named_streq name r n Hn). simpl in Hf.
  destruct (streq n name); simpl; rewrite IH by (done || lia).
  - by rewrite orb_true_r.
  - by rewrite <- app_assoc.
Qed.

Lemma length_concat_recs recs :
  Forall rec_ok recs → length (concat recs) = (HBPKG_REC_SIZE * length recs)%nat.
Proof.
  induction 1 as [|r recs [Hl _] _ IH]; [done|]. cbn [concat length]. rewrite length_app, IH, Hl. lia.
Qed.

Lemma db_view_absent st recs :
  db_view st recs → h_files st !! HBPKG_DB_PATH = None → recs = [].
Proof.
  intros [Hv Hr] Hn. rewrite Hn in Hv. simpl in Hv. destruct recs as [|r recs]; [done|].
  pose proof (length_concat_recs _ Hr) as Hl. rewrite <- Hv in Hl. cbn in Hl. lia.
Qed.

(** [db_pkg_get] finds the first record of the name and changes nothing. *)
Lemma db_get_view st recs name :
  db_view st recs → db_pkg_get name st = Some (find_rec name recs, st).
Proof.
  intros Hv. unfold db_pkg_get, bindM, fopen_read. rewrite some_bind. cbn [fst snd].
  destruct (h_files st !! HBPKG_DB_PATH) as [s|] eqn:E.
  - destruct Hv as [Hs Hr]. rewrite E in Hs. simpl in Hs. subst s. unfold of_option.
    rewrite get_loop_concat, !some_bind.
    + unfold find_rec. by destruct (List.find _ _).
    + done.
    + rewrite length_concat_recs by done. unfold HBPKG_REC_SIZE. lia.
  - rewrite (db_view_absent st recs Hv E). done.
Qed.

Lemma find_rec_app_other name recs r :
  named name r = false → find_rec name (recs ++ [r]) = find_rec name recs.
Proof.
  intros Hr. unfold find_rec. induction recs as [|r' recs IH]; simpl; [by rewrite Hr|].
  by destruct (named name r').
Qed.

Lemma find_rec_app_new name recs r :
  named name r = true → existsb (named name) recs = false → find_rec name (recs ++ [r]) = (0, r).
Proof.
  intros Hr. unfold find_rec. induction recs as [|r' recs IH]; simpl; [by rewrite Hr|].
  destruct (named name r'); [done|]. done.
Qed.

Lemma find_rec_removed name recs : find_rec name (remove_recs name recs) = (-1, []).
Proof.
  unfold find_rec, remove_recs. induction recs as [|r recs IH]; [done|]. simpl.
  destruct (named name r) eqn:E; simpl; [done|]. by rewrite E.
Qed.

Lemma find_rec_kept name other recs :
  other ≠ name → find_rec other (remove_recs name recs) = find_rec other recs.
Proof.
  intros Hne. unfold find_rec, remove_recs. induction recs as [|r recs IH]; [done|]. simpl.
  destruct (named name r) eqn:E; simpl; [|by destruct (named other r)].
  destruct (named other r) eqn:E'; [|done]. unfold named in *.
  apply bool_decide_eq_true in E, E'. congruence.
Qed.

Lemma remove_recs_ok name recs : Forall rec_ok recs → Forall rec_ok (remove_recs name recs).
Proof.
  intros H. unfold remove_recs. rewrite Forall_forall in *. intros r Hr%list_elem_of_In.
  apply filter_In in Hr as [Hr _]. apply H. by apply list_elem_of_In.
Qed.

(** *** Strings in records *)

Lemma length_field n s : length (field n s) = n.
Proof. unfold field. rewrite length_take, length_app, length_replicate. lia. Qed.

Lemma field_zeros n s : (length s < n)%nat → field n s = s ++ 0 :: replicate (n - length s - 1) 0.
Proof.
  intros Hs. unfold field. rewrite take_app_ge by lia. f_equal.
  rewrite take_replicate. replace (n - length s)%nat with (S (n - length s - 1)) at 1 by lia.
  rewrite Nat.min_l by lia. by replace (n - length s)%nat with (S (n - length s - 1)) by lia.
Qed.

Lemma str_in_field pre n s post off :
  c_text s → (length s < n)%nat → off = length pre →
  str_in (pre ++ field n s ++ post) off = Some s.
Proof.
  intros Hs Hn ->. unfold str_in. rewrite drop_app_length, field_zeros by done. rewrite <- app_assoc.
  cbn [app]. rewrite cut0_chars by done. unfold from. rewrite span_run; [done| |done].
  eapply Forall_impl; [done|]. intros x Hx. apply negb_true_iff, Z.eqb_neq. done.
Qed.

Lemma length_strncat_clip size s t : (length s < size)%nat → (length (strncat_clip size s t) < size)%nat.
Proof. intros. unfold strncat_clip. rewrite length_app, length_take. lia. Qed.

Lemma deps_loop_ok i deps acc :
  (length acc < 64)%nat → c_text acc → Forall c_text deps →
  (length (deps_loop i deps acc) < 64)%nat ∧ c_text (deps_loop i deps acc).
Proof.
  intros Ha Hc Hd. revert i acc Ha Hc. induction Hd as [|d deps Hd Hds IH]; intros i acc Ha Hc; [done|].
  simpl. destruct (Nat.ltb_spec i HBPKG_MAX_DEPS); [|done].
  assert (∀ s t, c_text s → c_text t → c_text (strncat_clip 64 s t)) as Hcat.
  { intros. unfold strncat_clip. apply Forall_app_2; [done|]. by apply Forall_take. }
  apply IH; destruct (0 <? i)%nat; try (by repeat apply length_strncat_clip).
  - apply Hcat; [|done]. apply Hcat; [done|]. by repeat constructor.
  - by apply Hcat.
Qed.

Lemma clip_chars n s : c_text s → c_text (clip n s).
Proof. apply Forall_take. Qed.

End db.

(** Metadata whose strings are C strings. *)
Definition meta_chars (meta : pkg_meta_t) : Prop :=
  c_text (m_name meta) ∧ c_text (m_version meta) ∧
  c_text (m_description meta) ∧ Forall c_text (m_deps meta).

Section db_host.
Context `{HostOps}.
Context (Hnow : c_text now_text).
#[local] Set Default Proof Using "Type*".

(** The strings of the record made from metadata. *)
Lemma make_record_strings meta :
  meta_chars meta →
  let r := make_record meta in
  length r = HBPKG_REC_SIZE ∧ str_in r 0 = Some (clip 64 (m_name meta)) ∧
  str_in r 64 = Some (clip 32 (m_version meta)) ∧ str_in r 96 = Some (clip 32 (m_description meta)) ∧
  str_in r 128 = Some (deps_loop 0 (m_deps meta) []) ∧ str_in r 192 = Some (clip 32 now_text) ∧
  drop 228 r = replicate 28 0.
Proof.
  intros (Hn&Hv&Hd&Hds). cbv zeta. unfold make_record.
  destruct (deps_loop_ok 0 (m_deps meta) []) as [Hl Hc]; [simpl; lia|constructor|done|].
  assert (∀ k s, (0 < k)%nat → (length (clip k s) < k)%nat) as Hclip by (intros; by apply clip_length).
  set (a := field 64 (clip 64 (m_name meta))). set (b := field 32 (clip 32 (m_version meta))).
  set (c := field 32 (clip 32 (m_description meta))). set (d := field 64 (deps_loop 0 (m_deps meta) [])).
  set (e := field 32 (clip 32 now_text)). set (g := le_bytes _).
  assert (length a = 64 ∧ length b = 32 ∧ length c = 32 ∧ length d = 64 ∧ length e = 32 ∧ length g = 4)%nat
    as (La&Lb&Lc&Ld&Le&Lg) by (unfold a, b, c, d, e; rewrite !length_field; done).
  split_and!.
  - rewrite !length_app, La, Lb, Lc, Ld, Le, Lg, length_replicate. done.
  - apply (str_in_field [] 64); [by apply clip_chars|apply Hclip; lia|done].
  - apply (str_in_field a 32); [by apply clip_chars|apply Hclip; lia|by rewrite La].
  - rewrite (app_assoc a). apply (str_in_field (a ++ b) 32); [by apply clip_chars|apply Hclip; lia|].
    by rewrite length_app, La, Lb.
  - rewrite (app_assoc a), (app_assoc (a ++ b)). apply (str_in_field _ 64); [done|done|].
    by rewrite !length_app, La, Lb, Lc.
  - rewrite (app_assoc a), (app_assoc (a ++ b)), (app_assoc ((a ++ b) ++ c)).
    apply (str_in_field _ 32); [by apply clip_chars|apply Hclip; lia|].
    by rewrite !length_app, La, Lb, Lc, Ld.
  - rewrite !app_assoc. apply drop_app_length'. by rewrite !length_app, La, Lb, Lc, Ld, Le, Lg.
Qed.

Lemma make_record_ok meta : meta_chars meta → rec_ok (make_record meta).
Proof.
  intros Hm. destruct (make_record_strings meta Hm) as (Hl&Hn&_). split; [done|].
  unfold rec_name. rewrite Hn. by eexists.
Qed.

(** [db_pkg_add] appends what the host stores of the record, and answers 0. *)
Lemma db_add_run st meta :
  may_write (h_files st) HBPKG_DB_PATH = true →
  db_pkg_add meta st = Some (0, Host (added (h_files st) meta) (h_cmds st) (h_out st)).
Proof using Type.
  intros Hw. unfold db_pkg_add, db_ensure_dirs, bindM, get_files, ret, set_files.
  rewrite !some_bind. cbn [fst snd]. by rewrite Hw.
Qed.

Lemma db_added_view st recs meta cmds out :
  host_stores → db_view st recs → rec_ok (make_record meta) →
  db_view (Host (added (h_files st) meta) cmds out) (recs ++ [make_record meta]).
Proof using Type.
  intros Hst [Hv Hr] Hm. unfold added. split; cbn [h_files].
  - rewrite lookup_insert_eq. cbn [default]. rewrite Hv, concat_app, (stores_all Hst). cbn [concat].
    by rewrite app_nil_r.
  - apply Forall_app_2; [done|]. constructor; [done|constructor].
Qed.
End db_host.

(** The files after [db_pkg_remove]: [new] is what the scan kept. *)
Definition removed `{HostOps} (fs : files) (new : list Z) (found : bool) : files :=
  let fs0 := <[tmp_path := []]> fs in
  let fs1 := <[tmp_path := persist fs0 tmp_path new]> fs0 in
  if found then
    if may_rename fs1 tmp_path HBPKG_DB_PATH
    then <[HBPKG_DB_PATH := persist fs0 tmp_path new]> (delete tmp_path fs1) else fs1
  else if may_unlink fs1 tmp_path then delete tmp_path fs1 else fs1.

(** On every host: the answer says whether the name was there, not whether the
    new database was stored. *)
Lemma db_remove_run `{HostOps} st recs name :
  db_view st recs → may_write (h_files st) tmp_path = true →
  ∃ st', db_pkg_remove name st = Some (if existsb (named name) recs then 0 else -1, st') ∧
    h_files st' =
      if decide (h_files st !! HBPKG_DB_PATH = None) then h_files st
      else removed (h_files st) (concat (remove_recs name recs)) (existsb (named name) recs).
Proof.
  intros Hv Hw. pose proof Hv as [Hs Hr].
  unfold db_pkg_remove, bindM, fopen_read. rewrite some_bind. cbn [fst snd].
  destruct (h_files st !! HBPKG_DB_PATH) as [s|] eqn:E.
  2: { assert (recs = []) as -> by (by eapply db_view_absent). simpl. by exists st. }
  simpl in Hs. subst s. unfold remove_file, rename_file, bindM, get_files, set_files, of_option, ret.
  rewrite some_bind. cbn [fst snd].
  rewrite Hw. cbn [negb]. rewrite some_bind. cbn [fst snd h_files h_cmds h_out].
  rewrite remove_loop_concat by (done || (rewrite length_concat_recs by done; unfold HBPKG_REC_SIZE; lia)).
  rewrite !some_bind. cbn [fst snd h_files h_cmds h_out]. rewrite orb_false_l, app_nil_l.
  unfold removed. destruct (existsb (named name) recs); cbn [negb]; rewrite !some_bind; cbn [fst snd h_files h_cmds h_out].
  - destruct (may_rename _ _ _); rewrite some_bind; (eexists; split; [done|]); cbn [h_files fst snd]; [|done].
    by rewrite lookup_insert_eq.
  - destruct (may_unlink _ _); rewrite some_bind; (eexists; split; [done|]); done.
Qed.

Lemma remove_recs_absent name recs : existsb (named name) recs = false → remove_recs name recs = recs.
Proof.
  induction recs as [|r recs IH]; [done|]. simpl. destruct (named name r); [done|]. intros Ex.
  simpl. by rewrite IH.
Qed.

(** On a host that stores what it is given. *)
Lemma db_remove_view `{HostOps} st recs name :
  host_stores → db_view st recs → may_write (h_files st) tmp_path = true → h_files st !! tmp_path = None →
  ∃ st', db_pkg_remove name st = Some (if existsb (named name) recs then 0 else -1, st') ∧
    h_files st' !! tmp_path = None ∧ db_view st' (remove_recs name recs) ∧
    (existsb (named name) recs = false → h_files st' = h_files st).
Proof.
  intros Hst Hv Hw Ht. destruct (db_remove_run st recs name Hv Hw) as (st'&E&Hf).
  exists st'. split; [done|]. pose proof Hv as [Hs Hr].
  assert (HBPKG_DB_PATH ≠ tmp_path) as Hne by (vm_compute; congruence).
  case_decide as Hd.
  { rewrite Hf. assert (recs = []) as -> by (by eapply db_view_absent). split_and!; [done| |done].
    split; [by rewrite Hf|constructor]. }
  unfold removed in Hf. rewrite (renames Hst), (unlinks Hst), (stores_all Hst), insert_insert_eq in Hf.
  destruct (existsb (named name) recs) eqn:Ex; rewrite Hf.
  - rewrite lookup_insert_ne by done. rewrite lookup_delete_eq. split_and!; [done| |done].
    split; [by rewrite Hf, lookup_insert_eq|by apply remove_recs_ok].
  - rewrite lookup_delete_eq, delete_insert_eq, delete_id by done. split_and!; [done| |done].
    rewrite (remove_recs_absent _ _ Ex). split; [|done]. rewrite Hf, lookup_delete_ne, lookup_insert_ne by done. done.
Qed.

(** [C23] Adding a package answers 0 whenever the database can be opened, and the
    file grows by what the host stores of the record.  When it stores all of it,
    a database of whole records stays one, the package is found by its name in
    the new record, whose strings are its name, version, description, dependency
    list and the time, each cut to its field, and the lookup of every other name
    is unchanged. *)
Theorem db_add_get `{HostOps} (st : host) (recs : list (list Z)) (meta : pkg_meta_t) :
  c_text now_text → db_view st recs → meta_chars meta →
  may_write (h_files st) HBPKG_DB_PATH = true →
  existsb (named (clip 64 (m_name meta))) recs = false →
  ∃ st' r, db_pkg_add meta st = Some (0, st') ∧
    h_files st' = <[HBPKG_DB_PATH := default [] (h_files st !! HBPKG_DB_PATH) ++
                                      persist (h_files st) HBPKG_DB_PATH r]> (h_files st) ∧
    str_in r 0 = Some (clip 64 (m_name meta)) ∧ str_in r 64 = Some (clip 32 (m_version meta)) ∧
    str_in r 96 = Some (clip 32 (m_description meta)) ∧
    str_in r 128 = Some (deps_loop 0 (m_deps meta) []) ∧ str_in r 192 = Some (clip 32 now_text) ∧
    (host_stores →
       db_view st' (recs ++ [r]) ∧
       db_pkg_get (clip 64 (m_name meta)) st' = Some ((0, r), st') ∧
       (∀ other x, other ≠ clip 64 (m_name meta) →
          db_pkg_get other st = Some (x, st) → db_pkg_get other st' = Some (x, st'))).
Proof.
  intros Hnow Hv Hm Hw Hnew. destruct (make_record_strings Hnow meta Hm) as (Hlen&Hn&Hvs&Hd&Hds&Ht&_).
  eexists _, (make_record meta). rewrite (db_add_run st meta Hw). split; [done|]. split_and!; try done.
  intros Hst. pose proof (db_added_view st recs meta (h_cmds st) (h_out st) Hst Hv (make_record_ok Hnow meta Hm)) as Hv'.
  split_and!; [done| |].
  - rewrite (db_get_view _ _ _ Hv'), find_rec_app_new; [done| |done].
    unfold named, rec_name. rewrite Hn. by apply bool_decide_eq_true.
  - intros other x Hne. rewrite (db_get_view st _ _ Hv), (db_get_view _ _ _ Hv').
    rewrite find_rec_app_other; [congruence|].
    unfold named, rec_name. rewrite Hn. apply bool_decide_eq_false. congruence.
Qed.

(** The field documented as the checksum of the package (bytes 228 to 255 of its
    record) is zero in every record that is added. *)
Theorem record_checksum_zero `{HostOps} (meta : pkg_meta_t) :
  c_text now_text → meta_chars meta → drop 228 (make_record meta) = replicate 28 0.
Proof. intros Hnow Hm. apply (make_record_strings Hnow meta Hm). Qed.

(** A full disk: nothing of what is written reaches the file.  The package is
    reported as added and the database holds nothing. *)
Theorem db_add_unchecked `{HostOps} (st : host) (meta : pkg_meta_t) (name : list Z) :
  may_write (h_files st) HBPKG_DB_PATH = true → h_files st !! HBPKG_DB_PATH = None →
  persist (h_files st) HBPKG_DB_PATH (make_record meta) = [] →
  ∃ st', db_pkg_add meta st = Some (0, st') ∧ db_pkg_get name st' = Some ((-1, []), st').
Proof.
  intros Hw Hd Hp. rewrite (db_add_run st meta Hw). eexists. split; [done|].
  assert (db_view (Host (added (h_files st) meta) (h_cmds st) (h_out st)) []) as Hv.
  { split; [|constructor]. unfold added. cbn [h_files]. by rewrite lookup_insert_eq, Hd, Hp. }
  by rewrite (db_get_view _ _ name Hv).
Qed.

(** [C24] Removing a package answers 0 when it is installed and [-1] when it is not.
    On a host whose file operations do not fail, that takes every record of its
    name out of the database and no other, leaves no temporary file, and it is
    not found afterwards while all other names are found as before; removing one
    that is not installed changes no file. *)
Theorem db_remove_get `{HostOps} (st : host) (recs : list (list Z)) (name : list Z) :
  db_view st recs → may_write (h_files st) tmp_path = true → h_files st !! tmp_path = None →
  ∃ r st', db_pkg_remove name st = Some (r, st') ∧
    (r = 0 ∧ existsb (named name) recs = true ∨ r = -1 ∧ existsb (named name) recs = false) ∧
    (host_stores →
       h_files st' !! tmp_path = None ∧
       db_view st' (remove_recs name recs) ∧
       db_pkg_get name st' = Some ((-1, []), st') ∧
       (∀ other x, other ≠ name →
          db_pkg_get other st = Some (x, st) → db_pkg_get other st' = Some (x, st')) ∧
       (r = -1 → h_files st' = h_files st)).
Proof.
  intros Hv Hw Ht. destruct (db_remove_run st recs name Hv Hw) as (st'&E&_).
  eexists _, st'. split; [exact E|]. split; [destruct (existsb _ _); auto|]. intros Hst.
  destruct (db_remove_view st recs name Hst Hv Hw Ht) as (st''&E'&Ht'&Hv'&Hn).
  rewrite E in E'. injection E' as <-. split_and!; [done|done| | |].
  - by rewrite (db_get_view st' _ _ Hv'), find_rec_removed.
  - intros other x Ho. rewrite (db_get_view st _ _ Hv), (db_get_view st' _ _ Hv').
    rewrite find_rec_kept by done. congruence.
  - intros Hr. apply Hn. by destruct (existsb _ _).
Qed.

(** When the rename fails, the answer is 0 and the package is still found. *)
Theorem db_remove_unchecked `{HostOps} (st : host) (recs : list (list Z)) (name : list Z) :
  db_view st recs → may_write (h_files st) tmp_path = true → existsb (named name) recs = true →
  (∀ fs, may_rename fs tmp_path HBPKG_DB_PATH = false) →
  ∃ st', db_pkg_remove name st = Some (0, st') ∧ db_view st' recs.
Proof.
  intros Hv Hw Ex Hno. destruct (db_remove_run st recs name Hv Hw) as (st'&E&Hf). rewrite Ex in E, Hf.
  exists st'. split; [done|]. destruct Hv as [Hs Hr]. split; [|done]. rewrite Hf.
  case_decide; [done|]. unfold removed. rewrite Hno.
  assert (HBPKG_DB_PATH ≠ tmp_path) as Hne by (vm_compute; congruence).
  by rewrite !lookup_insert_ne.
Qed.

(** ** A host to run on *)

(** Every command succeeds without touching a file and no file operation fails. *)
#[local] Instance plain_host : HostOps := {
  run_shell := λ _ fs, (0, fs);
  may_write := λ _ _, true;
  persist := λ _ _ bs, bs;
  may_rename := λ _ _ _, true;
  may_unlink := λ _ _, true;
  now_text := lit "2025-01-02T03:04:05Z";
  errno_string := lit "Permission denied";
}.

Lemma plain_stores : host_stores.
Proof. by split. Qed.

(** A full disk. *)
Definition full_host : HostOps := {|
  run_shell := λ _ fs, (0, fs);
  may_write := λ _ _, true;
  persist := λ _ _ _, [];
  may_rename := λ _ _ _, true;
  may_unlink := λ _ _, true;
  now_text := lit "2025-01-02T03:04:05Z";
  errno_string := lit "Permission denied";
|}.

Definition host0 : host := Host ∅ [] [].

Lemma db_add_get_witness :
  ∃ st' r, db_pkg_add sample_meta host0 = Some (0, st') ∧ db_view st' [r] ∧
    db_pkg_get (lit "editor") st' = Some ((0, r), st').
Proof.
  destruct (db_add_get host0 [] sample_meta) as (st'&r&E&_&_&_&_&_&_&Hst).
  - repeat constructor; vm_compute; congruence.
  - split; [reflexivity|constructor].
  - unfold meta_chars. cbn. split_and!; repeat constructor; vm_compute; congruence.
  - reflexivity.
  - reflexivity.
  - destruct (Hst plain_stores) as (Hv&Hg&_). exists st', r. split_and!; [exact E|exact Hv|exact Hg].
Defined.

Lemma db_add_unchecked_witness :
  ∃ st', db_pkg_add (H := full_host) sample_meta host0 = Some (0, st') ∧
    db_pkg_get (lit "editor") st' = Some ((-1, []), st').
Proof. by apply (db_add_unchecked (H := full_host) host0 sample_meta). Defined.

Definition host1 : host := Host {[ HBPKG_DB_PATH := make_record sample_meta ]} [] [].

Lemma db_remove_get_witness :
  ∃ st', db_pkg_remove (lit "editor") host1 = Some (0, st') ∧ h_files st' !! tmp_path = None ∧
    db_view st' [] ∧ db_pkg_get (lit "editor") st' = Some ((-1, []), st').
Proof.
  assert (db_view host1 [make_record sample_meta]) as Hv.
  { split; [vm_compute; reflexivity|]. constructor; [|constructor]. split; [vm_compute; reflexivity|].
    vm_compute. by eexists. }
  assert (existsb (named (lit "editor")) [make_record sample_meta] = true) as Ex by (vm_compute; reflexivity).
  destruct (db_remove_get host1 [make_record sample_meta] (lit "editor") Hv) as (r&st'&E&Hr&Hst);
    [reflexivity|reflexivity|].
  destruct (Hst plain_stores) as (Ht&Hv'&Hg&_).
  destruct Hr as [[-> _]|[_ Hr]]; [|rewrite Ex in Hr; discriminate].
  exists st'. split_and!; [exact E|exact Ht| |exact Hg].
  assert (remove_recs (lit "editor") [make_record sample_meta] = []) as <- by (vm_compute; reflexivity). exact Hv'.
Defined.
