(* ===== verification/PkgCmd.v ===== *)
(** * The commands of the package manager

    [cmd_install], [cmd_remove] and the other commands of [tools/hbpkg.c] on the
    host of [PkgDb], built for Linux ([HBPKG_HOST]).  Every shell command is
    recorded in [h_cmds] and run by [run_shell]; a buffer filled by [snprintf] is
    cut to its size.  [cmd_install] calls itself for the dependencies of a
    package: it takes fuel, one unit for each level of that recursion. *)

From S2P Require Import Prelude CMem CString HostText PkgMeta PkgDb.

Definition HBPKG_NAME_LEN : nat := 64.
Definition HBPKG_VER_LEN : nat := 32.

(** ** [sanitise_name] *)

Definition allowed (c : Z) : bool := is_alnum c || (c =? 46) || (c =? 45) || (c =? 95).

(** The loop: at most [k] characters are copied, [None] at one that is not allowed. *)
Fixpoint sanitise_loop (k : nat) (s : list Z) : option (list Z) :=
  match k, s with
  | S k', c :: s' => if negb (allowed c) then None else r ← sanitise_loop k' s'; Some (c :: r)
  | _, _ => Some []
  end.

Definition sanitise_name (s : list Z) (max : nat) : option (list Z) :=
  if (max <? 2)%nat then None
  else out ← sanitise_loop (max - 1) s; match out with [] => None | _ => Some out end.

Definition dec_int (n : Z) : list Z := if n <? 0 then 45 :: dec_text (- n) else dec_text n.

Section commands.
Context `{HostOps}.

(** [system(cmd)] *)
Definition system (cmd : list Z) : M host Z :=
  λ s, let '(rc, fs) := run_shell cmd (h_files s) in
       Some (rc, Host fs (h_cmds s ++ [cmd]) (h_out s)).

(** [stat(p, &st) == 0] *)
Definition exists_file (p : path) : M host bool :=
  λ s, Some (bool_decide (is_Some (h_files s !! p)), s).

(** ** Extraction and installation *)

Definition extract_hbp (hbp_path dest_dir : path) : M host Z :=
  let cmd_buf := clip (PATH_MAX * 2 + 64)
    (lit "mkdir -p '" ++ dest_dir ++ lit "' && tar -xzf '" ++ hbp_path ++ lit "' -C '" ++ dest_dir ++ lit "'") in
  rc <- system cmd_buf ;; ret (if rc =? 0 then 0 else -1).

(** No absolute path and no [..] in the path. *)
Definition clean_path (f : path) : bool := negb ((List.hd 0 f =? 47) || contains (lit "..") f).

Definition mkdir_cmd (dst : path) : list Z :=
  clip (PATH_MAX * 2 + 32) (lit "mkdir -p " ++ [34] ++ lit "$(dirname '" ++ dst ++ lit "')" ++ [34]).
Definition cp_cmd (src dst : path) : list Z :=
  clip (PATH_MAX * 2 + 32) (lit "cp '" ++ src ++ lit "' '" ++ dst ++ lit "'").
Definition src_path (extracted_dir f : path) : path :=
  clip PATH_MAX (extracted_dir ++ lit "/HBPKG/files/" ++ f).
Definition dst_path (f : path) : path := clip PATH_MAX (lit "/" ++ f).

Fixpoint install_files (extracted_dir : path) (fs : list path) : M host Z :=
  match fs with
  | [] => ret 0
  | f :: fs' =>
      if negb (clean_path f) then
        log_error (lit "HBPKG-SEC-001: path traversal rejected: " ++ f) ;;; ret (-1)
      else
        let src := src_path extracted_dir f in
        let dst := dst_path f in
        system (mkdir_cmd dst) ;;;
        rc <- system (cp_cmd src dst) ;;
        if negb (rc =? 0) then log_error (lit "Failed to install file: " ++ dst) ;;; ret (-1)
        else install_files extracted_dir fs'
  end.

Definition run_install_script (dir : path) (phase : list Z) : M host Z :=
  let script := clip PATH_MAX (dir ++ lit "/HBPKG/install.sh") in
  st <- exists_file script ;;
  if negb st then ret 0
  else
    rc <- system (clip (PATH_MAX + 32) (lit "PHASE=" ++ phase ++ lit " sh '" ++ script ++ lit "'")) ;;
    ret (if rc =? 0 then 0 else -1).

(** ** [cmd_install] *)

(** The name before an [@] and the constraint after it; [None]: the name is too long. *)
Definition split_arg (arg : list Z) : option (list Z * list Z) :=
  match strchr_split 64 arg with
  | Some (name, rest) =>
      if (HBPKG_NAME_LEN <=? length name)%nat then None else Some (name, clip HBPKG_VER_LEN rest)
  | None => Some (clip HBPKG_NAME_LEN arg, [])
  end.

Definition hbp_path_of (safe_name : list Z) : path :=
  clip PATH_MAX (HBPKG_CACHE_DIR ++ lit "/" ++ safe_name ++ lit ".hbp").
Definition extract_dir_of (safe_name : list Z) : path :=
  clip PATH_MAX (HBPKG_CACHE_DIR ++ lit "/" ++ safe_name ++ lit ".tmp").
Definition meta_path_of (safe_name : list Z) : path :=
  clip PATH_MAX (extract_dir_of safe_name ++ lit "/HBPKG/meta.toml").

(** The archive is downloaded when it is not in the cache: [true] when it is there. *)
Definition download (safe_name : list Z) : M host bool :=
  let hbp_path := hbp_path_of safe_name in
  cached <- exists_file hbp_path ;;
  if cached then ret true
  else
    log_info (lit "  Fetching " ++ safe_name ++ lit " from repository ...") ;;;
    let url := clip 512 (HBPKG_REPO_URL ++ lit "/" ++ safe_name ++ lit ".hbp") in
    rc <- system (clip 768 (lit "curl -fsSL --retry 3 -o '" ++ hbp_path ++ lit "' '" ++ url ++ lit "'")) ;;
    if negb (rc =? 0) then
      log_error (lit "  Download failed for " ++ safe_name ++ lit " (exit " ++ dec_int rc ++ lit ")") ;;;
      ret false
    else ret true.

(** [meta_parse_toml] on a file of the host, with the messages it prints. *)
Definition read_meta (p : path) : M host (Z * pkg_meta_t) :=
  fp <- fopen_read p ;;
  r <- of_option (meta_parse_toml fp empty_meta) ;;
  let '(rc, meta, err) := r in
  match err with
  | None => ret (rc, meta)
  | Some CannotOpen => log_error (lit "Cannot open " ++ p ++ lit ": " ++ errno_string) ;;; ret (rc, meta)
  | Some MissingName => log_error (lit "meta.toml missing required 'name' field") ;;; ret (rc, meta)
  | Some MissingVersion => log_error (lit "meta.toml missing required 'version' field") ;;; ret (rc, meta)
  end.

(** Up to the signature check: the metadata of a package, [None] when the command fails. *)
Definition fetch (safe_name : list Z) : M host (option pkg_meta_t) :=
  got <- download safe_name ;;
  if negb got then ret None
  else
    rc <- extract_hbp (hbp_path_of safe_name) (extract_dir_of safe_name) ;;
    if negb (rc =? 0) then log_error (lit "  Extraction failed for " ++ safe_name) ;;; ret None
    else
      r <- read_meta (meta_path_of safe_name) ;;
      let '(rc, meta) := r in
      if negb (rc =? 0) then log_error (lit "  Cannot parse metadata for " ++ safe_name) ;;; ret None
      else
        let key_path := lit "/etc/hbpkg/trusted.pub" in
        st <- exists_file key_path ;;
        if st then
          if negb (meta_verify_sig meta key_path) then
            log_error (lit "  Signature verification FAILED for " ++ safe_name ++ lit " — aborting.") ;;;
            ret None
          else log_info (lit "  Signature verified OK.") ;;; ret (Some meta)
        else
          log_warn (lit "  No trusted key at " ++ key_path ++ lit " — skipping signature check.") ;;;
          ret (Some meta).

(** The loop over the dependencies, [install] being the recursive call. *)
Fixpoint install_deps (install : list (list Z) → M host Z) (deps : list (list Z)) : M host Z :=
  match deps with
  | [] => ret 0
  | d :: deps' =>
      have <- db_pkg_installed d ;;
      if have then install_deps install deps'
      else
        rc <- install [d] ;;
        if negb (rc =? 0) then log_error (lit "  Dependency install failed: " ++ d) ;;; ret 1
        else install_deps install deps'
  end.

(** From the dependencies to the database. *)
Definition install_meta (install : list (list Z) → M host Z) (safe_name : list Z) (meta : pkg_meta_t) : M host Z :=
  (match m_deps meta with
   | [] => ret tt
   | ds => log_info (lit "  Resolving " ++ dec_text (Z.of_nat (length ds)) ++ lit " dependencies ...")
   end) ;;;
  rc <- install_deps install (m_deps meta) ;;
  if negb (rc =? 0) then ret 1
  else
    run_install_script (extract_dir_of safe_name) (lit "pre") ;;;
    rc <- install_files (extract_dir_of safe_name) (m_files meta) ;;
    if negb (rc =? 0) then log_error (lit "  File install failed for " ++ safe_name) ;;; ret 1
    else
      run_install_script (extract_dir_of safe_name) (lit "post") ;;;
      rc <- db_pkg_add meta ;;
      if negb (rc =? 0) then log_error (lit "  Database update failed for " ++ safe_name) ;;; ret 1
      else
        log_info (lit "  Installed " ++ m_name meta ++ lit " " ++ m_version meta ++ lit " successfully.") ;;;
        ret 0.

(** One turn of the loop over the arguments; 1 ends the command. *)
Definition install_one (install : list (list Z) → M host Z) (arg : list Z) : M host Z :=
  match split_arg arg with
  | None => log_error (lit "Package name too long: " ++ arg) ;;; ret 1
  | Some (name_buf, ver_constraint) =>
      match sanitise_name name_buf HBPKG_NAME_LEN with
      | None => log_error (lit "Invalid package name: " ++ name_buf) ;;; ret 1
      | Some safe_name =>
          have <- db_pkg_installed safe_name ;;
          if have then
            log_info (lit "Package '" ++ safe_name ++ lit "' is already installed.") ;;; ret 0
          else
            log_info (lit "Installing " ++ safe_name ++
              (match ver_constraint with [] => [] | _ => lit "@" end) ++ ver_constraint ++ lit " ...") ;;;
            meta <- fetch safe_name ;;
            match meta with
            | None => ret 1
            | Some meta => install_meta install safe_name meta
            end
      end
  end.

Fixpoint install_args (install : list (list Z) → M host Z) (args : list (list Z)) : M host Z :=
  match args with
  | [] => ret 0
  | arg :: args' =>
      rc <- install_one install arg ;;
      if negb (rc =? 0) then ret 1 else install_args install args'
  end.

Fixpoint cmd_install (fuel : nat) (argv : list (list Z)) : M host Z :=
  match fuel with
  | O => fault
  | S f =>
      match argv with
      | [] => print_to 2 (lit "Usage: hbpkg install <name[@version]> ..." ++ [10]) ;;; ret 1
      | _ => install_args (cmd_install f) argv
      end
  end.

(** ** The other commands *)

Fixpoint remove_args (args : list (list Z)) : M host Z :=
  match args with
  | [] => ret 0
  | arg :: args' =>
      match sanitise_name arg HBPKG_NAME_LEN with
      | None => log_error (lit "Invalid package name: " ++ arg) ;;; ret 1
      | Some safe_name =>
          r <- db_pkg_get safe_name ;;
          let '(rc, rec) := r in
          if negb (rc =? 0) then
            log_error (lit "Package '" ++ safe_name ++ lit "' is not installed.") ;;; ret 1
          else
            n <- of_option (str_in rec 0) ;; v <- of_option (str_in rec 64) ;;
            log_info (lit "Removing " ++ n ++ lit " " ++ v ++ lit " ...") ;;;
            rc <- db_pkg_remove safe_name ;;
            if negb (rc =? 0) then
              log_error (lit "Database removal failed for " ++ safe_name) ;;; ret 1
            else log_info (lit "Removed " ++ safe_name ++ lit ".") ;;; remove_args args'
      end
  end.

Definition cmd_remove (argv : list (list Z)) : M host Z :=
  match argv with
  | [] => print_to 2 (lit "Usage: hbpkg remove <name>" ++ [10]) ;;; ret 1
  | _ => remove_args argv
  end.

Definition cmd_update : M host Z :=
  log_info (lit "Refreshing package index from " ++ HBPKG_REPO_URL ++ lit " ...") ;;;
  rc <- system (clip 512 (lit "curl -fsSL --retry 3 -o '" ++ HBPKG_REPO_INDEX ++ lit "' '" ++
                          HBPKG_REPO_URL ++ lit "/index.db'")) ;;
  if negb (rc =? 0) then log_error (lit "Index fetch failed (exit " ++ dec_int rc ++ lit ")") ;;; ret 1
  else log_info (lit "Package index updated.") ;;; ret 0.

Fixpoint upgrade_args (fuel : nat) (args : list (list Z)) : M host Z :=
  match args with
  | [] => ret 0
  | arg :: args' =>
      log_info (lit "Upgrading " ++ arg ++ lit " ...") ;;;
      rc <- cmd_install fuel [arg] ;;
      if negb (rc =? 0) then ret 1 else upgrade_args fuel args'
  end.

Definition cmd_upgrade (fuel : nat) (argv : list (list Z)) : M host Z :=
  match argv with
  | [] => log_info (lit "Upgrading all installed packages ...") ;;; db_pkg_list true
  | _ => upgrade_args fuel argv
  end.

Fixpoint search_loop (fuel : nat) (s query : list Z) (found : Z) : M host Z :=
  match fuel with
  | O => fault
  | S f =>
      match fgets_line_of 512 s with
      | None => ret found
      | Some (line, s') =>
          if contains query (cut0 line) then
            match columns line with
            | (Some n, Some v, Some d) => printf_out (row n v d) ;;; search_loop f s' query (found + 1)
            | _ => search_loop f s' query found
            end
          else search_loop f s' query found
      end
  end.

Definition cmd_search (argv : list (list Z)) : M host Z :=
  match argv with
  | [] => print_to 2 (lit "Usage: hbpkg search <query>" ++ [10]) ;;; ret 1
  | query :: _ =>
      fp <- fopen_read HBPKG_REPO_INDEX ;;
      match fp with
      | None => log_warn (lit "No package index found. Run 'hbpkg update' first.") ;;; ret 1
      | Some s =>
          print_header ;;;
          found <- search_loop (S (length s)) s query 0 ;;
          (if found =? 0 then log_info (lit "No packages matching '" ++ query ++ lit "'.") else ret tt) ;;;
          ret 0
      end
  end.

(** [rec.file_count] *)
Definition rec_file_count (rec : list Z) : Z :=
  nth 224 rec 0 + nth 225 rec 0 * 256 + nth 226 rec 0 * 65536 + nth 227 rec 0 * 16777216.

Definition cmd_info (argv : list (list Z)) : M host Z :=
  match argv with
  | [] => print_to 2 (lit "Usage: hbpkg info <name>" ++ [10]) ;;; ret 1
  | arg :: _ =>
      match sanitise_name arg HBPKG_NAME_LEN with
      | None => log_error (lit "Invalid name: " ++ arg) ;;; ret 1
      | Some safe =>
          r <- db_pkg_get safe ;;
          let '(rc, rec) := r in
          if negb (rc =? 0) then log_warn (lit "Package '" ++ safe ++ lit "' is not installed.") ;;; ret 1
          else
            n <- of_option (str_in rec 0) ;; v <- of_option (str_in rec 64) ;; d <- of_option (str_in rec 96) ;;
            ds <- of_option (str_in rec 128) ;; t <- of_option (str_in rec 192) ;; c <- of_option (str_in rec 228) ;;
            printf_out (lit "Name:         " ++ n ++ [10]) ;;;
            printf_out (lit "Version:      " ++ v ++ [10]) ;;;
            printf_out (lit "Description:  " ++ d ++ [10]) ;;;
            printf_out (lit "Dependencies: " ++ (match ds with [] => lit "(none)" | _ => ds end) ++ [10]) ;;;
            printf_out (lit "Installed:    " ++ t ++ [10]) ;;;
            printf_out (lit "Files:        " ++ dec_text (rec_file_count rec) ++ [10]) ;;;
            printf_out (lit "Checksum:     " ++ c ++ [10]) ;;;
            ret 0
      end
  end.

Definition cmd_list (argv : list (list Z)) : M host Z :=
  db_pkg_list (existsb (λ a, streq a (lit "--installed")) argv).

Fixpoint build_files (stage : path) (fs : list path) : M host unit :=
  match fs with
  | [] => ret tt
  | f :: fs' =>
      let dest := clip PATH_MAX (stage ++ lit "/HBPKG/files/" ++ f) in
      system (clip 512 (lit "mkdir -p " ++ [34] ++ lit "$(dirname '" ++ dest ++ lit "')" ++ [34])) ;;;
      system (clip 512 (lit "cp '" ++ f ++ lit "' '" ++ dest ++ lit "'")) ;;;
      build_files stage fs'
  end.

Definition cmd_build (argv : list (list Z)) : M host Z :=
  match argv with
  | [] => print_to 2 (lit "Usage: hbpkg build <spec.toml>" ++ [10]) ;;; ret 1
  | spec :: _ =>
      r <- read_meta spec ;;
      let '(rc, meta) := r in
      if negb (rc =? 0) then log_error (lit "Cannot parse spec: " ++ spec) ;;; ret 1
      else
        match sanitise_name (m_name meta) HBPKG_NAME_LEN with
        | None => log_error (lit "Invalid package name in spec: " ++ m_name meta) ;;; ret 1
        | Some safe_name =>
            let out_name := clip PATH_MAX (safe_name ++ lit "-" ++ m_version meta ++ lit ".hbp") in
            log_info (lit "Building " ++ out_name ++ lit " ...") ;;;
            let stage := clip PATH_MAX (lit "/tmp/hbpkg_build_" ++ safe_name) in
            system (clip 512 (lit "rm -rf '" ++ stage ++ lit "' && mkdir -p '" ++ stage ++ lit "/HBPKG/files'")) ;;;
            system (clip 512 (lit "cp '" ++ spec ++ lit "' '" ++ stage ++ lit "/HBPKG/meta.toml'")) ;;;
            build_files stage (m_files meta) ;;;
            rc <- system (clip 512 (lit "tar -czf '" ++ out_name ++ lit "' -C '" ++ stage ++ lit "' HBPKG")) ;;
            if negb (rc =? 0) then log_error (lit "tar failed (exit " ++ dec_int rc ++ lit ")") ;;; ret 1
            else
              system (clip 512 (lit "rm -rf '" ++ stage ++ lit "'")) ;;;
              log_info (lit "Built: " ++ out_name) ;;;
              ret 0
        end
  end.

Fixpoint audit_loop (fuel : nat) (s : list Z) (total ok fail : Z) : M host (Z * Z * Z) :=
  match fuel with
  | O => fault
  | S f =>
      match fread_rec s with
      | None => ret (total, ok, fail)
      | Some (rec, s') =>
          let total := total + 1 in
          if negb (List.hd 0 rec =? 0) then audit_loop f s' total (ok + 1) fail
          else
            log_warn (lit "  Corrupt record at index " ++ dec_int total) ;;;
            audit_loop f s' total ok (fail + 1)
      end
  end.

Definition cmd_audit : M host Z :=
  log_info (lit "Auditing installed packages ...") ;;;
  fp <- fopen_read HBPKG_DB_PATH ;;
  match fp with
  | None => log_warn (lit "No package database found.") ;;; ret 0
  | Some s =>
      r <- audit_loop (S (length s)) s 0 0 0 ;;
      let '(total, ok, fail) := r in
      log_info (lit "Audit complete: " ++ dec_int total ++ lit " packages, " ++ dec_int ok ++
                lit " OK, " ++ dec_int fail ++ lit " suspect.") ;;;
      ret (if 0 <? fail then 1 else 0)
  end.

Definition cmd_help : M host unit :=
  printf_out (lit "hbpkg v1.0.0 — Mellivora OS Package Manager" ++ [10; 10]) ;;;
  printf_out (lit "Usage: hbpkg <command> [args]" ++ [10; 10]) ;;;
  printf_out (lit "Commands:" ++ [10]) ;;;
  printf_out (lit "  install <name[@ver]>  Install a package (+ dependencies)" ++ [10]) ;;;
  printf_out (lit "  remove  <name>        Uninstall a package" ++ [10]) ;;;
  printf_out (lit "  update                Refresh the package repository index" ++ [10]) ;;;
  printf_out (lit "  upgrade [name]        Upgrade all (or specific) packages" ++ [10]) ;;;
  printf_out (lit "  search  <query>       Search available packages" ++ [10]) ;;;
  printf_out (lit "  info    <name>        Show installed package details" ++ [10]) ;;;
  printf_out (lit "  list    [--installed] List available or installed packages" ++ [10]) ;;;
  printf_out (lit "  build   <spec.toml>   Build a .hbp package from a spec file" ++ [10]) ;;;
  printf_out (lit "  audit                 Verify installed package integrity" ++ [10]) ;;;
  printf_out (lit "  help                  Show this help text" ++ [10; 10]) ;;;
  printf_out (lit "Package DB:     " ++ HBPKG_DB_PATH ++ [10]) ;;;
  printf_out (lit "Package cache:  " ++ HBPKG_CACHE_DIR ++ [10]) ;;;
  printf_out (lit "Repository:     " ++ HBPKG_REPO_URL ++ [10]).

(** [argv] without the program's name. *)
Definition hbpkg_main (fuel : nat) (argv : list (list Z)) : M host Z :=
  match argv with
  | [] => cmd_help ;;; ret 0
  | cmd :: args =>
      if streq cmd (lit "install") then cmd_install fuel args
      else if streq cmd (lit "remove") then cmd_remove args
      else if streq cmd (lit "update") then cmd_update
      else if streq cmd (lit "upgrade") then cmd_upgrade fuel args
      else if streq cmd (lit "search") then cmd_search args
      else if streq cmd (lit "info") then cmd_info args
      else if streq cmd (lit "list") then cmd_list args
      else if streq cmd (lit "build") then cmd_build args
      else if streq cmd (lit "audit") then cmd_audit
      else if streq cmd (lit "help") then cmd_help ;;; ret 0
      else
        print_to 2 (lit "hbpkg: unknown command '" ++ cmd ++ lit "' (try 'hbpkg help')" ++ [10]) ;;; ret 1
  end.

End commands.
