(* ===== verification/PkgSpec.v ===== *)
(** * What the package manager's commands guarantee

    Theorems about [PkgCmd]: which names and paths reach the shell, that an
    installation ends when the dependencies are well-founded and, on a host that
    stores what it is given, registers the package, and that it never ends on a
    dependency cycle. *)

From S2P Require Import Prelude CMem CString HostText PkgMeta PkgDb PkgCmd.

(** ** Names *)

Lemma sanitise_loop_spec k s out :
  sanitise_loop k s = Some out ↔ out = take k s ∧ Forall (λ c, allowed c = true) out.
Proof.
  revert s out. induction k as [|k IH]; intros [|c s] out; simpl;
    try (split; [intros; simplify_eq; split; [done|constructor]|intros [-> _]; done]).
  destruct (allowed c) eqn:E; simpl.
  - split.
    + intros (r&Hr&?)%bind_Some. simplify_eq. apply IH in Hr as [-> Hr]. split; [done|by constructor].
    + intros [-> Hf]. inversion Hf; subst. rewrite (proj2 (IH s (take k s))) by done. done.
  - split; [done|]. intros [-> Hf]. inversion Hf; congruence.
Qed.

(** [sanitise_name] accepts a name exactly when its first [max - 1] characters,
    at least one, are letters, digits, dots, dashes and underscores, and returns
    those characters: nothing the shell or a path treats specially passes. *)
Theorem sanitise_name_spec (s : list Z) (max : nat) (out : list Z) :
  sanitise_name s max = Some out ↔
  (2 ≤ max)%nat ∧ out = take (max - 1) s ∧ out ≠ [] ∧
  Forall (λ c, is_alnum c = true ∨ c ∈ lit ".-_") out.
Proof.
  assert (∀ c, allowed c = true ↔ is_alnum c = true ∨ c ∈ lit ".-_") as Ha.
  { intros c. unfold allowed. change (lit ".-_") with [46; 45; 95].
    rewrite !orb_true_iff, !Z.eqb_eq, !elem_of_cons. pose proof (not_elem_of_nil c). tauto. }
  unfold sanitise_name. destruct (Nat.ltb_spec max 2); [split; [done|lia]|].
  rewrite <- (Forall_iff _ _ _ Ha). split.
  - intros (o&Ho&E)%bind_Some. apply sanitise_loop_spec in Ho as [-> Ho].
    destruct (take (max - 1) s) eqn:Et; [done|]. simplify_eq. split_and!; (done || lia).
  - intros (_&->&Hne&Hf). rewrite (proj2 (sanitise_loop_spec (max - 1) s (take (max - 1) s))) by done.
    simpl. by destruct (take (max - 1) s).
Qed.

(** ** Files *)

Section files_.
Context `{HostOps}.
Implicit Types (st : host) (dir f : path).

Lemma system_eq cmd st :
  system cmd st = Some ((run_shell cmd (h_files st)).1,
    Host (run_shell cmd (h_files st)).2 (h_cmds st ++ [cmd]) (h_out st)).
Proof. unfold system. by destruct (run_shell cmd (h_files st)). Qed.

(** The commands that install one file. *)
Definition file_cmds dir f : list (list Z) :=
  [mkdir_cmd (dst_path f); cp_cmd (src_path dir f) (dst_path f)].

Lemma install_files_run dir fs st :
  ∃ r st' n, install_files dir fs st = Some (r, st') ∧
    h_cmds st' = h_cmds st ++ concat (map (file_cmds dir) (take n fs)) ∧
    Forall (λ f, clean_path f = true) (take n fs) ∧
    (r = 0 ∧ (length fs ≤ n)%nat ∨ r = -1 ∧ (n ≤ length fs)%nat).
Proof.
  revert st. induction fs as [|f fs IH]; intros st; simpl.
  { exists 0, st, 0%nat. rewrite app_nil_r. split_and!; [done..|by left]. }
  destruct (clean_path f) eqn:Ec; simpl.
  2: { eexists (-1), _, 0%nat. split; [reflexivity|]. simpl. rewrite app_nil_r. split_and!; [done..|]. right. lia. }
  unfold bindM at 1. rewrite system_eq, some_bind. cbn [fst snd].
  unfold bindM at 1. rewrite system_eq, some_bind. cbn [fst snd h_files h_cmds h_out].
  destruct (_ =? 0); cbn [negb].
  - edestruct IH as (r&st'&n&->&Hc&Hf&Hr). exists r, st', (S n). split; [done|]. simpl.
    rewrite Hc. cbn [h_cmds]. rewrite <- !app_assoc. split_and!; [done|by constructor|]. destruct Hr; [left|right]; lia.
  - eexists (-1), _, 1%nat. split; [reflexivity|]. cbn [fst snd h_cmds take].
    split_and!; [by rewrite <- app_assoc|by repeat constructor|]. right. simpl. lia.
Qed.
End files_.

(** [C39] Installing the files of a package runs, for the files in order, the two
    commands of each file and no other, and only for paths that are relative and
    contain no [..]; it answers 0 exactly when it went through all of them, so a
    package with a traversing path is refused and nothing after that path is
    copied. *)
Theorem install_files_safe `{HostOps} (dir : path) (fs : list path) (st : host) :
  ∃ r st' n, install_files dir fs st = Some (r, st') ∧
    h_cmds st' = h_cmds st ++ concat (map (file_cmds dir) (take n fs)) ∧
    (∀ f, f ∈ take n fs → List.hd 0 f ≠ 47 ∧ contains (lit "..") f = false) ∧
    (r = 0 ∨ r = -1) ∧ (r = 0 → take n fs = fs) ∧
    ((∃ f, f ∈ fs ∧ clean_path f = false) → r = -1).
Proof.
  destruct (install_files_run dir fs st) as (r&st'&n&E&Hc&Hf&Hr).
  rewrite Forall_forall in Hf. exists r, st', n. split_and!; try done.
  - intros f Hin%Hf. unfold clean_path in Hin. apply negb_true_iff, orb_false_iff in Hin as [H1 H2].
    split; [by apply Z.eqb_neq|done].
  - destruct Hr as [[-> _]|[-> _]]; auto.
  - intros ->. apply take_ge. lia.
  - intros (f&Hin&Hcf). destruct Hr as [[-> Hn]|[-> _]]; [|done].
    rewrite take_ge in Hf by done. rewrite Hf in Hcf by done. done.
Qed.

(** A quote in a listed path ends the shell's quoting: the check lets it through,
    and the command that is run then contains whatever follows it as commands of
    its own. *)
Theorem install_files_quoting `{HostOps} (st : host) :
  ∃ r st', install_files (lit "/tmp/x") [lit "a'; reboot; '"] st = Some (r, st') ∧
    lit "cp '/tmp/x/HBPKG/files/a'; reboot; '' '/a'; reboot; ''" ∈ h_cmds st'.
Proof.
  cbn [install_files]. change (clean_path (lit "a'; reboot; '")) with true. cbn [negb].
  unfold bindM at 1. rewrite system_eq, some_bind. cbn [fst snd].
  unfold bindM at 1. rewrite system_eq, some_bind. cbn [fst snd h_files h_cmds h_out].
  destruct (_ =? 0); cbn [negb]; eexists _, _; (split; [reflexivity|]); cbn [h_cmds fst snd];
    apply elem_of_app; right; apply list_elem_of_singleton; vm_compute; reflexivity.
Qed.

(** ** Installation *)

(** The package an argument of [cmd_install] names. *)
Definition arg_name (arg : list Z) : option (list Z) :=
  '(name, _) ← split_arg arg; sanitise_name name HBPKG_NAME_LEN.

(** *** Names read from a file are C strings *)

Lemma text_span P s : c_text s → c_text (span P s).1 ∧ c_text (span P s).2.
Proof. apply Forall_span. Qed.

Lemma text_unquote s : c_text s → c_text (unquote s).
Proof.
  intros Hs. unfold unquote. destruct s as [|c r]; [done|]. destruct (_ && _); [|done].
  inversion Hs as [|? ? _ Hr]; subst. clear -Hr. unfold c_text in *. rewrite Forall_forall in *.
  intros x Hx. apply Hr. destruct (exists_last (l := r)) as (r'&y&->); [intros ->; by apply not_elem_of_nil in Hx|].
  rewrite removelast_last in Hx. apply elem_of_app. by left.
Qed.

Lemma text_rtrim s : c_text s → c_text (rtrim s).
Proof.
  destruct s as [|c r]; [done|]. intros Hs. inversion Hs as [|? ? Hc Hr]; subst. constructor; [done|].
  apply Forall_rev. apply (text_span _ (rev r)). by apply Forall_rev.
Qed.

Lemma assign_key_text key val o o' :
  c_text val → c_text (m_name o) → assign_key key val o = Some o' → c_text (m_name o').
Proof.
  intros Hv Ho E. destruct o as [n v d a l ar ds fs]. unfold assign_key in E.
  destruct (streq key (lit "name")); [simplify_eq; by apply Forall_take|].
  do 5 (destruct (streq key _); [by simplify_eq|]).
  destruct (_ || _); [by apply bind_Some in E as (?&_&?); simplify_eq|].
  destruct (streq key _); [by apply bind_Some in E as (?&_&?); simplify_eq|by simplify_eq].
Qed.

Lemma toml_line_text buf o o' : c_text (m_name o) → toml_line buf o = Some o' → c_text (m_name o').
Proof.
  intros Ho. unfold toml_line.
  assert (c_text (before (λ c, (c =? 13) || (c =? 10)) (cut0 buf))) as Hl by (apply text_span, cut0_text).
  destruct (before _ _) as [|c line]; [congruence|]. destruct (c =? 35); [congruence|].
  destruct (strchr_split 61 (c :: line)) as [[key val]|] eqn:E; [|congruence].
  apply assign_key_text; [|done]. apply text_unquote, text_rtrim, text_span.
  unfold strchr_split, from in E. pose proof (text_span (λ x, negb (61 =? x)) _ Hl) as [_ H2].
  destruct (span _ (c :: line)).2 as [|x r]; [done|]. simplify_eq. by inversion H2.
Qed.

Lemma toml_lines_text f s o o' : c_text (m_name o) → toml_lines f s o = Some o' → c_text (m_name o').
Proof.
  revert s o. induction f as [|f IH]; intros s o Ho E; [done|]. cbn [toml_lines] in E.
  destruct (fgets_line_of 512 s) as [[buf rest]|]; [|congruence].
  apply bind_Some in E as (o1&E1&E2). eapply IH; [|done]. by eapply toml_line_text.
Qed.

Lemma meta_parse_text fp r o e :
  meta_parse_toml fp empty_meta = Some (r, o, e) → c_text (m_name o).
Proof.
  unfold meta_parse_toml. destruct fp as [s|]; [|intros [= <- <- <-]; constructor].
  intros (o1&E1&E2)%bind_Some. apply toml_lines_text in E1; [|constructor].
  destruct (m_name o1) eqn:En; [|destruct (m_version o1)]; simplify_eq; by rewrite En.
Qed.

(** Take a run of a chain apart at its binds and tests. *)
Ltac run_inv :=
  repeat match goal with
  | E : bindM _ _ _ = Some _ |- _ => apply bind_inv_some in E as (?&?&?&E)
  | E : (if ?b then _ else _) _ = Some _ |- _ => destruct b eqn:?
  | E : (let '(_, _) := ?x in _) _ = Some _ |- _ => destruct x as [? ?]
  | E : ret _ _ = Some _ |- _ => unfold ret in E; simplify_eq
  end.

Lemma read_meta_text `{HostOps} p st r meta st' :
  read_meta p st = Some ((r, meta), st') → c_text (m_name meta).
Proof.
  unfold read_meta. intros (fp&st1&_&E)%bind_inv_some.
  apply bind_inv_some in E as ([[rc m] err]&st2&E1&E2).
  assert (c_text (m_name m)) as Hm.
  { unfold of_option in E1. apply bind_Some in E1 as (x&E1&?). simplify_eq. by eapply meta_parse_text. }
  destruct err as [[]|]; run_inv; done.
Qed.

Lemma fetch_text `{HostOps} name st meta st' : fetch name st = Some (Some meta, st') → c_text (m_name meta).
Proof.
  unfold fetch. intros E. run_inv; by eapply read_meta_text.
Qed.

(** *** Databases of whole records *)

Lemma concat_inj (n : nat) (xs ys : list (list Z)) :
  (0 < n)%nat → Forall (λ x, length x = n) xs → Forall (λ x, length x = n) ys →
  concat xs = concat ys → xs = ys.
Proof.
  intros Hn Hxs. revert ys. induction Hxs as [|x xs Hx _ IH]; intros ys Hys E.
  - destruct Hys as [|y ys Hy _]; [done|]. cbn in E. symmetry in E.
    apply app_nil in E as [-> _]. simpl in Hy. lia.
  - destruct Hys as [|y ys Hy Hys]; cbn in E.
    + apply app_nil in E as [-> _]. simpl in Hx. lia.
    + apply app_inj_1 in E as [-> E]; [|congruence]. f_equal. by apply IH.
Qed.

Lemma find_last (P : list Z → bool) (l : list (list Z)) x :
  P x = true → ∃ r, List.find P (l ++ [x]) = Some r.
Proof.
  intros Hx. induction l as [|y l IH]; simpl; [rewrite Hx; by eexists|].
  destruct (P y); [by eexists|exact IH].
Qed.

(** The start of a new record. *)
Lemma make_record_named `{HostOps} meta :
  c_text (m_name meta) → length (make_record meta) = HBPKG_REC_SIZE ∧
  named (clip 64 (m_name meta)) (make_record meta) = true.
Proof.
  intros Hn. split.
  - unfold make_record. by rewrite !length_app, !length_field.
  - apply bool_decide_eq_true. apply (str_in_field [] 64); [by apply Forall_take|apply clip_length; lia|done].
Qed.

Section install.
Context `{HostOps}.

(** What holds of the files throughout: the database is made of whole records, no
    shell command breaks that, and neither does the tool's own update. *)
Context (Inv : files → Prop).

Record inv_laws : Prop := {
  inv_db : ∀ fs, Inv fs → ∃ recs, default [] (fs !! HBPKG_DB_PATH) = concat recs ∧ Forall rec_ok recs;
  inv_shell : ∀ cmd fs, Inv fs → Inv (run_shell cmd fs).2;
  inv_add : ∀ meta fs, Inv fs → Inv (added fs meta);
}.

Context (laws : inv_laws).

(** A computation that from every such state ends in such a state, or, when
    [partial], may also run out of fuel. *)
Definition keeps_inv (partial : bool) {A} (m : M host A) : Prop :=
  ∀ st, Inv (h_files st) → match m st with Some (_, st') => Inv (h_files st') | None => partial = true end.

Context (partial : bool).
Abbreviation ok := (keeps_inv partial).
#[local] Set Default Proof Using "Type".

Lemma ok_ret {A} (a : A) : ok (ret a).
Proof. intros st Hst. done. Qed.

Lemma ok_bind {A B} (m : M host A) (k : A → M host B) : ok m → (∀ a, ok (k a)) → ok (bindM m k).
Proof.
  intros Hm Hk st Hst. specialize (Hm st Hst). unfold bindM.
  destruct (m st) as [[a st1]|]; simpl; [by apply Hk|done].
Qed.

Lemma ok_print fd t : ok (print_to fd t).
Proof. intros st Hst. done. Qed.

Lemma ok_exists p : ok (exists_file p).
Proof. intros st Hst. done. Qed.

Lemma ok_fopen p : ok (fopen_read p).
Proof. intros st Hst. done. Qed.

Lemma ok_lift {A} (o : option A) : is_Some o → ok (of_option o).
Proof. intros [a ->] st Hst. done. Qed.

Lemma ok_system cmd : ok (system cmd).
Proof using laws. intros st Hst. rewrite system_eq. by apply inv_shell. Qed.

Lemma inv_view st : Inv (h_files st) → ∃ recs, db_view st recs.
Proof using laws. apply inv_db, laws. Qed.

Lemma ok_get name : ok (db_pkg_get name).
Proof using laws.
  intros st Hst. destruct (inv_view st Hst) as [recs Hv]. by rewrite (db_get_view st recs name Hv).
Qed.

Lemma ok_add meta : ok (db_pkg_add meta).
Proof using laws.
  unfold db_pkg_add. apply ok_bind; [apply ok_ret|intros _].
  intros st Hst. unfold bindM, get_files. rewrite some_bind. cbn [fst snd].
  destruct (negb _); [done|]. by apply inv_add.
Qed.

(** Step through a computation of these parts. *)
Ltac ok_step :=
  first [ apply ok_ret | apply ok_print | apply ok_exists | apply ok_fopen
        | apply ok_system | apply ok_get | apply ok_add
        | apply ok_bind; [|intros ?]
        | match goal with
          | |- keeps_inv _ (if ?b then _ else _) => destruct b
          | |- keeps_inv _ (match ?x with _ => _ end) => destruct x
          end ].
Ltac ok_auto := unfold log_info, log_warn, log_error; repeat ok_step.

Lemma ok_installed name : ok (db_pkg_installed name).
Proof using laws. unfold db_pkg_installed. ok_auto. Qed.

Lemma ok_read_meta p : ok (read_meta p).
Proof using Type.
  unfold read_meta. apply ok_bind; [apply ok_fopen|intros fp].
  apply ok_bind.
  - apply ok_lift. destruct fp as [s|]; [|by eexists].
    destruct (toml_lines_total (S (length s)) s empty_meta) as (o&E&_); [lia| |].
    { unfold meta_fits, bounded. simpl. split_and!; try lia; constructor. }
    unfold meta_parse_toml. rewrite E, some_bind. by destruct (m_name o), (m_version o); eexists.
  - intros [[rc meta] err]. ok_auto.
Qed.

Lemma ok_fetch name : ok (fetch name).
Proof using laws.
  unfold fetch, download, extract_hbp, log_info, log_warn, log_error.
  repeat first [apply ok_read_meta | ok_step].
Qed.

Lemma ok_files dir fs : ok (install_files dir fs).
Proof using laws. induction fs as [|f fs IH]; simpl; ok_auto. exact IH. Qed.

Lemma ok_script dir phase : ok (run_install_script dir phase).
Proof using laws. unfold run_install_script. ok_auto. Qed.

Lemma ok_deps install deps : (∀ d, d ∈ deps → ok (install [d])) → ok (install_deps install deps).
Proof using laws.
  intros Hd. induction deps as [|d deps IH]; simpl; [apply ok_ret|].
  apply ok_bind; [apply ok_installed|intros have]. destruct have; [apply IH; set_solver|].
  apply ok_bind; [apply Hd; set_solver|intros rc]. ok_auto. apply IH. set_solver.
Qed.

Lemma ok_meta install name meta :
  (∀ d, d ∈ m_deps meta → ok (install [d])) → ok (install_meta install name meta).
Proof using laws.
  intros Hd. unfold install_meta. apply ok_bind; [destruct (m_deps meta); ok_auto|intros _].
  apply ok_bind; [by apply ok_deps|intros rc]. unfold log_info, log_error.
  repeat first [apply ok_script | apply ok_files | ok_step].
Qed.

(** One argument, given what the recursive calls do for the metadata it fetches. *)
Lemma ok_one install arg :
  (∀ name st meta st' d, arg_name arg = Some name → Inv (h_files st) →
     fetch name st = Some (Some meta, st') → d ∈ m_deps meta → ok (install [d])) →
  ok (install_one install arg).
Proof using laws.
  intros Hrec. unfold install_one. unfold arg_name in Hrec.
  destruct (split_arg arg) as [[nm ver]|]; [|ok_auto]. simpl in Hrec.
  destruct (sanitise_name nm HBPKG_NAME_LEN) as [name|]; [|ok_auto].
  apply ok_bind; [apply ok_installed|intros have]. destruct have; [ok_auto|].
  apply ok_bind; [apply ok_print|intros _]. intros st Hst.
  pose proof (ok_fetch name st Hst) as Hf. unfold bindM at 1.
  destruct (fetch name st) as [[m st1]|] eqn:E1; [|done]. cbn [fst snd mbind option_bind].
  destruct m as [meta|]; [|done]. apply ok_meta; [|done]. intros d Hd. by apply (Hrec name st meta st1 d).
Qed.

Lemma ok_args install args :
  (∀ a, a ∈ args → ok (install_one install a)) → ok (install_args install args).
Proof using laws.
  intros Ha. induction args as [|a args IH]; simpl; [apply ok_ret|].
  apply ok_bind; [apply Ha; set_solver|intros rc]. destruct (negb _); [apply ok_ret|apply IH; set_solver].
Qed.
End install.

(** A message does not change what is found. *)
Lemma print_get fd t name st : db_pkg_get name (Host (h_files st) (h_cmds st) (h_out st ++ [(fd, t)])) =
  (λ r, (r.1, Host (h_files st) (h_cmds st) (h_out st ++ [(fd, t)]))) <$> db_pkg_get name st.
Proof.
  unfold db_pkg_get, bindM, fopen_read, of_option. rewrite !some_bind. cbn [fst snd h_files].
  destruct (h_files st !! HBPKG_DB_PATH); [|done]. destruct (get_loop _ _ _) as [[r|]|]; done.
Qed.

Section install_end.
Context `{HostOps} (Inv : files → Prop) (laws : inv_laws Inv).
#[local] Set Default Proof Using "All".

(** Whatever the fuel, a run that ends leaves the invariant. *)
Lemma install_keeps fuel args : keeps_inv Inv true (cmd_install fuel args).
Proof.
  revert args. induction fuel as [|f IH]; intros args; [by intros st _|]. simpl.
  destruct args as [|a args]; [by intros st Hst|]. apply ok_args; [done|]. intros b _. apply ok_one; [done|]. intros. apply IH.
Qed.

(** The dependencies of a package are of lower rank than the package. *)
Definition ranked (rank : list Z → nat) : Prop :=
  ∀ name st meta st' d dep, Inv (h_files st) → fetch name st = Some (Some meta, st') →
    d ∈ m_deps meta → arg_name d = Some dep → (rank dep < rank name)%nat.

Lemma install_ends rank fuel args :
  ranked rank → (0 < fuel)%nat →
  (∀ a name, a ∈ args → arg_name a = Some name → (rank name + 2 ≤ fuel)%nat) →
  keeps_inv Inv false (cmd_install fuel args).
Proof.
  intros Hrank. revert args. induction fuel as [|f IH]; intros args Hf Hargs; [lia|]. simpl.
  destruct args as [|a0 args]; [by intros st Hst|]. apply ok_args; [done|]. intros a Ha.
  apply ok_one; [done|]. intros name st meta st' d Hname Hst E Hd.
  specialize (Hargs a name Ha Hname). apply IH; [lia|].
  intros a' dep ->%list_elem_of_singleton Hdep.
  pose proof (Hrank name st meta st' d dep Hst E Hd Hdep). lia.
Qed.

(** *** Registration *)

Lemma add_found meta st st' :
  host_stores → Inv (h_files st) → c_text (m_name meta) → db_pkg_add meta st = Some (0, st') →
  ∃ recs, db_view st' (recs ++ [make_record meta]).
Proof.
  intros Hs Hst Hn E. destruct (inv_view Inv laws st Hst) as (recs&Hv).
  pose proof (inv_add Inv laws meta (h_files st) Hst) as Hadd.
  destruct (may_write (h_files st) HBPKG_DB_PATH) eqn:Hw.
  2: { unfold db_pkg_add, db_ensure_dirs, bindM, get_files, ret in E. rewrite !some_bind in E.
       cbn [fst snd] in E. rewrite Hw in E. by run_inv. }
  rewrite (db_add_run st meta Hw) in E. injection E as <-. exists recs.
  apply (db_added_view st recs meta _ _ Hs Hv).
  destruct (make_record_named meta Hn) as [Hlen Hnm]. split; [done|].
  unfold named in Hnm. apply bool_decide_eq_true in Hnm. by eexists.
Qed.

(** A database that ends in the record of a package has one of its name. *)
Lemma record_found meta st recs :
  c_text (m_name meta) → db_view st (recs ++ [make_record meta]) →
  ∃ rec, db_pkg_get (clip 64 (m_name meta)) st = Some ((0, rec), st).
Proof using Type.
  intros Hn Hv. rewrite (db_get_view _ _ _ Hv). unfold find_rec.
  destruct (find_last _ recs _ (proj2 (make_record_named meta Hn))) as [r ->]. by eexists.
Qed.

Lemma meta_found install name meta st st' :
  host_stores → (∀ args, keeps_inv Inv true (install args)) → Inv (h_files st) → c_text (m_name meta) →
  install_meta install name meta st = Some (0, st') →
  ∃ recs, db_view st' (recs ++ [make_record meta]).
Proof.
  intros Hstores Hi Hst Hn E. unfold install_meta in E.
  assert (∀ A (m : M host A) s a s', keeps_inv Inv true m → Inv (h_files s) → m s = Some (a, s') → Inv (h_files s')) as K.
  { intros A m s a s' Hm Hs Es. specialize (Hm s Hs). by rewrite Es in Hm. }
  apply bind_inv_some in E as (?&s1&E1&E). apply K in E1; [|destruct (m_deps meta); [apply ok_ret|apply ok_print]|done].
  apply bind_inv_some in E as (?&s2&E2&E). apply K in E2; [|by apply ok_deps|done].
  destruct (negb _); [by unfold ret in E; simplify_eq|].
  apply bind_inv_some in E as (?&s3&E3&E). apply K in E3; [|by apply ok_script|done].
  apply bind_inv_some in E as (?&s4&E4&E). apply K in E4; [|by apply ok_files|done].
  destruct (negb _); [by run_inv|].
  apply bind_inv_some in E as (?&s5&E5&E). apply K in E5; [|by apply ok_script|done].
  apply bind_inv_some in E as (rc&s6&E6&E).
  destruct (Z.eqb_spec rc 0) as [->|]; cbn [negb] in E; [|by run_inv].
  destruct (add_found meta s5 s6 Hstores E5 Hn E6) as [recs Hrec].
  apply bind_inv_some in E as ([]&s7&E7&E). unfold ret in E. simplify_eq.
  unfold log_info, print_to in E7. simplify_eq. by exists recs.
Qed.
End install_end.

(** [C11] An installation ends, for every state of the host and every list of arguments,
    when the dependencies go down in some rank: fuel two above the ranks of the
    requested packages is enough, whatever the shell commands do to the other
    files, and the database is left with whole records. *)
Theorem install_terminates `{HostOps} (Inv : files → Prop) (rank : list Z → nat)
    (fuel : nat) (args : list (list Z)) (st : host) :
  inv_laws Inv → ranked Inv rank → Inv (h_files st) → (0 < fuel)%nat →
  (∀ a name, a ∈ args → arg_name a = Some name → (rank name + 2 ≤ fuel)%nat) →
  ∃ r st', cmd_install fuel args st = Some (r, st') ∧ Inv (h_files st').
Proof.
  intros Hl Hr Hst Hf Ha. pose proof (install_ends Inv Hl rank fuel args Hr Hf Ha st Hst) as E.
  destruct (cmd_install fuel args st) as [[r st']|]; [by exists r, st'|done].
Qed.

(** [C13] On a host that stores what it is given, when the installation of one
    package answers 0: either the database had a record of the name before and no
    file was changed; or it had none, the metadata were fetched under the name
    from the files as they were, [install_meta] went through for them, and the
    database it left ends in their record, so that the name they give is found.
    (Nothing of this holds of a host whose writes fail: the tool does not look.) *)
Theorem install_registers `{HostOps} (Inv : files → Prop) (fuel : nat) (arg : list Z) (st st' : host) :
  host_stores → inv_laws Inv → Inv (h_files st) → cmd_install fuel [arg] st = Some (0, st') →
  ∃ name, arg_name arg = Some name ∧
    ((∃ rec, db_pkg_get name st = Some ((0, rec), st) ∧ h_files st' = h_files st ∧
        db_pkg_get name st' = Some ((0, rec), st')) ∨
     ∃ meta s1 s2 recs rec,
       db_pkg_get name st = Some ((-1, []), st) ∧
       h_files s1 = h_files st ∧ h_cmds s1 = h_cmds st ∧
       fetch name s1 = Some (Some meta, s2) ∧
       install_meta (cmd_install (pred fuel)) name meta s2 = Some (0, st') ∧
       db_view st' (recs ++ [make_record meta]) ∧
       db_pkg_get (clip 64 (m_name meta)) st' = Some ((0, rec), st')).
Proof.
  intros Hs Hl Hst E. destruct fuel as [|f]; [done|]. cbn [cmd_install install_args] in E.
  apply bind_inv_some in E as (rc&s1&E1&E). destruct (Z.eqb_spec rc 0) as [->|]; [|by run_inv].
  cbn [negb] in E. unfold ret in E. simplify_eq. unfold install_one in E1. unfold arg_name.
  destruct (split_arg arg) as [[nm ver]|]; [|by run_inv]. simpl.
  destruct (sanitise_name nm HBPKG_NAME_LEN) as [name|]; [|by run_inv]. exists name. split; [done|].
  apply bind_inv_some in E1 as (have&s2&E2&E1). unfold db_pkg_installed in E2.
  apply bind_inv_some in E2 as ([rc rec]&s3&E3&E2). unfold ret in E2. simplify_eq. cbn [fst] in E1.
  destruct (inv_view Inv Hl st Hst) as [recs Hv]. pose proof (db_get_view st recs name Hv) as Eg.
  rewrite E3 in Eg. injection Eg as Er ->. unfold find_rec in Er.
  destruct (List.find (named name) recs) as [r|]; injection Er as -> ->.
  - left. cbn [Z.eqb] in E1. apply bind_inv_some in E1 as ([]&s4&E4&E1).
    unfold ret, log_info, print_to in *. simplify_eq. exists r. by rewrite print_get, E3.
  - right. change (-1 =? 0) with false in E1. cbv iota in E1. apply bind_inv_some in E1 as ([]&s4&E4&E1).
    assert (h_files s4 = h_files st ∧ h_cmds s4 = h_cmds st) as [H4 H4']
      by (unfold log_info, print_to in E4; by simplify_eq).
    apply bind_inv_some in E1 as (m&s5&E5&E1). destruct m as [meta|]; [|by run_inv].
    pose proof (ok_fetch Inv Hl true name s4 ltac:(by rewrite H4)) as H5. rewrite E5 in H5.
    pose proof (fetch_text _ _ _ _ E5) as Hn.
    destruct (meta_found Inv Hl (cmd_install f) name meta s5 st' Hs) as [recs' Hrec'];
      [intros; by apply install_keeps|done|done|done|].
    destruct (record_found meta st' recs' Hn Hrec') as [rec' Hr'].
    by exists meta, s4, s5, recs', rec'.
Qed.

(** [C40] A set of packages that are not installed, each of which has a member of the
    set as its first dependency, is never installed: the recursion of
    [cmd_install] does not end, whatever the fuel.  The package being installed is
    not in the database yet when its dependencies are looked up, and
    [topo_sort], which detects cycles, is not called. *)
Theorem install_cycle_never_ends `{HostOps} (F : files) (pkgs : list (list Z))
    (fuel : nat) (arg name : list Z) (st : host) :
  (∀ n s, n ∈ pkgs → h_files s = F →
     db_pkg_installed n s = Some (false, s) ∧
     ∃ meta s' d ds dep, fetch n s = Some (Some meta, s') ∧ h_files s' = F ∧ m_deps meta = d :: ds ∧
       (∀ s, h_files s = F → db_pkg_installed d s = Some (false, s)) ∧
       arg_name d = Some dep ∧ dep ∈ pkgs) →
  arg_name arg = Some name → name ∈ pkgs → h_files st = F →
  cmd_install fuel [arg] st = None.
Proof.
  intros Hcyc. revert arg name st. induction fuel as [|f IH]; intros arg name st Hname Hin Hst; [done|].
  cbn [cmd_install install_args]. apply bind_none. unfold install_one. unfold arg_name in Hname. destruct (split_arg arg) as [[nm ver]|]; [|done]. simpl in Hname.
  rewrite Hname. destruct (Hcyc name st Hin Hst) as [Hni _].
  rewrite (bind_some _ _ _ _ _ Hni). erewrite bind_some by reflexivity.
  match goal with |- bindM _ _ ?s = _ => destruct (Hcyc name s Hin Hst) as (_&meta&s'&d&ds&dep&Ef&Hs'&Hd&Hdi&Hdn&Hdp) end.
  rewrite (bind_some _ _ _ _ _ Ef). unfold install_meta. rewrite Hd. erewrite bind_some by reflexivity. cbn [install_deps].
  match goal with |- bindM _ _ ?s = _ => assert (h_files s = F) as Hs by done; set (s1 := s) in * end.
  apply bind_none. rewrite (bind_some _ _ _ _ _ (Hdi s1 Hs)). apply bind_none. by apply (IH d dep).
Qed.

(** ** A repository to run on *)

Definition tiny (name : string) (deps : list (list Z)) : pkg_meta_t :=
  PkgMeta (lit name) (lit "1.0") [] [] [] [] deps [lit "bin/x"].

(** Two packages in the cache with their metadata extracted. *)
Definition repo (a b : pkg_meta_t) : files :=
  {[ hbp_path_of (m_name a) := []; hbp_path_of (m_name b) := [];
     meta_path_of (m_name a) := meta_text a; meta_path_of (m_name b) := meta_text b ]}.

Definition chain : files := repo (tiny "a" [lit "b"]) (tiny "b" []).
Definition cycle : files := repo (tiny "a" [lit "b"]) (tiny "b" [lit "a"]).

Lemma read_meta_eq `{HostOps} p s :
  ∃ s', h_files s' = h_files s ∧
    read_meta p s =
    match meta_parse_toml (h_files s !! p) empty_meta with
    | Some (rc, meta, _) => Some ((rc, meta), s')
    | None => None
    end.
Proof.
  unfold read_meta, fopen_read. erewrite bind_some by reflexivity. unfold of_option.
  destruct (meta_parse_toml (h_files s !! p) empty_meta) as [[[rc meta] err]|].
  - erewrite bind_some by reflexivity. cbv beta iota.
    destruct err as [[]|]; eexists; (split; [|reflexivity]); done.
  - by exists s.
Qed.

(** What [fetch] does on the host whose commands all succeed without effect. *)
Lemma fetch_plain name s :
  ∃ s', h_files s' = h_files s ∧
    fetch (H := plain_host) name s =
    match meta_parse_toml (h_files s !! meta_path_of name) empty_meta with
    | Some (rc, meta, _) => Some (if rc =? 0 then Some meta else None, s')
    | None => None
    end.
Proof.
  unfold fetch.
  assert (∃ s1, download (H := plain_host) name s = Some (true, s1) ∧ h_files s1 = h_files s) as (s1&E1&H1).
  { unfold download. erewrite bind_some by reflexivity. case_bool_decide; eexists; (split; [reflexivity|done]). }
  rewrite (bind_some _ _ _ _ _ E1). cbn [negb].
  assert (∃ s2, extract_hbp (H := plain_host) (hbp_path_of name) (extract_dir_of name) s1 = Some (0, s2) ∧
    h_files s2 = h_files s) as (s2&E2&H2) by (eexists; split; [reflexivity|done]).
  rewrite (bind_some _ _ _ _ _ E2), <- H2. change (negb (0 =? 0)) with false. cbv iota.
  destruct (read_meta_eq (H := plain_host) (meta_path_of name) s2) as (s3&H3&E3).
  destruct (meta_parse_toml _ _) as [[[rc meta] err]|]; [|exists s2; split; [done|by apply bind_none]].
  rewrite (bind_some _ _ _ _ _ E3), <- H3. destruct (rc =? 0); cbn [negb].
  - erewrite bind_some by reflexivity. case_bool_decide; eexists; (split; [|reflexivity]); done.
  - eexists; (split; [|reflexivity]); done.
Qed.

Lemma installed_none s name :
  h_files s !! HBPKG_DB_PATH = None → db_pkg_installed name s = Some (false, s).
Proof. intros E. unfold db_pkg_installed, db_pkg_get, bindM, fopen_read. rewrite E. done. Qed.

Lemma parse_a : meta_parse_toml (cycle !! meta_path_of (lit "a")) empty_meta = Some (0, tiny "a" [lit "b"], None).
Proof. vm_compute. reflexivity. Qed.
Lemma parse_b : meta_parse_toml (cycle !! meta_path_of (lit "b")) empty_meta = Some (0, tiny "b" [lit "a"], None).
Proof. vm_compute. reflexivity. Qed.

Lemma cycle_no_db : cycle !! HBPKG_DB_PATH = None.
Proof. vm_compute. reflexivity. Qed.

Lemma install_cycle_never_ends_witness :
  cmd_install (H := plain_host) 1000 [lit "a"] (Host cycle [] []) = None.
Proof.
  apply (install_cycle_never_ends (H := plain_host) cycle [lit "a"; lit "b"] 1000 (lit "a") (lit "a")).
  - intros n s Hn Hs.
    assert (∀ m s, h_files s = cycle → db_pkg_installed m s = Some (false, s)) as Hdb
      by (intros m s' Hs'; apply installed_none; rewrite Hs'; exact cycle_no_db).
    split; [by apply Hdb|]. destruct (fetch_plain n s) as (s'&Hs'&E). rewrite Hs in *.
    rewrite !elem_of_cons in Hn. destruct Hn as [-> | [-> | Hn]]; [| |by apply not_elem_of_nil in Hn].
    + rewrite parse_a in E. exists (tiny "a" [lit "b"]), s', (lit "b"), [], (lit "b").
      do 2 (split; [assumption|]). split; [reflexivity|]. split; [apply Hdb|].
      split; [vm_compute; reflexivity|]. rewrite !elem_of_cons. auto.
    + rewrite parse_b in E. exists (tiny "b" [lit "a"]), s', (lit "a"), [], (lit "a").
      do 2 (split; [assumption|]). split; [reflexivity|]. split; [apply Hdb|].
      split; [vm_compute; reflexivity|]. rewrite !elem_of_cons. auto.
  - vm_compute. reflexivity.
  - rewrite !elem_of_cons. auto.
  - reflexivity.
Defined.

(** The files of [chain] with a database of whole records beside them. *)
Definition chain_inv (fs : files) : Prop :=
  (∃ recs, default [] (fs !! HBPKG_DB_PATH) = concat recs ∧ Forall rec_ok recs) ∧
  ∀ p, p ≠ HBPKG_DB_PATH → fs !! p = chain !! p.

Lemma make_record_whole `{HostOps} meta : rec_ok (make_record meta).
Proof.
  split; [unfold make_record; by rewrite !length_app, !length_field|].
  unfold rec_name, str_in. change (drop 0 ?l) with l.
  destruct (from (Z.eqb 0) (make_record meta)) eqn:E; [|by eexists].
  exfalso. unfold from in E. pose proof (span_spec (λ c, negb (0 =? c)) (make_record meta)) as Hs.
  destruct (span _ _) as [a b]. simpl in E. subst b. destruct Hs as (Ha&Hf&_). rewrite app_nil_r in Ha.
  rewrite <- Ha, Forall_forall in Hf. specialize (Hf 0).
  assert (0 ∈ make_record meta) as Hin.
  { unfold make_record. do 6 (apply elem_of_app; right). by left. }
  by apply Hf in Hin.
Qed.

Lemma chain_laws : inv_laws (H := plain_host) chain_inv.
Proof.
  split; [by intros fs []|done|]. intros meta fs [(recs&Hv&Hr) Hp]. split.
  - exists (recs ++ [make_record (H := plain_host) meta]). unfold added. rewrite lookup_insert_eq. split.
    + cbn [default persist plain_host]. rewrite Hv, concat_app. cbn [concat]. by rewrite app_nil_r.
    + apply Forall_app_2; [done|]. constructor; [apply make_record_whole|constructor].
  - intros p Hne. unfold added. rewrite lookup_insert_ne by done. by apply Hp.
Qed.

Definition chain_rank (name : list Z) : nat :=
  if bool_decide (meta_path_of name = meta_path_of (lit "a")) then 1%nat else 0%nat.

Lemma chain_parse p meta e :
  meta_parse_toml (chain !! p) empty_meta = Some (0, meta, e) →
  p = meta_path_of (lit "a") ∧ meta = tiny "a" [lit "b"] ∨ meta = tiny "b" [].
Proof.
  destruct (chain !! p) as [s|] eqn:E; [|done]. unfold chain, repo in E.
  apply lookup_insert_Some in E as [[_ <-]|[_ E]]; [done|].
  apply lookup_insert_Some in E as [[_ <-]|[_ E]]; [done|].
  apply lookup_insert_Some in E as [[<- <-]|[_ E]].
  - intros Hp. left. split; [done|]. vm_compute in Hp. injection Hp as <- <-. reflexivity.
  - apply lookup_singleton_Some in E as [_ <-]. intros Hp. right. vm_compute in Hp. injection Hp as <- <-. reflexivity.
Qed.

Lemma chain_ranked : ranked (H := plain_host) chain_inv chain_rank.
Proof.
  intros name st meta st' d dep [_ Hp] Ef Hd Hdep. destruct (fetch_plain name st) as (s'&_&E). rewrite E in Ef.
  assert (meta_path_of name ≠ HBPKG_DB_PATH) as Hne.
  { unfold meta_path_of, extract_dir_of, HBPKG_CACHE_DIR, HBPKG_DB_PATH. intros Hc.
    apply (f_equal (λ l, l !! 9%nat)) in Hc. by vm_compute in Hc. }
  rewrite (Hp _ Hne) in Ef.
  destruct (meta_parse_toml (chain !! meta_path_of name) empty_meta) as [[[rc m] e]|] eqn:Em; [|done].
  destruct (Z.eqb_spec rc 0) as [->|]; [|done]. simplify_eq.
  apply chain_parse in Em as [[Hpath ->] | ->]; [|by apply not_elem_of_nil in Hd].
  apply list_elem_of_singleton in Hd as ->. assert (dep = lit "b") as -> by (change (Some (lit "b") = Some dep) in Hdep; congruence).
  unfold chain_rank. rewrite Hpath. vm_compute. lia.
Qed.

Lemma chain_start : chain_inv chain.
Proof. split; [|done]. exists []. split; [vm_compute; reflexivity|constructor]. Qed.

Lemma install_terminates_witness :
  ∃ r st', cmd_install (H := plain_host) 3 [lit "a"] (Host chain [] []) = Some (r, st') ∧
    chain_inv (h_files st').
Proof.
  apply (install_terminates (H := plain_host) chain_inv chain_rank 3 [lit "a"] (Host chain [] [])).
  - exact chain_laws.
  - exact chain_ranked.
  - exact chain_start.
  - lia.
  - intros a name _ _. unfold chain_rank. case_bool_decide; lia.
Defined.

(** The package [b] of [chain] is registered by its first installation. *)
Lemma install_registers_witness :
  let st' := snd (default (0, Host ∅ [] []) (cmd_install (H := plain_host) 3 [lit "b"] (Host chain [] []))) in
  ∃ meta recs rec,
    db_view st' (recs ++ [make_record (H := plain_host) meta]) ∧
    db_pkg_get (clip 64 (m_name meta)) st' = Some ((0, rec), st').
Proof.
  cbv zeta. set (st' := snd _).
  destruct (install_registers (H := plain_host) chain_inv 3 (lit "b") (Host chain [] []) st')
    as (name & Hname & [(rec & Hrec & _)|(meta & s1 & s2 & recs & rec & _ & Hf & _ & E & _ & Hv & Hg)]).
  - exact plain_stores.
  - exact chain_laws.
  - exact chain_start.
  - vm_compute. reflexivity.
  - exfalso. unfold db_pkg_get, bindM, fopen_read in Hrec. cbn in Hrec. discriminate.
  - exists meta, recs, rec. by split.
Defined.
