(* ===== verification/Thread.v ===== *)
(** * Threads

    [c/rt/thread.c]: threads over the clone call, with the table that remembers
    the stack of each thread until it is joined.  The state is the table
    [stacks[8]], the memory, the kernel and the calls made so far with their
    answers.  The kernel is the class [ThreadKernel]; of its effects on memory the
    model has those the file relies on: a mapping appears filled with zeros, and an
    unmapped range is gone. *)

From S2P Require Import Prelude CMem.

Definition MV_THREAD_MAX_JOINABLE : nat := 8.
Definition MV_THREAD_STACK_SIZE : Z := 65536.
Definition MV_THREAD_CANCELED : Z := 1073741824.

Inductive tcall :=
  | T_MMAP (addr size prot : Z)
  | T_MUNMAP (addr size : Z)
  | T_CLONE (entry sp : Z)
  | T_WAITPID (id : Z)
  | T_THREAD_EXIT (status : Z)
  | T_YIELD
  | T_THREAD_DETACH (id : Z)
  | T_THREAD_SETPRIO (id prio : Z)
  | T_THREAD_CANCEL (id : Z)
  | T_TESTCANCEL.

Class ThreadKernel (K : Type) := { tk_call : tcall → K → Z * K }.

(** One entry of [stacks[]]. *)
Record slot := Slot { sl_id : Z; sl_stack : Z; sl_size : Z }.
Definition empty_slot : slot := Slot 0 0 0.

Section threads.
Context {K : Type} `{ThreadKernel K}.

Record threads := Threads {
  th_stacks : list slot;
  th_mem : mem;
  th_kern : K;
  th_calls : list (tcall * Z);
}.

(** The range [p .. p+n) taken out of the memory. *)
Definition unmap (m : mem) (p n : Z) : mem := filter (λ '(a, _), ¬ (p ≤ a < p + n)) m.

Definition map_effect (c : tcall) (r : Z) (m : mem) : mem :=
  match c with
  | T_MMAP _ size _ => if r <? 0 then m else write m r (replicate (Z.to_nat size) 0)
  | T_MUNMAP a size => if r =? 0 then unmap m a size else m
  | _ => m
  end.

Definition t_syscall (c : tcall) : M threads Z := λ s,
  let '(r, k) := tk_call c (th_kern s) in
  Some (i32 r, Threads (th_stacks s) (map_effect c (i32 r) (th_mem s)) k (th_calls s ++ [(c, i32 r)])).

(** [*p = v] for a 32-bit object. *)
Definition store32 (m : mem) (p v : Z) : option mem :=
  m ← store m p v; m ← store m (p + 1) (Z.shiftr v 8);
  m ← store m (p + 2) (Z.shiftr v 16); store m (p + 3) (Z.shiftr v 24).
Definition poke32 (p v : Z) : M threads unit := λ s,
  m ← store32 (th_mem s) p v; Some (tt, Threads (th_stacks s) m (th_kern s) (th_calls s)).

Definition get_stacks : M threads (list slot) := λ s, Some (th_stacks s, s).
Definition set_stacks (l : list slot) : M threads unit := λ s,
  Some (tt, Threads l (th_mem s) (th_kern s) (th_calls s)).

(** ** The table *)

Fixpoint remember_in (id stack size : Z) (l : list slot) : option (list slot) :=
  match l with
  | [] => None
  | s :: l' =>
      if sl_stack s =? 0 then Some (Slot id stack size :: l')
      else l'' ← remember_in id stack size l'; Some (s :: l'')
  end.

Definition remember_stack (id stack size : Z) : M threads Z :=
  l <- get_stacks ;;
  match remember_in id stack size l with
  | Some l' => set_stacks l' ;;; ret 0
  | None => ret (-1)
  end.

(** The entry of [id], emptied: its stack and size, [(0, 0)] without one. *)
Fixpoint forget_in (id : Z) (l : list slot) : Z * Z * list slot :=
  match l with
  | [] => (0, 0, [])
  | s :: l' =>
      if negb (sl_stack s =? 0) && (sl_id s =? id) then (sl_stack s, sl_size s, Slot 0 0 (sl_size s) :: l')
      else let '(a, n, l'') := forget_in id l' in (a, n, s :: l'')
  end.

Definition forget_stack (id : Z) : M threads (Z * Z) :=
  l <- get_stacks ;;
  let '(a, n, l') := forget_in id l in
  set_stacks l' ;;; ret (a, n).

(** ** The calls *)

(** The address of [mv_thread_exit_thunk]. *)
Context (thunk : Z).

Definition mv_thread_create (id fn arg : Z) : M threads Z :=
  if (id =? 0) || (fn =? 0) then ret (-1)
  else
    stack <- t_syscall (T_MMAP 0 MV_THREAD_STACK_SIZE 3) ;;
    if stack <? 0 then ret (-1)
    else
      let sp := stack + MV_THREAD_STACK_SIZE - 4 in
      poke32 sp arg ;;;
      let sp := sp - 4 in
      poke32 sp thunk ;;;
      tid <- t_syscall (T_CLONE fn sp) ;;
      if tid <=? 0 then
        t_syscall (T_MUNMAP stack MV_THREAD_STACK_SIZE) ;;; ret (-1)
      else
        remember_stack tid stack MV_THREAD_STACK_SIZE ;;;
        poke32 id tid ;;;
        ret 0.

Definition mv_thread_join (id status : Z) : M threads Z :=
  r <- t_syscall (T_WAITPID id) ;;
  if r <? 0 then ret (-1)
  else
    (if negb (status =? 0) then poke32 status r else ret tt) ;;;
    f <- forget_stack id ;;
    let '(stack, size) := f in
    (if negb (stack =? 0) then t_syscall (T_MUNMAP stack size) else ret 0) ;;;
    ret 0.

(** [None]: the thread has ended. *)
Definition mv_thread_exit (status : Z) : M threads (option Z) :=
  t_syscall (T_THREAD_EXIT status) ;;; ret None.

Definition mv_thread_yield : M threads Z := t_syscall T_YIELD.

Definition mv_thread_detach (id : Z) : M threads Z :=
  r <- t_syscall (T_THREAD_DETACH id) ;;
  if negb (r =? 0) then ret (-1)
  else forget_stack id ;;; ret 0.

Definition mv_thread_set_priority (id prio : Z) : M threads Z := t_syscall (T_THREAD_SETPRIO id prio).

Definition mv_thread_cancel (id : Z) : M threads Z :=
  r <- t_syscall (T_THREAD_CANCEL id) ;;
  if negb (r =? 0) then ret (-1) else ret 0.

Definition mv_thread_testcancel : M threads (option Z) :=
  r <- t_syscall T_TESTCANCEL ;;
  if negb (r =? 0) then mv_thread_exit MV_THREAD_CANCELED else ret (Some 0).

End threads.
Arguments threads K : clear implicits.

(** ** The mappings the program holds *)

(** What is mapped after a call, and after a sequence of calls. *)
Definition held_step (held : list Z) (e : tcall * Z) : list Z :=
  match e with
  | (T_MMAP _ _ _, r) => if r <? 0 then held else r :: held
  | (T_MUNMAP a _, _) => List.filter (λ b, negb (b =? a)) held
  | _ => held
  end.
Definition held_of (calls : list (tcall * Z)) : list Z := foldl held_step [] calls.

(** Every unmap is of a stack that is mapped then, whole. *)
Definition unmap_ok (held : list Z) (c : tcall) : Prop :=
  match c with T_MUNMAP a n => a ∈ held ∧ n = MV_THREAD_STACK_SIZE | _ => True end.
Fixpoint unmaps_held (held : list Z) (calls : list (tcall * Z)) : Prop :=
  match calls with
  | [] => True
  | e :: calls' => unmap_ok held e.1 ∧ unmaps_held (held_step held e) calls'
  end.

(** The stacks in the table. *)
Definition live (l : list slot) : list Z := List.filter (λ a, negb (a =? 0)) (map sl_stack l).
Definition whole (l : list slot) : Prop := Forall (λ s, sl_stack s ≠ 0 → sl_size s = MV_THREAD_STACK_SIZE) l.

Lemma unmaps_held_snoc held calls e :
  unmaps_held held (calls ++ [e]) ↔ unmaps_held held calls ∧ unmap_ok (foldl held_step held calls) e.1.
Proof.
  revert held. induction calls as [|x calls IH]; intros held; simpl; [tauto|]. rewrite IH. tauto.
Qed.

Lemma live_cons s l : live (s :: l) = if sl_stack s =? 0 then live l else sl_stack s :: live l.
Proof. unfold live. simpl. by destruct (sl_stack s =? 0). Qed.

Lemma remember_in_live id stack size l l' :
  stack ≠ 0 → remember_in id stack size l = Some l' → whole l → size = MV_THREAD_STACK_SIZE →
  live l' ≡ₚ stack :: live l ∧ whole l'.
Proof.
  intros Hs E Hw ->. revert l' E. induction Hw as [|s l Hsl Hl IH]; intros l' E; simpl in E; [done|].
  destruct (Z.eqb_spec (sl_stack s) 0) as [Hz|Hz].
  - simplify_eq. rewrite !live_cons. simpl. rewrite Hz. zb_simpl. split; [done|]. by constructor.
  - apply bind_Some in E as (l''&E&?). simplify_eq. destruct (IH _ E) as [Hp Hw'].
    rewrite !live_cons. zb_simpl. rewrite Hp. split; [by rewrite Permutation_swap|]. by constructor.
Qed.

Lemma forget_in_live id l a n l' :
  forget_in id l = (a, n, l') → whole l →
  whole l' ∧ (a = 0 ∧ live l' = live l ∨
              a ≠ 0 ∧ n = MV_THREAD_STACK_SIZE ∧ live l ≡ₚ a :: live l').
Proof.
  intros E Hw. revert a n l' E. induction Hw as [|s l Hsl Hl IH]; intros a n l' E; simpl in E.
  { simplify_eq. split; [constructor|by left]. }
  destruct (Z.eqb_spec (sl_stack s) 0) as [Hz|Hz]; simpl in E.
  2: destruct (sl_id s =? id); simpl in E.
  2: { simplify_eq. split; [by constructor|]. right. rewrite !live_cons. simpl. zb_simpl. auto. }
  all: destruct (forget_in id l) as [[a1 n1] l1]; simplify_eq;
    destruct (IH _ _ _ eq_refl) as [Hw' [[-> Hlv]|(Ha&->&Hlv)]]; (split; [by constructor|]); rewrite !live_cons.
  - left. by rewrite Hlv.
  - right. zb_simpl. auto.
  - left. by rewrite Hlv.
  - right. zb_simpl. split_and!; [done..|]. rewrite Hlv. apply Permutation_swap.
Qed.

Lemma elem_of_unheld a b held : b ∈ List.filter (λ b, negb (b =? a)) held ↔ b ∈ held ∧ b ≠ a.
Proof. rewrite !list_elem_of_In, filter_In, negb_true_iff, Z.eqb_neq. done. Qed.

Section invariant.
Context {K : Type} `{ThreadKernel K}.

(** What is relied on of the kernel: a mapping it makes is at a positive address
    that is not mapped already. *)
Record fresh_maps (P : K → list Z → Prop) : Prop := {
  fm_map k held a n p r k' :
    P k held → tk_call (T_MMAP a n p) k = (r, k') →
    (i32 r < 0 ∧ P k' held) ∨ (0 < i32 r ∧ ((i32 r) ∉ held) ∧ P k' (i32 r :: held));
  fm_other k held c r k' :
    P k held → tk_call c k = (r, k') → (∀ a n p, c ≠ T_MMAP a n p) → P k' (held_step held (c, i32 r));
}.

Context (P : K → list Z → Prop) (laws : fresh_maps P).

(** The table holds mapped stacks, each once, and every unmap so far was of a
    mapped stack; [extra] is a stack that is mapped but not in the table. *)
Definition stacks_inv (extra : list Z) (s : threads K) : Prop :=
  let held := held_of (th_calls s) in
  P (th_kern s) held ∧ unmaps_held [] (th_calls s) ∧ NoDup (extra ++ live (th_stacks s)) ∧
  (∀ a, a ∈ extra ++ live (th_stacks s) → a ∈ held ∧ 0 < a) ∧ whole (th_stacks s).

#[local] Set Default Proof Using "Type*".

(** A computation whose runs keep the invariant, in the style of a Hoare triple. *)
Definition triple {A} (pre : list Z) (m : M (threads K) A) (post : A → list Z) : Prop :=
  ∀ s a s', stacks_inv pre s → m s = Some (a, s') → stacks_inv (post a) s'.

Lemma triple_ret {A} pre (a : A) : triple pre (ret a) (λ _, pre).
Proof. intros s b s' Hs E. unfold ret in E. by simplify_eq. Qed.

Lemma triple_bind {A B} pre mid post (m : M (threads K) A) (k : A → M (threads K) B) :
  triple pre m mid → (∀ a, triple (mid a) (k a) post) → triple pre (bindM m k) post.
Proof.
  intros Hm Hk s b s' Hs E. apply bind_inv_some in E as (a&s1&E1&E2).
  eapply Hk; [|done]. by eapply Hm.
Qed.

(** Less is known to be mapped. *)
Lemma stacks_inv_weaken x pre s : stacks_inv (x :: pre) s → stacks_inv pre s.
Proof.
  intros (HP&Hu&Hn&Hh&Hw). split_and!; try done; [by inversion Hn|]. intros a Ha. apply Hh. by right.
Qed.

Lemma triple_other pre c :
  (∀ a n p, c ≠ T_MMAP a n p) → (∀ a n, c ≠ T_MUNMAP a n) → triple pre (t_syscall c) (λ _, pre).
Proof.
  intros Hc1 Hc2 s a s' (HP&Hu&Hn&Hh&Hw) E. unfold t_syscall in E.
  destruct (tk_call c (th_kern s)) as [r k] eqn:Ek. simplify_eq. unfold stacks_inv. simpl.
  unfold held_of. rewrite foldl_app. cbn [foldl].
  assert (∀ h, held_step h (c, i32 r) = h) as Hstep by (intros; destruct c; try done; exfalso; [by eapply Hc1|by eapply Hc2]).
  rewrite Hstep, unmaps_held_snoc. split_and!; try done.
  - pose proof (fm_other P laws _ _ _ _ _ HP Ek Hc1) as HP'. by rewrite Hstep in HP'.
  - destruct c; try done. exfalso. by eapply Hc2.
Qed.

Lemma triple_map pre n p :
  triple pre (t_syscall (T_MMAP 0 n p)) (λ r, if r <? 0 then pre else r :: pre).
Proof.
  intros s a s' (HP&Hu&Hn&Hh&Hw) E. unfold t_syscall in E.
  destruct (tk_call _ (th_kern s)) as [r k] eqn:Ek. simplify_eq. unfold stacks_inv. simpl.
  unfold held_of in *. rewrite foldl_app, unmaps_held_snoc. simpl.
  destruct (fm_map P laws _ _ _ _ _ _ _ HP Ek) as [[Hr HP']|(Hr&Hf&HP')]; zb_simpl; split_and!; try done.
  - simpl. constructor; [|done]. intros [Hin _]%Hh. done.
  - intros b [->|Hb]%elem_of_cons; [split; [by left|done]|split; [right|]; by apply Hh].
Qed.

Lemma triple_unmap pre a :
  triple (a :: pre) (t_syscall (T_MUNMAP a MV_THREAD_STACK_SIZE)) (λ _, pre).
Proof.
  intros s x s' (HP&Hu&Hn&Hh&Hw) E. unfold t_syscall in E.
  destruct (tk_call _ (th_kern s)) as [r k] eqn:Ek. simplify_eq. unfold stacks_inv. simpl.
  unfold held_of in *. rewrite foldl_app, unmaps_held_snoc. simpl.
  simpl in Hn. inversion Hn as [|? ? Hna Hn']; subst. split_and!; try done.
  - pose proof (fm_other P laws _ _ _ _ _ HP Ek) as HP'. apply HP'. done.
  - apply Hh. by left.
  - intros b Hb. destruct (Hh b) as [Hb1 Hb2]; [by right|]. split; [|done]. apply elem_of_unheld.
    split; [done|]. by intros ->.
Qed.

Lemma triple_poke pre p v : triple pre (poke32 p v) (λ _, pre).
Proof. intros s a s' Hs E. unfold poke32 in E. apply bind_Some in E as (m&_&?). by simplify_eq. Qed.

(** The stack enters the table, or is given up when the table is full. *)
Lemma triple_remember pre id stack :
  triple (stack :: pre) (remember_stack id stack MV_THREAD_STACK_SIZE) (λ _, pre).
Proof.
  intros s a s' Hs E.
  assert (stack ≠ 0) as Hz by (destruct Hs as (_&_&_&Hh&_); destruct (Hh stack); [by left|lia]).
  unfold remember_stack in E. apply bind_inv_some in E as (l&s1&E1&E).
  unfold get_stacks in E1. simplify_eq. destruct (remember_in _ _ _ _) as [l'|] eqn:Er.
  - unfold bindM, set_stacks, ret in E. rewrite some_bind in E. cbn [snd] in E. simplify_eq. destruct Hs as (HP&Hu&Hn&Hh&Hw).
    destruct (remember_in_live _ _ _ _ _ Hz Er Hw eq_refl) as [Hp Hw'].
    unfold stacks_inv. simpl. rewrite Hp.
    assert (pre ++ stack :: live (th_stacks s1) ≡ₚ (stack :: pre) ++ live (th_stacks s1)) as Hpp
      by (rewrite <- Permutation_middle; done).
    split_and!; try done; [by rewrite Hpp|]. intros b Hb. rewrite Hp, Hpp in Hb. by apply Hh.
  - unfold ret in E. simplify_eq. by apply stacks_inv_weaken in Hs.
Qed.

(** The stack leaves the table. *)
Lemma triple_forget pre id :
  triple pre (forget_stack id)
    (λ '(a, n), if a =? 0 then pre else if n =? MV_THREAD_STACK_SIZE then a :: pre else pre) ∧
  (∀ s a n s', stacks_inv pre s → forget_stack id s = Some ((a, n), s') → a ≠ 0 → n = MV_THREAD_STACK_SIZE).
Proof.
  assert (∀ s a n s', stacks_inv pre s → forget_stack id s = Some ((a, n), s') →
    (a ≠ 0 → n = MV_THREAD_STACK_SIZE) ∧ stacks_inv (if a =? 0 then pre else a :: pre) s') as Hf.
  { intros s a n s' (HP&Hu&Hn&Hh&Hw) E. unfold forget_stack in E. apply bind_inv_some in E as (l&s1&E1&E).
    unfold get_stacks in E1. simplify_eq. destruct (forget_in id (th_stacks s1)) as [[a1 n1] l1] eqn:Ef.
    unfold bindM, set_stacks, ret in E. rewrite some_bind in E. cbn [snd] in E. simplify_eq.
    destruct (forget_in_live _ _ _ _ _ Ef Hw) as [Hw' [[-> Hlv]|(Ha&->&Hlv)]].
    - split; [done|]. unfold stacks_inv. simpl. rewrite Hlv. split_and!; done.
    - split; [done|]. zb_simpl. unfold stacks_inv. simpl.
      assert ((a :: pre) ++ live l1 ≡ₚ pre ++ live (th_stacks s1)) as Hpp
        by (rewrite Hlv, <- Permutation_middle; done).
      split_and!; try done.
      + change (NoDup ((a :: pre) ++ live l1)). by rewrite Hpp.
      + intros b Hb. change (b ∈ (a :: pre) ++ live l1) in Hb. rewrite Hpp in Hb. by apply Hh. }
  split.
  - intros s [a n] s' Hs E. destruct (Hf _ _ _ _ Hs E) as [Hn Hi]. destruct (Z.eqb_spec a 0); [done|].
    rewrite Hn by done. done.
  - intros s a n s' Hs E. by destruct (Hf _ _ _ _ Hs E).
Qed.

Lemma triple_if {A} pre (b : bool) (m1 m2 : M (threads K) A) post :
  (b = true → triple pre m1 post) → (b = false → triple pre m2 post) → triple pre (if b then m1 else m2) post.
Proof. destruct b; auto. Qed.

Lemma triple_create thunk id fn arg : triple [] (mv_thread_create thunk id fn arg) (λ _, []).
Proof.
  unfold mv_thread_create. apply triple_if; intros ?; [apply triple_ret|].
  eapply triple_bind; [apply triple_map|]. intros stack. simpl.
  destruct (stack <? 0); [apply triple_ret|].
  eapply triple_bind; [apply triple_poke|intros ?; cbn beta]. eapply triple_bind; [apply triple_poke|intros ?; cbn beta].
  eapply triple_bind; [by apply triple_other|intros tid]. simpl.
  apply triple_if; intros ?.
  - eapply triple_bind; [apply triple_unmap|intros ?; cbn beta]. apply triple_ret.
  - eapply triple_bind; [apply triple_remember|intros ?; cbn beta].
    eapply triple_bind; [apply triple_poke|intros ?; cbn beta]. apply triple_ret.
Qed.

Lemma triple_join id status : triple [] (mv_thread_join id status) (λ _, []).
Proof.
  unfold mv_thread_join. eapply triple_bind; [by apply triple_other|intros r]. simpl.
  apply triple_if; intros ?; [apply triple_ret|].
  eapply (triple_bind _ (λ _, [])); [apply triple_if; intros ?; [apply triple_poke|apply triple_ret]|intros ?; cbn beta].
  intros s x s' Hs E. apply bind_inv_some in E as ([st0 n]&s1&E1&E).
  destruct (triple_forget [] id) as [Hf Hsz].
  pose proof (Hf _ _ _ Hs E1) as H1. simpl in H1. pose proof (Hsz _ _ _ _ Hs E1) as Hn.
  destruct (Z.eqb_spec st0 0) as [->|Ha]; cbn [negb] in E.
  - apply bind_inv_some in E as (y&s2&E2&E). unfold ret in *. by simplify_eq.
  - rewrite Hn in * by done. rewrite Z.eqb_refl in H1.
    apply bind_inv_some in E as (y&s2&E2&E). unfold ret in E. simplify_eq. by eapply triple_unmap.
Qed.

Lemma triple_detach id : triple [] (mv_thread_detach id) (λ _, []).
Proof.
  unfold mv_thread_detach. eapply triple_bind; [by apply triple_other|intros r]. simpl.
  apply triple_if; intros ?; [apply triple_ret|].
  intros s x s' Hs E. apply bind_inv_some in E as ([a n]&s1&E1&E). unfold ret in E. simplify_eq.
  destruct (triple_forget [] id) as [Hf Hsz]. pose proof (Hf _ _ _ Hs E1) as H1. simpl in H1.
  destruct (a =? 0); [done|]. destruct (n =? _); [by apply stacks_inv_weaken in H1|done].
Qed.
End invariant.

(** ** Programs *)

Inductive top :=
  | Create (id fn arg : Z)
  | Join (id status : Z)
  | Detach (id : Z)
  | SetPriority (id prio : Z)
  | Cancel (id : Z)
  | Yield.

Definition run_top {K} `{ThreadKernel K} (thunk : Z) (o : top) : M (threads K) Z :=
  match o with
  | Create id fn arg => mv_thread_create thunk id fn arg
  | Join id status => mv_thread_join id status
  | Detach id => mv_thread_detach id
  | SetPriority id prio => mv_thread_set_priority id prio
  | Cancel id => mv_thread_cancel id
  | Yield => mv_thread_yield
  end.

Fixpoint run_tops {K} `{ThreadKernel K} (thunk : Z) (os : list top) : M (threads K) unit :=
  match os with
  | [] => ret tt
  | o :: os' => run_top thunk o ;;; run_tops thunk os'
  end.

(** The state a program starts in. *)
Definition no_threads {K} (m : mem) (k : K) : threads K :=
  Threads (replicate MV_THREAD_MAX_JOINABLE empty_slot) m k [].

Lemma run_tops_inv {K} `{ThreadKernel K} P thunk os s s' u :
  fresh_maps P → stacks_inv P [] s → run_tops thunk os s = Some (u, s') → stacks_inv P [] s'.
Proof.
  intros HP. revert s. induction os as [|o os IH]; intros s Hs E; simpl in E; [unfold ret in E; by simplify_eq|].
  apply bind_inv_some in E as (r&s1&E1&E). eapply IH; [|done]. clear IH E. revert E1.
  destruct o; simpl; [by apply triple_create|by apply triple_join|by apply triple_detach|..];
    intros E; unfold mv_thread_set_priority, mv_thread_cancel, mv_thread_yield in E.
  - by eapply triple_other in E.
  - apply bind_inv_some in E as (x&s2&E2&E). eapply triple_other in E2; [|done..].
    destruct (negb _); unfold ret in E; by simplify_eq.
  - by eapply triple_other in E.
Qed.

(** [C25] Over any sequence of thread calls, on a kernel that maps at free addresses:
    each unmap is of the whole stack of a thread, mapped at that moment and not
    unmapped before; the stacks in the table are mapped and no stack is there
    twice, so no later join can unmap a stack it does not own. *)
Theorem thread_stacks_safe {K} `{ThreadKernel K} (P : K → list Z → Prop) (thunk : Z) (os : list top)
    (m : mem) (k : K) (s : threads K) :
  fresh_maps P → P k [] → run_tops thunk os (no_threads m k) = Some (tt, s) →
  unmaps_held [] (th_calls s) ∧ NoDup (live (th_stacks s)) ∧
  (∀ a, a ∈ live (th_stacks s) → a ∈ held_of (th_calls s)).
Proof.
  intros HP Hk E. destruct (run_tops_inv P thunk os (no_threads m k) s tt) as (_&Hu&Hn&Hh&_); [done| |done|].
  - unfold stacks_inv. simpl. split_and!; try done; [constructor|by intros a Ha%not_elem_of_nil|].
    repeat constructor; done.
  - split_and!; [done..|]. intros a Ha. by apply Hh.
Qed.

(** A kernel that maps upwards from a base and numbers its threads. *)
Record counting := Counting { ck_next : Z; ck_tid : Z }.
#[local] Instance counting_kernel : ThreadKernel counting := {
  tk_call c k :=
    match c with
    | T_MMAP _ n _ => if ck_next k <? 1073741824 then (ck_next k, Counting (ck_next k + Z.max 1 n) (ck_tid k)) else (-1, k)
    | T_CLONE _ _ => (ck_tid k, Counting (ck_next k) (ck_tid k + 1))
    | T_WAITPID _ => (7, k)
    | _ => (0, k)
    end
}.

Definition below (k : counting) (held : list Z) : Prop :=
  0 < ck_next k ∧ ∀ a, a ∈ held → a < ck_next k.

Lemma below_fresh : fresh_maps below.
Proof.
  split.
  - intros k held a n p r k' [Hk Hh] E. simpl in E. destruct (Z.ltb_spec (ck_next k) 1073741824); simplify_eq.
    + right. rewrite i32_small by word_lia. split_and!; [lia| |].
      * intros Hin%Hh. lia.
      * split; simpl; [lia|]. intros b [->|Hb%Hh]%elem_of_cons; lia.
    + left. split; [word_lia|done].
  - intros k held c r k' [Hk Hh] E Hc. destruct c; simpl in E; simplify_eq; try (by split).
    + exfalso. by eapply Hc.
    + split; [done|]. simpl. intros b [Hb _]%elem_of_unheld. by apply Hh.
Qed.

Definition id_cell : mem := mem_of 16 (replicate 8 0).

Definition some_tops : list top := [Create 16 4096 5; Create 20 4096 6; Join 1 16; Detach 2; Create 16 4096 7; Join 3 0].

Lemma thread_stacks_safe_witness :
  ∃ s, run_tops 8192 some_tops (no_threads id_cell (Counting 1048576 1)) = Some (tt, s) ∧
    unmaps_held [] (th_calls s) ∧ NoDup (live (th_stacks s)) ∧
    (∀ a, a ∈ live (th_stacks s) → a ∈ held_of (th_calls s)).
Proof.
  assert (below (Counting 1048576 1) []) as Hb
    by (split; [simpl; lia|intros a Ha; by apply not_elem_of_nil in Ha]).
  assert (match run_tops 8192 some_tops (no_threads id_cell (Counting 1048576 1)) with
          | Some _ => true | None => false end = true) as Hrun by (vm_compute; reflexivity).
  destruct (run_tops 8192 some_tops (no_threads id_cell (Counting 1048576 1))) as [[[] s]|] eqn:E; [|discriminate].
  exists s. split; [reflexivity|].
  apply (thread_stacks_safe below 8192 some_tops id_cell (Counting 1048576 1) s).
  - exact below_fresh.
  - exact Hb.
  - exact E.
Defined.
