(* ===== verification/Iface.v ===== *)
(** * Interfaces over the Warren

    [c/rt/iface.c]: two objects, the chronicle and the Sett, reached by name,
    asked for interfaces by identifier and counted by reference.  The state is
    what the file keeps: for each object its reference count, the [in_use] mark of
    its factory and whether its vtable pointer has been set.  A pointer to an
    interface is the object it points to, or [None] for NULL; a pointer to a
    result is given by whether it is NULL.  The kernel's answers to
    [SYS_LOG_WRITE] and [SYS_SETT] are an argument. *)

From S2P Require Import Prelude CMem CString.

Definition MV_S_OK : Z := 0.
Definition MV_E_NOINTERFACE : Z := -2.
Definition MV_E_POINTER : Z := -3.
Definition MV_E_FAIL : Z := -1.

Record mv_guid := Guid { g_a : Z; g_b : Z; g_c : Z; g_d : Z }.
Definition MV_IID_CHRONICLE : mv_guid := Guid 0x43485230 1 0 0.
Definition MV_IID_SETT : mv_guid := Guid 0x53455430 1 0 0.

Inductive object := Chronicle | Sett.
#[global] Instance object_eq_dec : EqDecision object.
Proof. solve_decision. Defined.
#[global] Instance mv_guid_eq_dec : EqDecision mv_guid.
Proof. solve_decision. Defined.

Record obj_state := ObjState { refs : Z; in_use : bool; vtbl : bool }.

(** The state of each object. *)
Definition ifaces : Type := object → obj_state.
Definition set_obj (st : ifaces) (o : object) (x : obj_state) : ifaces :=
  λ p, if decide (p = o) then x else st p.
Definition start : ifaces := λ _, ObjState 0 false false.

Definition iid_of (o : object) : mv_guid :=
  match o with Chronicle => MV_IID_CHRONICLE | Sett => MV_IID_SETT end.

Definition mv_guid_equal (a b : mv_guid) : bool :=
  (g_a a =? g_a b) && (g_b a =? g_b b) && (g_c a =? g_c b) && (g_d a =? g_d b).

(** What an operation stores through its [out] pointer: nothing, NULL or an object. *)
Inductive stored := Untouched | Stored (p : option object).

(** ** The objects' methods *)

Definition obj_create (o : object) (st : ifaces) : ifaces :=
  set_obj st o (ObjState (i32 (refs (st o) + 1)) true true).
Definition chronicle_create := obj_create Chronicle.
Definition sett_create := obj_create Sett.

Definition obj_query (o : object) (iid : option mv_guid) (out_null : bool) (st : ifaces) : Z * stored * ifaces :=
  match iid with
  | Some i =>
      if out_null then (MV_E_POINTER, Untouched, st)
      else if mv_guid_equal i (iid_of o) then
        (MV_S_OK, Stored (Some o),
         set_obj st o (ObjState (i32 (refs (st o) + 1)) (in_use (st o)) (vtbl (st o))))
      else (MV_E_NOINTERFACE, Stored None, st)
  | None => (MV_E_POINTER, Untouched, st)
  end.
Definition chronicle_query := obj_query Chronicle.
Definition sett_query := obj_query Sett.

Definition obj_addref (o : object) (st : ifaces) : Z * ifaces :=
  let r := i32 (refs (st o) + 1) in
  (r, set_obj st o (ObjState r (in_use (st o)) (vtbl (st o)))).
Definition chronicle_addref := obj_addref Chronicle.
Definition sett_addref := obj_addref Sett.

Definition obj_release (o : object) (st : ifaces) : Z * ifaces :=
  let r := if 0 <? refs (st o) then refs (st o) - 1 else refs (st o) in
  (r, set_obj st o (ObjState r (if r =? 0 then false else in_use (st o)) (vtbl (st o)))).
Definition chronicle_release := obj_release Chronicle.
Definition sett_release := obj_release Sett.

(** [kernel] is what the call answers for the arguments that are passed. *)
Definition chronicle_write (kernel : Z → Z → Z) (level text : Z) : Z :=
  if text =? 0 then MV_E_POINTER
  else if kernel level text =? 0 then MV_S_OK else MV_E_FAIL.

Definition sett_get (kernel : Z → Z → Z → Z) (path buf size : Z) : Z :=
  if (path =? 0) || (buf =? 0) || (size =? 0) then MV_E_POINTER
  else if kernel path buf size =? 0 then MV_S_OK else MV_E_FAIL.

Definition sett_set (kernel : Z → Z → Z) (path value : Z) : Z :=
  if (path =? 0) || (value =? 0) then MV_E_POINTER
  else if kernel path value =? 0 then MV_S_OK else MV_E_FAIL.

(** ** Resolution and dispatch *)

(** [factories[]], in order. *)
Definition factories : list (object * list Z) := [(Chronicle, lit "chronicle"); (Sett, lit "sett")].

Fixpoint find_factory (fs : list (object * list Z)) (name : list Z) : option object :=
  match fs with
  | [] => None
  | (o, n) :: fs' => if bool_decide (n = name) then Some o else find_factory fs' name
  end.

Definition mv_iface_get (name : option (list Z)) (out_null : bool) (st : ifaces) : Z * stored * ifaces :=
  if out_null then (MV_E_POINTER, Untouched, st)
  else match name with
       | None => (MV_E_POINTER, Stored None, st)
       | Some n =>
           match find_factory factories n with
           | Some o => (MV_S_OK, Stored (Some o), obj_create o st)
           | None => (MV_E_NOINTERFACE, Stored None, st)
           end
       end.

Definition mv_iface_query (self : option object) (iid : option mv_guid) (out_null : bool) (st : ifaces)
    : Z * stored * ifaces :=
  match self with
  | Some o =>
      if negb (vtbl (st o)) || (match iid with None => true | _ => false end) || out_null
      then (MV_E_POINTER, Untouched, st) else obj_query o iid out_null st
  | None => (MV_E_POINTER, Untouched, st)
  end.

Definition mv_iface_addref (self : option object) (st : ifaces) : Z * ifaces :=
  match self with
  | Some o => if negb (vtbl (st o)) then (MV_E_POINTER, st) else obj_addref o st
  | None => (MV_E_POINTER, st)
  end.

Definition mv_iface_release (self : option object) (st : ifaces) : Z * ifaces :=
  match self with
  | Some o => if negb (vtbl (st o)) then (MV_E_POINTER, st) else obj_release o st
  | None => (MV_E_POINTER, st)
  end.

(** ** Clients *)

Inductive iop :=
  | Get (name : option (list Z)) (out_null : bool)
  | Query (self : option object) (iid : option mv_guid) (out_null : bool)
  | AddRef (self : option object)
  | Release (self : option object).

Definition run_iop (x : iop) (st : ifaces) : Z * ifaces :=
  match x with
  | Get n o => let '(r, _, st') := mv_iface_get n o st in (r, st')
  | Query s i o => let '(r, _, st') := mv_iface_query s i o st in (r, st')
  | AddRef s => mv_iface_addref s st
  | Release s => mv_iface_release s st
  end.

Definition run_iops (xs : list iop) (st : ifaces) : ifaces := foldl (λ st x, (run_iop x st).2) st xs.

(** ** References, counted from the calls

    Which calls take a reference on an object and which give one back is read off
    the calls themselves. *)

Definition name_of (o : object) : list Z :=
  match o with Chronicle => lit "chronicle" | Sett => lit "sett" end.

Definition takes (o : object) (x : iop) : bool :=
  match x with
  | Get (Some name) false => bool_decide (name = name_of o)
  | Query (Some p) (Some i) false => bool_decide (p = o) && bool_decide (i = iid_of o)
  | AddRef (Some p) => bool_decide (p = o)
  | _ => false
  end.
Definition gives (o : object) (x : iop) : bool :=
  match x with Release (Some p) => bool_decide (p = o) | _ => false end.
Definition is_get (x : iop) : bool := match x with Get _ _ => true | _ => false end.

Definition taken (o : object) (xs : list iop) : nat := length (List.filter (takes o) xs).
Definition given (o : object) (xs : list iop) : nat := length (List.filter (gives o) xs).
Definition balance (o : object) (xs : list iop) : Z := Z.of_nat (taken o xs) - Z.of_nat (given o xs).

(** The sequences the header gives an account of: a call that counts is made by someone who
    holds a reference, or is the first request for the object.  So nothing is
    given back that was not taken, and no one asks again for an object that was
    released to zero. *)
Definition disciplined (o : object) (xs : list iop) : Prop :=
  ∀ pre x post, xs = pre ++ x :: post → takes o x = true ∨ gives o x = true →
    0 < balance o pre ∨ (is_get x = true ∧ taken o pre = 0%nat).

Lemma set_obj_eq st o x : set_obj st o x o = x.
Proof. unfold set_obj. by rewrite decide_True. Qed.
Lemma set_obj_ne st o p x : p ≠ o → set_obj st o x p = st p.
Proof. intros. unfold set_obj. by rewrite decide_False. Qed.

Lemma find_factory_name n o : find_factory factories n = Some o ↔ n = name_of o.
Proof.
  unfold factories. cbn [find_factory]. case_bool_decide as H1; [subst; destruct o; split; done|].
  case_bool_decide as H2; [subst; destruct o; split; done|]. split; [done|]. intros ->. by destruct o.
Qed.

Lemma mv_guid_equal_eq a b : mv_guid_equal a b = bool_decide (a = b).
Proof.
  destruct a, b. unfold mv_guid_equal. apply eq_true_iff_eq.
  rewrite bool_decide_eq_true, !andb_true_iff, !Z.eqb_eq. cbn. naive_solver.
Qed.

Lemma taken_snoc o xs x : taken o (xs ++ [x]) = (taken o xs + if takes o x then 1 else 0)%nat.
Proof. unfold taken. rewrite List.filter_app, length_app. cbn. by destruct (takes o x). Qed.
Lemma given_snoc o xs x : given o (xs ++ [x]) = (given o xs + if gives o x then 1 else 0)%nat.
Proof. unfold given. rewrite List.filter_app, length_app. cbn. by destruct (gives o x). Qed.
Lemma taken_length o xs : (taken o xs ≤ length xs)%nat.
Proof. apply List.filter_length_le. Qed.

(** The state of [o] when [t] references were taken on it and [g] given back. *)
Definition stands_for (s : obj_state) (t g : nat) : Prop :=
  let n := Z.of_nat t - Z.of_nat g in
  refs s = n ∧ 0 ≤ n ∧ vtbl s = bool_decide (0 < t)%nat ∧ in_use s = bool_decide (0 < n).

Section step.
Context (o : object) (st : ifaces) (t g : nat).
Context (Hst : stands_for (st o) t g) (Ht : Z.of_nat t < 2147483647).
#[local] Set Default Proof Using "All".

(** Another reference on an object someone holds. *)
Lemma more_refs : 0 < Z.of_nat t - Z.of_nat g →
  vtbl (st o) = true ∧ i32 (refs (st o) + 1) = Z.of_nat (t + 1) - Z.of_nat g ∧
  stands_for (ObjState (i32 (refs (st o) + 1)) (in_use (st o)) (vtbl (st o))) (t + 1) g.
Proof.
  intros Hn. destruct Hst as (Hr & _ & Hv & Hu). rewrite Hr, Hv, Hu, i32_small by word_lia.
  rewrite (bool_decide_eq_true_2 (0 < t)%nat) by lia. rewrite (bool_decide_eq_true_2 (0 < _ - _)) by lia.
  split_and!; [done|lia|]. unfold stands_for. cbn. split_and!; [lia|lia| |]; symmetry; apply bool_decide_eq_true; lia.
Qed.

Lemma fewer_refs : 0 < Z.of_nat t - Z.of_nat g →
  vtbl (st o) = true ∧ (obj_release o st).1 = Z.of_nat t - Z.of_nat (g + 1) ∧
  stands_for ((obj_release o st).2 o) t (g + 1).
Proof.
  intros Hn. destruct Hst as (Hr & _ & Hv & Hu). unfold obj_release. cbn [fst snd]. rewrite set_obj_eq, Hr, Hv, Hu.
  rewrite (bool_decide_eq_true_2 (0 < t)%nat) by lia. rewrite (bool_decide_eq_true_2 (0 < _ - _)) by lia.
  zb_true (0 <? Z.of_nat t - Z.of_nat g). split_and!; [done|lia|].
  unfold stands_for. cbn. split_and!; [lia|lia|symmetry; apply bool_decide_eq_true; lia|].
  destruct (Z.eqb_spec (Z.of_nat t - Z.of_nat g - 1) 0); symmetry; [apply bool_decide_eq_false|apply bool_decide_eq_true]; lia.
Qed.

(** The first request. *)
Lemma first_ref : t = 0%nat → stands_for (obj_create o st o) (t + 1) g.
Proof.
  intros ->. destruct Hst as (Hr & Hn & _). unfold obj_create. rewrite set_obj_eq, Hr, i32_small by word_lia.
  unfold stands_for. cbn. split_and!; [lia|lia|done|]. symmetry; apply bool_decide_eq_true; lia.
Qed.

(** A call that counts for nothing leaves the object alone. *)
Lemma other_call x : takes o x = false → gives o x = false → (run_iop x st).2 o = st o.
Proof.
  destruct x as [[n|] []|[p|] [i|] []|[p|]|[p|]]; intros Hta Hgi; try done; cbn [takes gives] in *; unfold run_iop.
  - unfold mv_iface_get. destruct (find_factory factories n) as [p|] eqn:E; [|done]. apply find_factory_name in E as ->.
    cbn. apply set_obj_ne. intros ->. by rewrite bool_decide_eq_true_2 in Hta.
  - unfold mv_iface_query. by rewrite !orb_true_r.
  - unfold mv_iface_query, obj_query. destruct (negb _ || _ || _); [done|]. rewrite mv_guid_equal_eq.
    destruct (bool_decide (i = iid_of p)) eqn:E; [|done]. cbn. apply set_obj_ne. intros ->.
    by rewrite E, bool_decide_eq_true_2 in Hta.
  - unfold mv_iface_query. by rewrite !orb_true_r.
  - unfold mv_iface_query. by rewrite !orb_true_r.
  - unfold mv_iface_addref, obj_addref. destruct (negb _); [done|]. cbn. apply set_obj_ne. intros ->.
    by rewrite bool_decide_eq_true_2 in Hta.
  - unfold mv_iface_release, obj_release. destruct (negb _); [done|]. cbn [snd]. apply set_obj_ne. intros ->.
    by rewrite bool_decide_eq_true_2 in Hgi.
Qed.

(** A call within the discipline; what [AddRef] and [Release] answer. *)
Lemma step_call x :
  (takes o x = true ∨ gives o x = true → 0 < Z.of_nat t - Z.of_nat g ∨ is_get x = true ∧ t = 0%nat) →
  let t' := (t + if takes o x then 1 else 0)%nat in
  let g' := (g + if gives o x then 1 else 0)%nat in
  stands_for ((run_iop x st).2 o) t' g' ∧
  (x = AddRef (Some o) ∨ x = Release (Some o) → (run_iop x st).1 = Z.of_nat t' - Z.of_nat g').
Proof.
  intros Hd. destruct (takes o x) eqn:Eta, (gives o x) eqn:Egi; cbn zeta; rewrite ?Nat.add_0_r.
  - exfalso. by destruct x as [[n|] []|[p|] [i|] []|[p|]|[p|]].
  - specialize (Hd (or_introl eq_refl)). destruct x as [[n|] []|[p|] [i|] []|[p|]|[p|]]; try done;
      cbn [takes is_get] in *; unfold run_iop.
    + apply bool_decide_eq_true in Eta as ->. unfold mv_iface_get.
      rewrite (proj2 (find_factory_name (name_of o) o) eq_refl). cbn [snd]. split; [|by intros []].
      destruct Hd as [Hd|[_ Hd]]; [|by apply first_ref]. destruct (more_refs Hd) as (Hv & _ & H).
      unfold obj_create. rewrite set_obj_eq. destruct Hst as (_ & _ & _ & Hu). rewrite Hv, Hu in H.
      by rewrite (bool_decide_eq_true_2 (0 < _)) in H.
    + apply andb_true_iff in Eta as [->%bool_decide_eq_true ->%bool_decide_eq_true]. destruct Hd as [Hd|[? _]]; [|done].
      destruct (more_refs Hd) as (Hv & _ & H). unfold mv_iface_query, obj_query. rewrite Hv in H |- *. cbn [negb orb].
      rewrite mv_guid_equal_eq, bool_decide_eq_true_2 by done. cbn [snd]. rewrite set_obj_eq. split; [exact H|by intros []].
    + apply bool_decide_eq_true in Eta as ->. destruct Hd as [Hd|[? _]]; [|done].
      destruct (more_refs Hd) as (Hv & Hr & H). unfold mv_iface_addref, obj_addref. rewrite Hv in H |- *. cbn [negb fst snd].
      rewrite set_obj_eq. by split.
  - specialize (Hd (or_intror eq_refl)). destruct x as [[n|] []|[p|] [i|] []|[p|]|[p|]]; try done.
    cbn [gives is_get] in *. apply bool_decide_eq_true in Egi as ->. destruct Hd as [Hd|[? _]]; [|done].
    destruct (fewer_refs Hd) as (Hv & Hr & H). unfold run_iop, mv_iface_release. rewrite Hv. cbn [negb]. by split.
  - rewrite (other_call x Eta Egi). split; [exact Hst|]. intros [-> | ->]; cbn in Eta, Egi;
      by rewrite bool_decide_eq_true_2 in *.
Qed.
End step.

Lemma disciplined_app o xs ys : disciplined o (xs ++ ys) → disciplined o xs.
Proof. intros Hd pre x post -> Hx. apply (Hd pre x (post ++ ys)); [by rewrite <- app_assoc|done]. Qed.

Lemma run_iops_stands o xs : disciplined o xs → Z.of_nat (length xs) < 2147483648 →
  stands_for (run_iops xs start o) (taken o xs) (given o xs).
Proof.
  induction xs as [|x xs IH] using rev_ind; intros Hd Hl; [done|].
  rewrite length_app in Hl. cbn in Hl. pose proof (taken_length o xs).
  unfold run_iops. rewrite foldl_app, taken_snoc, given_snoc. cbn [foldl]. apply (step_call o).
  - apply IH; [by eapply disciplined_app|lia].
  - lia.
  - apply (Hd xs x []). done.
Qed.

(** [C27] Over any sequence of fewer than [2^31] calls in which the calls that count
    on an object are made while a reference on it is held (or are the first
    request for it), its reference count is the number of references taken less
    those given back, never negative; its factory is in use exactly while
    references are out; and every [AddRef] and [Release] on it answers the count
    it leaves.  (An object released to zero is not asked for again in such a
    sequence; what the code does then is [iface_resurrects].) *)
Theorem iface_refs_count (o : object) (xs : list iop) :
  Z.of_nat (length xs) < 2147483648 → disciplined o xs →
  refs (run_iops xs start o) = balance o xs ∧ 0 ≤ balance o xs ∧
  in_use (run_iops xs start o) = bool_decide (0 < balance o xs) ∧
  (∀ pre x post, xs = pre ++ x :: post → x = AddRef (Some o) ∨ x = Release (Some o) →
     (run_iop x (run_iops pre start)).1 = balance o (pre ++ [x])).
Proof.
  intros Hl Hd. destruct (run_iops_stands o xs Hd Hl) as (Hr & Hn & _ & Hu). split_and!; [done|done|done|].
  intros pre x post -> Hx. rewrite length_app in Hl. cbn in Hl. pose proof (taken_length o pre).
  assert (stands_for (run_iops pre start o) (taken o pre) (given o pre)) as Hpre
    by (apply run_iops_stands; [by eapply disciplined_app|lia]).
  unfold balance. rewrite taken_snoc, given_snoc.
  apply (step_call o _ _ _ Hpre); [lia| |done]. by apply (Hd pre x post).
Qed.

(** Two clients of the Sett. *)
Definition sett_calls : list iop :=
  [Get (Some (lit "sett")) false; AddRef (Some Sett); Get (Some (lit "chronicle")) false;
   Release (Some Sett); Release (Some Sett)].

Lemma sett_disciplined : disciplined Sett sett_calls.
Proof.
  intros pre x post E Hx. unfold sett_calls in E.
  do 5 (destruct pre as [|? pre]; [injection E as <- _; vm_compute in Hx |- *; naive_solver|injection E as <- E]).
  by destruct pre.
Qed.

Lemma iface_refs_count_witness :
  refs (run_iops sett_calls start Sett) = 0 ∧ in_use (run_iops sett_calls start Sett) = false ∧
  (run_iop (Release (Some Sett)) (run_iops (take 3 sett_calls) start)).1 = 1.
Proof.
  destruct (iface_refs_count Sett sett_calls) as (Hr & _ & Hu & Ha); [simpl; lia|exact sett_disciplined|].
  split; [exact Hr|]. split; [exact Hu|].
  apply (Ha (take 3 sett_calls) (Release (Some Sett)) (drop 4 sett_calls)); [reflexivity|by right].
Defined.

(** An object released to zero is handed out again by the next request, although
    [iface.h] says that request fails. *)
Theorem iface_resurrects (name : list Z) (o : object) (st : ifaces) :
  find_factory factories name = Some o →
  ∃ st', mv_iface_get (Some name) false (obj_release o st).2 = (MV_S_OK, Stored (Some o), st').
Proof. intros E. unfold mv_iface_get. rewrite E. by eexists. Qed.

Lemma iface_resurrects_witness :
  ∃ st', mv_iface_get (Some (lit "chronicle")) false
           (obj_release Chronicle (run_iops [Get (Some (lit "chronicle")) false] start)).2
         = (MV_S_OK, Stored (Some Chronicle), st').
Proof. apply (iface_resurrects (lit "chronicle") Chronicle). reflexivity. Defined.
