(* ===== verification/Args.v ===== *)
(** * The command line

    [mv_args] ([c/rt/args.c]) splits the flattened command line the kernel
    delivers into an argument vector, in place.  The answer of [SYS_GETARGS], the
    number and the bytes stored at [buf], is an argument of the model; the vector
    is the list of the pointers stored in it. *)

From S2P Require Import Prelude CMem CString Alloc Sys.

Definition is_sep (c : Z) : bool := (c =? 32) || (c =? 9).

(** [while ( *p == ' ' || *p == '\t') *p++ = '\0';] *)
Fixpoint blank_out (f : nat) (m : mem) (p : Z) : option (Z * mem) :=
  match f with
  | O => None
  | S f' => c ← load m p; if is_sep c then m ← store m p 0; blank_out f' m (p + 1) else Some (p, m)
  end.

(** [while ( *p != '\0' && *p != ' ' && *p != '\t') p++;] *)
Fixpoint skip_word (f : nat) (m : mem) (p : Z) : option Z :=
  match f with
  | O => None
  | S f' => c ← load m p; if negb (c =? 0) && negb (is_sep c) then skip_word f' m (p + 1) else Some p
  end.

(** [while ( *p != '\0' && argc < max)], [argv] holding [argc] pointers. *)
Fixpoint args_loop (f : nat) (m : mem) (p : Z) (argv : list Z) (max : Z) : option (list Z * mem) :=
  match f with
  | O => None
  | S f' =>
      c ← load m p;
      if negb (c =? 0) && (Z.of_nat (length argv) <? max) then
        '(p, m) ← blank_out (fuel m) m p;
        c ← load m p;
        if c =? 0 then Some (argv, m)
        else
          q ← skip_word (fuel m) m p;
          args_loop f' m q (argv ++ [p]) max
      else Some (argv, m)
  end.

(** [answer] is what [mv_getargs] returns, [bytes] what it stores. *)
Definition mv_args (answer : Z) (bytes : list Z) (m : mem) (prog buf size max : Z) : option (Z * list Z * mem) :=
  if max <? 1 then Some (0, [], m)
  else
    m ← stores m buf bytes;
    if answer <? 0 then
      m ← store m buf 0; Some (1, [prog], m)
    else
      '(argv, m) ← args_loop (fuel m) m buf [prog] max;
      Some (Z.of_nat (length argv), argv, m).

(** ** Proofs *)

Definition SEPS : list Z := [32; 9].

Lemma is_sep_memb c : is_sep c = memb c SEPS.
Proof. unfold is_sep, memb. simpl. by rewrite orb_false_r. Qed.

Lemma blank_out_ok f m p bl t :
  Forall (λ c, memb c SEPS = true) bl → cstr m p (bl ++ t) →
  (∀ c r, t = c :: r → memb c SEPS = false) → (length bl < f)%nat →
  blank_out f m p = Some (p + Z.of_nat (length bl), write m p (replicate (length bl) 0)).
Proof.
  intros Hbl. revert f m p. induction Hbl as [|c bl Hc Hbl IH]; intros f m p Hs Ht Hf;
    (destruct f as [|f]; [simpl in Hf; lia|]); cbn [blank_out length replicate]; unfold load.
  - cbn [app] in Hs. destruct t as [|c t].
    + apply cstr_nil in Hs. rewrite Hs. bind_step. change (is_sep 0) with false. cbv iota. do 2 f_equal. lia.
    + apply cstr_cons in Hs as (Hp&_&_). rewrite Hp. bind_step. rewrite is_sep_memb, (Ht c t eq_refl).
      do 2 f_equal. lia.
  - cbn [app] in Hs. apply cstr_cons in Hs as (Hp&_&Hs). rewrite Hp. bind_step.
    rewrite is_sep_memb, Hc. rewrite store_mapped by (by eexists). bind_step.
    rewrite (IH f (write m p [u8 0]) (p + 1)).
    + f_equal. f_equal. lia.
    + apply cstr_write_disjoint; [unfold disjoint; simpl; lia|done].
    + done.
    + simpl in Hf. lia.
Qed.

Lemma skip_word_ok f m p w t :
  Forall (λ c, negb (memb c SEPS) = true) w → cstr m p (w ++ t) →
  (∀ c r, t = c :: r → memb c SEPS = true) → (length w < f)%nat →
  skip_word f m p = Some (p + Z.of_nat (length w)).
Proof.
  intros Hw. revert f p. induction Hw as [|c w Hc Hw IH]; intros f p Hs Ht Hf;
    (destruct f as [|f]; [simpl in Hf; lia|]); cbn [skip_word length]; unfold load.
  - cbn [app] in Hs. destruct t as [|c t].
    + apply cstr_nil in Hs. rewrite Hs. bind_step. cbn. f_equal. lia.
    + apply cstr_cons in Hs as (Hp&_&_). rewrite Hp. bind_step. rewrite is_sep_memb, (Ht c t eq_refl), andb_false_r.
      f_equal. lia.
  - cbn [app] in Hs. apply cstr_cons in Hs as (Hp&Hch&Hs). rewrite Hp. bind_step.
    rewrite is_sep_memb, Hc. unfold is_char in Hch. zb_simpl. cbn [negb andb].
    rewrite (IH f (p + 1)); [f_equal; lia|done|done|]. simpl in Hf. lia.
Qed.

Lemma tokens_sep D c s : memb c D = true → tokens D (c :: s) = tokens D s.
Proof. intros Hc. unfold tokens at 1. cbn [tokens_acc]. by rewrite Hc. Qed.

(** The rest [s] of the line at [p] is split into its words, each terminated, and
    the word in front of [p] as well when [s] starts with a separator. *)
Lemma args_loop_ok f m p s argv max :
  cstr m p s → (length s < f)%nat → Z.of_nat (length argv + length (tokens SEPS s)) < max →
  ∃ ptrs m', args_loop f m p argv max = Some (argv ++ ptrs, m') ∧
    Forall2 (cstr m') ptrs (tokens SEPS s) ∧
    (∀ a, ¬ (p ≤ a < p + Z.of_nat (length s)) → m' !! a = m !! a) ∧
    (∀ c r, s = c :: r → memb c SEPS = true → m' !! p = Some 0).
Proof.
  revert m p s argv. induction f as [|f IH]; intros m p s argv Hs Hf Hmax; [lia|]. cbn [args_loop].
  destruct s as [|c0 s0].
  { apply cstr_nil in Hs. unfold load. rewrite Hs. bind_step. cbn. exists [], m. rewrite app_nil_r.
    by split_and!. }
  pose proof Hs as Hs0. apply cstr_cons in Hs0 as (Hp&Hch&_). change (load m p) with (m !! p). rewrite Hp. bind_step.
  unfold is_char in Hch. zb_simpl. cbn [negb andb]. clear Hch.
  pose proof (span_spec (λ c, memb c SEPS) (c0 :: s0)) as Hsp. rewrite <- (tokens_skip SEPS (c0 :: s0)) in Hmax |- *.
  destruct (span (λ c, memb c SEPS) (c0 :: s0)) as [bl t]. cbn [fst snd] in *.
  destruct Hsp as (Heq&Hbl&Ht). rewrite Heq in Hs. pose proof (cstr_fuel _ _ _ Hs) as Hfu. rewrite length_app in Hfu.
  rewrite (blank_out_ok _ m p bl t) by (done || lia). bind_step.
  set (m1 := write m p (replicate (length bl) 0)). set (p1 := p + Z.of_nat (length bl)).
  assert (∀ c r, c0 :: s0 = c :: r → memb c SEPS = true → m1 !! p = Some 0 ∧ (0 < length bl)%nat) as Hzero.
  { intros c r [= <- <-] Hc. destruct bl as [|b bl].
    - exfalso. cbn [app] in Heq. rewrite (Ht c0 s0) in Hc by done. done.
    - split; [|simpl; lia]. unfold m1. cbn [length replicate].
      pose proof (lookup_write_in m p (0 :: replicate (length bl) 0) 0 0 eq_refl) as Hl.
      by rewrite Z.add_0_r in Hl. }
  assert (cstr m1 p1 t) as Ht1.
  { apply cstr_write_disjoint; [unfold disjoint; rewrite length_replicate; unfold p1; lia|].
    replace t with (drop (length bl) (bl ++ t)) by apply drop_app_length.
    apply cstr_drop; [rewrite length_app; lia|done]. }
  assert (∀ a, ¬ (p ≤ a < p + Z.of_nat (length (c0 :: s0))) → m1 !! a = m !! a) as Hout.
  { intros a Ha. apply lookup_write_out. rewrite length_replicate. rewrite Heq, length_app in Ha. lia. }
  destruct t as [|c t].
  { apply cstr_nil in Ht1. change (load m1 p1) with (m1 !! p1). rewrite Ht1. bind_step. exists [], m1. rewrite app_nil_r.
    split_and!; [done|constructor|done|]. intros c r E Hc. by apply (Hzero c r). }
  pose proof Ht1 as Ht0. apply cstr_cons in Ht0 as (Hp1&Hch&_). change (load m1 p1) with (m1 !! p1). rewrite Hp1. bind_step.
  unfold is_char in Hch. zb_simpl. clear Hch.
  rewrite tokens_take in Hmax |- * by (by eapply Ht).
  pose proof (span_spec (λ c, negb (memb c SEPS)) (c :: t)) as Hsp2.
  pose proof (Ht c t eq_refl) as Hc.
  assert ((span (λ c, negb (memb c SEPS)) (c :: t)).1 ≠ []) as Hne.
  { cbn [span]. rewrite Hc. cbn [negb]. by destruct (span _ t). }
  destruct (span (λ c, negb (memb c SEPS)) (c :: t)) as [w t2]. cbn [fst snd] in *.
  destruct Hsp2 as (Heq2&Hw&Ht2). rewrite Heq2 in Ht1. pose proof (cstr_fuel _ _ _ Ht1) as Hfu1. rewrite length_app in Hfu1.
  assert (∀ c r, t2 = c :: r → memb c SEPS = true) as Ht2' by (intros; by apply negb_false_iff, (Ht2 _ r)).
  rewrite (skip_word_ok _ m1 p1 w t2) by (done || lia). bind_step.
  set (p2 := p1 + Z.of_nat (length w)).
  assert (cstr m1 p2 t2) as Hs2.
  { replace t2 with (drop (length w) (w ++ t2)) by apply drop_app_length.
    apply cstr_drop; [rewrite length_app; lia|done]. }
  assert (length (c0 :: s0) = length bl + length w + length t2)%nat as Hlen
    by (rewrite Heq, Heq2, !length_app; lia).
  assert (0 < length w)%nat as Hw0 by (destruct w; [done|simpl; lia]).
  assert (tokens SEPS t2 = match t2 with [] => [] | _ :: r => tokens SEPS r end) as Htk.
  { destruct t2 as [|x r]; [done|]. apply tokens_sep. by eapply Ht2'. }
  rewrite <- Htk in Hmax |- *. cbn [length] in Hmax.
  destruct (IH m1 p2 t2 (argv ++ [p1])) as (ptrs&m'&E&Hptrs&Hout2&Hz2); [done|lia|rewrite length_app; simpl; lia|].
  exists (p1 :: ptrs), m'. rewrite <- app_assoc in E. split; [exact E|]. split_and!.
  - constructor; [|done]. destruct Ht1 as [Hseg Hchars]. apply Forall_app in Hchars as [Hchars _].
    split; [|done]. rewrite <- app_assoc in Hseg. apply seg_app in Hseg as [Hseg _]. apply seg_app. split.
    + eapply seg_lookup_eq; [|exact Hseg]. intros a Ha. apply Hout2. unfold p2. lia.
    + apply seg_cons. split; [|apply seg_nil]. destruct t2 as [|x r].
      * rewrite Hout2 by (simpl; unfold p2; lia). apply cstr_nil in Hs2. exact Hs2.
      * apply (Hz2 x r eq_refl). by eapply Ht2'.
  - intros a Ha. rewrite Hout2 by (unfold p2, p1; lia). by apply Hout.
  - intros x r E' Hx. destruct (Hzero x r E' Hx) as [Hz Hb]. rewrite Hout2 by (unfold p2, p1; lia). done.
Qed.

(** [C28] A command line of at most [max - 2] words, with any separators between and
    around them, becomes the program's name and the words in order, each a
    terminated string in the buffer; nothing outside the line is changed. *)
Theorem args_words (m : mem) (prog buf size max answer : Z) (line : list Z) :
  mapped m buf 512 → (length line < 512)%nat → Forall is_char line → 0 ≤ answer →
  Z.of_nat (length (tokens SEPS line)) + 1 < max →
  ∃ ptrs m', mv_args answer (line ++ [0]) m prog buf size max
      = Some (Z.of_nat (length (tokens SEPS line)) + 1, prog :: ptrs, m') ∧
    Forall2 (cstr m') ptrs (tokens SEPS line) ∧
    (∀ a, ¬ (buf ≤ a ≤ buf + Z.of_nat (length line)) → m' !! a = m !! a).
Proof.
  intros Hm Hl Hc Ha Hmax. unfold mv_args. zb_simpl.
  rewrite stores_ok; [|rewrite length_app; simpl; eapply mapped_weaken; [exact Hm|lia..]].
  bind_step. zb_simpl.
  rewrite map_u8 by (by apply cstr_bytes).
  assert (cstr (write m buf (line ++ [0])) buf line) as Hs by (by apply cstr_write).
  destruct (args_loop_ok (fuel (write m buf (line ++ [0]))) _ buf line [prog] max Hs) as (ptrs&m'&->&Hp&Ho&_).
  - by eapply cstr_fuel.
  - simpl. lia.
  - bind_step. exists ptrs, m'. split_and!; [|done|].
    + rewrite length_app, (Forall2_length _ _ _ Hp). simpl. repeat f_equal. lia.
    + intros a Ha'. rewrite Ho by lia. apply lookup_write_out. rewrite length_app. simpl. lia.
Qed.

Definition args_buf : mem := mem_of 1000 (replicate 512 255).

Lemma args_words_witness :
  ∃ ptrs m', mv_args 9 (lit " ls  -l" ++ [0]) args_buf 7 1000 512 8
      = Some (Z.of_nat (length (tokens SEPS (lit " ls  -l"))) + 1, 7 :: ptrs, m') ∧
    Forall2 (cstr m') ptrs (tokens SEPS (lit " ls  -l")) ∧
    (∀ a, ¬ (1000 ≤ a ≤ 1000 + Z.of_nat (length (lit " ls  -l"))) → m' !! a = args_buf !! a).
Proof.
  apply (args_words args_buf 7 1000 512 8 9 (lit " ls  -l")).
  - apply mappedb_mapped. vm_compute. reflexivity.
  - simpl. lia.
  - repeat constructor; vm_compute; congruence.
  - lia.
  - vm_compute. reflexivity.
Defined.

(** When the vector is full the last argument keeps the rest of the line. *)
Theorem args_full_vector :
  (λ '(argc, argv, m), (argc, cstring m (nth 1 argv 0))) <$>
    mv_args 5 (lit "a b c" ++ [0]) args_buf 7 1000 512 2 = Some (2, Some (lit "a b c")).
Proof. vm_compute. reflexivity. Qed.
