(* ===== verification/KMod.v ===== *)
(** * The kernel module

    [c/kmod/kmod.c]: the self-test that runs the freestanding string routines of
    [CString] in the kernel and calls back through the host table.  Literals,
    tables and local buffers are placed in a small memory of their own for each
    check; the two functions of the host table are arguments. *)

From S2P Require Import Prelude CMem CString.

(** [cmod_host]: [None] for a NULL function pointer. *)
Record cmod_host := CmodHost {
  api_version : Z;
  host_size : Z;
  host_add : option (Z → Z → Z);
  host_print : bool;
}.

Definition CMOD_HOST_API_VERSION : Z := 1.
Definition SIZEOF_CMOD_HOST : Z := 16.

Definition CMOD_ERR_NONE : Z := 0.
Definition CMOD_ERR_HOST : Z := 1.
Definition CMOD_ERR_STRLEN : Z := 2.
Definition CMOD_ERR_MEMSET : Z := 3.
Definition CMOD_ERR_MEMCPY : Z := 4.
Definition CMOD_ERR_MEMMOVE : Z := 5.
Definition CMOD_ERR_MEMCMP : Z := 6.
Definition CMOD_ERR_STRCMP : Z := 7.
Definition CMOD_ERR_HOST_CALL : Z := 8.

Definition reasons : list (list Z) :=
  [lit "ok"; lit "host table rejected"; lit "strlen"; lit "memset"; lit "memcpy"; lit "memmove";
   lit "memcmp"; lit "strcmp"; lit "host->add"].

Definition banner : list Z :=
  lit "CMOD: C module v1 in ring 0 (runtime ok, asm boundary ok)" ++ [13; 10].

(** A string literal at an address. *)
Definition literal (p : Z) (s : string) (m : mem) : mem := write m p (lit s ++ [0]).

(** [if (test) return -1;] for a test that reads memory. *)
Definition fail_if (b : option bool) (rest : option Z) : option Z :=
  b ← b; if (b : bool) then Some (-1) else rest.

Definition check_strlen : option Z :=
  let m := literal 100 "" (literal 200 "Mellivora" (literal 300 "a" ∅)) in
  fail_if (n ← strlen m 100; Some (negb (n =? 0)))
  (fail_if (n ← strlen m 200; Some (negb (n =? 9)))
  (fail_if (n ← strlen m 300; Some (negb (n =? 1)))
  (Some 0))).

(** [buf[i .. i+n) all equal to c]: the loop of a check. *)
Fixpoint all_equal (n : nat) (m : mem) (p c : Z) : option bool :=
  match n with
  | O => Some true
  | S n' => b ← load m p; if negb (b =? c) then Some false else all_equal n' m (p + 1) c
  end.

Definition check_memset (garbage : list Z) : option Z :=
  let m := mem_of 100 garbage in
  '(_, m) ← memset m 100 0x5A 37;
  fail_if (b ← all_equal 37 m 100 0x5A; Some (negb b))
  ('(_, m) ← memset m 100 0 4;
   fail_if (b ← all_equal 4 m 100 0; Some (negb b))
   (fail_if (c ← load m 104; Some (negb (c =? 0x5A)))
   (Some 0))).

Definition memcpy_src : list Z :=
  [0x00; 0x11; 0x22; 0x33; 0x44; 0x55; 0x66; 0x77; 0x88; 0x99; 0xAA; 0xBB; 0xCC; 0xDD; 0xEE; 0xFF].

Definition check_memcpy (garbage : list Z) : option Z :=
  let m := write (mem_of 100 garbage) 200 memcpy_src in
  '(_, m) ← memset m 100 0 16;
  '(_, m) ← memcpy m 100 200 16;
  fail_if (r ← memcmp m 100 200 16; Some (negb (r =? 0)))
  ('(_, m) ← memcpy m 100 200 0;
   fail_if (r ← memcmp m 100 200 16; Some (negb (r =? 0)))
   (Some 0)).

Definition check_memmove (garbage : list Z) : option Z :=
  let m := write (write (write (mem_of 100 garbage) 200 (lit "abcdefghijkl")) 300 (lit "aabcdefghijk"))
                 400 (lit "cdefghijklkl") in
  '(_, m) ← memcpy m 100 200 12;
  '(_, m) ← memmove m 101 100 11;
  fail_if (r ← memcmp m 100 300 12; Some (negb (r =? 0)))
  ('(_, m) ← memcpy m 100 200 12;
   '(_, m) ← memmove m 100 102 10;
   fail_if (r ← memcmp m 100 400 12; Some (negb (r =? 0)))
   ('(_, m) ← memcpy m 100 200 12;
    '(_, m) ← memmove m 100 100 12;
    fail_if (r ← memcmp m 100 200 12; Some (negb (r =? 0)))
    (Some 0))).

Definition check_memcmp : option Z :=
  let m := write (write (mem_of 100 [1; 2; 3; 4]) 200 [1; 2; 3; 4]) 300 [1; 2; 3; 5] in
  fail_if (r ← memcmp m 100 200 4; Some (negb (r =? 0)))
  (fail_if (r ← memcmp m 100 300 4; Some (0 <=? r))
  (fail_if (r ← memcmp m 300 100 4; Some (r <=? 0))
  (fail_if (r ← memcmp m 100 300 3; Some (negb (r =? 0)))
  (Some 0)))).

Definition check_strcmp : option Z :=
  let m := literal 100 "" (literal 110 "abc" (literal 120 "abd" (literal 130 "ab"
           (literal 140 "abcdef" (literal 150 "abcxyz" ∅))))) in
  fail_if (r ← strcmp m 100 100; Some (negb (r =? 0)))
  (fail_if (r ← strcmp m 110 110; Some (negb (r =? 0)))
  (fail_if (r ← strcmp m 110 120; Some (0 <=? r))
  (fail_if (r ← strcmp m 120 110; Some (r <=? 0))
  (fail_if (r ← strcmp m 110 130; Some (r <=? 0))
  (fail_if (r ← strncmp m 140 150 3; Some (negb (r =? 0)))
  (fail_if (r ← strncmp m 140 150 4; Some (0 <=? r))
  (Some 0))))))).

Definition check_host_call (h : cmod_host) : option Z :=
  add ← host_add h;
  if negb (u32 (add 20 22) =? 42) then Some (-1)
  else if negb (u32 (add 0 0) =? 0) then Some (-1)
  else if negb (u32 (add 0xFFFFFFFE 1) =? 0xFFFFFFFF) then Some (-1)
  else Some 0.

(** The module's state is the host pointer; [None] is NULL. *)
Definition cmod_init (h : option cmod_host) (host : option cmod_host) : Z * option cmod_host :=
  match h with
  | None => (-1, host)
  | Some t =>
      if negb (host_size t =? SIZEOF_CMOD_HOST) then (-1, host)
      else if negb (api_version t =? CMOD_HOST_API_VERSION) then (-1, host)
      else if (match host_add t with None => true | _ => false end) || negb (host_print t) then (-1, host)
      else (0, h)
  end.

(** The checks in order: the code of the first that fails. *)
Fixpoint first_failure (checks : list (option Z * Z)) : option Z :=
  match checks with
  | [] => Some CMOD_ERR_NONE
  | (c, code) :: cs => r ← c; if negb (r =? 0) then Some code else first_failure cs
  end.

(** The code and the text printed; printing through a NULL host is a fault.
    [garbage] is what the stack holds where the local buffers lie. *)
Definition cmod_selftest (garbage : list Z) (host : option cmod_host) : option (Z * list Z) :=
  rc ← match host with
       | None => Some CMOD_ERR_HOST
       | Some h =>
           first_failure [(check_strlen, CMOD_ERR_STRLEN); (check_memset garbage, CMOD_ERR_MEMSET);
             (check_memcpy garbage, CMOD_ERR_MEMCPY); (check_memmove garbage, CMOD_ERR_MEMMOVE);
             (check_memcmp, CMOD_ERR_MEMCMP); (check_strcmp, CMOD_ERR_STRCMP);
             (check_host_call h, CMOD_ERR_HOST_CALL)]
       end;
  _ ← host;
  if rc =? CMOD_ERR_NONE then Some (rc, banner)
  else Some (rc, lit "CMOD: check failed: " ++ nth (Z.to_nat rc) reasons [] ++ [13; 10]).

(** ** Proofs *)

(** The memory checks pass whatever the stack held. *)
Lemma memory_checks (garbage : list Z) :
  length garbage = 37%nat →
  check_memset garbage = Some 0 ∧ check_memcpy garbage = Some 0 ∧ check_memmove garbage = Some 0.
Proof.
  intros Hl. do 37 (destruct garbage as [|? garbage]; [discriminate Hl|]).
  destruct garbage; [clear Hl|discriminate Hl]. split_and!; vm_compute; reflexivity.
Qed.

Lemma string_checks : check_strlen = Some 0 ∧ check_memcmp = Some 0 ∧ check_strcmp = Some 0.
Proof. vm_compute. done. Qed.

(** With a host table the module accepts, whose [add] is 32-bit addition, the
    self-test passes all of its checks and prints the banner, whatever the stack
    held. *)
Theorem kmod_selftest_passes (h : cmod_host) (add : Z → Z → Z) (garbage : list Z) :
  length garbage = 37%nat → cmod_init (Some h) None = (0, Some h) → host_add h = Some add →
  (∀ a b, is_u32 a → is_u32 b → u32 (add a b) = u32 (a + b)) →
  cmod_selftest garbage (snd (cmod_init (Some h) None)) = Some (CMOD_ERR_NONE, banner).
Proof.
  intros Hg Hi Ha Hadd. rewrite Hi. destruct (memory_checks garbage Hg) as (E1&E2&E3).
  destruct string_checks as (E4&E5&E6).
  assert (check_host_call h = Some 0) as E7.
  { unfold check_host_call. rewrite Ha, some_bind, !Hadd by word_lia. reflexivity. }
  unfold cmod_selftest. cbn [snd first_failure]. rewrite E1, E2, E3, E4, E5, E6, E7. reflexivity.
Qed.

Definition asm_host : cmod_host := CmodHost 1 16 (Some (λ a b, u32 (a + b))) true.

Lemma kmod_selftest_passes_witness :
  cmod_selftest (seqZ 1 37) (snd (cmod_init (Some asm_host) None)) = Some (CMOD_ERR_NONE, banner).
Proof.
  apply (kmod_selftest_passes asm_host (λ a b, u32 (a + b)) (seqZ 1 37)).
  - reflexivity.
  - reflexivity.
  - reflexivity.
  - intros a b _ _. apply u32_idemp.
Defined.

(** Without a host table the self-test does not return its code: it prints the
    failure through the missing table. *)
Theorem kmod_selftest_without_host (garbage : list Z) : cmod_selftest garbage None = None.
Proof. reflexivity. Qed.
