(* ===== verification/TinyC.v ===== *)
(** * The programs of [samples]: global variables and a console

    The samples are written for the compiler of the system: all data are global
    variables of type [int], and the only functions of the library are [putchar]
    and [getchar].  A program is a computation over the store of its globals, the
    characters still to be read and the characters printed; expressions and
    statements have the notations of C, so that a program reads as its source.

    An [int] has 32 bits and wraps; a division by zero, and the one quotient that
    does not fit, are faults, and so is the use of an undeclared variable.
    [getchar] answers -1 when the input is at its end. *)

From stdpp Require Import pretty.
From S2P Require Import Prelude.

Definition globals := list (string * Z).

(** The printed characters are kept in reverse. *)
Record tst := T { vars : globals; inp : list Z; rout : list Z }.
Definition printed (s : tst) : list Z := reverse (rout s).

Fixpoint get (x : string) (v : globals) : option Z :=
  match v with
  | [] => None
  | (y, n) :: v' => if String.eqb x y then Some n else get x v'
  end.

Fixpoint set (x : string) (n : Z) (v : globals) : option globals :=
  match v with
  | [] => None
  | (y, k) :: v' => if String.eqb x y then Some ((y, n) :: v') else cons (y, k) <$> set x n v'
  end.

(** ** Expressions *)

Record expr := Expr { ev : globals → option Z }.

Definition var (x : string) : expr := Expr (get x).
Definition const (n : Z) : expr := Expr (λ _, Some n).
Coercion var : string >-> expr.
Coercion const : Z >-> expr.

Definition bin (f : Z → Z → option Z) (a b : expr) : expr :=
  Expr (λ v, x ← ev a v; y ← ev b v; f x y).

Definition c_add x y := Some (i32 (x + y)).
Definition c_sub x y := Some (i32 (x - y)).
Definition c_mul x y := Some (i32 (x * y)).
Definition c_div x y := if (y =? 0) || (x =? -2147483648) && (y =? -1) then None else Some (x /c y).
Definition c_rem x y := if (y =? 0) || (x =? -2147483648) && (y =? -1) then None else Some (x %c y).
Definition c_cmp (f : Z → Z → bool) x y := Some (of_bool (f x y)).
Definition c_and (a b : expr) : expr := Expr (λ v, x ← ev a v; if x =? 0 then Some 0 else y ← ev b v; Some (of_bool (negb (y =? 0)))).

Declare Scope tcc_scope.
Delimit Scope tcc_scope with tcc.
Bind Scope tcc_scope with expr.
Notation "a + b" := (bin c_add a%tcc b%tcc) : tcc_scope.
Notation "a - b" := (bin c_sub a%tcc b%tcc) : tcc_scope.
Notation "a * b" := (bin c_mul a%tcc b%tcc) : tcc_scope.
Notation "a / b" := (bin c_div a%tcc b%tcc) : tcc_scope.
Notation "a %% b" := (bin c_rem a%tcc b%tcc) (at level 40, left associativity) : tcc_scope.
Notation "a == b" := (bin (c_cmp Z.eqb) a%tcc b%tcc) (at level 70, no associativity) : tcc_scope.
Notation "a != b" := (bin (c_cmp (λ x y, negb (Z.eqb x y))) a%tcc b%tcc) (at level 70, no associativity) : tcc_scope.
Notation "a < b" := (bin (c_cmp Z.ltb) a%tcc b%tcc) : tcc_scope.
Notation "a <= b" := (bin (c_cmp Z.leb) a%tcc b%tcc) : tcc_scope.
Notation "a > b" := (bin (c_cmp (λ x y, Z.ltb y x)) a%tcc b%tcc) : tcc_scope.
Notation "a >= b" := (bin (c_cmp (λ x y, Z.leb y x)) a%tcc b%tcc) : tcc_scope.
Notation "a && b" := (c_and a%tcc b%tcc) : tcc_scope.
Notation "a .& b" := (bin (λ x y, Some (Z.land x y)) a%tcc b%tcc) (at level 45, left associativity) : tcc_scope.
Notation "a .| b" := (bin (λ x y, Some (Z.lor x y)) a%tcc b%tcc) (at level 76, left associativity) : tcc_scope.

(** ** Statements *)

Definition stmt := M tst unit.

Definition skip : stmt := ret tt.
Definition assign (x : string) (e : expr) : stmt := λ s,
  n ← ev e (vars s); v ← set x n (vars s); Some (tt, T v (inp s) (rout s)).
Definition If (e : expr) (c d : stmt) : stmt := λ s,
  n ← ev e (vars s); if n =? 0 then d s else c s.
Definition When (e : expr) (c : stmt) : stmt := If e c skip.

(** The bound on the rounds of a loop; it costs nothing when the loop ends. *)
Definition ROUNDS : positive := 18446744073709551616.

Definition while_body (e : expr) (c : stmt) (s : tst) : option (tst + tst) :=
  n ← ev e (vars s); if n =? 0 then Some (inr s) else '(_, s') ← c s; Some (inl s').
Definition While (e : expr) (c : stmt) : stmt := λ s,
  r ← loop ROUNDS (while_body e c) s;
  match r with inr s' => Some (tt, s') | inl _ => None end.

Definition putchar (e : expr) : stmt := λ s,
  n ← ev e (vars s); Some (tt, T (vars s) (inp s) (u8 n :: rout s)).
(** [x = getchar();] and [getchar();] *)
Definition next_char : M tst Z := λ s,
  match inp s with [] => Some (-1, s) | c :: cs => Some (c, T (vars s) cs (rout s)) end.
Definition getchar (x : string) : stmt := c <- next_char;; assign x (const c).

(** [putchar('a'); putchar('b'); ...] *)
Fixpoint putchars (t : list Z) : stmt :=
  match t with [] => skip | c :: t' => putchar (const c);;; putchars t' end.
(** [x0 = a; x1 = b; ...] *)
Fixpoint assigns (l : list (string * Z)) : stmt :=
  match l with [] => skip | (x, n) :: l' => assign x (const n);;; assigns l' end.
(** A run of statements that differ in a number. *)
Fixpoint each (l : list Z) (c : Z → stmt) : stmt :=
  match l with [] => skip | k :: l' => c k;;; each l' c end.

Notation "x ::= e" := (assign x e%tcc) (at level 60) : c_scope.

(** The declarations [int x; int y; ...]: globals start at zero. *)
Definition ints (l : list string) : globals := map (λ x, (x, 0)) l.
(** The names [x0], [x1], ... of the variables that stand for an array. *)
Definition nth_var (x : string) (k : Z) : string := x +:+ pretty k.

(** A program from the start: what it prints on the given input. *)
Definition run (decls : globals) (main : stmt) (input : list Z) : option (list Z) :=
  '(_, s) ← main (T decls input []); Some (printed s).

(** ** Reasoning about loops *)

#[global] Arguments While : simpl never.
#[global] Arguments i32 : simpl never.
#[global] Arguments u8 : simpl never.
#[global] Arguments c_div : simpl never.
#[global] Arguments c_rem : simpl never.

Lemma c_div_by x y : 0 < y → c_div x y = Some (x /c y).
Proof. intros. unfold c_div. zb_false (y =? 0). zb_false (y =? -1). by rewrite andb_false_r. Qed.
Lemma c_div_pos x y : 0 ≤ x → y ≠ 0 → c_div x y = Some (x /c y).
Proof. intros. unfold c_div. by zb_false (y =? 0); zb_false (x =? -2147483648). Qed.

Lemma While_body e c s k s' :
  loop_nat k (while_body e c) s = Some (inr s') → (k ≤ Pos.to_nat ROUNDS)%nat → While e c s = Some (tt, s').
Proof. intros Hl Hk. unfold While. by rewrite (loop_exit _ k ROUNDS s s' Hl Hk). Qed.

(** Total correctness: [I k s] is the invariant, with at most [k] rounds left. *)
Lemma While_run (I : nat → tst → Prop) (Q : tst → Prop) e c :
  (∀ k s, I k s → ∃ x, ev e (vars s) = Some x ∧
     if x =? 0 then Q s else ∃ s' k', c s = Some (tt, s') ∧ (k' < k)%nat ∧ I k' s') →
  ∀ k s, I k s → (k < Pos.to_nat ROUNDS)%nat → ∃ s', While e c s = Some (tt, s') ∧ Q s'.
Proof.
  intros HI k s Hs Hk.
  assert (∃ s', loop_nat (S k) (while_body e c) s = Some (inr s') ∧ Q s') as (s' & E & H0).
  { clear Hk. revert s Hs. induction (lt_wf k) as [k _ IH]. intros s Hs. destruct (HI _ _ Hs) as (x & Ex & Hx).
    destruct (x =? 0) eqn:E0.
    - exists s. split; [|done].
      assert (while_body e c s = Some (inr s)) as Hb by (unfold while_body; rewrite Ex; simpl; by rewrite E0).
      cbn [loop_nat]. by rewrite Hb.
    - destruct Hx as (s1 & k1 & Ec & Hk & H1). destruct (IH k1 Hk s1 H1) as (s' & E & H0). exists s'. split; [|done].
      assert (while_body e c s = Some (inl s1)) as Hb by (unfold while_body; rewrite Ex; simpl; rewrite E0; by rewrite Ec).
      cbn [loop_nat]. rewrite Hb. by apply (loop_nat_exit _ (S k1)); [|lia]. }
  exists s'. split; [|done]. by apply (While_body _ _ _ (S k)).
Qed.

(** A loop whose states are known in advance. *)
Lemma While_for (f : nat → tst) n e c :
  (∀ i, (i < n)%nat → (∃ x, ev e (vars (f i)) = Some x ∧ x ≠ 0) ∧ c (f i) = Some (tt, f (S i))) →
  ev e (vars (f n)) = Some 0 → (n < Pos.to_nat ROUNDS)%nat → While e c (f O) = Some (tt, f n).
Proof.
  intros Hi Hn Hr.
  destruct (While_run (λ k s, (k ≤ n)%nat ∧ s = f (n - k)%nat) (λ s, s = f n) e c) with (k := n) (s := f O) as (s' & E & ->).
  - intros k s [Hk ->]. destruct (decide (k = 0%nat)) as [->|].
    + exists 0. by rewrite Nat.sub_0_r.
    + destruct (Hi (n - k)%nat) as [(x & Ex & Hx) Ec]; [lia|]. exists x. split; [done|]. zb_false (x =? 0).
      exists (f (S (n - k))), (k - 1)%nat. replace (n - (k - 1))%nat with (S (n - k)) by lia. split_and!; [done|lia|lia|done].
  - by rewrite Nat.sub_diag.
  - done.
  - done.
Qed.

(** One round. *)
Lemma while_round n e c s x s' : ev e (vars s) = Some x → x ≠ 0 → c s = Some (tt, s') →
  loop_nat (S n) (while_body e c) s = loop_nat n (while_body e c) s'.
Proof.
  intros Ex Hx Ec. assert (while_body e c s = Some (inl s')) as Hb
    by (unfold while_body; rewrite Ex; cbn [mbind option_bind]; zb_false (x =? 0); by rewrite Ec).
  cbn [loop_nat]. by rewrite Hb.
Qed.

Lemma seq_some (c d : stmt) s s' : c s = Some (tt, s') → (c;;; d) s = d s'.
Proof. intros E. unfold bindM. by rewrite E. Qed.

(** Characters printed one after the other. *)
Lemma putchars_ok t v i o : putchars t (T v i o) = Some (tt, T v i (reverse (map u8 t) ++ o)).
Proof.
  revert o. induction t as [|c t IH]; intros o; [done|]. cbn [putchars]. erewrite seq_some by done.
  cbn [map vars inp rout]. rewrite IH, reverse_cons, <- app_assoc. done.
Qed.

(** A chain [if (x == k0) ...; if (x == k1) ...; ...] runs the statement of the
    value of [x], when that leaves [x] alone. *)
Lemma each_none x (l : list Z) f s k :
  get x (vars s) = Some k → k ∉ l → each l (λ j, When (bin (c_cmp Z.eqb) (var x) (const j)) (f j)) s = Some (tt, s).
Proof.
  intros Hx. induction l as [|j l IH]; intros Hk; [done|]. apply not_elem_of_cons in Hk as [Hj Hk]. cbn [each].
  rewrite (seq_some _ _ _ s); [by apply IH|]. unfold When, If. cbn. rewrite Hx. cbn. by zb_false (k =? j).
Qed.

Lemma each_when x (l : list Z) f s s' k :
  get x (vars s) = Some k → NoDup l → k ∈ l → f k s = Some (tt, s') → get x (vars s') = Some k →
  each l (λ j, When (bin (c_cmp Z.eqb) (var x) (const j)) (f j)) s = Some (tt, s').
Proof.
  intros Hx Hn Hk Hf Hx'. induction Hn as [|j l Hj Hn IH]; [by apply elem_of_nil in Hk|]. cbn [each].
  destruct (decide (k = j)) as [->|Hne].
  - rewrite (seq_some _ _ _ s'); [by eapply each_none|]. unfold When, If. cbn. rewrite Hx. cbn. by zb_true (j =? j).
  - rewrite (seq_some _ _ _ s); [apply IH; set_solver|]. unfold When, If. cbn. rewrite Hx. cbn. by zb_false (k =? j).
Qed.

(** The sixteen numbers of an array of sixteen variables. *)
Lemma sixteen (a : list Z) : length a = 16%nat →
  ∃ a0 a1 a2 a3 a4 a5 a6 a7 a8 a9 a10 a11 a12 a13 a14 a15,
    a = [a0; a1; a2; a3; a4; a5; a6; a7; a8; a9; a10; a11; a12; a13; a14; a15].
Proof. intros H. do 16 (destruct a as [|? a]; [discriminate|]). destruct a; [|discriminate]. do 16 eexists. done. Qed.
