(* ===== verification/SortDemo.v ===== *)
(** * The sorting demonstration ([samples/sort.c])

    Selection sort and bubble sort on sixteen variables [a0] ... [a15] that stand
    for an array.  The file defines every function twice; [First] has the first
    definition of each, [Second] the second.  The first ones sort any sixteen
    numbers; the second ones do not. *)

From S2P Require Import Prelude TinyC.

#[local] Open Scope string_scope.
#[local] Open Scope Z_scope.
#[local] Open Scope list_scope.

Definition A_NAMES : list string := Eval vm_compute in map (nth_var "a") (seqZ 0 16).
Definition REGS : list string :=
  ["ii"; "jj"; "va"; "vb"; "tmp"; "outer"; "inner"; "midx"; "mval"; "cv"; "pass"; "swapped"; "pn"; "pdiv"; "pst"].
Definition decls : globals := ints (REGS ++ A_NAMES).

Module First.
Definition print_num : stmt :=
  If ("pn" == 0) (putchar 48)
    ("pdiv" ::= 10000;;; "pst" ::= 0;;;
     While ("pdiv" > 0)
       ("tmp" ::= "pn" / "pdiv";;;
        When ("tmp" > 0) ("pst" ::= 1);;;
        When ("pst" == 1) (putchar (48 + "tmp"));;;
        "pn" ::= "pn" - "tmp" * "pdiv";;;
        "pdiv" ::= "pdiv" / 10)).

(** [a[ii]] into [va]. *)
Definition getv : stmt := each (seqZ 0 16) (λ k, When ("ii" == k) ("va" ::= nth_var "a" k)).
(** [a[ii] = tmp]. *)
Definition setv : stmt := each (seqZ 0 16) (λ k, When ("ii" == k) (nth_var "a" k ::= "tmp")).

Definition print_arr : stmt :=
  "ii" ::= 0;;;
  While ("ii" < 16)
    (getv;;; "pn" ::= "va";;; print_num;;; putchar 32;;;
     "ii" ::= "ii" + 1);;;
  putchar 10.

Definition sel_inner : stmt :=
  "ii" ::= "inner";;; getv;;; "cv" ::= "va";;;
  When ("cv" < "mval") ("mval" ::= "cv";;; "midx" ::= "inner");;;
  "inner" ::= "inner" + 1.
Definition sel_swap : stmt :=
  "ii" ::= "outer";;; getv;;; "vb" ::= "va";;;
  "ii" ::= "midx";;; getv;;;
  "ii" ::= "outer";;; "tmp" ::= "va";;; setv;;;
  "ii" ::= "midx";;; "tmp" ::= "vb";;; setv.
Definition sel_outer : stmt :=
  "ii" ::= "outer";;; getv;;; "mval" ::= "va";;; "midx" ::= "outer";;;
  "inner" ::= "outer" + 1;;;
  While ("inner" < 16) sel_inner;;;
  When ("midx" != "outer") sel_swap;;;
  "outer" ::= "outer" + 1.
Definition sel_sort : stmt := "outer" ::= 0;;; While ("outer" < 15) sel_outer.

Definition bub_inner : stmt :=
  "ii" ::= "jj";;; getv;;; "vb" ::= "va";;;
  "ii" ::= "jj" + 1;;; getv;;;
  When ("vb" > "va")
    ("ii" ::= "jj";;; "tmp" ::= "va";;; setv;;;
     "ii" ::= "jj" + 1;;; "tmp" ::= "vb";;; setv;;;
     "swapped" ::= 1);;;
  "jj" ::= "jj" + 1.
Definition bub_outer : stmt :=
  "swapped" ::= 0;;; "jj" ::= 0;;;
  While ("jj" < "pass") bub_inner;;;
  When ("swapped" == 0) ("pass" ::= 0);;;
  "pass" ::= "pass" - 1.
Definition bub_sort : stmt := "pass" ::= 15;;; While ("pass" > 0) bub_outer.

Definition load_data : stmt :=
  assigns (zip A_NAMES [64; 34; 25; 12; 22; 11; 90; 7; 47; 83; 3; 58; 19; 72; 41; 55]).

Definition main : stmt :=
  putchars (lit "Sort Demo" ++ [10; 10]);;;
  load_data;;;
  putchars (lit "Unsorted: ");;; print_arr;;;
  load_data;;; sel_sort;;;
  putchars (lit "Selection sort: ");;; print_arr;;;
  load_data;;; bub_sort;;;
  putchars (lit "Bubble sort: ");;; print_arr;;;
  putchars (lit "Done." ++ [10]).
End First.

#[global] Arguments First.getv : simpl never.
#[global] Arguments First.setv : simpl never.
#[global] Arguments First.sel_inner : simpl never.
#[global] Arguments First.sel_swap : simpl never.
#[global] Arguments First.sel_outer : simpl never.
#[global] Arguments First.bub_inner : simpl never.
#[global] Arguments First.bub_outer : simpl never.
#[global] Arguments First.sel_sort : simpl never.
#[global] Arguments First.bub_sort : simpl never.

Example sort_demo_output :
  run decls First.main [] = Some (
    lit "Sort Demo" ++ [10; 10] ++
    lit "Unsorted: 64 34 25 12 22 11 90 7 47 83 3 58 19 72 41 55 " ++ [10] ++
    lit "Selection sort: 3 7 11 12 19 22 25 34 41 47 55 58 64 72 83 90 " ++ [10] ++
    lit "Bubble sort: 3 7 11 12 19 22 25 34 41 47 55 58 64 72 83 90 " ++ [10] ++
    lit "Done." ++ [10]).
Proof. vm_compute. reflexivity. Qed.

(** ** The store of the program

    The registers first, then the array. *)

Definition arr (a : list Z) : globals := zip A_NAMES a.

Abbreviation env ii jj va vb tmp outer inner midx mval cv pass swapped pn pdiv pst a :=
  (("ii", ii) :: ("jj", jj) :: ("va", va) :: ("vb", vb) :: ("tmp", tmp) :: ("outer", outer) :: ("inner", inner) ::
   ("midx", midx) :: ("mval", mval) :: ("cv", cv) :: ("pass", pass) :: ("swapped", swapped) :: ("pn", pn) ::
   ("pdiv", pdiv) :: ("pst", pst) :: arr a).

(** The statements that only touch the registers evaluate with the array left
    symbolic. *)
Ltac exec := cbn -[Z.add Z.sub Z.mul Z.quot i32 u8 While arr].

(** A call in front of other statements, by its lemma. *)
Ltac call lem := erewrite seq_some by (apply lem; first [done | lia]); exec.

Lemma index_cases k : 0 ≤ k < 16 →
  k = 0 ∨ k = 1 ∨ k = 2 ∨ k = 3 ∨ k = 4 ∨ k = 5 ∨ k = 6 ∨ k = 7 ∨
  k = 8 ∨ k = 9 ∨ k = 10 ∨ k = 11 ∨ k = 12 ∨ k = 13 ∨ k = 14 ∨ k = 15.
Proof. lia. Qed.

Definition at_ (a : list Z) (k : Z) : Z := a !!! Z.to_nat k.

Section regs.
Context (a : list Z) (ii jj va vb tmp outer inner midx mval cv pass swapped pn pdiv pst : Z) (i o : list Z).
Hypotheses (Ha : length a = 16%nat) (Hi : 0 ≤ ii < 16).
#[local] Set Default Proof Using "Type*".

Lemma getv_ok :
  First.getv (T (env ii jj va vb tmp outer inner midx mval cv pass swapped pn pdiv pst a) i o) =
  Some (tt, T (env ii jj (at_ a ii) vb tmp outer inner midx mval cv pass swapped pn pdiv pst a) i o).
Proof.
  destruct (sixteen a Ha) as (?&?&?&?&?&?&?&?&?&?&?&?&?&?&?&?&->).
  destruct (index_cases ii Hi) as [->|[->|[->|[->|[->|[->|[->|[->|[->|[->|[->|[->|[->|[->|[->| ->]]]]]]]]]]]]]]]; vm_compute; reflexivity.
Qed.

Lemma setv_ok :
  First.setv (T (env ii jj va vb tmp outer inner midx mval cv pass swapped pn pdiv pst a) i o) =
  Some (tt, T (env ii jj va vb tmp outer inner midx mval cv pass swapped pn pdiv pst
                 (<[Z.to_nat ii := tmp]> a)) i o).
Proof.
  destruct (sixteen a Ha) as (?&?&?&?&?&?&?&?&?&?&?&?&?&?&?&?&->).
  destruct (index_cases ii Hi) as [->|[->|[->|[->|[->|[->|[->|[->|[->|[->|[->|[->|[->|[->|[->| ->]]]]]]]]]]]]]]]; vm_compute; reflexivity.
Qed.
End regs.

Lemma sel_inner_ok a ii jj va vb tmp outer inner midx mval cv pass swapped pn pdiv pst i o :
  length a = 16%nat → 0 ≤ inner < 16 →
  First.sel_inner (T (env ii jj va vb tmp outer inner midx mval cv pass swapped pn pdiv pst a) i o) =
  Some (tt, T (env inner jj (at_ a inner) vb tmp outer (inner + 1) (if at_ a inner <? mval then inner else midx) (if at_ a inner <? mval then at_ a inner else mval) (at_ a inner) pass swapped pn pdiv pst a) i o).
Proof.
  intros Ha Hi. unfold First.sel_inner. exec. call getv_ok. destruct (at_ a inner <? mval); exec; by rewrite i32_small by word_lia.
Qed.

(** The first position of the least element from [outer] on. *)
Definition least_from (a : list Z) (outer upto m : Z) : Prop :=
  outer ≤ m < upto ∧ ∀ j, outer ≤ j < upto → at_ a m ≤ at_ a j.

Lemma sel_loop_ok a jj vb tmp outer pass swapped pn pdiv pst i o ii va inner midx mval cv :
  length a = 16%nat → 0 ≤ outer < inner → inner ≤ 16 → least_from a outer inner midx → mval = at_ a midx →
  ∃ ii' va' m cv', While ("inner" < 16) First.sel_inner
      (T (env ii jj va vb tmp outer inner midx mval cv pass swapped pn pdiv pst a) i o) =
    Some (tt, T (env ii' jj va' vb tmp outer 16 m (at_ a m) cv' pass swapped pn pdiv pst a) i o) ∧
    least_from a outer 16 m.
Proof.
  intros Ha Ho Hin0 Hm ->.
  destruct (While_run
    (λ k s, ∃ ii va inner midx cv, s = T (env ii jj va vb tmp outer inner midx (at_ a midx) cv pass swapped pn pdiv pst a) i o ∧
       outer < inner ≤ 16 ∧ least_from a outer inner midx ∧ k = Z.to_nat (16 - inner))
    (λ s, ∃ ii' va' m cv', s = T (env ii' jj va' vb tmp outer 16 m (at_ a m) cv' pass swapped pn pdiv pst a) i o ∧
       least_from a outer 16 m) ("inner" < 16)%tcc First.sel_inner)
    with (k := Z.to_nat (16 - inner)) (s := T (env ii jj va vb tmp outer inner midx (at_ a midx) cv pass swapped pn pdiv pst a) i o)
    as (s' & E & ii' & va' & m & cv' & -> & Hl).
  - intros k s (ii1 & va1 & in1 & m1 & cv1 & -> & Hin & Hl & ->). eexists. split; [reflexivity|].
    destruct (Z.ltb_spec in1 16) as [Hlt|Hge]; cbn [of_bool Z.eqb].
    + eexists _, (Z.to_nat (16 - (in1 + 1))). split; [by apply sel_inner_ok; lia|]. split; [lia|].
      exists in1, (at_ a in1), (in1 + 1), (if at_ a in1 <? at_ a m1 then in1 else m1), (at_ a in1).
      split; [by destruct (_ <? _)|]. split; [lia|]. split; [|done]. destruct Hl as [Hl1 Hl2].
      destruct (Z.ltb_spec (at_ a in1) (at_ a m1)); (split; [lia|]); intros j Hj;
        (destruct (decide (j = in1)) as [->|]; [lia|]); specialize (Hl2 j); lia.
    + assert (in1 = 16) as -> by lia. by do 4 eexists.
  - exists ii, va, inner, midx, cv. split_and!; done || lia.
  - unfold ROUNDS. lia.
  - do 4 eexists. done.
Qed.

(** The swap of two elements. *)
Definition swap_at (a : list Z) (p q : Z) : list Z := <[Z.to_nat q := at_ a p]> (<[Z.to_nat p := at_ a q]> a).

Lemma sel_swap_ok a ii jj va vb tmp outer inner midx mval cv pass swapped pn pdiv pst i o :
  length a = 16%nat → 0 ≤ outer < 16 → 0 ≤ midx < 16 →
  First.sel_swap (T (env ii jj va vb tmp outer inner midx mval cv pass swapped pn pdiv pst a) i o) =
  Some (tt, T (env midx jj (at_ a midx) (at_ a outer) (at_ a outer) outer inner midx mval cv pass swapped pn pdiv pst
                 (swap_at a outer midx)) i o).
Proof.
  intros Ha Ho Hm. unfold First.sel_swap. exec. call getv_ok. call getv_ok. call setv_ok.
  apply setv_ok; [by rewrite length_insert|done].
Qed.

Lemma at_lookup a k : 0 ≤ k < Z.of_nat (length a) → a !! Z.to_nat k = Some (at_ a k).
Proof. intros Hk. unfold at_. apply list_lookup_lookup_total_lt. lia. Qed.

Section swap.
Context (a : list Z) (p q : Z).
Hypotheses (Hp : 0 ≤ p < Z.of_nat (length a)) (Hq : 0 ≤ q < Z.of_nat (length a)).
#[local] Set Default Proof Using "Type*".

Lemma swap_at_length : length (swap_at a p q) = length a.
Proof. unfold swap_at. by rewrite !length_insert. Qed.

Lemma swap_at_perm : swap_at a p q ≡ₚ a.
Proof. unfold swap_at. apply Permutation_insert_swap; by apply at_lookup. Qed.

Lemma at_swap_at j : 0 ≤ j < Z.of_nat (length a) →
  at_ (swap_at a p q) j = if j =? q then at_ a p else if j =? p then at_ a q else at_ a j.
Proof.
  intros Hj. unfold swap_at, at_ at 1. destruct (Z.eqb_spec j q) as [->|Hjq].
  - apply list_lookup_total_insert_eq. rewrite length_insert. lia.
  - rewrite list_lookup_total_insert_ne by lia. destruct (Z.eqb_spec j p) as [->|Hjp].
    + apply list_lookup_total_insert_eq. lia.
    + by rewrite list_lookup_total_insert_ne by lia.
Qed.
End swap.

(** A round of selection sort puts the least of the rest at [outer]. *)
Lemma sel_outer_ok a ii jj va vb tmp outer inner midx mval cv pass swapped pn pdiv pst i o :
  length a = 16%nat → 0 ≤ outer < 15 →
  ∃ ii' va' vb' tmp' inner' m mval' cv',
    First.sel_outer (T (env ii jj va vb tmp outer inner midx mval cv pass swapped pn pdiv pst a) i o) =
    Some (tt, T (env ii' jj va' vb' tmp' (outer + 1) inner' m mval' cv' pass swapped pn pdiv pst (swap_at a outer m)) i o) ∧
    least_from a outer 16 m.
Proof.
  intros Ha Ho. unfold First.sel_outer. exec. call getv_ok. rewrite i32_small by word_lia.
  destruct (sel_loop_ok a jj vb tmp outer pass swapped pn pdiv pst i o outer (at_ a outer) (outer + 1) outer (at_ a outer) cv)
    as (ii' & va' & m & cv' & E & Hl); try done; try lia.
  { split; [lia|]. intros j Hj. replace j with outer by lia. lia. }
  erewrite seq_some by exact E. exec. destruct (Z.eqb_spec m outer) as [->|Hne]; exec.
  - do 4 eexists. exists 16, outer. do 2 eexists. split; [|exact Hl]. rewrite i32_small by word_lia. repeat f_equal.
    unfold swap_at. rewrite !list_insert_id; [done|by apply at_lookup; lia|]. rewrite list_lookup_insert_eq by lia. done.
  - pose proof Hl as [Hm _]. rewrite sel_swap_ok by (done || lia). exec. rewrite i32_small by word_lia.
    do 8 eexists. split; [reflexivity|done].
Qed.

(** ** Selection sort *)

Definition head_sorted (a : list Z) (n : Z) : Prop := ∀ p q, 0 ≤ p < n → p ≤ q < 16 → at_ a p ≤ at_ a q.

Lemma head_sorted_step a n m : length a = 16%nat → 0 ≤ n < 16 → head_sorted a n → least_from a n 16 m → head_sorted (swap_at a n m) (n + 1).
Proof.
  intros Ha Hn Hs [Hm Hl] p q Hp Hq. rewrite !at_swap_at by lia. pose proof (Hl n). pose proof (Hl q).
  pose proof (Hs p m). pose proof (Hs p n). pose proof (Hs p q). destruct (decide (m = n)) as [->|]; bool_cases; subst; lia.
Qed.

Lemma Sorted_at a : (∀ k, 0 ≤ k → k + 1 < Z.of_nat (length a) → at_ a k ≤ at_ a (k + 1)) → Sorted Z.le a.
Proof.
  induction a as [|x [|y a] IH]; intros Hk; [constructor|repeat constructor|]. constructor.
  - apply IH. intros k H0 H1. specialize (Hk (k + 1)). unfold at_ in *.
    replace (Z.to_nat (k + 1 + 1)) with (S (Z.to_nat (k + 1))) in Hk by lia.
    replace (Z.to_nat (k + 1)) with (S (Z.to_nat k)) in Hk |- * by lia. apply Hk; [lia|simpl in *; lia].
  - constructor. apply (Hk 0); simpl; lia.
Qed.

(** The state with the registers that do not matter left open. *)
Definition holds (a : list Z) (i o : list Z) (s : tst) : Prop :=
  ∃ ii jj va vb tmp outer inner midx mval cv pass swapped pn pdiv pst,
    s = T (env ii jj va vb tmp outer inner midx mval cv pass swapped pn pdiv pst a) i o.

Lemma sel_sort_ok a i o s : length a = 16%nat → holds a i o s →
  ∃ a' s', First.sel_sort s = Some (tt, s') ∧ holds a' i o s' ∧ a' ≡ₚ a ∧ Sorted Z.le a'.
Proof.
  intros Ha (ii & jj & va & vb & tmp & outer & inner & midx & mval & cv & pass & swapped & pn & pdiv & pst & ->).
  unfold First.sel_sort. exec.
  destruct (While_run
    (λ k s, ∃ a1 ii va vb tmp outer inner midx mval cv, k = Z.to_nat (15 - outer) ∧
       s = T (env ii jj va vb tmp outer inner midx mval cv pass swapped pn pdiv pst a1) i o ∧
       0 ≤ outer ≤ 15 ∧ a1 ≡ₚ a ∧ head_sorted a1 outer)
    (λ s, ∃ a', holds a' i o s ∧ a' ≡ₚ a ∧ head_sorted a' 15) ("outer" < 15)%tcc First.sel_outer)
    with (k := 15%nat) (s := T (env ii jj va vb tmp 0 inner midx mval cv pass swapped pn pdiv pst a) i o)
    as (s' & E & a' & Hh & Hp & Hs).
  - intros k s (a1 & ii1 & va1 & vb1 & tmp1 & outer1 & in1 & m1 & mv1 & cv1 & -> & -> & Ho & Hp & Hs). eexists. split; [reflexivity|].
    assert (length a1 = 16%nat) as Ha1 by (by rewrite (Permutation_length Hp)).
    destruct (Z.ltb_spec outer1 15); cbn [of_bool Z.eqb].
    + destruct (sel_outer_ok a1 ii1 jj va1 vb1 tmp1 outer1 in1 m1 mv1 cv1 pass swapped pn pdiv pst i o) as (ii2&va2&vb2&tmp2&in2&m&mv2&cv2&E&Hl); try done; try lia.
      eexists _, _. split; [exact E|]. split; [|eexists (swap_at a1 outer1 m), _, _, _, _, (outer1 + 1), _, _, _, _; split; [reflexivity|]]; [lia|].
      split; [reflexivity|]. split; [lia|]. pose proof Hl as [Hm _].
      split; [by rewrite swap_at_perm by lia|]. apply head_sorted_step; done || lia.
    + exists a1. replace outer1 with 15 in * by lia. split_and!; [|done|done]. by repeat eexists.
  - exists a. do 9 eexists. split; [|split; [reflexivity|]]; [done|]. split; [lia|]. split; [done|]. intros p q ?; lia.
  - unfold ROUNDS. lia.
  - exists a', s'. split_and!; [done|done|done|]. pose proof (Permutation_length Hp).
    apply Sorted_at. intros k Hk0 Hk. apply Hs; lia.
Qed.

(** ** Bubble sort *)

(** Everything behind [p] is in place. *)
Definition tail_sorted (a : list Z) (p : Z) : Prop := ∀ j k, 0 ≤ j ≤ k → p < k < 16 → at_ a j ≤ at_ a k.

Definition bub_step (a : list Z) (j : Z) : list Z :=
  if at_ a (j + 1) <? at_ a j then swap_at a j (j + 1) else a.

Lemma bub_inner_ok a ii jj va vb tmp outer inner midx mval cv pass swapped pn pdiv pst i o :
  length a = 16%nat → 0 ≤ jj < 15 →
  ∃ ii' va' vb' tmp',
    First.bub_inner (T (env ii jj va vb tmp outer inner midx mval cv pass swapped pn pdiv pst a) i o) =
    Some (tt, T (env ii' (jj + 1) va' vb' tmp' outer inner midx mval cv pass
                   (if at_ a (jj + 1) <? at_ a jj then 1 else swapped) pn pdiv pst (bub_step a jj)) i o).
Proof.
  intros Ha Hj. unfold First.bub_inner. exec. call getv_ok. rewrite !i32_small by word_lia. call getv_ok.
  unfold bub_step. destruct (at_ a (jj + 1) <? at_ a jj); exec.
  - call setv_ok.
    rewrite !i32_small by word_lia. erewrite seq_some by (apply setv_ok; [by rewrite length_insert|lia]). exec.
    rewrite !i32_small by word_lia. by do 4 eexists.
  - rewrite !i32_small by word_lia. by do 4 eexists.
Qed.

Lemma bub_step_perm a j : length a = 16%nat → 0 ≤ j < 15 → bub_step a j ≡ₚ a.
Proof. intros Ha Hj. unfold bub_step. destruct (_ <? _); [|done]. apply swap_at_perm; lia. Qed.

(** What the inner loop has done when it is at [j]. *)
Record bubbling (a0 a : list Z) (pass j swapped : Z) : Prop := {
  bu_perm : a ≡ₚ a0;
  bu_tail : tail_sorted a pass;
  bu_max : ∀ k, 0 ≤ k ≤ j → at_ a k ≤ at_ a j;
  bu_flag : swapped = 0 → ∀ k, 0 ≤ k < j → at_ a k ≤ at_ a (k + 1)
}.

Lemma bubbling_step a0 a pass j sw : length a = 16%nat → 0 ≤ j < pass → pass ≤ 15 → bubbling a0 a pass j sw →
  bubbling a0 (bub_step a j) pass (j + 1) (if at_ a (j + 1) <? at_ a j then 1 else sw).
Proof.
  intros Ha Hj Hp [Hperm Htail Hmax Hflag]. split.
  - rewrite bub_step_perm by lia. done.
  - unfold bub_step. destruct (Z.ltb_spec (at_ a (j + 1)) (at_ a j)); [|done]. intros x y Hx Hy.
    rewrite !at_swap_at by lia. pose proof (Htail j y). pose proof (Htail (j + 1) y). pose proof (Htail x y). bool_cases; lia.
  - unfold bub_step. destruct (Z.ltb_spec (at_ a (j + 1)) (at_ a j)).
    + intros k Hk. rewrite !at_swap_at by lia. pose proof (Hmax k). bool_cases; lia.
    + intros k Hk. pose proof (Hmax k). destruct (decide (k = j + 1)) as [->|]; lia.
  - unfold bub_step. destruct (Z.ltb_spec (at_ a (j + 1)) (at_ a j)); [done|]. intros -> k Hk.
    destruct (decide (k = j)) as [->|]; [done|]. apply Hflag; [done|lia].
Qed.

Section bubble.
Context (a0 : list Z) (outer inner midx mval cv pn pdiv pst : Z) (i o : list Z).
Hypothesis (Ha0 : length a0 = 16%nat).
#[local] Set Default Proof Using "Type*".

Lemma bub_loop_ok a pass ii jj va vb tmp sw :
  0 ≤ jj ≤ pass → pass ≤ 15 → bubbling a0 a pass jj sw →
  ∃ ii' va' vb' tmp' sw' a', While ("jj" < "pass") First.bub_inner
      (T (env ii jj va vb tmp outer inner midx mval cv pass sw pn pdiv pst a) i o) =
    Some (tt, T (env ii' pass va' vb' tmp' outer inner midx mval cv pass sw' pn pdiv pst a') i o) ∧
    bubbling a0 a' pass pass sw'.
Proof.
  intros Hj Hp HB.
  destruct (While_run
    (λ k s, ∃ ii jj va vb tmp sw a, k = Z.to_nat (pass - jj) ∧
       s = T (env ii jj va vb tmp outer inner midx mval cv pass sw pn pdiv pst a) i o ∧
       0 ≤ jj ≤ pass ∧ bubbling a0 a pass jj sw)
    (λ s, ∃ ii va vb tmp sw a, s = T (env ii pass va vb tmp outer inner midx mval cv pass sw pn pdiv pst a) i o ∧
       bubbling a0 a pass pass sw) ("jj" < "pass")%tcc First.bub_inner)
    with (k := Z.to_nat (pass - jj)) (s := T (env ii jj va vb tmp outer inner midx mval cv pass sw pn pdiv pst a) i o)
    as (s' & E & ii' & va' & vb' & tmp' & sw' & a' & -> & HB').
  - intros k s (ii1 & j1 & va1 & vb1 & tmp1 & sw1 & a1 & -> & -> & Hj1 & HB1). eexists. split; [reflexivity|].
    assert (length a1 = 16%nat) as Ha1 by (by rewrite (Permutation_length (bu_perm _ _ _ _ _ HB1))).
    destruct (Z.ltb_spec j1 pass); cbn [of_bool Z.eqb].
    + destruct (bub_inner_ok a1 ii1 j1 va1 vb1 tmp1 outer inner midx mval cv pass sw1 pn pdiv pst i o) as (ii2&va2&vb2&tmp2&E); try done; try lia.
      eexists _, (Z.to_nat (pass - (j1 + 1))). split; [exact E|]. split; [lia|]. do 7 eexists.
      split; [reflexivity|]. split; [reflexivity|]. split; [lia|]. apply bubbling_step; done || lia.
    + replace j1 with pass in * by lia. by do 6 eexists.
  - exists ii, jj, va, vb, tmp, sw, a. by split_and!; try lia.
  - unfold ROUNDS. lia.
  - by do 6 eexists.
Qed.

(** A pass puts the greatest of the rest at [pass]; a pass without a swap finds
    everything sorted. *)
Lemma bub_outer_ok a pass ii jj va vb tmp sw :
  0 < pass ≤ 15 → a ≡ₚ a0 → tail_sorted a pass →
  ∃ ii' jj' va' vb' tmp' pass' sw' a', First.bub_outer
      (T (env ii jj va vb tmp outer inner midx mval cv pass sw pn pdiv pst a) i o) =
    Some (tt, T (env ii' jj' va' vb' tmp' outer inner midx mval cv pass' sw' pn pdiv pst a') i o) ∧
    -1 ≤ pass' < pass ∧ a' ≡ₚ a0 ∧ tail_sorted a' pass'.
Proof.
  intros Hp Hperm Ht. unfold First.bub_outer. exec.
  destruct (bub_loop_ok a pass ii 0 va vb tmp 0) as (ii' & va' & vb' & tmp' & sw' & a' & E & [Bp Bt Bm Bf]); [lia|lia| |].
  { split; [done|done| |]; intros; [replace k with 0 by lia; lia|lia]. }
  erewrite seq_some by exact E. exec. destruct (Z.eqb_spec sw' 0) as [->|Hsw]; exec; rewrite i32_small by word_lia.
  - do 8 eexists. split; [reflexivity|]. split; [lia|]. split; [done|]. intros j k Hj Hk.
    destruct (decide (pass < k)); [by apply Bt; lia|].
    assert (∀ d : nat, j + Z.of_nat d ≤ pass → at_ a' j ≤ at_ a' (j + Z.of_nat d)) as Hup.
    { intros d. induction d as [|d IH]; intros Hd; [by rewrite Z.add_0_r|]. pose proof (Bf eq_refl (j + Z.of_nat d)).
      replace (j + Z.of_nat d + 1) with (j + Z.of_nat (S d)) in * by lia. lia. }
    specialize (Hup (Z.to_nat (k - j))). replace (j + Z.of_nat (Z.to_nat (k - j))) with k in Hup by lia. lia.
  - do 8 eexists. split; [reflexivity|]. split; [lia|]. split; [done|]. intros j k Hj Hk.
    destruct (decide (k = pass)) as [->|]; [apply Bm; lia|apply Bt; lia].
Qed.
End bubble.

Lemma bub_sort_ok a i o s : length a = 16%nat → holds a i o s →
  ∃ a' s', First.bub_sort s = Some (tt, s') ∧ holds a' i o s' ∧ a' ≡ₚ a ∧ Sorted Z.le a'.
Proof.
  intros Ha (ii & jj & va & vb & tmp & outer & inner & midx & mval & cv & pass & swapped & pn & pdiv & pst & ->).
  unfold First.bub_sort. exec.
  destruct (While_run
    (λ k s, ∃ a1 ii jj va vb tmp pass sw, k = Z.to_nat (pass + 1) ∧
       s = T (env ii jj va vb tmp outer inner midx mval cv pass sw pn pdiv pst a1) i o ∧
       -1 ≤ pass ≤ 15 ∧ a1 ≡ₚ a ∧ tail_sorted a1 pass)
    (λ s, ∃ a', holds a' i o s ∧ a' ≡ₚ a ∧ tail_sorted a' 0) ("pass" > 0)%tcc First.bub_outer)
    with (k := 16%nat) (s := T (env ii jj va vb tmp outer inner midx mval cv 15 swapped pn pdiv pst a) i o)
    as (s' & E & a' & Hh & Hp & Hs).
  - intros k s (a1 & ii1 & jj1 & va1 & vb1 & tmp1 & p1 & sw1 & -> & -> & Hp1 & Hp & Hs). eexists. split; [reflexivity|].
    cbv beta. destruct (Z.ltb_spec 0 p1); cbn [of_bool Z.eqb].
    + destruct (bub_outer_ok a outer inner midx mval cv pn pdiv pst i o Ha a1 p1 ii1 jj1 va1 vb1 tmp1 sw1)
        as (ii2&jj2&va2&vb2&tmp2&p2&sw2&a2&E&Hp2&Hperm&Ht); [lia|done|done|].
      eexists _, (Z.to_nat (p2 + 1)). split; [exact E|]. split; [lia|]. exists a2, ii2, jj2, va2, vb2, tmp2, p2, sw2.
      by split_and!; try lia.
    + exists a1. split_and!; [by repeat eexists|done|]. intros j k Hj Hk. apply Hs; lia.
  - exists a. do 7 eexists. split; [|split; [reflexivity|]]; [done|]. split; [lia|]. split; [done|]. intros p q ?; lia.
  - unfold ROUNDS. lia.
  - exists a', s'. split_and!; [done|done|done|]. pose proof (Permutation_length Hp).
    apply Sorted_at. intros k Hk0 Hk. apply Hs; lia.
Qed.

(** [C32] Both sorts, started with any sixteen numbers in [a0] ... [a15], end with
    the same numbers in ascending order, and print and read nothing. *)
Theorem sort_demo_sorts (a i o : list Z) (s : tst) :
  length a = 16%nat → holds a i o s →
  ∃ b s1 s2, First.sel_sort s = Some (tt, s1) ∧ holds b i o s1 ∧
    First.bub_sort s = Some (tt, s2) ∧ holds b i o s2 ∧
    b ≡ₚ a ∧ Sorted Z.le b.
Proof.
  intros Ha Hs. destruct (sel_sort_ok a i o s Ha Hs) as (b & s1 & E1 & H1 & P1 & S1).
  destruct (bub_sort_ok a i o s Ha Hs) as (b2 & s2 & E2 & H2 & P2 & S2).
  assert (b2 = b) as -> by (apply (Sorted_unique Z.le); [done..|by rewrite P1, P2]).
  by exists b, s1, s2.
Qed.

(** ** The second definitions *)

Module Second.
Import First.

(** The locals of the two sorts and [pstart] next to the globals. *)
Definition decls : globals := ints (["av"; "bv"; "pstart"] ++ REGS ++ A_NAMES).

Definition print_num : stmt :=
  If ("pn" == 0) (putchar 48)
    ("pdiv" ::= 10000;;; "pstart" ::= 0;;;
     While ("pdiv" > 0)
       ("tmp" ::= "pn" / "pdiv";;;
        When ("tmp" > 0) ("pstart" ::= 1);;;
        When ("pstart" == 1) (putchar (48 + "tmp"));;;
        "pn" ::= "pn" - "tmp" * "pdiv";;;
        "pdiv" ::= "pdiv" / 10)).

(** [getv], [setv] and [load_data] are repeated word for word. *)
Definition getv : stmt := First.getv.
Definition setv : stmt := First.setv.
Definition load_data : stmt := First.load_data.

Definition print_arr : stmt :=
  "ii" ::= 0;;;
  While ("ii" < 16)
    (getv;;; "pn" ::= "va";;; print_num;;; putchar 32;;;
     "ii" ::= "ii" + 1);;;
  putchar 10.

Definition swapv : stmt :=
  getv;;; "va" ::= "va";;;
  "tmp" ::= "ii";;; "ii" ::= "jj";;; getv;;; "vb" ::= "va";;; "ii" ::= "tmp";;;
  "tmp" ::= "vb";;; setv;;;
  "ii" ::= "jj";;; "tmp" ::= "va";;; setv;;;
  "ii" ::= "ii".

Definition sel_swap : stmt :=
  "ii" ::= "outer";;; getv;;; "va" ::= "va";;;
  "ii" ::= "midx";;; getv;;; "vb" ::= "va";;;
  "ii" ::= "outer";;; "tmp" ::= "vb";;; setv;;;
  "ii" ::= "midx";;; "tmp" ::= "va";;; setv.
Definition sel_outer : stmt :=
  "ii" ::= "outer";;; getv;;; "mval" ::= "va";;; "midx" ::= "outer";;;
  "inner" ::= "outer" + 1;;;
  While ("inner" < 16) sel_inner;;;
  When ("midx" != "outer") sel_swap;;;
  "outer" ::= "outer" + 1.
Definition sel_sort : stmt := "outer" ::= 0;;; While ("outer" < 15) sel_outer.

Definition bub_inner : stmt :=
  getv;;; "av" ::= "va";;;
  "jj" ::= "ii" + 1;;; "tmp" ::= "ii";;; "ii" ::= "jj";;; getv;;; "bv" ::= "va";;; "ii" ::= "tmp";;;
  When ("av" > "bv")
    ("tmp" ::= "bv";;; setv;;;
     "ii" ::= "jj";;; "tmp" ::= "av";;; setv;;; "ii" ::= "tmp";;;
     "swapped" ::= 1);;;
  "ii" ::= "ii" + 1.
Definition bub_outer : stmt :=
  "swapped" ::= 0;;; "ii" ::= 0;;;
  While ("ii" < "pass") bub_inner;;;
  When ("swapped" == 0) ("pass" ::= 0);;;
  "pass" ::= "pass" - 1.
Definition bub_sort : stmt := "pass" ::= 15;;; While ("pass" > 0) bub_outer.

Definition main : stmt :=
  putchars (lit "Sort Demo" ++ [10; 10]);;;
  load_data;;;
  putchars (lit "Unsorted: ");;; print_arr;;;
  load_data;;; sel_sort;;;
  putchars (lit "Selection sort: ");;; print_arr;;;
  load_data;;; bub_sort;;;
  putchars (lit "Bubble sort: ");;; print_arr;;;
  putchars (lit "Done." ++ [10]).

Definition values (c : stmt) (a : list Z) : option (list Z) :=
  '(_, s) ← c (T (ints (["av"; "bv"; "pstart"] ++ REGS) ++ zip A_NAMES a) [] []);
  mapM (λ x, get x (vars s)) A_NAMES.
End Second.

Definition demo_data : list Z := [64; 34; 25; 12; 22; 11; 90; 7; 47; 83; 3; 58; 19; 72; 41; 55].

Lemma sort_demo_sorts_witness :
  ∃ b s1 s2, First.sel_sort (T (ints REGS ++ arr demo_data) [] []) = Some (tt, s1) ∧ holds b [] [] s1 ∧
    First.bub_sort (T (ints REGS ++ arr demo_data) [] []) = Some (tt, s2) ∧ holds b [] [] s2 ∧
    b ≡ₚ demo_data ∧ Sorted Z.le b.
Proof. apply (sort_demo_sorts demo_data [] [] (T (ints REGS ++ arr demo_data) [] [])); [reflexivity|]. by repeat eexists. Defined.

(** The second selection sort loses the number it should move away, the second
    bubble sort takes a number for an index after a swap and stops early: on the
    data of the demonstration neither leaves the numbers in order. *)
Theorem second_sorts_do_not_sort :
  Second.values Second.sel_sort demo_data = Some [3; 3; 3; 3; 3; 3; 3; 3; 3; 3; 3; 19; 19; 41; 41; 55] ∧
  Second.values Second.bub_sort demo_data = Some [11; 12; 22; 25; 34; 64; 90; 7; 47; 83; 3; 58; 19; 72; 41; 55].
Proof. split; vm_compute; reflexivity. Qed.
