(* ===== verification/Brainf.v ===== *)
(** * The Brainfuck interpreter ([samples/bf.c])

    The tape and the program are global variables [t0] ... and [p0] ..., reached
    through chains of comparisons; the jumps know the positions of the brackets of
    the one program the file holds.  The file uses [n], [from] and [aux] without a
    declaration, so it is no valid program: it faults at the first bracket, where
    [n] is assigned ([bf_undeclared]).

    What the file would do with the three declarations added ([repaired]) is
    compared with a machine that runs any program: it finds the
    matching bracket by counting, and stops at what the interpreter does not
    support (a cell outside the first ten, a negative cell at a closing bracket, a
    cell that overflows). *)

From S2P Require Import Prelude TinyC.

#[local] Open Scope string_scope.
#[local] Open Scope Z_scope.
#[local] Open Scope list_scope.

Definition T_NAMES : list string := Eval vm_compute in map (nth_var "t") (seqZ 0 20).
Definition P_NAMES : list string := Eval vm_compute in map (nth_var "p") (seqZ 0 107).
Definition REGS : list string := ["pc"; "dp"; "ch"; "depth"; "plen"].
Definition decls : globals := ints (REGS ++ P_NAMES ++ T_NAMES).

(** Not in the file: the declarations it lacks. *)
Definition MISSING : list string := ["n"; "from"; "aux"].
Definition repaired : globals := ints (REGS ++ MISSING ++ P_NAMES ++ T_NAMES).

(** The assignments [p0=43; ... p105=46;]. *)
Definition PROGRAM : list Z :=
  [43; 43; 43; 43; 43; 43; 43; 43; 91; 62; 43; 43; 43; 43; 91; 62; 43; 43; 62; 43; 43; 43; 62; 43; 43; 43; 62; 43;
   60; 60; 60; 60; 45; 93; 62; 43; 62; 43; 62; 45; 62; 62; 43; 91; 60; 93; 60; 45; 93; 62; 62; 46; 62; 45; 45; 45;
   46; 43; 43; 43; 43; 43; 43; 43; 46; 46; 43; 43; 43; 46; 62; 62; 46; 60; 45; 46; 60; 46; 43; 43; 43; 46; 45; 45;
   45; 45; 45; 45; 46; 45; 45; 45; 45; 45; 45; 45; 45; 46; 62; 62; 43; 46; 62; 43; 43; 46].

(** It is the program of the comment. *)
Example program_text : PROGRAM =
  lit "++++++++[>++++[>++>+++>+++>+<<<<-]>+>+>->>+[<]<-]>>.>---.+++++++..+++.>>.<-.<.+++.------.--------.>>+.>++.".
Proof. vm_compute. reflexivity. Qed.

Definition load_program : stmt := assigns (zip P_NAMES PROGRAM);;; "plen" ::= 106.
Definition clear_tape : stmt := assigns (ints T_NAMES).

(** "Get current instruction" *)
Definition fetch : stmt := "ch" ::= 0;;; each (seqZ 0 106) (λ k, When ("pc" == k) ("ch" ::= nth_var "p" k)).

Definition increment : stmt := each (seqZ 0 10) (λ k, When ("dp" == k) (nth_var "t" k ::= nth_var "t" k + 1)).
Definition decrement : stmt := each (seqZ 0 10) (λ k, When ("dp" == k) (nth_var "t" k ::= nth_var "t" k - 1)).
Definition load_cell : stmt := "n" ::= 0;;; each (seqZ 0 10) (λ k, When ("dp" == k) ("n" ::= nth_var "t" k)).

(** [while (depth > 0)] of ['['] *)
Definition skip_forward : stmt :=
  "pc" ::= "pc" + 1;;;
  "n" ::= 0;;;
  When ("pc" == 14) ("n" ::= 91);;; When ("pc" == 33) ("n" ::= 93);;; When ("pc" == 43) ("n" ::= 91);;;
  When ("pc" == 45) ("n" ::= 93);;; When ("pc" == 48) ("n" ::= 93);;; When ("pc" == 8) ("n" ::= 91);;;
  "from" ::= 0;;;
  When ("pc" < "plen")
    ("aux" ::= 0;;;
     When ("pc" == 8) ("aux" ::= "p8");;; When ("pc" == 14) ("aux" ::= "p14");;; When ("pc" == 33) ("aux" ::= "p33");;;
     When ("pc" == 43) ("aux" ::= "p43");;; When ("pc" == 45) ("aux" ::= "p45");;; When ("pc" == 48) ("aux" ::= "p48"));;;
  When ("pc" == 14) ("depth" ::= "depth" + 1);;; When ("pc" == 43) ("depth" ::= "depth" + 1);;;
  When ("pc" == 33) ("depth" ::= "depth" - 1);;; When ("pc" == 45) ("depth" ::= "depth" - 1);;;
  When ("pc" == 48) ("depth" ::= "depth" - 1).

(** [while (depth > 0)] of [']'] *)
Definition skip_back : stmt :=
  "pc" ::= "pc" - 1;;;
  When ("pc" == 8) ("depth" ::= "depth" - 1);;; When ("pc" == 14) ("depth" ::= "depth" - 1);;;
  When ("pc" == 43) ("depth" ::= "depth" - 1);;; When ("pc" == 33) ("depth" ::= "depth" + 1);;;
  When ("pc" == 45) ("depth" ::= "depth" + 1);;; When ("pc" == 48) ("depth" ::= "depth" + 1).

Definition execute : stmt :=
  When ("ch" == 43) increment;;;
  When ("ch" == 45) decrement;;;
  When ("ch" == 62) ("dp" ::= "dp" + 1);;;
  When ("ch" == 60) ("dp" ::= "dp" - 1);;;
  When ("ch" == 46) (load_cell;;; putchar "n");;;
  When ("ch" == 91)
    (load_cell;;;
     When ("n" == 0) ("depth" ::= 1;;; While ("depth" > 0) skip_forward));;;
  When ("ch" == 93)
    (load_cell;;;
     When ("n" > 0) ("depth" ::= 1;;; While ("depth" > 0) skip_back)).

(** One round of [while (pc < plen)]. *)
Definition bf_step : stmt := fetch;;; execute;;; "pc" ::= "pc" + 1.

Definition main : stmt :=
  putchars (lit "BF Interpreter" ++ [10; 10]);;;
  load_program;;; clear_tape;;;
  "pc" ::= 0;;; "dp" ::= 0;;;
  While ("pc" < "plen") bf_step;;;
  putchars ([10] ++ lit "Done" ++ [10]).

(** The file as it is: eight increments, then the bracket uses [n]. *)
Theorem bf_undeclared (input : list Z) : run decls main input = None.
Proof. vm_compute. reflexivity. Qed.

Example bf_output :
  run repaired main [] = Some (lit "BF Interpreter" ++ [10; 10] ++ lit "Hello World!" ++ [10; 10] ++ lit "Done" ++ [10]).
Proof. vm_compute. reflexivity. Qed.

(** ** The reference machine *)

Record bf := Bf { b_pc : Z; b_dp : Z; b_tape : list Z; b_out : list Z }.

(** The position of the bracket that closes the level: [c] closes, [o] opens
    another one, [depth] levels are open. *)
Fixpoint scan (o c : Z) (rest : list Z) (depth : nat) (i step : Z) : option Z :=
  match rest with
  | [] => None
  | x :: rest' =>
      if x =? c then match depth with O => Some i | S d => scan o c rest' d (i + step) step end
      else scan o c rest' (if x =? o then S depth else depth) (i + step) step
  end.
Definition match_right (prog : list Z) (pc : Z) : option Z :=
  scan 91 93 (drop (Z.to_nat (pc + 1)) prog) 0 (pc + 1) 1.
Definition match_left (prog : list Z) (pc : Z) : option Z :=
  scan 93 91 (reverse (take (Z.to_nat pc) prog)) 0 (pc - 1) (-1).

Definition cell (b : bf) : Z := b_tape b !!! Z.to_nat (b_dp b).
Definition write_cell (x : Z) (b : bf) : option bf :=
  if (-2147483648 <=? x) && (x <? 2147483648)
  then Some (Bf (b_pc b + 1) (b_dp b) (<[Z.to_nat (b_dp b) := x]> (b_tape b)) (b_out b)) else None.
Definition jump (pc : Z) (b : bf) : bf := Bf (pc + 1) (b_dp b) (b_tape b) (b_out b).

Definition ref_step (prog : list Z) (b : bf) : option bf :=
  c ← prog !! Z.to_nat (b_pc b);
  if (b_dp b <? 0) || (10 <=? b_dp b) then None
  else if c =? chr "+" then write_cell (cell b + 1) b
  else if c =? chr "-" then write_cell (cell b - 1) b
  else if c =? chr ">" then Some (Bf (b_pc b + 1) (b_dp b + 1) (b_tape b) (b_out b))
  else if c =? chr "<" then Some (Bf (b_pc b + 1) (b_dp b - 1) (b_tape b) (b_out b))
  else if c =? chr "." then Some (Bf (b_pc b + 1) (b_dp b) (b_tape b) (u8 (cell b) :: b_out b))
  else if c =? chr "[" then
    if cell b =? 0 then t ← match_right prog (b_pc b); Some (jump t b) else Some (jump (b_pc b) b)
  else if c =? chr "]" then
    if cell b <? 0 then None
    else if cell b =? 0 then Some (jump (b_pc b) b)
    else t ← match_left prog (b_pc b); Some (jump t b)
  else Some (jump (b_pc b) b).

Fixpoint ref_run (k : nat) (prog : list Z) (b : bf) : option bf :=
  match k with O => Some b | S k' => b ← ref_step prog b; ref_run k' prog b end.

(** ** The interpreter does what the machine does *)

Definition program_vars : globals := zip P_NAMES (PROGRAM ++ [0]).
Definition tape_vars (t : list Z) : globals := zip T_NAMES t.

Abbreviation env pc dp ch depth n from aux t :=
  (("pc", pc) :: ("dp", dp) :: ("ch", ch) :: ("depth", depth) :: ("plen", 106) :: ("n", n) :: ("from", from) ::
   ("aux", aux) :: program_vars ++ tape_vars t).

Definition represents (b : bf) (i : list Z) (s : tst) : Prop :=
  0 ≤ b_pc b ≤ 106 ∧ length (b_tape b) = 20%nat ∧
  ∃ ch depth n from aux, s = T (env (b_pc b) (b_dp b) ch depth n from aux (b_tape b)) i (b_out b).

#[global] Arguments fetch : simpl never.
#[global] Arguments increment : simpl never.
#[global] Arguments decrement : simpl never.
#[global] Arguments load_cell : simpl never.
#[global] Arguments skip_forward : simpl never.
#[global] Arguments skip_back : simpl never.
#[local] Arguments program_vars : simpl never.
#[local] Arguments tape_vars : simpl never.
Ltac exec := cbn -[Z.add Z.sub i32 u8 While program_vars tape_vars app].

Lemma fetch_ok pc dp ch depth n from aux t i o : 0 ≤ pc < 106 →
  fetch (T (env pc dp ch depth n from aux t) i o) =
  Some (tt, T (env pc dp (PROGRAM !!! Z.to_nat pc) depth n from aux t) i o).
Proof.
  intros Hpc. rewrite <- (Z2Nat.id pc) by lia. rewrite Nat2Z.id. assert (Z.to_nat pc < 106)%nat as Hk by lia.
  revert Hk. generalize (Z.to_nat pc) as k. intros k Hk.
  do 106 (destruct k as [|k]; [vm_compute; reflexivity|]). lia.
Qed.

Lemma twenty (t : list Z) : length t = 20%nat →
  ∃ t0 t1 t2 t3 t4 t5 t6 t7 t8 t9 t10 t11 t12 t13 t14 t15 t16 t17 t18 t19,
    t = [t0; t1; t2; t3; t4; t5; t6; t7; t8; t9; t10; t11; t12; t13; t14; t15; t16; t17; t18; t19].
Proof. intros H. do 20 (destruct t as [|? t]; [discriminate|]). destruct t; [|discriminate]. do 20 eexists. done. Qed.

(** A statement that depends on the position [dp] only, cell by cell. *)
Ltac cells t dp :=
  let H := fresh in
  match goal with Ht : length t = 20%nat |- _ => destruct (twenty t Ht) as (?&?&?&?&?&?&?&?&?&?&?&?&?&?&?&?&?&?&?&?&->) end;
  eapply (each_when "dp"); [reflexivity|apply NoDup_seqZ|apply elem_of_seqZ; lia| |];
  assert (dp = 0 ∨ dp = 1 ∨ dp = 2 ∨ dp = 3 ∨ dp = 4 ∨ dp = 5 ∨ dp = 6 ∨ dp = 7 ∨ dp = 8 ∨ dp = 9) as H by lia;
  destruct H as [->|[->|[->|[->|[->|[->|[->|[->|[->| ->]]]]]]]]]; try reflexivity;
  match goal with |- context [nth_var "t" ?k] => let x := eval vm_compute in (nth_var "t" k) in change (nth_var "t" k) with x end;
  cbn -[Z.add Z.sub i32]; reflexivity.

Section cells.
Context (pc dp ch depth n from aux : Z) (t i o : list Z).
Hypotheses (Ht : length t = 20%nat) (Hdp : 0 ≤ dp < 10).
#[local] Set Default Proof Using "Type*".

Lemma load_cell_ok :
  load_cell (T (env pc dp ch depth n from aux t) i o) =
  Some (tt, T (env pc dp ch depth (t !!! Z.to_nat dp) from aux t) i o).
Proof. unfold load_cell. erewrite seq_some by reflexivity. cells t dp. Qed.

Lemma increment_ok :
  increment (T (env pc dp ch depth n from aux t) i o) =
  Some (tt, T (env pc dp ch depth n from aux (<[Z.to_nat dp := i32 (t !!! Z.to_nat dp + 1)]> t)) i o).
Proof. cells t dp. Qed.

Lemma decrement_ok :
  decrement (T (env pc dp ch depth n from aux t) i o) =
  Some (tt, T (env pc dp ch depth n from aux (<[Z.to_nat dp := i32 (t !!! Z.to_nat dp - 1)]> t)) i o).
Proof. cells t dp. Qed.

(** The jumps end at the matching brackets. *)
Lemma skip_forward_ok j : 0 ≤ pc < 106 → PROGRAM !! Z.to_nat pc = Some 91 → match_right PROGRAM pc = Some j →
  0 ≤ j < 106 ∧ While ("depth" > 0) skip_forward (T (env pc dp ch 1 n from aux t) i o) =
  Some (tt, T (env j dp ch 0 93 0 93 t) i o).
Proof.
  intros Hpc Hc Hj. assert (pc = 8 ∨ pc = 14 ∨ pc = 43) as Hp.
  { clear Hj. assert (negb (bool_decide (PROGRAM !! Z.to_nat pc = Some 91)) || (pc =? 8) || (pc =? 14) || (pc =? 43) = true) as Hb
      by (revert Hpc; clear; intros; by_range pc 106).
    rewrite bool_decide_true in Hb by done. simpl in Hb. bool_hyps; lia || done. }
  destruct Hp as [->|[->| ->]]; vm_compute in Hj; injection Hj as <-; (split; [lia|]); vm_compute; reflexivity.
Qed.

Lemma skip_back_ok j : 0 ≤ pc < 106 → PROGRAM !! Z.to_nat pc = Some 93 → match_left PROGRAM pc = Some j →
  0 ≤ j < 106 ∧ While ("depth" > 0) skip_back (T (env pc dp ch 1 n from aux t) i o) =
  Some (tt, T (env j dp ch 0 n from aux t) i o).
Proof.
  intros Hpc Hc Hj. assert (pc = 33 ∨ pc = 45 ∨ pc = 48) as Hp.
  { clear Hj. assert (negb (bool_decide (PROGRAM !! Z.to_nat pc = Some 93)) || (pc =? 33) || (pc =? 45) || (pc =? 48) = true) as Hb
      by (revert Hpc; clear; intros; by_range pc 106).
    rewrite bool_decide_true in Hb by done. simpl in Hb. bool_hyps; lia || done. }
  destruct Hp as [->|[->| ->]]; vm_compute in Hj; injection Hj as <-; (split; [lia|]); vm_compute; reflexivity.
Qed.
End cells.

Lemma program_codes c : c ∈ PROGRAM → c = 43 ∨ c = 45 ∨ c = 62 ∨ c = 60 ∨ c = 46 ∨ c = 91 ∨ c = 93.
Proof.
  intros Hc. apply list_elem_of_In in Hc. revert c Hc. apply List.Forall_forall.
  repeat (constructor; [lia|]). constructor.
Qed.

(** One round of the interpreter is one step of the machine. *)
Lemma bf_step_ok b b' i s : ref_step PROGRAM b = Some b' → b_pc b < 106 → represents b i s →
  ∃ s', bf_step s = Some (tt, s') ∧ represents b' i s'.
Proof.
  destruct b as [pc dp t o]. intros Hs Hlt ([Hpc _] & Ht & ch & depth & n & from & aux & ->).
  cbn [b_pc b_dp b_tape b_out] in *. unfold ref_step, cell in Hs. cbn [b_pc b_dp b_tape b_out] in Hs.
  destruct (PROGRAM !! Z.to_nat pc) as [c|] eqn:Hc; [|done]. simpl in Hs.
  destruct ((dp <? 0) || (10 <=? dp)) eqn:Hb; [done|]. assert (0 ≤ dp < 10) as Hdp by lia. clear Hb.
  assert (0 ≤ pc < 106) as Hpc' by lia. unfold bf_step. rewrite (seq_some _ _ _ _ (fetch_ok _ _ _ _ _ _ _ _ _ _ Hpc')).
  rewrite (list_lookup_total_correct _ _ _ Hc).
  assert (i32 (pc + 1) = pc + 1) as Hi by (apply i32_small; word_lia).
  assert (∀ dp' t' o' n' from' aux' depth', length t' = 20%nat → represents (Bf (pc + 1) dp' t' o') i
            (T (env (pc + 1) dp' c depth' n' from' aux' t') i o')) as Hr
    by (intros; split_and!; [cbn; lia|cbn; lia|done|by repeat eexists]).
  destruct (program_codes c) as [->|[->|[->|[->|[->|[->| ->]]]]]]; [by eapply list_elem_of_lookup_2|..]; simpl in Hs.
  - unfold write_cell in Hs. cbn [b_pc b_dp b_tape b_out] in Hs. destruct (_ && _) eqn:Hx in Hs; [|done]. injection Hs as <-.
    exec. rewrite increment_ok by done. exec. rewrite Hi, i32_small by (unfold is_i32; lia).
    eexists. split; [reflexivity|]. apply Hr. by rewrite length_insert.
  - unfold write_cell in Hs. cbn [b_pc b_dp b_tape b_out] in Hs. destruct (_ && _) eqn:Hx in Hs; [|done]. injection Hs as <-.
    exec. rewrite decrement_ok by done. exec. rewrite Hi, i32_small by (unfold is_i32; lia).
    eexists. split; [reflexivity|]. apply Hr. by rewrite length_insert.
  - injection Hs as <-. exec. rewrite Hi, i32_small by word_lia. eexists. split; [reflexivity|]. by apply Hr.
  - injection Hs as <-. exec. rewrite Hi, i32_small by word_lia. eexists. split; [reflexivity|]. by apply Hr.
  - injection Hs as <-. exec. rewrite (seq_some _ _ _ _ (load_cell_ok _ _ _ _ _ _ _ _ _ _ Ht Hdp)). exec. rewrite Hi.
    eexists. split; [reflexivity|]. by apply Hr.
  - exec. rewrite (seq_some _ _ _ _ (load_cell_ok _ _ _ _ _ _ _ _ _ _ Ht Hdp)). exec.
    destruct (t !!! Z.to_nat dp =? 0); exec.
    + destruct (match_right PROGRAM pc) as [j|] eqn:Hj; [|done]. injection Hs as <-.
      destruct (skip_forward_ok pc dp 91 (t !!! Z.to_nat dp) from aux t i o Ht Hdp j Hpc' Hc Hj) as [Hj' ->]. exec.
      rewrite i32_small by word_lia. eexists. split; [reflexivity|]. split_and!; cbn; [lia|lia|done|by repeat eexists].
    + injection Hs as <-. rewrite Hi. eexists. split; [reflexivity|]. by apply Hr.
  - exec. rewrite (seq_some _ _ _ _ (load_cell_ok _ _ _ _ _ _ _ _ _ _ Ht Hdp)). exec.
    destruct (Z.ltb_spec (t !!! Z.to_nat dp) 0); [done|]. destruct (Z.eqb_spec (t !!! Z.to_nat dp) 0) as [->|Hn].
    + injection Hs as <-. exec. rewrite Hi. eexists. split; [reflexivity|]. by apply Hr.
    + rewrite (proj2 (Z.ltb_lt 0 (t !!! Z.to_nat dp))) by lia. exec.
      destruct (match_left PROGRAM pc) as [j|] eqn:Hj; [|done]. injection Hs as <-.
      destruct (skip_back_ok pc dp 93 (t !!! Z.to_nat dp) from aux t i o Ht Hdp j Hpc' Hc Hj) as [Hj' ->]. exec.
      rewrite i32_small by word_lia. eexists. split; [reflexivity|]. split_and!; cbn; [lia|lia|done|by repeat eexists].
Qed.

(** With the missing declarations, the loop of the interpreter refines the machine: whenever the machine,
    started at any position of the program with any ten cells, reaches the end
    of the program in [k] steps, the loop ends in the store of that state, with
    the same output; the bracket positions written into the jumps are those the
    machine finds by counting. *)
Theorem bf_refines k b b' i s :
  (k < Pos.to_nat ROUNDS)%nat → ref_run k PROGRAM b = Some b' → b_pc b' = 106 → represents b i s →
  ∃ s', While ("pc" < "plen") bf_step s = Some (tt, s') ∧ represents b' i s'.
Proof.
  intros Hk Hrun Hend Hr.
  destruct (While_run (λ k s, ∃ b, represents b i s ∧ ref_run k PROGRAM b = Some b') (λ s, represents b' i s)
    ("pc" < "plen")%tcc bf_step) with (k := k) (s := s) as (s' & E & Hr'); [|by exists b|done|by exists s'].
  clear - Hend. intros k s (b & Hr & Hrun). pose proof Hr as (Hpc & _ & ch & depth & n & from & aux & ->).
  eexists. split; [reflexivity|]. destruct k as [|k]; cbn [ref_run] in Hrun.
  - injection Hrun as ->. rewrite (proj2 (Z.ltb_ge _ _)) by lia. exact Hr.
  - destruct (ref_step PROGRAM b) as [b1|] eqn:E1; [|done]. simpl in Hrun.
    assert (b_pc b < 106) as Hlt.
    { unfold ref_step in E1. destruct (PROGRAM !! Z.to_nat (b_pc b)) eqn:Hc; [|done]. apply lookup_lt_Some in Hc.
      change (length PROGRAM) with 106%nat in Hc. lia. }
    rewrite (proj2 (Z.ltb_lt _ _)) by done. cbn [of_bool Z.eqb].
    destruct (bf_step_ok b b1 i _ E1 Hlt Hr) as (s1 & E & Hr1). exists s1, k. split; [done|]. split; [lia|]. by exists b1.
Qed.

Definition bf_start : bf := Bf 0 0 (replicate 20 0) [].

Lemma bf_refines_witness :
  ∃ b', ref_run 906 PROGRAM bf_start = Some b' ∧ reverse (b_out b') = lit "Hello World!" ++ [10] ∧
    ∃ s', While ("pc" < "plen") bf_step (T (env 0 0 0 0 0 0 0 (replicate 20 0)) [] []) = Some (tt, s') ∧ represents b' [] s'.
Proof.
  eexists. split; [vm_compute; reflexivity|]. split; [vm_compute; reflexivity|].
  eapply (bf_refines 906 bf_start); [unfold ROUNDS; lia|vm_compute; reflexivity|reflexivity|].
  split_and!; cbn; [lia|lia|done|by repeat eexists].
Defined.

(** A negative cell does not close a loop the way Brainfuck asks for: at the end
    of a loop the interpreter leaves it when the cell is negative. *)
Theorem bf_negative_cell pc dp ch depth n from aux t i o :
  length t = 20%nat → 0 ≤ dp < 10 → 0 ≤ pc < 106 → PROGRAM !! Z.to_nat pc = Some 93 → t !!! Z.to_nat dp < 0 →
  ∃ s', bf_step (T (env pc dp ch depth n from aux t) i o) = Some (tt, s') ∧ get "pc" (vars s') = Some (pc + 1).
Proof.
  intros Ht Hdp Hpc Hc Hneg. unfold bf_step. rewrite (seq_some _ _ _ _ (fetch_ok _ _ _ _ _ _ _ _ _ _ Hpc)).
  rewrite (list_lookup_total_correct _ _ _ Hc). exec. rewrite (seq_some _ _ _ _ (load_cell_ok _ _ _ _ _ _ _ _ _ _ Ht Hdp)). exec.
  rewrite (proj2 (Z.ltb_ge 0 (t !!! Z.to_nat dp))) by lia. exec. rewrite i32_small by word_lia. by eexists.
Qed.
