(* ===== verification/Calc.v ===== *)
(** * The calculator ([samples/calc.c])

    A line is a number followed by operators and numbers, evaluated from left to
    right in 32-bit arithmetic.  The theorems are about whole sessions: lines of
    expressions print their values, and a line that fails swallows the next one
    when the failure is at its end, because [print_str] uses the variable that
    holds the last character read. *)

From S2P Require Import Prelude TinyC CMem CStdlib.

#[local] Open Scope string_scope.
#[local] Open Scope Z_scope.
#[local] Open Scope list_scope.

Definition REGS : list string :=
  ["ch"; "num"; "result"; "op"; "done"; "neg"; "digit"; "tmp"; "pr_num"; "pr_d"; "pr_rem"; "pr_started"; "print_len"; "print_i"].
Definition S_NAMES : list string := Eval vm_compute in map (nth_var "print_s") (seqZ 0 16).
Definition decls : globals := ints (REGS ++ S_NAMES).

Definition print_digit : stmt :=
  "tmp" ::= "pr_d" / "pr_rem";;;
  When ("tmp" > 0) ("pr_started" ::= 1);;;
  When ("pr_started" == 1) (putchar (48 + "tmp"));;;
  "pr_d" ::= "pr_d" - "tmp" * "pr_rem";;;
  "pr_rem" ::= "pr_rem" / 10.
Definition print_dec : stmt :=
  "pr_d" ::= "pr_num";;;
  When ("pr_d" < 0) (putchar 45;;; "pr_d" ::= 0 - "pr_d");;;
  If ("pr_d" == 0) (putchar 48)
    ("pr_started" ::= 0;;;
     "pr_rem" ::= 1000000000;;;
     While ("pr_rem" > 0) print_digit).

Definition print_str : stmt :=
  "print_i" ::= 0;;;
  While ("print_i" < "print_len")
    ("ch" ::= 0;;;
     each (seqZ 0 16) (λ k, When ("print_i" == k) ("ch" ::= nth_var "print_s" k));;;
     When ("ch" > 0) (putchar "ch");;;
     "print_i" ::= "print_i" + 1).

(** [print_s0=...; print_s1=...; ... print_len = ...; print_str();] *)
Definition say (t : list Z) : stmt :=
  assigns (zip S_NAMES t);;; "print_len" ::= Z.of_nat (length t);;; print_str.

Definition read_digit : stmt :=
  "digit" ::= "ch" - 48;;;
  "num" ::= ("num" * 10) + "digit";;;
  getchar "ch".
Definition read_number : stmt :=
  "num" ::= 0;;;
  "neg" ::= 0;;;
  When ("ch" == 45) ("neg" ::= 1;;; getchar "ch");;;
  While (("ch" >= 48) && ("ch" <= 57)) read_digit;;;
  When ("neg" == 1) ("num" ::= 0 - "num").

Definition skip_spaces : stmt := While ("ch" == 32) (getchar "ch").
Definition rest_of_line : stmt := While (("ch" != 10) && ("ch" != 13)) (getchar "ch").

Definition apply_op : stmt :=
  When ("op" == 43) ("result" ::= "result" + "num");;;
  When ("op" == 45) ("result" ::= "result" - "num");;;
  When ("op" == 42) ("result" ::= "result" * "num");;;
  When ("op" == 47)
    (If ("num" == 0)
       (say (lit "Div by 0");;; putchar 10;;; "op" ::= 0;;; rest_of_line)
       ("result" ::= "result" / "num")).

(** One round of "Process operators". *)
Definition operator : stmt :=
  skip_spaces;;;
  "op" ::= "ch";;;
  If (("op" != 43) && ("op" != 45) && ("op" != 42) && ("op" != 47))
    (say (lit "Error");;; putchar 10;;; rest_of_line;;; "op" ::= 0)
    (getchar "ch";;; skip_spaces;;; read_number;;; apply_op).

(** The block under [if (done == 0)]. *)
Definition line : stmt :=
  skip_spaces;;;
  read_number;;;
  "result" ::= "num";;;
  While (("ch" != 10) && ("ch" != 13)) operator;;;
  When ("op" != 0)
    (putchar 61;;; putchar 32;;; "pr_num" ::= "result";;; print_dec;;; putchar 10).

(** One round of [while (done == 0)]. *)
Definition prompt : stmt :=
  putchar 62;;; putchar 32;;;
  getchar "ch";;;
  When ("ch" == 113) ("done" ::= 1);;;
  When ("ch" == 81) ("done" ::= 1);;;
  When ("done" == 0) line.

Definition main : stmt :=
  say (lit "Calc - Integer");;; putchar 10;;;
  "done" ::= 0;;;
  While ("done" == 0) prompt;;;
  say (lit "Bye!");;; putchar 10.

Example calc_session :
  run decls main (lit "12 + 34*-2" ++ [10] ++ lit "7/2" ++ [10] ++ lit "q") =
  Some (lit "Calc - Integer" ++ [10] ++ lit "> = -92" ++ [10] ++ lit "> = 3" ++ [10] ++ lit "> Bye!" ++ [10]).
Proof. vm_compute. reflexivity. Qed.

(** A failure at the end of a line takes the next line with it, and so does a
    space before the end of the line; a line of a single number is answered only
    when the line before it had a result. *)
Theorem calc_swallows_a_line :
  run decls main (lit "1/0" ++ [10] ++ lit "2+2" ++ [10] ++ lit "q") =
    Some (lit "Calc - Integer" ++ [10] ++ lit "> Div by 0" ++ [10] ++ lit "> Bye!" ++ [10]) ∧
  run decls main (lit "1+1 " ++ [10] ++ lit "2+2" ++ [10] ++ lit "q") =
    Some (lit "Calc - Integer" ++ [10] ++ lit "> Error" ++ [10] ++ lit "> Bye!" ++ [10]) ∧
  run decls main (lit "5" ++ [10] ++ lit "1+1" ++ [10] ++ lit "5" ++ [10] ++ lit "q") =
    Some (lit "Calc - Integer" ++ [10] ++ lit "> > = 2" ++ [10] ++ lit "> = 5" ++ [10] ++ lit "> Bye!" ++ [10]).
Proof. split_and!; vm_compute; reflexivity. Qed.

(** ** Expressions and their texts *)

Record numeral := Numeral { n_neg : bool; n_digits : list Z }.
Record item := Item { it_before : nat; it_op : Z; it_after : nat; it_num : numeral }.
Record expression := Expression { e_before : nat; e_first : numeral; e_items : list item }.

Definition numeral_ok (n : numeral) : Prop := n_digits n ≠ [] ∧ Forall (λ d, 0 ≤ d < 10) (n_digits n).
Definition item_ok (it : item) : Prop := it_op it ∈ lit "+-*/" ∧ numeral_ok (it_num it).
Definition expression_ok (e : expression) : Prop :=
  numeral_ok (e_first e) ∧ Forall item_ok (e_items e) ∧ e_items e ≠ [].

Definition spaces (k : nat) : list Z := replicate k 32.
Definition numeral_text (n : numeral) : list Z := (if n_neg n then [45] else []) ++ map (Z.add 48) (n_digits n).
Definition item_text (it : item) : list Z :=
  spaces (it_before it) ++ [it_op it] ++ spaces (it_after it) ++ numeral_text (it_num it).
Definition items_text (l : list item) : list Z := concat (map item_text l).
Definition expression_text (e : expression) : list Z :=
  spaces (e_before e) ++ numeral_text (e_first e) ++ items_text (e_items e).

(** The value of a numeral is the number it denotes, in 32 bits; operators are
    applied from left to right. *)
Definition numeral_value (n : numeral) : Z := i32 ((if n_neg n then -1 else 1) * num 10 (n_digits n)).
Definition op_value (x : Z) (op : Z) (y : Z) : option Z :=
  if op =? chr "+" then Some (i32 (x + y))
  else if op =? chr "-" then Some (i32 (x - y))
  else if op =? chr "*" then Some (i32 (x * y))
  else if (y =? 0) || (x =? -2147483648) && (y =? -1) then None
  else Some (x /c y).
Fixpoint items_value (x : Z) (l : list item) : option Z :=
  match l with
  | [] => Some x
  | it :: l' => x ← op_value x (it_op it) (numeral_value (it_num it)); items_value x l'
  end.
Definition value (e : expression) : option Z := items_value (numeral_value (e_first e)) (e_items e).

(** ** Reading *)

#[global] Arguments read_digit : simpl never.
#[global] Arguments read_number : simpl never.
#[global] Arguments skip_spaces : simpl never.
#[global] Arguments print_dec : simpl never.
#[global] Arguments operator : simpl never.
#[global] Arguments line : simpl never.
#[global] Arguments say : simpl never.

Ltac exec := cbn -[Z.add Z.sub Z.mul Z.quot i32 u8 While].

Abbreviation env ch num result op done neg digit tmp pr_num pr_d pr_rem pr_started print_len print_i w :=
  (("ch", ch) :: ("num", num) :: ("result", result) :: ("op", op) :: ("done", done) :: ("neg", neg) :: ("digit", digit) ::
   ("tmp", tmp) :: ("pr_num", pr_num) :: ("pr_d", pr_d) :: ("pr_rem", pr_rem) :: ("pr_started", pr_started) ::
   ("print_len", print_len) :: ("print_i", print_i) :: w).

(** What is still to be read is the character in [ch] and the input behind it. *)
Lemma foldl_i32 ds x y : i32 x = i32 y → i32 (foldl (λ v d, v * 10 + d) x ds) = i32 (foldl (λ v d, v * 10 + d) y ds).
Proof. revert x y. induction ds as [|d ds IH]; intros x y E; [done|]. cbn [foldl]. apply IH. word_lia. Qed.

Lemma i32_neg x : i32 (0 - i32 x) = i32 (-1 * x).
Proof. word_lia. Qed.

Section reading.
Context (result op done tmp pr_num pr_d pr_rem pr_started print_len print_i : Z) (w : globals) (o : list Z).
Abbreviation at_ ch num neg digit i :=
  (T (env ch num result op done neg digit tmp pr_num pr_d pr_rem pr_started print_len print_i w) i o).

Lemma skip_spaces_ok ch num neg digit i k c cs :
  (k < Pos.to_nat ROUNDS)%nat → ch :: i = spaces k ++ c :: cs → c ≠ 32 →
  skip_spaces (at_ ch num neg digit i) = Some (tt, at_ c num neg digit cs).
Proof.
  intros Hk Hi Hc. unfold skip_spaces.
  destruct (While_run (λ k s, ∃ ch i, s = at_ ch num neg digit i ∧ ch :: i = spaces k ++ c :: cs)
    (λ s, s = at_ c num neg digit cs) ("ch" == 32)%tcc (getchar "ch"))
    with (k := k) (s := at_ ch num neg digit i) as (s' & E & ->); [|by exists ch, i|done|done].
  clear - Hc. intros k s (ch & i & -> & Hi). eexists. split; [reflexivity|]. destruct k as [|k]; cbn in Hi.
  - injection Hi as -> ->. by zb_false (c =? 32).
  - injection Hi as -> ->. unfold spaces in *. destruct (replicate k 32 ++ c :: cs) as [|x xs] eqn:E; [by destruct k|].
    eexists _, k. split; [reflexivity|]. split; [lia|]. by exists x, xs.
Qed.

Lemma read_digits_ok neg i ds c cs ch num digit :
  Forall (λ d, 0 ≤ d < 10) ds → (length ds < Pos.to_nat ROUNDS)%nat → c < 48 ∨ 57 < c →
  ch :: i = map (Z.add 48) ds ++ c :: cs → num = i32 num →
  ∃ digit', While (("ch" >= 48) && ("ch" <= 57)) read_digit (at_ ch num neg digit i) =
    Some (tt, at_ c (i32 (foldl (λ v d, v * 10 + d) num ds)) neg digit' cs).
Proof.
  intros Hds Hl Hc Hi Hn.
  destruct (While_run (λ k s, ∃ ch i num' digit ds', s = at_ ch num' neg digit i ∧ k = length ds' ∧
      Forall (λ d, 0 ≤ d < 10) ds' ∧ ch :: i = map (Z.add 48) ds' ++ c :: cs ∧
      num' = i32 num' ∧ i32 (foldl (λ v d, v * 10 + d) num' ds') = i32 (foldl (λ v d, v * 10 + d) num ds))
    (λ s, ∃ digit', s = at_ c (i32 (foldl (λ v d, v * 10 + d) num ds)) neg digit' cs)
    (("ch" >= 48) && ("ch" <= 57))%tcc read_digit)
    with (k := length ds) (s := at_ ch num neg digit i) as (s' & E & d' & ->); [|by exists ch, i, num, digit, ds|done|by exists d'].
  clear - Hc. intros k s (ch & i & n & digit & es & -> & -> & Hes & Hi & Hn & Hv). destruct es as [|d es]; cbn in Hi.
  - injection Hi as -> ->. exists 0. split; [|exists digit; cbn in Hv; by rewrite <- Hv, <- Hn].
    cbn -[Z.leb]. destruct Hc; [by zb_false (48 <=? c)|]. zb_false (c <=? 57). by destruct (48 <=? c).
  - injection Hi as -> ->. apply Forall_cons in Hes as [Hd Hes]. exists 1. split.
    { cbn -[Z.leb Z.add]. rewrite (proj2 (Z.leb_le 48 (48 + d))), (proj2 (Z.leb_le (48 + d) 57)) by lia. done. }
    destruct (map (Z.add 48) es ++ c :: cs) as [|x xs] eqn:E; [by destruct es|].
    eexists _, (length es). unfold read_digit. exec. split; [reflexivity|]. split; [simpl; lia|].
    do 4 eexists. exists es. split; [reflexivity|]. split; [done|]. split; [done|]. split; [done|].
    rewrite (i32_small (48 + d - 48)) by word_lia. replace (48 + d - 48) with d by lia.
    split; [by rewrite (i32_small (i32 _)) by apply i32_bound|]. rewrite <- Hv. cbn [foldl].
    apply foldl_i32. word_lia.
Qed.

Lemma read_number_ok ch num neg digit i n c cs :
  numeral_ok n → (length (n_digits n) < Pos.to_nat ROUNDS)%nat → c < 48 ∨ 57 < c →
  ch :: i = numeral_text n ++ c :: cs →
  ∃ neg' digit', read_number (at_ ch num neg digit i) = Some (tt, at_ c (numeral_value n) neg' digit' cs).
Proof.
  intros [Hne Hds] Hl Hc Hi. destruct n as [ng ds]. unfold numeral_text, numeral_value, read_number, CStdlib.num in *. cbn [n_neg n_digits] in *.
  destruct ds as [|d ds]; [done|]. destruct ng.
  - injection Hi as -> ->. exec.
    destruct (read_digits_ok 1 (map (Z.add 48) ds ++ c :: cs) (d :: ds) c cs (48 + d) 0 digit) as [d' E]; try done.
    erewrite seq_some by exact E. exec.
    exists 1, d'. by rewrite i32_neg.
  - injection Hi as -> ->. exec. apply Forall_cons in Hds as [Hd Hds]. zb_false (48 + d =? 45). exec.
    destruct (read_digits_ok 0 (map (Z.add 48) ds ++ c :: cs) (d :: ds) c cs (48 + d) 0 digit) as [d' E]; try done.
    { by constructor. }
    erewrite seq_some by exact E. exec. exists 0, d'. rewrite Z.mul_1_l. done.
Qed.
End reading.

(** ** One line *)

Definition is_end (c : Z) : Prop := c = 10 ∨ c = 13.
Definition small (k : nat) : Prop := (k < Pos.to_nat ROUNDS)%nat.

(** The texts are short enough for the loops; any text that fits in memory is. *)
Definition numeral_short (n : numeral) : Prop := small (length (n_digits n)).
Definition item_short (it : item) : Prop := small (it_before it) ∧ small (it_after it) ∧ numeral_short (it_num it).
Definition expression_short (e : expression) : Prop :=
  small (e_before e) ∧ numeral_short (e_first e) ∧ Forall item_short (e_items e) ∧ small (length (e_items e)).

Lemma item_text_head l c cs : Forall item_ok l → is_end c →
  ∃ x xs, items_text l ++ c :: cs = x :: xs ∧ (x < 48 ∨ 57 < x) ∧ (l ≠ [] → x ≠ 10 ∧ x ≠ 13).
Proof.
  intros Hl Hc. destruct Hl as [|it l [Hop _] _]; [exists c, cs; split_and!; [done|destruct Hc; lia|done]|].
  unfold items_text. cbn [map concat]. unfold item_text. destruct (it_before it) as [|k]; cbn.
  - do 2 eexists. split; [reflexivity|]. repeat (apply elem_of_cons in Hop as [->|Hop]; [vm_compute; split; [auto|done]|]).
    by apply elem_of_nil in Hop.
  - do 2 eexists. split; [reflexivity|]. split; [lia|done].
Qed.

Section line.
Context (done tmp pr_num pr_d pr_rem pr_started print_len print_i : Z) (w : globals) (o : list Z).
Abbreviation at_ ch num result op neg digit i :=
  (T (env ch num result op done neg digit tmp pr_num pr_d pr_rem pr_started print_len print_i w) i o).

Lemma numeral_text_head n c cs : numeral_ok n → ∃ x xs, numeral_text n ++ c :: cs = x :: xs ∧ x ≠ 32.
Proof.
  intros [Hne Hd]. unfold numeral_text. destruct n as [[] ds]; cbn in *; [by do 2 eexists|].
  destruct ds as [|d ds]; [done|]. apply Forall_cons in Hd as [Hd _]. do 2 eexists. split; [reflexivity|]. lia.
Qed.

Lemma apply_op_ok ch num result op neg digit i v :
  op ∈ lit "+-*/" → op_value result op num = Some v →
  apply_op (at_ ch num result op neg digit i) = Some (tt, at_ ch num v op neg digit i).
Proof.
  intros Hop Hv. assert (op = 43 ∨ op = 45 ∨ op = 42 ∨ op = 47) as Hcase
    by (revert Hop; change (lit "+-*/") with [43; 45; 42; 47]; set_solver).
  unfold apply_op. destruct Hcase as [->|[->|[->| ->]]]; cbn -[i32 Z.add Z.sub Z.mul Z.quot] in Hv; [by injection Hv as <-..|].
  exec. destruct (Z.eqb_spec num 0) as [->|Hn]; [discriminate Hv|]. exec. unfold c_div. unfold op_value in Hv. rewrite (proj2 (Z.eqb_neq num 0)) in * by done.
  cbn -[Z.quot] in Hv |- *. destruct ((result =? -2147483648) && (num =? -1)); [done|]. by injection Hv as <-.
Qed.

(** One operator and its number. *)
Lemma operator_ok ch num result op neg digit i it c cs v :
  item_ok it → item_short it → c < 48 ∨ 57 < c → ch :: i = item_text it ++ c :: cs →
  op_value result (it_op it) (numeral_value (it_num it)) = Some v →
  ∃ num' neg' digit', operator (at_ ch num result op neg digit i) = Some (tt, at_ c num' v (it_op it) neg' digit' cs).
Proof.
  intros [Hop Hn] (Hb & Ha & Hs) Hc Hi Hv. unfold item_text in Hi. rewrite <- !app_assoc in Hi. cbn [app] in Hi.
  assert (it_op it ≠ 32) as H32 by (intros E; rewrite E in Hop; revert Hop; vm_compute; set_solver).
  unfold operator. rewrite (seq_some _ _ _ _ (skip_spaces_ok _ _ _ _ _ _ _ _ _ _ _ _ _ _ _ _ _ _ _ _ Hb Hi H32)).
  destruct (numeral_text_head (it_num it) c cs Hn) as (x & xs & Ex & Hx).
  rewrite Ex. destruct (spaces (it_after it) ++ x :: xs) as [|y ys] eqn:Ey; [by destruct (it_after it)|]. symmetry in Ey.
  assert (∀ num neg digit, ∃ num' neg' digit', (skip_spaces;;; read_number;;; apply_op) (at_ y num result (it_op it) neg digit ys) =
    Some (tt, at_ c num' v (it_op it) neg' digit' cs)) as Hrest.
  { intros n0 ng0 d0. rewrite (seq_some _ _ _ _ (skip_spaces_ok _ _ _ _ _ _ _ _ _ _ _ _ _ _ _ _ _ _ _ _ Ha Ey Hx)).
    destruct (read_number_ok result (it_op it) done tmp pr_num pr_d pr_rem pr_started print_len print_i w o x n0 ng0 d0 xs (it_num it) c cs)
      as (neg' & digit' & E); try done.
    rewrite (seq_some _ _ _ _ E). exists (numeral_value (it_num it)), neg', digit'. by apply apply_op_ok. }
  assert (it_op it = 43 ∨ it_op it = 45 ∨ it_op it = 42 ∨ it_op it = 47) as Hcase
    by (revert Hop; change (lit "+-*/") with [43; 45; 42; 47]; set_solver).
  destruct Hcase as [E|[E|[E|E]]]; rewrite E in *; exec; apply Hrest.
Qed.

(** All the operators of a line. *)
Lemma operators_ok l : ∀ ch num result op neg digit i c cs v,
  Forall item_ok l → Forall item_short l → small (length l) → is_end c → ch :: i = items_text l ++ c :: cs →
  items_value result l = Some v →
  ∃ num' op' neg' digit', While (("ch" != 10) && ("ch" != 13)) operator (at_ ch num result op neg digit i) =
    Some (tt, at_ c num' v op' neg' digit' cs) ∧ (l ≠ [] → op' ≠ 0).
Proof.
  intros ch num result op neg digit i c cs v Hl Hs Hk Hc Hi Hv.
  destruct (While_run (λ k s, ∃ ch num result op neg digit i l', s = at_ ch num result op neg digit i ∧ k = length l' ∧
      Forall item_ok l' ∧ Forall item_short l' ∧ ch :: i = items_text l' ++ c :: cs ∧ items_value result l' = Some v ∧
      (l ≠ [] → l' = l ∨ op ≠ 0))
    (λ s, ∃ num' op' neg' digit', s = at_ c num' v op' neg' digit' cs ∧ (l ≠ [] → op' ≠ 0))
    (("ch" != 10) && ("ch" != 13))%tcc operator) with (k := length l) (s := at_ ch num result op neg digit i)
    as (s' & E & n' & op' & ng' & d' & -> & Hop); [|by exists ch, num, result, op, neg, digit, i, l; eauto 10|done|by do 4 eexists].
  clear - Hc. intros k s (ch & n & r & op & ng & dg & i & l' & -> & -> & Hl & Hs & Hi & Hv & Hop).
  destruct l' as [|it l'].
  - cbn [items_text map concat app] in Hi. injection Hi as -> ->. injection Hv as ->. exists 0. split; [by destruct Hc as [->| ->]|].
    exists n, op, ng, dg. split; [done|]. intros Hne. by destruct (Hop Hne) as [<-|].
  - apply Forall_cons in Hl as [Hit Hl]. apply Forall_cons in Hs as [Hst Hs]. cbn [items_value] in Hv.
    destruct (op_value r (it_op it) (numeral_value (it_num it))) as [x|] eqn:Ex; [|done]. simpl in Hv.
    destruct (item_text_head (it :: l') c cs) as (h & hs & Eh & _ & Hh); [by constructor|done|].
    rewrite Eh in Hi. injection Hi as -> ->. destruct Hh as [H10 H13]; [done|]. exists 1. split.
    { cbn -[Z.eqb]. zb_false (h =? 10). zb_false (h =? 13). done. }
    destruct (item_text_head l' c cs Hl Hc) as (y & ys & Ey & Hy & _).
    unfold items_text in Eh. cbn [map concat] in Eh. fold (items_text l') in Eh. rewrite <- app_assoc, Ey in Eh. symmetry in Eh.
    destruct (operator_ok h n r op ng dg hs it y ys x Hit Hst Hy Eh Ex) as (n' & ng' & dg' & E).
    eexists _, (length l'). split; [exact E|]. split; [simpl; lia|]. do 7 eexists. exists l'. split; [reflexivity|].
    split_and!; try done. intros _. right. destruct Hit as [Ho _]. intros E0. rewrite E0 in Ho. revert Ho. vm_compute. set_solver.
Qed.
End line.

(** ** Printing a number *)

(** The [k] last digits of [n], and the digits of [n] from the first non-zero one
    among the [k] last. *)
Fixpoint pad (k : nat) (n : Z) : list Z :=
  match k with O => [] | S k' => 48 + n `div` 10 ^ Z.of_nat k' :: pad k' (n `mod` 10 ^ Z.of_nat k') end.
Fixpoint from_first (k : nat) (n : Z) : list Z :=
  match k with O => [] | S k' => if n `div` 10 ^ Z.of_nat k' =? 0 then from_first k' n else pad (S k') n end.

Lemma pow10_S k : 10 ^ Z.of_nat (S k) = 10 * 10 ^ Z.of_nat k.
Proof. rewrite Nat2Z.inj_succ, Z.pow_succ_r by lia. done. Qed.

Lemma pad_snoc k n : 0 ≤ n < 10 ^ Z.of_nat (S k) → pad (S k) n = pad k (n `div` 10) ++ [48 + n `mod` 10].
Proof.
  revert n. induction k as [|k IH]; intros n Hn.
  - change (10 ^ Z.of_nat 1) with 10 in Hn. cbn. rewrite Z.div_1_r, Z.mod_small by lia. done.
  - assert (0 < 10 ^ Z.of_nat k) by (apply Z.pow_pos_nonneg; lia). rewrite pow10_S in Hn.
    change (pad (S (S k)) n) with (48 + n `div` 10 ^ Z.of_nat (S k) :: pad (S k) (n `mod` 10 ^ Z.of_nat (S k))).
    rewrite IH by (apply Z.mod_pos_bound; rewrite pow10_S; lia). cbn [pad app]. rewrite pow10_S.
    rewrite Z.rem_mul_r by lia. rewrite Z.div_div by lia. f_equal. f_equal.
    + f_equal. pose proof (Z.mod_pos_bound n 10). rewrite Z.mul_comm, Z.div_add by lia. rewrite Z.div_small by lia. lia.
    + rewrite Z.mul_comm, Z.mod_add, Z.mod_mod by lia. done.
Qed.

Lemma from_first_digits k n : 0 < n < 10 ^ Z.of_nat k → from_first k n = map digit_char (digits 10 n).
Proof.
  revert n. induction k as [|k IH]; intros n Hn; [simpl in Hn; lia|]. cbn [from_first].
  assert (0 < 10 ^ Z.of_nat k) by (apply Z.pow_pos_nonneg; lia).
  destruct (Z.eqb_spec (n `div` 10 ^ Z.of_nat k) 0) as [E|E].
  - apply IH. apply Z.div_small_iff in E; lia.
  - assert (10 ^ Z.of_nat k ≤ n) as Hk by (destruct (Z.le_gt_cases (10 ^ Z.of_nat k) n); [done|]; rewrite Z.div_small in E; lia).
    clear IH E. revert n Hn Hk. induction k as [|k IH]; intros n Hn Hk.
    + change (10 ^ Z.of_nat 1) with 10 in Hn. cbn. rewrite Z.div_1_r. unfold digits. rewrite digits_rev_unfold by lia.
      zb_true (n <? 10). cbn. unfold digit_char. by zb_true (n <? 10).
    + rewrite pad_snoc by lia. rewrite pow10_S in Hn. rewrite pow10_S in Hk.
      assert (0 < 10 ^ Z.of_nat k) by (apply Z.pow_pos_nonneg; lia). pose proof (pow10_S k).
      rewrite IH; [|done|split; [apply Z.div_str_pos; lia|apply Z.div_lt_upper_bound; lia]|apply Z.div_le_lower_bound; lia].
      unfold digits. rewrite (digits_rev_unfold 10 n) by lia. zb_false (n <? 10). rewrite reverse_cons, map_app. cbn [map].
      f_equal. f_equal. unfold digit_char. pose proof (Z.mod_pos_bound n 10). by zb_true (n `mod` 10 <? 10).
Qed.

Section printing.
Context (ch num result op done neg digit pr_num print_len print_i : Z) (w : globals) (i : list Z).
Abbreviation at_ tmp pr_d pr_rem pr_started o :=
  (T (env ch num result op done neg digit tmp pr_num pr_d pr_rem pr_started print_len print_i w) i o).

Definition power (k : nat) : Z := match k with O => 0 | S k' => 10 ^ Z.of_nat k' end.

Lemma power_div k : power (S k) /c 10 = power k.
Proof.
  destruct k as [|k]; [done|]. cbn [power]. rewrite pow10_S. assert (0 < 10 ^ Z.of_nat k) by (apply Z.pow_pos_nonneg; lia).
  rewrite Z.mul_comm, Z.quot_mul by lia. done.
Qed.

Lemma print_digit_ok k tmp d st o : (k < 10)%nat → 0 ≤ d < 2147483648 → d < 10 ^ Z.of_nat (S k) → st = 0 ∨ st = 1 →
  let q := d `div` 10 ^ Z.of_nat k in
  let st' := if 0 <? q then 1 else st in
  print_digit (at_ tmp d (power (S k)) st o) =
  Some (tt, at_ q (d `mod` 10 ^ Z.of_nat k) (power k) st' (if st' =? 1 then 48 + q :: o else o)).
Proof.
  intros Hk Hd Hd' Hst q st'. cbn [power]. rewrite pow10_S in Hd'.
  assert (0 < 10 ^ Z.of_nat k) as Hp by (apply Z.pow_pos_nonneg; lia).
  assert (10 ^ Z.of_nat k ≤ 10 ^ 9) as Hp9 by (apply Z.pow_le_mono_r; lia). change (10 ^ 9) with 1000000000 in Hp9.
  pose proof (power_div k) as Hpd. cbn [power] in Hpd.
  assert (0 ≤ q < 10) as Hq by (split; [apply Z.div_pos; lia|apply Z.div_lt_upper_bound; lia]).
  pose proof (Z.div_mod d (10 ^ Z.of_nat k) ltac:(lia)) as Hdm. pose proof (Z.mod_pos_bound d (10 ^ Z.of_nat k) Hp) as Hmb.
  fold q in Hdm. assert (d /c 10 ^ Z.of_nat k = q) as Hquot by (apply Z.quot_div_nonneg; lia).
  clear Hd'. clearbody q. revert Hp Hp9 Hpd Hdm Hquot Hmb. generalize (10 ^ Z.of_nat k) as p. intros p Hp Hp9 Hpd Hdm Hquot Hmb.
  assert (i32 (d - i32 (q * p)) = d `mod` p) as Hmod.
  { rewrite (i32_small (q * p)) by (unfold is_i32; lia). rewrite i32_small by (unfold is_i32; lia). lia. }
  unfold print_digit. exec. rewrite c_div_pos, Hquot by lia. exec. unfold st'.
  assert (u8 (i32 (48 + q)) = 48 + q) as Hu by (rewrite i32_small by word_lia; apply u8_small; word_lia).
  destruct (Z.ltb_spec 0 q); exec; [|destruct Hst as [->| ->]; exec]; rewrite ?c_div_pos by lia; exec; by rewrite ?Hu, Hmod, Hpd.
Qed.

Lemma print_loop_ok v tmp o : 0 < v < 2147483648 →
  ∃ tmp' st', While ("pr_rem" > 0) print_digit (at_ tmp v 1000000000 0 o) =
    Some (tt, at_ tmp' 0 0 st' (reverse (map digit_char (digits 10 v)) ++ o)).
Proof.
  intros Hv.
  destruct (While_run (λ k s, ∃ tmp d st o', s = at_ tmp d (power k) st o' ∧ (k ≤ 10)%nat ∧ d < 2147483648 ∧
      ((st = 0 ∧ 0 < d < 10 ^ Z.of_nat k ∧ reverse (from_first k d) ++ o' = reverse (map digit_char (digits 10 v)) ++ o) ∨
       (st = 1 ∧ 0 ≤ d < 10 ^ Z.of_nat k ∧ reverse (pad k d) ++ o' = reverse (map digit_char (digits 10 v)) ++ o)))
    (λ s, ∃ tmp' st', s = at_ tmp' 0 0 st' (reverse (map digit_char (digits 10 v)) ++ o))
    ("pr_rem" > 0)%tcc print_digit) with (k := 10%nat) (s := at_ tmp v 1000000000 0 o) as (s' & E & t' & st' & ->).
  - intros k s (t & d & st & o' & -> & Hk & Hd & Hinv). eexists. split; [reflexivity|]. cbv beta. destruct k as [|k].
    { change (10 ^ Z.of_nat 0) with 1 in Hinv. cbn [power Z.ltb Z.compare of_bool Z.eqb].
      destruct Hinv as [(_ & ? & _)|(-> & Hd0 & Ho)]; [lia|]. exists t, 1. replace d with 0 by lia. cbn in Ho. by rewrite <- Ho. }
    assert (0 < 10 ^ Z.of_nat k) as Hp by (apply Z.pow_pos_nonneg; lia).
    rewrite (proj2 (Z.ltb_lt 0 (power (S k)))) by done. cbn [of_bool Z.eqb].
    eexists _, k. split; [apply print_digit_ok; lia|]. split; [lia|]. do 4 eexists. split; [reflexivity|]. split; [lia|].
    pose proof (Z.mod_pos_bound d (10 ^ Z.of_nat k) Hp). pose proof (Z.div_mod d (10 ^ Z.of_nat k) ltac:(lia)).
    assert (0 ≤ d `div` 10 ^ Z.of_nat k) by (apply Z.div_pos; lia).
    split; [nia|]. destruct Hinv as [(-> & Hd0 & Ho)|(-> & Hd0 & Ho)].
    + cbn [from_first] in Ho. destruct (Z.eqb_spec (d `div` 10 ^ Z.of_nat k) 0) as [E|E].
      * left. rewrite E. cbn [Z.ltb Z.compare Z.eqb]. rewrite Z.mod_small by (apply Z.div_small_iff in E; lia).
        split; [done|]. apply Z.div_small_iff in E; [|lia]. split; [lia|done].
      * right. rewrite (proj2 (Z.ltb_lt 0 _)) by lia. cbn [Z.eqb Pos.eqb]. split; [done|]. split; [lia|].
        rewrite <- Ho. cbn [pad]. by rewrite reverse_cons, <- app_assoc.
    + right. assert ((if 0 <? d `div` 10 ^ Z.of_nat k then 1 else 1) = 1) as -> by (by destruct (_ <? _)).
      cbn [Z.eqb Pos.eqb]. split; [done|]. split; [lia|]. rewrite <- Ho. cbn [pad]. by rewrite reverse_cons, <- app_assoc.
  - exists tmp, v, 0, o. split_and!; [done|lia|lia|]. left. split; [done|]. change (10 ^ Z.of_nat 10) with 10000000000. split; [lia|].
    by rewrite from_first_digits by (change (10 ^ Z.of_nat 10) with 10000000000; lia).
  - unfold ROUNDS. lia.
  - by exists t', st'.
Qed.

(** [print_dec] prints the decimal text of every number but the least. *)
Lemma print_dec_ok tmp pr_d pr_rem pr_started o : -2147483648 < pr_num < 2147483648 →
  ∃ tmp' d' r' s', print_dec (at_ tmp pr_d pr_rem pr_started o) =
    Some (tt, at_ tmp' d' r' s' (reverse (dec_text pr_num) ++ o)).
Proof.
  intros Hv. unfold print_dec, dec_text. exec. destruct (Z.ltb_spec pr_num 0) as [Hn|Hn]; exec.
  - rewrite (i32_small (0 - pr_num)) by word_lia. zb_false (0 - pr_num =? 0). exec.
    destruct (print_loop_ok (0 - pr_num) tmp (45 :: o)) as (t' & s' & E); [lia|]. do 4 eexists. etransitivity; [exact E|].
    change (rev_append (map digit_char (digits 10 (Z.abs pr_num))) [chr "-"]) with (reverse (45 :: map digit_char (digits 10 (Z.abs pr_num)))).
    rewrite Z.abs_neq, reverse_cons, <- app_assoc by lia. by replace (- pr_num) with (0 - pr_num) by lia.
  - destruct (Z.eqb_spec pr_num 0) as [->|Hz]; exec; [by do 4 eexists|].
    destruct (print_loop_ok pr_num tmp o) as (t' & s' & E); [lia|]. do 4 eexists. etransitivity; [exact E|].
    by rewrite Z.abs_eq by lia.
Qed.
End printing.

(** ** Sessions *)

Definition BANNER_VARS : globals := zip S_NAMES (lit "Calc - Integer" ++ [0; 0]).

#[local] Arguments BANNER_VARS : simpl never.

(** Between two lines: the registers hold anything but [done], which is 0. *)
Definition between (i o : list Z) (s : tst) : Prop :=
  ∃ ch num result op neg digit tmp pr_num pr_d pr_rem pr_started print_len print_i,
    s = T (env ch num result op 0 neg digit tmp pr_num pr_d pr_rem pr_started print_len print_i BANNER_VARS) i o.

Definition answer (v : Z) : list Z := lit "> = " ++ dec_text v ++ [10].

Lemma answer_out v o : reverse (answer v) ++ o = 10 :: reverse (dec_text v) ++ 32 :: 61 :: 32 :: 62 :: o.
Proof. unfold answer. rewrite !reverse_app, <- !app_assoc. done. Qed.

Definition in_range (v : Z) : Prop := -2147483648 < v < 2147483648.

Lemma expression_head e cs : expression_ok e →
  ∃ x xs, expression_text e ++ 10 :: cs = x :: xs ∧ x ≠ 113 ∧ x ≠ 81.
Proof.
  intros ([Hne Hd] & _ & _). unfold expression_text, numeral_text. destruct (e_before e) as [|k]; [|by do 2 eexists].
  destruct (e_first e) as [[] ds]; cbn in *; [by do 2 eexists|]. destruct ds as [|d ds]; [done|].
  apply Forall_cons in Hd as [Hd _]. do 2 eexists. split; [reflexivity|]. lia.
Qed.

Lemma prompt_ok e v cs i o s :
  expression_ok e → expression_short e → value e = Some v → in_range v →
  i = expression_text e ++ 10 :: cs → between i o s →
  ∃ s', prompt s = Some (tt, s') ∧ between cs (reverse (answer v) ++ o) s'.
Proof.
  intros He (Hb & Hf & Hit & Hk) Hv Hr -> (ch & num & result & op & neg & digit & tmp & pr_num & pr_d & pr_rem & st & pl & pi & ->).
  rewrite answer_out. destruct (expression_head e cs He) as (x & xs & Ex & H1 & H2). rewrite Ex. destruct He as (Hfo & Hio & Hne).
  unfold prompt. exec. zb_false (x =? 113). exec. zb_false (x =? 81). exec. unfold line. symmetry in Ex.
  unfold expression_text in Ex. rewrite <- !app_assoc in Ex.
  destruct (item_text_head (e_items e) 10 cs Hio (or_introl eq_refl)) as (y & ys & Ey & Hy & _). rewrite Ey in Ex.
  destruct (numeral_text_head (e_first e) y ys Hfo) as (z & zs & Ez & Hz). rewrite Ez in Ex.
  rewrite (seq_some _ _ _ _ (skip_spaces_ok _ _ _ _ _ _ _ _ _ _ _ _ _ _ _ _ _ _ _ _ Hb Ex Hz)). symmetry in Ez.
  edestruct read_number_ok as (n1 & d1 & E); [exact Hfo|exact Hf|exact Hy|exact Ez|]. rewrite (seq_some _ _ _ _ E). clear E. exec.
  symmetry in Ey. edestruct operators_ok as (num2 & op2 & neg2 & dig2 & E & Hop); [exact Hio|exact Hit|exact Hk|by left|exact Ey|exact Hv|].
  rewrite (seq_some _ _ _ _ E). clear E. exec. specialize (Hop Hne). zb_false (op2 =? 0). exec.
  edestruct print_dec_ok as (t3 & d3 & r3 & s3 & E); [exact Hr|]. rewrite (seq_some _ _ _ _ E). exec.
  eexists. split; [reflexivity|]. do 13 eexists. reflexivity.
Qed.

(** The session: lines of expressions, then [q]. *)
Lemma prompts_ok es vs : ∀ rest i o s,
  Forall expression_ok es → Forall expression_short es → small (S (length es)) →
  mapM value es = Some vs → Forall in_range vs →
  i = concat (map (λ e, expression_text e ++ [10]) es) ++ 113 :: rest → between i o s →
  ∃ ch num result op neg digit tmp pr_num pr_d pr_rem pr_started print_len print_i,
    While ("done" == 0) prompt s =
    Some (tt, T (env ch num result op 1 neg digit tmp pr_num pr_d pr_rem pr_started print_len print_i BANNER_VARS) rest
                (reverse (concat (map answer vs) ++ lit "> ") ++ o)).
Proof.
  intros rest i o s Hok Hsh Hk Hv Hr Hi Hs.
  destruct (While_run (λ k s,
      (∃ es' vs' o' i', k = S (length es') ∧ between i' o' s ∧ Forall expression_ok es' ∧ Forall expression_short es' ∧
         mapM value es' = Some vs' ∧ Forall in_range vs' ∧ i' = concat (map (λ e, expression_text e ++ [10]) es') ++ 113 :: rest ∧
         reverse (concat (map answer vs')) ++ o' = reverse (concat (map answer vs)) ++ o) ∨
      (k = O ∧ ∃ ch num result op neg digit tmp pr_num pr_d pr_rem pr_started print_len print_i, s =
         T (env ch num result op 1 neg digit tmp pr_num pr_d pr_rem pr_started print_len print_i BANNER_VARS) rest
           (reverse (concat (map answer vs) ++ lit "> ") ++ o)))
    (λ s, ∃ ch num result op neg digit tmp pr_num pr_d pr_rem pr_started print_len print_i, s =
       T (env ch num result op 1 neg digit tmp pr_num pr_d pr_rem pr_started print_len print_i BANNER_VARS) rest
         (reverse (concat (map answer vs) ++ lit "> ") ++ o)) ("done" == 0)%tcc prompt)
    with (k := S (length es)) (s := s) as (s' & E & HQ).
  - clear. intros k s [(es & vs' & o' & i & -> & Hs & Hok & Hsh & Hv & Hr & -> & Ho)|
      (-> & ch & num & result & op & neg & digit & tmp & pr_num & pr_d & pr_rem & st & pl & pi & ->)].
    + exists 1. split; [by destruct Hs as (?&?&?&?&?&?&?&?&?&?&?&?&?&->)|]. cbn [Z.eqb]. destruct es as [|e es].
      * destruct Hs as (ch & num & result & op & neg & digit & tmp & pr_num & pr_d & pr_rem & st & pl & pi & ->).
        injection Hv as <-. cbn in Ho. subst o'. eexists _, O. unfold prompt. exec. split; [reflexivity|]. split; [lia|].
        right. split; [done|]. do 13 eexists. rewrite reverse_app, <- app_assoc. reflexivity.
      * apply Forall_cons in Hok as [He Hok]. apply Forall_cons in Hsh as [Hse Hsh]. cbn in Hv.
        destruct (value e) as [v|] eqn:Ev; [|done]. simpl in Hv. destruct (mapM value es) as [ws|] eqn:Ew; [|done]. injection Hv as <-.
        apply Forall_cons in Hr as [Hrv Hr].
        edestruct (prompt_ok e v (concat (map (λ e, expression_text e ++ [10]) es) ++ 113 :: rest)) as (s1 & E1 & Hs1);
          [exact He|exact Hse|exact Ev|exact Hrv| |exact Hs|].
        { cbn [map concat]. by rewrite <- !app_assoc. }
        exists s1, (S (length es)). split; [done|]. split; [simpl; lia|]. left. exists es, ws. do 2 eexists.
        split_and!; try done. rewrite <- Ho. cbn [map concat]. by rewrite reverse_app, <- app_assoc.
    + exists 0. split; [done|]. by do 13 eexists.
  - left. exists es, vs, o, i. by split_and!.
  - done.
  - destruct HQ as (ch & num & result & op & neg & digit & tmp & pr_num & pr_d & pr_rem & st & pl & pi & ->). by do 13 eexists.
Qed.

Lemma bye_ok ch num result op done neg digit tmp pr_num pr_d pr_rem pr_started print_len print_i i o :
  (say (lit "Bye!");;; putchar 10)
    (T (env ch num result op done neg digit tmp pr_num pr_d pr_rem pr_started print_len print_i BANNER_VARS) i o) =
  Some (tt, T (env 33 num result op done neg digit tmp pr_num pr_d pr_rem pr_started 4 4
                 (zip S_NAMES (lit "Bye! - Integer" ++ [0; 0]))) i (10 :: reverse (lit "Bye!") ++ o)).
Proof. vm_compute. reflexivity. Qed.

(** [C31] Any session of well-formed lines, each a number followed by operators and
    numbers with spaces in front of them, that ends with [q] prints for each line
    its value, computed from left to right in 32-bit arithmetic, in decimal, and
    ends.  The values must exist (no division by zero) and differ from the least
    [int], whose decimal text [print_dec] cannot print. *)
Theorem calc_answers es vs rest :
  Forall expression_ok es → Forall expression_short es → small (S (length es)) →
  mapM value es = Some vs → Forall in_range vs →
  run decls main (concat (map (λ e, expression_text e ++ [10]) es) ++ 113 :: rest) =
  Some (lit "Calc - Integer" ++ [10] ++ concat (map answer vs) ++ lit "> Bye!" ++ [10]).
Proof.
  intros Hok Hsh Hk Hv Hr. set (i := concat _ ++ _). unfold run, main.
  assert (say (lit "Calc - Integer") (T decls i []) =
    Some (tt, T (env 114 0 0 0 0 0 0 0 0 0 0 0 14 14 BANNER_VARS) i (reverse (lit "Calc - Integer")))) as E1 by (vm_compute; reflexivity).
  rewrite (seq_some _ _ _ _ E1). exec.
  match goal with |- context [bindM (While _ prompt) _ ?s] =>
    destruct (prompts_ok es vs rest i (rout s) s) as (ch & num & result & op & neg & digit & tmp & pr_num & pr_d & pr_rem & st & pl & pi & E);
      [done|done|done|done|done|done|by repeat eexists|]
  end. rewrite (seq_some _ _ _ _ E), bye_ok. cbn [mbind option_bind printed rout]. unfold printed. cbn [rout].
  rewrite reverse_cons, !reverse_app, !reverse_involutive, <- !app_assoc. done.
Qed.

Lemma calc_answers_witness :
  let n k := Numeral false [k] in
  let es := [Expression 1 (Numeral true [1; 2]) [Item 1 (chr "*") 0 (n 7); Item 0 (chr "-") 2 (Numeral true [9; 9])];
             Expression 0 (n 9) [Item 0 (chr "/") 0 (n 2)]] in
  run decls main (lit " -12 *7-  -99" ++ [10] ++ lit "9/2" ++ [10] ++ lit "q") =
  Some (lit "Calc - Integer" ++ [10] ++ lit "> = 15" ++ [10] ++ lit "> = 4" ++ [10] ++ lit "> Bye!" ++ [10]).
Proof.
  intros n es. apply (calc_answers es [15; 4] []).
  - repeat constructor; try done; try (simpl; lia); vm_compute; set_solver.
  - apply Forall_cons; split; [|apply Forall_cons; split; [|done]];
      unfold expression_short, item_short, numeral_short, small, ROUNDS; cbn -[Pos.to_nat]; split_and!; try lia;
      repeat (apply Forall_cons; split; [cbn -[Pos.to_nat]; lia|]); by apply Forall_nil.
  - unfold small, ROUNDS. simpl. lia.
  - vm_compute. reflexivity.
  - repeat constructor; lia.
Defined.

(** The least [int] is printed as a sign alone. *)
Theorem calc_least_int :
  run decls main (lit "0-2147483648" ++ [10] ++ lit "q") =
  Some (lit "Calc - Integer" ++ [10] ++ lit "> = -" ++ [10] ++ lit "> Bye!" ++ [10]).
Proof. vm_compute. reflexivity. Qed.

(** At the end of the input the rest of a line is never found: [rest_of_line] goes
    round for ever once [getchar] answers -1. *)
Theorem calc_end_of_input n v o : get "ch" v = Some (-1) → set "ch" (-1) v = Some v →
  loop_nat n (while_body (("ch" != 10) && ("ch" != 13))%tcc (getchar "ch")) (T v [] o) = Some (inl (T v [] o)).
Proof.
  intros Hg Hs. assert (while_body (("ch" != 10) && ("ch" != 13))%tcc (getchar "ch") (T v [] o) = Some (inl (T v [] o))) as Hb.
  { unfold while_body. cbn. rewrite Hg. cbn. rewrite Hs. done. }
  induction n as [|n IH]; [done|]. cbn [loop_nat]. rewrite Hb. exact IH.
Qed.
