(* ===== verification/Demos.v ===== *)
(** * Demonstration programs

    [samples/hanoi.c], [fib.c], [primes.c], [stars.c], [boxes.c], [echo.c] and
    [word_stats.c].  A program without input is evaluated, and its output compared
    with a definition of what it is meant to show. *)

From Stdlib Require Import Znumtheory.
From S2P Require Import Prelude TinyC CMem CStdlib.

#[local] Open Scope string_scope.
#[local] Open Scope Z_scope.
#[local] Open Scope list_scope.

Definition newline : list Z := [10].

(** ** The tower of Hanoi ([hanoi.c]) *)

Module Hanoi.
Definition decls : globals :=
  ints ["n"; "from"; "to"; "aux"; "total"; "print_digit"; "print_num"; "print_div"; "print_started"; "move_count";
        "d0_peg"; "d1_peg"; "d2_peg"; "d3_peg"; "cur_peg"; "next_peg"; "disk"].

(** The code that prints [print_num], which is there twice. *)
Definition print_number : stmt :=
  "print_started" ::= 0;;;
  "print_div" ::= 100;;;
  While ("print_div" > 0)
    ("print_digit" ::= "print_num" / "print_div";;;
     When ("print_digit" > 0) ("print_started" ::= 1);;;
     When ("print_started" == 1) (putchar (48 + "print_digit"));;;
     "print_num" ::= "print_num" - ("print_digit" * "print_div");;;
     "print_div" ::= "print_div" / 10);;;
  When ("print_started" == 0) (putchar (chr "0")).

Definition move : stmt :=
  "move_count" ::= "move_count" + 1;;;
  "aux" ::= "from";;;
  "to" ::= 0;;;
  While ((("aux" / 2) * 2) == "aux") ("aux" ::= "aux" / 2;;; "to" ::= "to" + 1);;;
  "disk" ::= "to";;;
  "cur_peg" ::= 1;;;
  When ("disk" == 0) ("cur_peg" ::= "d0_peg");;;
  When ("disk" == 1) ("cur_peg" ::= "d1_peg");;;
  When ("disk" == 2) ("cur_peg" ::= "d2_peg");;;
  When ("disk" == 3) ("cur_peg" ::= "d3_peg");;;
  If (("disk" == 0) .| ("disk" == 2))
    ("next_peg" ::= "cur_peg" %% 3 + 1)
    ("next_peg" ::= ("cur_peg" + 1) %% 3 + 1);;;
  "print_num" ::= "move_count";;;
  print_number;;;
  putchars (lit ". Disk ");;;
  putchar (49 + "to");;;
  putchars (lit ": Peg ");;;
  putchar (48 + "cur_peg");;;
  putchars (lit " -> Peg ");;;
  putchar (48 + "next_peg");;;
  putchar 10;;;
  When ("disk" == 0) ("d0_peg" ::= "next_peg");;;
  When ("disk" == 1) ("d1_peg" ::= "next_peg");;;
  When ("disk" == 2) ("d2_peg" ::= "next_peg");;;
  When ("disk" == 3) ("d3_peg" ::= "next_peg");;;
  "from" ::= "from" + 1.

Definition main : stmt :=
  putchars (lit "Tower of Hanoi (4 disks)" ++ newline);;;
  "n" ::= 4;;;
  "move_count" ::= 0;;;
  assigns [("d0_peg", 1); ("d1_peg", 1); ("d2_peg", 1); ("d3_peg", 1)];;;
  "total" ::= 1;;;
  "from" ::= 0;;;
  While ("from" < "n") ("total" ::= "total" * 2;;; "from" ::= "from" + 1);;;
  "total" ::= "total" - 1;;;
  "from" ::= 1;;;
  While ("from" <= "total") move;;;
  putchars (newline ++ lit "Total: ");;;
  "print_num" ::= "total";;;
  print_number;;;
  putchars (lit " moves" ++ newline).

(** The classic solution: a move is a disk (0 is the smallest) and two pegs. *)
Fixpoint solve (n : nat) (a c b : Z) : list (nat * Z * Z) :=
  match n with
  | O => []
  | S k => solve k a b c ++ [(k, a, c)] ++ solve k b c a
  end.

(** The rules: the disk moved is on the first peg, and no smaller disk is on
    either peg. *)
Definition legal (pegs : nat → Z) (m : nat * Z * Z) : Prop :=
  let '(d, p, q) := m in pegs d = p ∧ ∀ e, (e < d)%nat → pegs e ≠ p ∧ pegs e ≠ q.
Definition play1 (pegs : nat → Z) (m : nat * Z * Z) : nat → Z :=
  let '(d, p, q) := m in λ e, if decide (e = d) then q else pegs e.
Fixpoint play (pegs : nat → Z) (ms : list (nat * Z * Z)) : Prop * (nat → Z) :=
  match ms with
  | [] => (True, pegs)
  | m :: ms' => let r := play (play1 pegs m) ms' in (legal pegs m ∧ fst r, snd r)
  end.

Lemma play_app pegs l1 l2 :
  (fst (play pegs (l1 ++ l2)) ↔ fst (play pegs l1) ∧ fst (play (snd (play pegs l1)) l2)) ∧
  snd (play pegs (l1 ++ l2)) = snd (play (snd (play pegs l1)) l2).
Proof.
  revert pegs. induction l1 as [|m l1 IH]; intros pegs; [by split; [split; [|intros []]|]|].
  cbn [app play fst snd]. destruct (IH (play1 pegs m)) as [-> ->]. split; [tauto|done].
Qed.

(** The solution is legal from any position with the [n] smallest disks on one
    peg, brings them to the other and moves nothing else. *)
Lemma solve_ok n a c b pegs : a ≠ c → a ≠ b → b ≠ c → (∀ e, (e < n)%nat → pegs e = a) →
  fst (play pegs (solve n a c b)) ∧
  ∀ e, snd (play pegs (solve n a c b)) e = if decide (e < n)%nat then c else pegs e.
Proof.
  revert a c b pegs. induction n as [|n IH]; intros a c b pegs Hac Hab Hbc Hp; [done|]. cbn [solve].
  destruct (IH a b c pegs) as [L1 S1]; [done..| |]; [intros; apply Hp; lia|].
  set (p1 := snd (play pegs (solve n a b c))) in *.
  destruct (IH b c a (play1 p1 (n, a, c))) as [L2 S2]; [done..| |].
  { intros e He. cbn [play1]. rewrite decide_False by lia. rewrite S1, decide_True by lia. done. }
  destruct (play_app pegs (solve n a b c) ([(n, a, c)] ++ solve n b c a)) as [-> ->]. fold p1. cbn [app play fst snd].
  split.
  - split; [done|]. split; [|done]. split; [rewrite S1, decide_False by lia; apply Hp; lia|].
    intros e He. rewrite S1, decide_True by lia. by split.
  - intros e. rewrite S2. cbn [play1]. destruct (decide (e < S n)%nat) as [Hlt|Hge].
    + destruct (decide (e < n)%nat); [done|]. by rewrite decide_True by lia.
    + rewrite !decide_False by lia. rewrite S1, decide_False by lia. done.
Qed.

Definition move_line (k : Z) (m : nat * Z * Z) : list Z :=
  let '(d, p, q) := m in
  dec_text k ++ lit ". Disk " ++ dec_text (Z.of_nat d + 1) ++ lit ": Peg " ++ dec_text p ++ lit " -> Peg " ++ dec_text q ++ newline.

(** The program prints the moves of the classic solution for four disks from
    peg 1 to peg 3, which obeys the rules and ends with every disk on peg 3. *)
Theorem hanoi_solution :
  let ms := solve 4 1 3 2 in
  run decls main [] = Some (
    lit "Tower of Hanoi (4 disks)" ++ newline ++
    concat (zip_with move_line (seqZ 1 15) ms) ++
    newline ++ lit "Total: 15 moves" ++ newline) ∧
  length ms = 15%nat ∧ fst (play (λ _, 1) ms) ∧ ∀ d, (d < 4)%nat → snd (play (λ _, 1) ms) d = 3.
Proof.
  intros ms. split; [vm_compute; reflexivity|]. split; [done|].
  destruct (solve_ok 4 1 3 2 (λ _, 1)) as [Hl Hs]; [done..|]. split; [done|]. intros d Hd. rewrite Hs. by rewrite decide_True.
Qed.
End Hanoi.

(** ** Fibonacci numbers ([fib.c]) *)

Module Fib.
Definition decls : globals := ints ["a"; "b"; "temp"; "count"; "digit"; "num"].

Definition print_num : stmt :=
  When ("num" == 0) (putchar (chr "0"));;;
  When ("num" > 0)
    ("temp" ::= 1;;;
     While (("temp" * 10) <= "num") ("temp" ::= "temp" * 10);;;
     While ("temp" > 0)
       ("digit" ::= "num" / "temp";;;
        putchar ("digit" + 48);;;
        "num" ::= "num" - ("digit" * "temp");;;
        "temp" ::= "temp" / 10)).

Definition main : stmt :=
  putchars (lit "Fib: ");;;
  "a" ::= 0;;;
  "b" ::= 1;;;
  "count" ::= 0;;;
  While ("count" < 20)
    ("num" ::= "a";;; print_num;;;
     putchar (chr " ");;;
     "temp" ::= ("a" + "b");;;
     "a" ::= "b";;;
     "b" ::= "temp";;;
     "count" ::= "count" + 1);;;
  putchar 10.

Fixpoint fib (n : nat) : Z :=
  match n with O => 0 | S n' => match n' with O => 1 | S n'' => fib n' + fib n'' end end.

Theorem fib_output :
  run decls main [] = Some (lit "Fib: " ++ concat (map (λ n, dec_text (fib n) ++ lit " ") (seq 0 20)) ++ newline).
Proof. vm_compute. reflexivity. Qed.
End Fib.

(** ** Prime numbers ([primes.c]) *)

Module Primes.
Definition decls : globals := ints ["num"; "div"; "is_prime"; "count"; "digit"; "temp"].

Definition print_prime : stmt :=
  "temp" ::= "num";;;
  When ("temp" >= 100) ("digit" ::= "temp" / 100;;; putchar ("digit" + 48);;; "temp" ::= "temp" - ("digit" * 100));;;
  When ("num" >= 10) ("digit" ::= "temp" / 10;;; putchar ("digit" + 48);;; "temp" ::= "temp" - ("digit" * 10));;;
  putchar ("temp" + 48);;;
  putchar (chr " ");;;
  "count" ::= "count" + 1;;;
  "temp" ::= "count" / 10;;;
  "temp" ::= "temp" * 10;;;
  When ("temp" == "count") (putchar 10).

Definition test : stmt :=
  "is_prime" ::= 1;;;
  "div" ::= 2;;;
  While (("div" * "div") <= "num")
    ("temp" ::= "num" / "div";;;
     "temp" ::= "temp" * "div";;;
     When ("temp" == "num") ("is_prime" ::= 0);;;
     "div" ::= "div" + 1).

Definition main : stmt :=
  putchars (lit "Primes:" ++ newline);;;
  "num" ::= 2;;;
  "count" ::= 0;;;
  While ("num" <= 100)
    (test;;;
     When ("is_prime" == 1) print_prime;;;
     "num" ::= "num" + 1);;;
  putchar 10.

Definition is_prime (n : Z) : bool := (2 <=? n) && forallb (λ d, negb (n `mod` d =? 0)) (seqZ 2 (n - 2)).
(** Ten to a line. *)
Definition entry (k : Z) (p : Z) : list Z := dec_text p ++ lit " " ++ (if k `mod` 10 =? 0 then newline else []).

(** [test] decides primality for every number whose root squares without
    overflow; here [decls] has any values. *)
Section test.
Context (num count digit : Z) (i o : list Z).
Hypothesis (Hnum : 2 ≤ num < 2147395600).
#[local] Set Default Proof Using "Type*".
Abbreviation at_ div is_prime temp :=
  (T [("num", num); ("div", div); ("is_prime", is_prime); ("count", count); ("digit", digit); ("temp", temp)] i o).

Definition no_divisor (d : Z) : Prop := ∀ k, 2 ≤ k < d → ¬ (k | num).

Lemma no_divisor_prime d : 2 ≤ d → num < d * d → no_divisor d → prime num.
Proof.
  intros Hd Hn Hno. apply prime_alt. split; [lia|]. intros k Hk [m Hm].
  assert (0 < m) by nia. destruct (Z.lt_ge_cases k d).
  - apply (Hno k); [lia|]. by exists m.
  - apply (Hno m); [nia|]. exists k. lia.
Qed.

Lemma test_ok div is_prime temp :
  ∃ d p t, test (at_ div is_prime temp) = Some (tt, at_ d p t) ∧ ((p = 1 ∧ prime num) ∨ (p = 0 ∧ ¬ prime num)).
Proof.
  unfold test. cbn -[While].
  edestruct (While_run (λ k s, ∃ d p t, s = at_ d p t ∧ 2 ≤ d ≤ 46340 ∧ k = Z.to_nat (46340 - d) ∧
      ((p = 1 ∧ no_divisor d) ∨ (p = 0 ∧ ¬ prime num)))
    (λ s, ∃ d p t, s = at_ d p t ∧ ((p = 1 ∧ prime num) ∨ (p = 0 ∧ ¬ prime num)))) with (k := Z.to_nat 46338) as (s' & E & HQ).
  4: { destruct HQ as (d & p & t & -> & HQ). exists d, p, t. split; [exact E|exact HQ]. }
  - intros k s (d & p & t & -> & Hd & -> & Hp). eexists. split; [reflexivity|]. rewrite i32_small by (unfold is_i32; nia).
    destruct (Z.leb_spec (d * d) num) as [Hle|Hgt]; cbn [of_bool Z.eqb].
    + assert (d < 46340) as Hlt by nia. assert (num /c d = num `div` d) as Hq by (apply Z.quot_div_nonneg; lia).
      assert (0 ≤ num `div` d * d ≤ num) as Hb by (pose proof (Z.div_mod num d); pose proof (Z.mod_pos_bound num d);
        pose proof (Z.div_pos num d); nia).
      assert (num `div` d * d = num ↔ (d | num)) as Hdiv.
      { rewrite <- Z.mod_divide by lia. pose proof (Z.div_mod num d). lia. }
      exists (at_ (d + 1) (if num `div` d * d =? num then 0 else p) (num `div` d * d)), (Z.to_nat (46340 - (d + 1))).
      split.
      { cbn -[While Z.add Z.mul Z.div]. rewrite c_div_pos, Hq by lia. cbn -[While Z.add Z.mul Z.div].
        rewrite (i32_small (num `div` d * d)) by (unfold is_i32; lia).
        destruct (num `div` d * d =? num); cbn -[While Z.add Z.mul Z.div]; by rewrite i32_small by (unfold is_i32; lia). }
      split; [lia|]. do 3 eexists. split; [reflexivity|]. split; [lia|]. split; [done|].
      destruct (Z.eqb_spec (num `div` d * d) num) as [Hy|Hn].
      * right. split; [done|]. intros [_ Hpr]%prime_alt. apply (Hpr d); [nia|]. by apply Hdiv.
      * destruct Hp as [[-> Hno]|[-> Hnp]]; [left|by right]. split; [done|]. intros k Hk. destruct (decide (k = d)) as [->|].
        { tauto. } apply Hno. lia.
    + exists d, p, t. split; [done|]. destruct Hp as [[-> Hno]|[-> Hnp]]; [left|by right]. split; [done|].
      apply (no_divisor_prime d); lia || done.
  - exists 2, 1, temp. split; [reflexivity|]. split; [lia|]. split; [done|]. left. split; [done|]. intros k Hk. lia.
  - unfold ROUNDS. lia.
Qed.
End test.

Theorem primes_output :
  run decls main [] = Some (
    lit "Primes:" ++ newline ++
    concat (zip_with entry (seqZ 1 25) (filter (λ n, is_prime n = true) (seqZ 0 101))) ++ newline).
Proof. vm_compute. reflexivity. Qed.
End Primes.

(** ** Patterns ([stars.c], [boxes.c]) *)

Module Stars.
Definition decls : globals := ints ["row"; "col"; "size"].
Definition main : stmt :=
  "size" ::= 15;;;
  "row" ::= 1;;;
  While ("row" <= "size")
    ("col" ::= 0;;;
     While ("col" < ("size" - "row")) (putchar (chr " ");;; "col" ::= "col" + 1);;;
     "col" ::= 0;;;
     While ("col" < (("row" * 2) - 1)) (putchar (chr "*");;; "col" ::= "col" + 1);;;
     putchar 10;;;
     "row" ::= "row" + 1).

(** The rows of a centred triangle. *)
Definition row (size k : nat) : list Z := replicate (size - k) (chr " ") ++ replicate (2 * k - 1) (chr "*") ++ newline.

Theorem stars_output : run decls main [] = Some (concat (map (row 15) (seq 1 15))).
Proof. vm_compute. reflexivity. Qed.
End Stars.

Module Boxes.
Definition decls : globals := ints ["size"; "row"; "col"; "layer"; "ch"].
Definition main : stmt :=
  "size" ::= 21;;;
  "row" ::= 0;;;
  While ("row" < "size")
    ("col" ::= 0;;;
     While ("col" < "size")
       ("layer" ::= "row";;;
        When (("size" - 1 - "row") < "layer") ("layer" ::= "size" - 1 - "row");;;
        When ("col" < "layer") ("layer" ::= "col");;;
        When (("size" - 1 - "col") < "layer") ("layer" ::= "size" - 1 - "col");;;
        "ch" ::= "layer" - (("layer" / 2) * 2);;;
        If ("ch" == 0) (putchar (chr "#")) (putchar (chr "."));;;
        "col" ::= "col" + 1);;;
     putchar 10;;;
     "row" ::= "row" + 1).

(** The layer of a cell is its distance from the nearest edge; even layers are
    drawn with [#]. *)
Definition layer (r c : Z) : Z := Z.min (Z.min r (20 - r)) (Z.min c (20 - c)).
Definition cell (r c : Z) : Z := if Z.even (layer r c) then chr "#" else chr ".".

Theorem boxes_output : run decls main [] = Some (concat (map (λ r, map (cell r) (seqZ 0 21) ++ newline) (seqZ 0 21))).
Proof. vm_compute. reflexivity. Qed.
End Boxes.

(** ** [hello.c] *)

Module Hello.
Definition main : stmt := putchars (lit "Hello, World!" ++ [10]).
Lemma hello_output i : run [] main i = Some (lit "Hello, World!" ++ [10]).
Proof. unfold run, main. by rewrite putchars_ok. Qed.
End Hello.

(** ** Echo ([echo.c]) *)

Module Echo.
Definition decls : globals := ints ["ch"].
Definition step : stmt := getchar "ch";;; When ("ch" != 27) (putchar "ch").
Definition main : stmt :=
  putchars (lit "Type text (ESC to quit):" ++ newline);;;
  "ch" ::= 0;;;
  While ("ch" != 27) step;;;
  putchar 10.

Lemma echo_loop t rest c o : (length t < Pos.to_nat ROUNDS - 1)%nat → 27 ∉ t → c ≠ 27 →
  While ("ch" != 27) step (T [("ch", c)] (t ++ 27 :: rest) o) =
  Some (tt, T [("ch", 27)] rest (reverse (map u8 t) ++ o)).
Proof.
  intros Hl Ht Hc.
  destruct (While_run (λ k s, (k = O ∧ s = T [("ch", 27)] rest (reverse (map u8 t) ++ o)) ∨
      ∃ c t' o', c ≠ 27 ∧ (27 ∉ t') ∧ k = S (length t') ∧ s = T [("ch", c)] (t' ++ 27 :: rest) o' ∧
        reverse (map u8 t') ++ o' = reverse (map u8 t) ++ o)
    (λ s, s = T [("ch", 27)] rest (reverse (map u8 t) ++ o)) ("ch" != 27)%tcc step)
    with (k := S (length t)) (s := T [("ch", c)] (t ++ 27 :: rest) o) as (s' & E & ->); [| |lia|exact E].
  - clear. intros k s [[-> ->]|(c & t' & o' & Hc & Ht & -> & -> & Ho)]; [by exists 0|].
    exists 1. split; [cbn; unfold c_cmp; by zb_false (c =? 27)|]. cbn [Z.eqb]. destruct t' as [|x t'].
    + eexists _, O. split; [reflexivity|]. split; [lia|]. left. split; [done|]. cbn in Ho. by rewrite <- Ho.
    + apply not_elem_of_cons in Ht as [Hx Ht]. eexists _, (S (length t')). split.
      { unfold step. cbn. unfold c_cmp. zb_false (x =? 27). cbn. reflexivity. }
      split; [simpl; lia|]. right. exists x, t'. eexists. split; [done|]. split; [done|]. split; [done|]. split; [reflexivity|].
      rewrite <- Ho. cbn [map]. by rewrite reverse_cons, <- app_assoc.
  - right. exists c, t, o. done.
Qed.

(** Whatever is typed before the first ESC comes back unchanged, and the
    program ends there. *)
Theorem echo_echoes t rest : (length t < Pos.to_nat ROUNDS - 1)%nat → 27 ∉ t → Forall is_u8 t →
  run decls main (t ++ 27 :: rest) = Some (lit "Type text (ESC to quit):" ++ newline ++ t ++ newline).
Proof.
  intros Hl Ht Hu. unfold run, main, decls. cbn [ints map]. rewrite (seq_some _ _ _ _ (putchars_ok _ _ _ _)).
  erewrite seq_some by reflexivity. cbn [vars inp rout]. rewrite (seq_some _ _ _ _ (echo_loop t rest 0 _ Hl Ht ltac:(done))).
  cbn -[lit newline app reverse u8]. unfold printed. cbn [rout].
  rewrite (map_u8 t Hu).
  rewrite reverse_cons, !reverse_app, !reverse_involutive, <- !app_assoc. done.
Qed.

Lemma echo_echoes_witness :
  run decls main (lit "abc" ++ 27 :: lit "x") = Some (lit "Type text (ESC to quit):" ++ newline ++ lit "abc" ++ newline).
Proof.
  apply (echo_echoes (lit "abc") (lit "x")).
  - change (length (lit "abc")) with 3%nat. unfold ROUNDS. lia.
  - vm_compute. set_solver.
  - repeat constructor; vm_compute; congruence.
Defined.

(** Without an ESC the program goes on for ever after the end of the input. *)
Theorem echo_end_of_input n c o : c ≠ 27 →
  ∃ o', loop_nat (S n) (while_body ("ch" != 27)%tcc step) (T [("ch", c)] [] o) = Some (inl (T [("ch", -1)] [] o')).
Proof.
  intros Hc. revert c o Hc. induction n as [|n IH]; intros c o Hc.
  - exists (255 :: o). cbn. unfold while_body. cbn. zb_false (c =? 27). done.
  - destruct (IH (-1) (255 :: o)) as [o' E]; [done|]. exists o'. rewrite <- E.
    by apply (while_round _ _ _ _ 1); [cbn; unfold c_cmp; zb_false (c =? 27)|..].
Qed.
End Echo.

(** ** Word statistics ([word_stats.c])

    The counts are local variables; the text is an array of characters. *)

Module WordStats.
Definition is_space (ch : Z) : bool := (ch =? 32) || (ch =? 9) || (ch =? 10) || (ch =? 13).

Record counts := Counts { words : Z; letters : Z; digits : Z; in_word : Z }.

(** One round of [while (text[i] != 0)]. *)
Definition count_char (c : counts) (ch : Z) : counts :=
  if is_space ch then Counts (words c) (letters c) (digits c) 0
  else
    let c := if in_word c =? 0 then Counts (words c + 1) (letters c) (digits c) 1 else c in
    if (48 <=? ch) && (ch <=? 57) then Counts (words c) (letters c) (digits c + 1) (in_word c)
    else Counts (words c) (letters c + 1) (digits c) (in_word c).
Definition count_text (text : list Z) : counts := foldl count_char (Counts 0 0 0 0) text.

Definition text : list Z := lit "Mellivora OS 13".
(** The calls of [putchar]: constants, whatever was counted. *)
Definition report : list Z := lit "Words: 2" ++ newline ++ lit "Letters: 13" ++ newline ++ lit "Digits: 2" ++ newline.
Definition main : counts * list Z := (count_text text, report).

(** The numbers printed are not the numbers counted. *)
Theorem word_stats_report :
  main = (Counts 3 11 2 1, lit "Words: 2" ++ newline ++ lit "Letters: 13" ++ newline ++ lit "Digits: 2" ++ newline).
Proof. vm_compute. reflexivity. Qed.
End WordStats.
