(* ===== verification/Grids.v ===== *)
(** * Grids of numbers and characters

    [samples/matrix_mul.c], [mandelbrot_fp.c] and [matrix.c]: a matrix product for
    any two matrices, a picture that comes out in one colour, and the falling
    characters. *)

From S2P Require Import Prelude TinyC.

#[local] Open Scope string_scope.
#[local] Open Scope Z_scope.
#[local] Open Scope list_scope.

(** ** The matrix product ([matrix_mul.c]) *)

Module MatrixMul.
(** The names [a00], [a01], ..., [a33] in row order. *)
Definition cells (x : string) : list string := r ← ["0"; "1"; "2"; "3"]; map (λ c, x +:+ r +:+ c) ["0"; "1"; "2"; "3"].
Definition A_NAMES : list string := Eval vm_compute in cells "a".
Definition B_NAMES : list string := Eval vm_compute in cells "b".
Definition C_NAMES : list string := Eval vm_compute in cells "c".
Definition REGS : list string :=
  ["ri"; "ci"; "ki"; "aik"; "bkj"; "acc"; "pn"; "pdiv"; "pst"; "tmp"; "neg"; "ns"; "pr"; "pw"; "field_val"; "digits"; "dval"; "dv2"].
Definition decls : globals := ints (REGS ++ C_NAMES ++ A_NAMES ++ B_NAMES).
Definition cell (names : list string) (r c : Z) : string := names !!! Z.to_nat (4 * r + c).

Definition print_int : stmt :=
  If ("pn" == 0) (putchar 48)
    ("neg" ::= 0;;;
     When ("pn" < 0) ("neg" ::= 1;;; "pn" ::= 0 - "pn");;;
     When "neg" (putchar 45);;;
     "pdiv" ::= 1000;;; "pst" ::= 0;;;
     While ("pdiv" > 0)
       ("tmp" ::= "pn" / "pdiv";;;
        When ("tmp" > 0) ("pst" ::= 1);;;
        When ("pst" == 1) (putchar (48 + "tmp"));;;
        "pn" ::= "pn" - "tmp" * "pdiv";;;
        "pdiv" ::= "pdiv" / 10)).

Definition print_spaces : stmt := While ("ns" > 0) (putchar 32;;; "ns" ::= "ns" - 1).

(** The two levels of comparisons: statement [f r c] for the values of [x], [y]. *)
Definition select (x y : string) (f : Z → Z → stmt) : stmt :=
  each [0; 1; 2; 3] (λ r, When (x == r) (each [0; 1; 2; 3] (λ c, When (y == c) (f r c)))).

Definition get_aik : stmt := select "ri" "ki" (λ r c, "aik" ::= cell A_NAMES r c).
Definition get_bkj : stmt := select "ki" "ci" (λ r c, "bkj" ::= cell B_NAMES r c).
Definition set_cij : stmt := select "ri" "ci" (λ r c, cell C_NAMES r c ::= "acc").
Definition get_cij : stmt := select "ri" "ci" (λ r c, "pn" ::= cell C_NAMES r c).

Definition print_field : stmt :=
  "digits" ::= 1;;;
  "dval" ::= "field_val";;;
  When ("dval" < 0) ("digits" ::= 2;;; "dval" ::= 0 - "dval");;;
  "dv2" ::= "dval";;;
  While ("dv2" >= 10) ("digits" ::= "digits" + 1;;; "dv2" ::= "dv2" / 10);;;
  "pw" ::= 6 - "digits";;;
  While ("pw" > 0) (putchar 32;;; "pw" ::= "pw" - 1);;;
  "pn" ::= "field_val";;;
  print_int.

Definition print_matrix_4x4 : stmt :=
  "ri" ::= 0;;;
  While ("ri" < 4)
    (putchar 124;;;
     "ci" ::= 0;;;
     While ("ci" < 4)
       (get_cij;;; "field_val" ::= "pn";;; print_field;;; "ci" ::= "ci" + 1);;;
     putchar 32;;; putchar 124;;; putchar 10;;;
     "ri" ::= "ri" + 1).

Definition print_str_A : stmt := putchars (lit "A =" ++ [10]).
Definition print_str_B : stmt := putchars (lit "B =" ++ [10]).
Definition print_str_C : stmt := putchars (lit "C = A * B =" ++ [10]).

Fixpoint copies (l : list (string * string)) : stmt :=
  match l with [] => skip | (x, y) :: l' => x ::= y;;; copies l' end.
Definition print_A : stmt := copies (zip C_NAMES A_NAMES);;; print_matrix_4x4.
Definition print_B : stmt := copies (zip C_NAMES B_NAMES);;; print_matrix_4x4.

(** [Compute C = A * B] *)
Definition inner : stmt := get_aik;;; get_bkj;;; "acc" ::= "acc" + "aik" * "bkj";;; "ki" ::= "ki" + 1.
Definition middle : stmt :=
  "acc" ::= 0;;; "ki" ::= 0;;;
  While ("ki" < 4) inner;;;
  set_cij;;;
  "ci" ::= "ci" + 1.
Definition outer : stmt := "ci" ::= 0;;; While ("ci" < 4) middle;;; "ri" ::= "ri" + 1.
Definition multiply : stmt := "ri" ::= 0;;; While ("ri" < 4) outer.

Definition main : stmt :=
  assigns (zip A_NAMES [1; 0; 0; 1;  0; 2; 0; 0;  0; 0; 3; 0;  4; 0; 0; 5]);;;
  assigns (zip B_NAMES [1; 0; 0; 0;  2; 1; 0; 0;  3; 2; 1; 0;  4; 3; 2; 1]);;;
  print_str_A;;; print_A;;; putchar 10;;;
  print_str_B;;; print_B;;; putchar 10;;;
  multiply;;;
  print_str_C;;; print_matrix_4x4;;; putchar 10.

Example matrix_mul_output :
  run decls main [] = Some (
    lit "A =" ++ [10] ++
    lit "|     1     0     0     1 |" ++ [10] ++ lit "|     0     2     0     0 |" ++ [10] ++
    lit "|     0     0     3     0 |" ++ [10] ++ lit "|     4     0     0     5 |" ++ [10; 10] ++
    lit "B =" ++ [10] ++
    lit "|     1     0     0     0 |" ++ [10] ++ lit "|     2     1     0     0 |" ++ [10] ++
    lit "|     3     2     1     0 |" ++ [10] ++ lit "|     4     3     2     1 |" ++ [10; 10] ++
    lit "C = A * B =" ++ [10] ++
    lit "|     5     3     2     1 |" ++ [10] ++ lit "|     4     2     0     0 |" ++ [10] ++
    lit "|     9     6     3     0 |" ++ [10] ++ lit "|    24    15    10     5 |" ++ [10; 10]).
Proof. vm_compute. reflexivity. Qed.

(** *** The product of any two matrices

    A matrix is the list of its sixteen entries, row by row. *)
Definition rest (r c a b : list Z) : globals :=
  zip ["pn"; "pdiv"; "pst"; "tmp"; "neg"; "ns"; "pr"; "pw"; "field_val"; "digits"; "dval"; "dv2"] r ++
  zip C_NAMES c ++ zip A_NAMES a ++ zip B_NAMES b.
Abbreviation at_ ri ci ki aik bkj acc w i o :=
  (T (("ri", ri) :: ("ci", ci) :: ("ki", ki) :: ("aik", aik) :: ("bkj", bkj) :: ("acc", acc) :: w) i o).
Definition entry (m : list Z) (r c : Z) : Z := m !!! Z.to_nat (4 * r + c).

Record shapes (r c a b : list Z) : Prop := {
  sh_r : length r = 12%nat; sh_c : length c = 16%nat; sh_a : length a = 16%nat; sh_b : length b = 16%nat
}.

(** Evaluate a statement that depends on two indices, entry by entry. *)
Ltac by_entry x y :=
  let Hx := fresh in let Hy := fresh in
  match goal with Hs : shapes ?r ?c ?a ?b |- _ =>
    destruct Hs as [Hr Hc Ha Hb];
    destruct (sixteen c Hc) as (?&?&?&?&?&?&?&?&?&?&?&?&?&?&?&?&->);
    destruct (sixteen a Ha) as (?&?&?&?&?&?&?&?&?&?&?&?&?&?&?&?&->);
    destruct (sixteen b Hb) as (?&?&?&?&?&?&?&?&?&?&?&?&?&?&?&?&->);
    do 12 (destruct r as [|? r]; [discriminate|]); destruct r; [|discriminate]
  end;
  assert (x = 0 ∨ x = 1 ∨ x = 2 ∨ x = 3) as Hx by lia; assert (y = 0 ∨ y = 1 ∨ y = 2 ∨ y = 3) as Hy by lia;
  destruct Hx as [->|[->|[->| ->]]]; destruct Hy as [->|[->|[->| ->]]]; vm_compute; reflexivity.

Lemma get_aik_ok ri ci ki aik bkj acc r c a b i o : shapes r c a b → 0 ≤ ri < 4 → 0 ≤ ki < 4 →
  get_aik (at_ ri ci ki aik bkj acc (rest r c a b) i o) = Some (tt, at_ ri ci ki (entry a ri ki) bkj acc (rest r c a b) i o).
Proof. intros. by_entry ri ki. Qed.

Lemma get_bkj_ok ri ci ki aik bkj acc r c a b i o : shapes r c a b → 0 ≤ ki < 4 → 0 ≤ ci < 4 →
  get_bkj (at_ ri ci ki aik bkj acc (rest r c a b) i o) = Some (tt, at_ ri ci ki aik (entry b ki ci) acc (rest r c a b) i o).
Proof. intros. by_entry ki ci. Qed.

Lemma set_cij_ok ri ci ki aik bkj acc r c a b i o : shapes r c a b → 0 ≤ ri < 4 → 0 ≤ ci < 4 →
  set_cij (at_ ri ci ki aik bkj acc (rest r c a b) i o) =
  Some (tt, at_ ri ci ki aik bkj acc (rest r (<[Z.to_nat (4 * ri + ci) := acc]> c) a b) i o).
Proof. intros. by_entry ri ci. Qed.

#[global] Arguments get_aik : simpl never.
#[global] Arguments get_bkj : simpl never.
#[global] Arguments set_cij : simpl never.
#[local] Arguments inner : simpl never.
#[local] Arguments middle : simpl never.
#[local] Arguments outer : simpl never.
#[local] Arguments rest : simpl never.
Ltac exec := cbn -[Z.add Z.sub Z.mul i32 u8 While rest].

(** The sum of the first [k] products of a row and a column. *)
Fixpoint dot (a b : list Z) (r c : Z) (k : nat) : Z :=
  match k with O => 0 | S k' => dot a b r c k' + entry a r (Z.of_nat k') * entry b (Z.of_nat k') c end.

Lemma inner_loop_ok ri ci aik bkj r c a b i o : shapes r c a b → 0 ≤ ri < 4 → 0 ≤ ci < 4 →
  ∃ aik' bkj', While ("ki" < 4) inner (at_ ri ci 0 aik bkj 0 (rest r c a b) i o) =
    Some (tt, at_ ri ci 4 aik' bkj' (i32 (dot a b ri ci 4)) (rest r c a b) i o).
Proof.
  intros Hs Hr Hc.
  destruct (While_run (λ k s, ∃ aik bkj, (k ≤ 4)%nat ∧
      s = at_ ri ci (Z.of_nat (4 - k)) aik bkj (i32 (dot a b ri ci (4 - k))) (rest r c a b) i o)
    (λ s, ∃ aik bkj, s = at_ ri ci 4 aik bkj (i32 (dot a b ri ci 4)) (rest r c a b) i o) ("ki" < 4)%tcc inner)
    with (k := 4%nat) (s := at_ ri ci 0 aik bkj 0 (rest r c a b) i o) as (s' & E & x & y & ->).
  - intros k s (x & y & Hk & ->). eexists. split; [reflexivity|]. destruct (Z.ltb_spec (Z.of_nat (4 - k)) 4); cbn [of_bool Z.eqb].
    + unfold inner. erewrite seq_some by (apply get_aik_ok; done || lia). erewrite seq_some by (apply get_bkj_ok; done || lia).
      exec. eexists _, (k - 1)%nat. split; [reflexivity|]. split; [lia|].
      exists (entry a ri (Z.of_nat (4 - k))), (entry b (Z.of_nat (4 - k)) ci). split; [lia|].
      replace (4 - (k - 1))%nat with (S (4 - k)) by lia. cbn [dot]. rewrite (i32_small (Z.of_nat (4 - k) + 1)) by word_lia.
      replace (Z.of_nat (S (4 - k))) with (Z.of_nat (4 - k) + 1) by lia.
      generalize (entry a ri (Z.of_nat (4 - k)) * entry b (Z.of_nat (4 - k)) ci) as p. intros p.
      by replace (i32 (i32 (dot a b ri ci (4 - k)) + i32 p)) with (i32 (dot a b ri ci (4 - k) + p)) by word_lia.
    + replace k with 0%nat by lia. by exists x, y.
  - exists aik, bkj. split; [lia|]. done.
  - unfold ROUNDS. lia.
  - by exists x, y.
Qed.

(** The entries up to the [n]-th are those of the product. *)
Definition done_upto (a b c0 c : list Z) (n : Z) : Prop :=
  length c = 16%nat ∧ ∀ k, 0 ≤ k < 16 → c !!! Z.to_nat k = if k <? n then i32 (dot a b (k `div` 4) (k `mod` 4) 4) else c0 !!! Z.to_nat k.

Lemma done_upto_step a b c0 c r j : done_upto a b c0 c (4 * r + j) → 0 ≤ r < 4 → 0 ≤ j < 4 →
  done_upto a b c0 (<[Z.to_nat (4 * r + j) := i32 (dot a b r j 4)]> c) (4 * r + (j + 1)).
Proof.
  intros [Hl Hd] Hr Hj. split; [by rewrite length_insert|]. intros k Hk. destruct (decide (k = 4 * r + j)) as [->|Hne].
  - rewrite list_lookup_total_insert_eq by lia. zb_true (4 * r + j <? 4 * r + (j + 1)).
    replace ((4 * r + j) `div` 4) with r by dlia. by replace ((4 * r + j) `mod` 4) with j by dlia.
  - rewrite list_lookup_total_insert_ne by lia. rewrite Hd by done.
    destruct (Z.ltb_spec k (4 * r + j)), (Z.ltb_spec k (4 * r + (j + 1))); done || lia.
Qed.
Section product.
Context (r a b c0 i o : list Z).
Hypotheses (Hr : length r = 12%nat) (Ha : length a = 16%nat) (Hb : length b = 16%nat).
#[local] Set Default Proof Using "Type*".

Lemma middle_ok ri ci ki aik bkj acc c : done_upto a b c0 c (4 * ri + ci) → 0 ≤ ri < 4 → 0 ≤ ci < 4 →
  ∃ aik' bkj' acc' c', middle (at_ ri ci ki aik bkj acc (rest r c a b) i o) =
    Some (tt, at_ ri (ci + 1) 4 aik' bkj' acc' (rest r c' a b) i o) ∧ done_upto a b c0 c' (4 * ri + (ci + 1)).
Proof.
  intros Hd Hri Hci. assert (shapes r c a b) as Hs by (destruct Hd; by split). unfold middle. exec.
  destruct (inner_loop_ok ri ci aik bkj r c a b i o Hs Hri Hci) as (x & y & E). rewrite (seq_some _ _ _ _ E).
  erewrite seq_some by (by apply set_cij_ok). exec. rewrite (i32_small (ci + 1)) by word_lia.
  do 4 eexists. split; [reflexivity|]. by apply done_upto_step.
Qed.

Lemma outer_ok ri ci ki aik bkj acc c : done_upto a b c0 c (4 * ri) → 0 ≤ ri < 4 →
  ∃ ci' ki' aik' bkj' acc' c', outer (at_ ri ci ki aik bkj acc (rest r c a b) i o) =
    Some (tt, at_ (ri + 1) ci' ki' aik' bkj' acc' (rest r c' a b) i o) ∧ done_upto a b c0 c' (4 * (ri + 1)).
Proof.
  intros Hd Hri. unfold outer. exec.
  destruct (While_run (λ k s, ∃ ci ki aik bkj acc c, k = Z.to_nat (4 - ci) ∧ 0 ≤ ci ≤ 4 ∧
      s = at_ ri ci ki aik bkj acc (rest r c a b) i o ∧ done_upto a b c0 c (4 * ri + ci))
    (λ s, ∃ ki aik bkj acc c, s = at_ ri 4 ki aik bkj acc (rest r c a b) i o ∧ done_upto a b c0 c (4 * ri + 4))
    ("ci" < 4)%tcc middle) with (k := 4%nat) (s := at_ ri 0 ki aik bkj acc (rest r c a b) i o)
    as (s' & E & k' & x & y & z & c' & -> & Hd').
  - intros k s (ci1 & k1 & x1 & y1 & z1 & c1 & -> & Hc1 & -> & Hd1). eexists. split; [reflexivity|].
    destruct (Z.ltb_spec ci1 4); cbn [of_bool Z.eqb].
    + destruct (middle_ok ri ci1 k1 x1 y1 z1 c1) as (x2 & y2 & z2 & c2 & E & Hd2); [done|done|lia|].
      eexists _, (Z.to_nat (4 - (ci1 + 1))). split; [exact E|]. split; [lia|]. do 6 eexists. split; [reflexivity|]. split; [lia|].
      split; [reflexivity|]. done.
    + replace ci1 with 4 in * by lia. do 5 eexists. split; [reflexivity|]. done.
  - do 6 eexists. split; [|split; [|split; [reflexivity|]]]; [done|lia|]. by rewrite Z.add_0_r.
  - unfold ROUNDS. lia.
  - rewrite (seq_some _ _ _ _ E). exec. rewrite i32_small by word_lia. do 6 eexists. split; [reflexivity|].
    by replace (4 * (ri + 1)) with (4 * ri + 4) by lia.
Qed.

Lemma multiply_ok ri ci ki aik bkj acc : length c0 = 16%nat →
  ∃ ci' ki' aik' bkj' acc' c', multiply (at_ ri ci ki aik bkj acc (rest r c0 a b) i o) =
    Some (tt, at_ 4 ci' ki' aik' bkj' acc' (rest r c' a b) i o) ∧ done_upto a b c0 c' 16.
Proof.
  intros Hc0. unfold multiply. exec.
  destruct (While_run (λ k s, ∃ ri ci ki aik bkj acc c, k = Z.to_nat (4 - ri) ∧ 0 ≤ ri ≤ 4 ∧
      s = at_ ri ci ki aik bkj acc (rest r c a b) i o ∧ done_upto a b c0 c (4 * ri))
    (λ s, ∃ ci ki aik bkj acc c, s = at_ 4 ci ki aik bkj acc (rest r c a b) i o ∧ done_upto a b c0 c 16)
    ("ri" < 4)%tcc outer) with (k := 4%nat) (s := at_ 0 ci ki aik bkj acc (rest r c0 a b) i o)
    as (s' & E & ci' & k' & x & y & z & c' & -> & Hd').
  - intros k s (r1 & ci1 & k1 & x1 & y1 & z1 & c1 & -> & Hr1 & -> & Hd1). eexists. split; [reflexivity|].
    destruct (Z.ltb_spec r1 4); cbn [of_bool Z.eqb].
    + destruct (outer_ok r1 ci1 k1 x1 y1 z1 c1) as (ci2 & k2 & x2 & y2 & z2 & c2 & E & Hd2); [done|lia|].
      eexists _, (Z.to_nat (4 - (r1 + 1))). split; [exact E|]. split; [lia|]. do 7 eexists. split; [reflexivity|]. split; [lia|].
      split; [reflexivity|]. done.
    + replace r1 with 4 in * by lia. do 6 eexists. split; [reflexivity|]. done.
  - do 7 eexists. split; [|split; [|split; [reflexivity|]]]; [done|lia|]. split; [done|]. intros k Hk. by zb_false (k <? 4 * 0).
  - unfold ROUNDS. lia.
  - do 6 eexists. split; [exact E|done].
Qed.
End product.

(** [C34] For any two matrices the loops leave in [c00] ... [c33] their product in
    32-bit arithmetic, and print nothing. *)
Theorem matrix_product (r a b c0 i o : list Z) ri ci ki aik bkj acc :
  shapes r c0 a b →
  ∃ s' c, multiply (at_ ri ci ki aik bkj acc (rest r c0 a b) i o) = Some (tt, s') ∧ rout s' = o ∧
    mapM (λ x, get x (vars s')) C_NAMES = Some c ∧
    ∀ p q, 0 ≤ p < 4 → 0 ≤ q < 4 →
      entry c p q = i32 (entry a p 0 * entry b 0 q + entry a p 1 * entry b 1 q + entry a p 2 * entry b 2 q + entry a p 3 * entry b 3 q).
Proof.
  intros [Hr Hc Ha Hb]. destruct (multiply_ok r a b c0 i o Hr Ha Hb ri ci ki aik bkj acc Hc)
    as (ci' & k' & x & y & z & c & E & Hl & Hd).
  eexists _, c. split; [exact E|]. split; [done|]. split.
  - destruct (sixteen c Hl) as (?&?&?&?&?&?&?&?&?&?&?&?&?&?&?&?&->).
    do 12 (destruct r as [|? r]; [discriminate|]); destruct r; [|discriminate]. vm_compute. reflexivity.
  - intros p q Hp Hq. unfold entry at 1. rewrite Hd by lia. zb_true (4 * p + q <? 16).
    replace ((4 * p + q) `div` 4) with p by dlia. replace ((4 * p + q) `mod` 4) with q by dlia. reflexivity.
Qed.

Lemma matrix_product_witness :
  let a := seqZ 1 16 in let b := replicate 16 65536 in
  ∃ s' c, multiply (at_ 0 0 0 0 0 0 (rest (replicate 12 0) (replicate 16 0) a b) [] []) = Some (tt, s') ∧ rout s' = [] ∧
    mapM (λ x, get x (vars s')) C_NAMES = Some c ∧
    ∀ p q, 0 ≤ p < 4 → 0 ≤ q < 4 →
      entry c p q = i32 (entry a p 0 * entry b 0 q + entry a p 1 * entry b 1 q + entry a p 2 * entry b 2 q + entry a p 3 * entry b 3 q).
Proof. intros a b. apply (matrix_product (replicate 12 0) a b (replicate 16 0)). by split. Defined.

(** Four digits are all that [print_int] has: the first one of a larger number is
    printed as a character behind the digits. *)
Theorem matrix_large_entry :
  (λ '(_, s), printed s) <$> ("pn" ::= 10000;;; print_int) (T (ints REGS) [] []) = Some (lit ":000").
Proof. vm_compute. reflexivity. Qed.
End MatrixMul.

(** ** The Mandelbrot set ([mandelbrot_fp.c]) *)

Module Mandelbrot.
Definition decls : globals :=
  ints ["zr"; "zi"; "zr2"; "zi2"; "zrzi"; "iter"; "escaped"; "cr"; "ci"; "SCALE"; "MAX_ITER"; "row"; "col";
        "COLS"; "ROWS"; "RE_MIN"; "RE_MAX"; "IM_MIN"; "IM_MAX"; "palette_idx"; "palette_ch"].

Definition get_palette_ch : stmt :=
  When ("palette_idx" == 0) ("palette_ch" ::= 32);;; When ("palette_idx" == 1) ("palette_ch" ::= 46);;;
  When ("palette_idx" == 2) ("palette_ch" ::= 58);;; When ("palette_idx" == 3) ("palette_ch" ::= 45);;;
  When ("palette_idx" == 4) ("palette_ch" ::= 61);;; When ("palette_idx" == 5) ("palette_ch" ::= 43);;;
  When ("palette_idx" == 6) ("palette_ch" ::= 42);;; When ("palette_idx" == 7) ("palette_ch" ::= 35);;;
  When ("palette_idx" == 8) ("palette_ch" ::= 64).

Definition iterate : stmt :=
  "zr2" ::= ("zr" * "zr") / "SCALE";;;
  "zi2" ::= ("zi" * "zi") / "SCALE";;;
  When ("zr2" + "zi2" > 4 * "SCALE") ("escaped" ::= 1;;; "iter" ::= "MAX_ITER");;;
  When ("escaped" == 0)
    ("zrzi" ::= ("zr" * "zi") / "SCALE";;;
     "zr" ::= "zr2" - "zi2" + "cr";;;
     "zi" ::= 2 * "zrzi" + "ci";;;
     "iter" ::= "iter" + 1).

Definition pixel : stmt :=
  "cr" ::= "RE_MIN" + "col" * ("RE_MAX" - "RE_MIN") / "COLS";;;
  "zr" ::= 0;;; "zi" ::= 0;;; "iter" ::= 0;;; "escaped" ::= 0;;;
  While ("iter" < "MAX_ITER") iterate;;;
  If ("escaped" == 0) (putchar 64)
    ("palette_idx" ::= "iter" * 8 / "MAX_ITER";;; get_palette_ch;;; putchar "palette_ch");;;
  "col" ::= "col" + 1.

Definition start : stmt :=
  assigns [("SCALE", 256); ("MAX_ITER", 64); ("COLS", 70); ("ROWS", 22);
           ("RE_MIN", -640); ("RE_MAX", 256); ("IM_MIN", -307); ("IM_MAX", 307)];;;
  putchars (lit "Mandelbrot Set (fixed-point)" ++ [10]);;;
  "row" ::= 0.
Definition picture_row : stmt :=
  "ci" ::= "IM_MAX" - "row" * ("IM_MAX" - "IM_MIN") / "ROWS";;;
  "col" ::= 0;;;
  While ("col" < "COLS") pixel;;;
  putchar 10;;;
  "row" ::= "row" + 1.
Definition main : stmt := start;;; While ("row" < "ROWS") picture_row.

(** *** The picture

    The registers of a pixel, and the settings behind them. *)
Definition settings (row col p_idx p_ch : Z) : globals :=
  [("SCALE", 256); ("MAX_ITER", 64); ("row", row); ("col", col); ("COLS", 70); ("ROWS", 22);
   ("RE_MIN", -640); ("RE_MAX", 256); ("IM_MIN", -307); ("IM_MAX", 307); ("palette_idx", p_idx); ("palette_ch", p_ch)].
Abbreviation at_ zr zi zr2 zi2 zrzi iter escaped cr ci rest i o :=
  (T (("zr", zr) :: ("zi", zi) :: ("zr2", zr2) :: ("zi2", zi2) :: ("zrzi", zrzi) :: ("iter", iter) :: ("escaped", escaped) ::
      ("cr", cr) :: ("ci", ci) :: rest) i o).

#[local] Arguments iterate : simpl never.
#[local] Arguments pixel : simpl never.
Ltac exec := cbn -[Z.add Z.sub Z.mul Z.quot i32 u8 While settings].

Lemma iterate_ok zr zi zr2 zi2 zrzi iter cr ci row col px pc i o : 0 ≤ iter < 64 →
  ∃ zr' zi' zr2' zi2' zrzi' iter' escaped',
    iterate (at_ zr zi zr2 zi2 zrzi iter 0 cr ci (settings row col px pc) i o) =
      Some (tt, at_ zr' zi' zr2' zi2' zrzi' iter' escaped' cr ci (settings row col px pc) i o) ∧
    ((escaped' = 0 ∧ iter' = iter + 1) ∨ (escaped' = 1 ∧ iter' = 64)).
Proof.
  intros Hi. unfold iterate, settings. exec. rewrite !c_div_by by lia. exec. rewrite !c_div_by by lia. exec.
  change (i32 (4 * 256)) with 1024. destruct (1024 <? _); exec.
  - do 7 eexists. split; [reflexivity|]. by right.
  - rewrite !c_div_by by lia. exec. do 7 eexists. split; [reflexivity|]. left. by rewrite i32_small by word_lia.
Qed.

(** Wherever the point lies, the character is an at sign: an escape sets [iter] to
    its limit, from which the darkest entry of the palette is taken, the one used
    inside the set. *)
Lemma pixel_ok zr zi zr2 zi2 zrzi iter escaped cr ci row col px pc i o : 0 ≤ col < 70 →
  ∃ zr' zi' zr2' zi2' zrzi' iter' escaped' cr' px' pc',
    pixel (at_ zr zi zr2 zi2 zrzi iter escaped cr ci (settings row col px pc) i o) =
    Some (tt, at_ zr' zi' zr2' zi2' zrzi' iter' escaped' cr' ci (settings row (col + 1) px' pc') i (64 :: o)).
Proof.
  intros Hc. unfold pixel, settings. exec. rewrite c_div_by by lia. exec. fold (settings row col px pc). set (cr' := i32 _).
  destruct (While_run (λ k s, ∃ zr zi zr2 zi2 zrzi iter escaped,
      s = at_ zr zi zr2 zi2 zrzi iter escaped cr' ci (settings row col px pc) i o ∧ k = Z.to_nat (64 - iter) ∧ 0 ≤ iter ≤ 64 ∧
      (escaped = 0 ∨ escaped = 1 ∧ iter = 64))
    (λ s, ∃ zr zi zr2 zi2 zrzi escaped,
      s = at_ zr zi zr2 zi2 zrzi 64 escaped cr' ci (settings row col px pc) i o ∧ (escaped = 0 ∨ escaped = 1))
    ("iter" < "MAX_ITER")%tcc iterate)
    with (k := 64%nat) (s := at_ 0 0 zr2 zi2 zrzi 0 0 cr' ci (settings row col px pc) i o) as (s' & E & HQ).
  - intros k s (a1 & a2 & a3 & a4 & a5 & it & es & -> & -> & Hit & Hes). eexists. split; [reflexivity|].
    destruct (Z.ltb_spec it 64); cbn [of_bool Z.eqb].
    + destruct Hes as [->|[_ ->]]; [|lia]. destruct (iterate_ok a1 a2 a3 a4 a5 it cr' ci row col px pc i o)
        as (b1 & b2 & b3 & b4 & b5 & b6 & b7 & E & Hb); [lia|].
      eexists _, (Z.to_nat (64 - b6)). split; [exact E|].
      split; [destruct Hb as [[-> ->]|[-> ->]]; lia|]. do 7 eexists. split; [reflexivity|]. split; [done|].
      destruct Hb as [[-> ->]|[-> ->]]; split; lia || auto.
    + replace it with 64 in * by lia. do 6 eexists. split; [reflexivity|]. destruct Hes as [->|[-> _]]; auto.
  - do 7 eexists. split; [reflexivity|]. split; [done|]. split; [lia|]. by left.
  - unfold ROUNDS. lia.
  - destruct HQ as (b1 & b2 & b3 & b4 & b5 & es & -> & Hes). rewrite (seq_some _ _ _ _ E). unfold settings. exec.
    destruct Hes as [->| ->]; exec; rewrite ?c_div_by by lia; exec.
    + rewrite i32_small by word_lia. by do 10 eexists.
    + change (i32 (64 * 8) /c 64) with 8. exec. change (u8 64) with 64. rewrite i32_small by word_lia. by do 10 eexists.
Qed.

Lemma row_ok zr zi zr2 zi2 zrzi iter escaped cr ci row px pc i o :
  ∃ zr' zi' zr2' zi2' zrzi' iter' escaped' cr' px' pc',
    While ("col" < "COLS") pixel (at_ zr zi zr2 zi2 zrzi iter escaped cr ci (settings row 0 px pc) i o) =
    Some (tt, at_ zr' zi' zr2' zi2' zrzi' iter' escaped' cr' ci (settings row 70 px' pc') i (replicate 70 64 ++ o)).
Proof.
  destruct (While_run (λ k s, ∃ zr zi zr2 zi2 zrzi iter escaped cr px pc, (k ≤ 70)%nat ∧
      s = at_ zr zi zr2 zi2 zrzi iter escaped cr ci (settings row (70 - Z.of_nat k) px pc) i (replicate (70 - k) 64 ++ o))
    (λ s, ∃ zr zi zr2 zi2 zrzi iter escaped cr px pc,
      s = at_ zr zi zr2 zi2 zrzi iter escaped cr ci (settings row 70 px pc) i (replicate 70 64 ++ o))
    ("col" < "COLS")%tcc pixel)
    with (k := 70%nat) (s := at_ zr zi zr2 zi2 zrzi iter escaped cr ci (settings row 0 px pc) i o) as (s' & E & HQ).
  - intros k s (a1 & a2 & a3 & a4 & a5 & a6 & a7 & a8 & a9 & a10 & Hk & ->). eexists. split; [reflexivity|].
    destruct (Z.ltb_spec (70 - Z.of_nat k) 70); cbn [of_bool Z.eqb].
    + destruct (pixel_ok a1 a2 a3 a4 a5 a6 a7 a8 ci row (70 - Z.of_nat k) a9 a10 i (replicate (70 - k) 64 ++ o))
        as (b1 & b2 & b3 & b4 & b5 & b6 & b7 & b8 & b9 & b10 & E); [lia|].
      eexists _, (k - 1)%nat. split; [exact E|]. split; [lia|]. exists b1, b2, b3, b4, b5, b6, b7, b8, b9, b10. split; [lia|].
      replace (70 - (k - 1))%nat with (S (70 - k)) by lia. by replace (70 - Z.of_nat (k - 1)) with (70 - Z.of_nat k + 1) by lia.
    + replace k with 0%nat by lia. by do 10 eexists.
  - do 10 eexists. split; [lia|]. reflexivity.
  - unfold ROUNDS. lia.
  - destruct HQ as (b1 & b2 & b3 & b4 & b5 & b6 & b7 & b8 & b9 & b10 & ->). by do 10 eexists.
Qed.

Lemma rows_ok zr zi zr2 zi2 zrzi iter escaped cr ci col px pc i o :
  ∃ s', While ("row" < "ROWS") picture_row (at_ zr zi zr2 zi2 zrzi iter escaped cr ci (settings 0 col px pc) i o) = Some (tt, s') ∧
    rout s' = concat (replicate 22 (10 :: replicate 70 64)) ++ o.
Proof.
  destruct (While_run (λ k s, ∃ zr zi zr2 zi2 zrzi iter escaped cr ci col px pc, (k ≤ 22)%nat ∧
      s = at_ zr zi zr2 zi2 zrzi iter escaped cr ci (settings (22 - Z.of_nat k) col px pc) i
            (concat (replicate (22 - k) (10 :: replicate 70 64)) ++ o))
    (λ s, rout s = concat (replicate 22 (10 :: replicate 70 64)) ++ o) ("row" < "ROWS")%tcc picture_row)
    with (k := 22%nat) (s := at_ zr zi zr2 zi2 zrzi iter escaped cr ci (settings 0 col px pc) i o) as (s' & E & HQ).
  - intros k s (a1 & a2 & a3 & a4 & a5 & a6 & a7 & a8 & a9 & a10 & a11 & a12 & Hk & ->). eexists. split; [reflexivity|].
    destruct (Z.ltb_spec (22 - Z.of_nat k) 22); cbn [of_bool Z.eqb].
    + unfold picture_row, settings. cbn -[Z.add Z.sub Z.mul Z.quot i32 u8 While settings concat replicate Nat.sub Z.of_nat].
      rewrite c_div_by by lia. cbn -[Z.add Z.sub Z.mul Z.quot i32 u8 While settings concat replicate Nat.sub Z.of_nat].
      fold (settings (22 - Z.of_nat k) 0 a11 a12).
      destruct (row_ok a1 a2 a3 a4 a5 a6 a7 a8 (i32 (307 - i32 ((22 - Z.of_nat k) * i32 (307 - -307)) /c 22)) (22 - Z.of_nat k) a11 a12 i
        (concat (replicate (22 - k) (10 :: replicate 70 64)) ++ o)) as (b1 & b2 & b3 & b4 & b5 & b6 & b7 & b8 & b9 & b10 & E).
      rewrite (seq_some _ _ _ _ E). unfold settings.
      cbn -[Z.add Z.sub Z.mul Z.quot i32 u8 While settings concat replicate Nat.sub Z.of_nat app]. rewrite (i32_small (22 - Z.of_nat k + 1)) by word_lia.
      eexists _, (k - 1)%nat. split; [reflexivity|]. split; [lia|]. do 12 eexists. split; [lia|].
      replace (22 - (k - 1))%nat with (S (22 - k)) by lia. replace (22 - Z.of_nat (k - 1)) with (22 - Z.of_nat k + 1) by lia.
      reflexivity.
    + by replace k with 0%nat by lia.
  - do 12 eexists. split; [lia|]. reflexivity.
  - unfold ROUNDS. lia.
  - exists s'. split; [exact E|exact HQ].
Qed.

(** The picture has one colour: every one of the 22 lines consists of 70 at
    signs. *)
Theorem mandelbrot_one_colour :
  run decls main [] = Some (lit "Mandelbrot Set (fixed-point)" ++ [10] ++ concat (replicate 22 (replicate 70 64 ++ [10]))).
Proof.
  assert (start (T decls [] []) = Some (tt, at_ 0 0 0 0 0 0 0 0 0 (settings 0 0 0 0) []
    (reverse (lit "Mandelbrot Set (fixed-point)" ++ [10])))) as E by (vm_compute; reflexivity).
  destruct (rows_ok 0 0 0 0 0 0 0 0 0 0 0 0 [] (reverse (lit "Mandelbrot Set (fixed-point)" ++ [10]))) as (s' & E' & Ho).
  pose proof (seq_some start (While ("row" < "ROWS") picture_row) _ _ E) as Em. rewrite E' in Em. clear E E'.
  unfold run. change main with (start;;; While ("row" < "ROWS") picture_row). rewrite Em. cbn [mbind option_bind]. unfold printed. rewrite Ho.
  vm_compute. reflexivity.
Qed.
End Mandelbrot.

(** ** Falling characters ([matrix.c]) *)

Module Rain.
Definition D_NAMES : list string := Eval vm_compute in map (nth_var "d") (seqZ 0 40).
Definition d (k : Z) : string := D_NAMES !!! Z.to_nat k.
Definition decls : globals := ints (["seed"; "i"; "j"; "frame"; "col"; "row"; "ch"; "pos"; "r"] ++ D_NAMES).

(** [seed = (seed * 1103515245 + 12345); r = seed; if (r < 0) { r = 0 - r; }] *)
Definition next_random : stmt :=
  "seed" ::= ("seed" * 1103515245 + 12345);;; "r" ::= "seed";;; When ("r" < 0) ("r" ::= 0 - "r").

Definition init_drop : stmt :=
  next_random;;;
  "r" ::= "r" - (("r" / 20) * 20);;;
  each (seqZ 0 40) (λ k, When ("i" == k) (d k ::= "r"));;;
  "i" ::= "i" + 1.

Definition random_char : stmt :=
  next_random;;; "ch" ::= 33 + ("r" - (("r" / 90) * 90));;; putchar "ch".

Definition draw_cell : stmt :=
  "pos" ::= 0;;;
  each (seqZ 0 40) (λ k, When ("col" == k) ("pos" ::= d k));;;
  "pos" ::= "pos" + "frame";;;
  "pos" ::= "pos" - (("pos" / 20) * 20);;;
  If ("row" == "pos") random_char
    ("j" ::= "row" - "pos";;;
     When ("j" < 0) ("j" ::= "j" + 20);;;
     If ("j" < 4) random_char (putchar (chr " ")));;;
  putchar (chr " ");;;
  "col" ::= "col" + 1.

Definition draw_row : stmt :=
  "col" ::= 0;;; While ("col" < 40) draw_cell;;; putchar 10;;; "row" ::= "row" + 1.
Definition draw_frame : stmt :=
  "row" ::= 0;;; While ("row" < 20) draw_row;;; putchar 10;;; "frame" ::= "frame" + 1.

Definition init_drops : stmt := "seed" ::= 12345;;; "i" ::= 0;;; While ("i" < 40) init_drop.
Definition main : stmt := init_drops;;; "frame" ::= 0;;; While ("frame" < 20) draw_frame.

(** *** What is drawn *)

Definition lcg (s : Z) : Z := i32 (i32 (s * 1103515245) + 12345).
Definition magnitude (s : Z) : Z := if s <? 0 then i32 (0 - s) else s.
Definition random_glyph (s : Z) : Z := u8 (i32 (33 + i32 (magnitude s - i32 (magnitude s /c 90 * 90)))).

(** A column shows a character in the row of its drop and in the three rows below
    it, counted around the edge; the state is the seed and the text so far, in
    reverse. *)
Definition visible (drop frame row : Z) : bool := (row - (drop + frame)) `mod` 20 <? 4.
Definition cell_ref (frame row : Z) (st : Z * list Z) (drop : Z) : Z * list Z :=
  if visible drop frame row then (lcg (fst st), 32 :: random_glyph (lcg (fst st)) :: snd st)
  else (fst st, 32 :: 32 :: snd st).
Definition row_ref (drops : list Z) (frame : Z) (st : Z * list Z) (row : Z) : Z * list Z :=
  let st := foldl (cell_ref frame row) st drops in (fst st, 10 :: snd st).
Definition frame_ref (drops : list Z) (st : Z * list Z) (frame : Z) : Z * list Z :=
  let st := foldl (row_ref drops frame) st (seqZ 0 20) in (fst st, 10 :: snd st).

Definition drop_vars (ds : list Z) : globals := zip D_NAMES ds.
Abbreviation at_ seed ii j frame col row ch pos r ds i o :=
  (T (("seed", seed) :: ("i", ii) :: ("j", j) :: ("frame", frame) :: ("col", col) :: ("row", row) :: ("ch", ch) ::
      ("pos", pos) :: ("r", r) :: drop_vars ds) i o).

Definition drops_ok (ds : list Z) : Prop := length ds = 40%nat ∧ Forall (λ x, 0 ≤ x < 20) ds.

Definition load_pos : stmt := each (seqZ 0 40) (λ k, When ("col" == k) ("pos" ::= d k)).

#[local] Arguments random_char : simpl never.
#[local] Arguments draw_cell : simpl never.
#[local] Arguments draw_row : simpl never.
#[local] Arguments draw_frame : simpl never.
#[local] Arguments drop_vars : simpl never.
#[local] Arguments each : simpl never.
Ltac exec := cbn -[Z.add Z.sub Z.mul Z.quot Z.modulo i32 u8 While drop_vars].

Lemma load_pos_ok seed ii j frame col row ch pos r ds i o : length ds = 40%nat → 0 ≤ col < 40 →
  load_pos (at_ seed ii j frame col row ch pos r ds i o) =
  Some (tt, at_ seed ii j frame col row ch (ds !!! Z.to_nat col) r ds i o).
Proof.
  intros Hl Hc. eapply (each_when "col"); [reflexivity|apply NoDup_seqZ|apply elem_of_seqZ; lia| |reflexivity].
  rewrite <- (Z2Nat.id col) by lia. rewrite Nat2Z.id. assert (Z.to_nat col < 40)%nat as Hk by lia.
  revert Hk. generalize (Z.to_nat col) as k. intros k Hk.
  do 40 (destruct ds as [|? ds]; [discriminate|]). destruct ds; [|discriminate].
  do 40 (destruct k as [|k]; [reflexivity|]). lia.
Qed.

Lemma random_char_ok seed ii j frame col row ch pos r ds i o :
  ∃ ch' r', random_char (at_ seed ii j frame col row ch pos r ds i o) =
    Some (tt, at_ (lcg seed) ii j frame col row ch' pos r' ds i (random_glyph (lcg seed) :: o)).
Proof.
  unfold random_char, next_random, random_glyph, magnitude. exec. fold (lcg seed).
  destruct (lcg seed <? 0); exec; rewrite c_div_by by lia; exec; by do 2 eexists.
Qed.

Lemma draw_cell_ok seed ii j frame col row ch pos r ds i o : drops_ok ds → 0 ≤ frame < 20 → 0 ≤ row < 20 → 0 ≤ col < 40 →
  ∃ j' ch' pos' r' seed' o', draw_cell (at_ seed ii j frame col row ch pos r ds i o) =
    Some (tt, at_ seed' ii j' frame (col + 1) row ch' pos' r' ds i o') ∧
    (seed', o') = cell_ref frame row (seed, o) (ds !!! Z.to_nat col).
Proof.
  intros [Hl Hds] Hf Hr Hc. unfold draw_cell. fold load_pos. exec. erewrite seq_some by (by apply load_pos_ok).
  set (x := ds !!! Z.to_nat col).
  assert (0 ≤ x < 20) as Hx.
  { destruct (lookup_lt_is_Some_2 ds (Z.to_nat col)) as [y Hy]; [lia|]. unfold x. rewrite (list_lookup_total_correct _ _ _ Hy).
    by eapply Forall_lookup_1 in Hds. }
  unfold cell_ref, visible. cbn [fst snd].
  exec. rewrite (i32_small (x + frame)) by word_lia. rewrite c_div_by by lia. exec.
  assert (i32 (x + frame - i32 ((x + frame) /c 20 * 20)) = (x + frame) `mod` 20) as ->.
  { rewrite Z.quot_div_nonneg by lia. rewrite (i32_small (_ `div` _ * _)) by word_lia. rewrite i32_small by word_lia. dlia. }
  assert (0 ≤ (x + frame) `mod` 20 < 20) as Hp by (apply Z.mod_pos_bound; lia).
  destruct (Z.eqb_spec row ((x + frame) `mod` 20)) as [Hrow|Hrow]; exec.
  - replace ((row - (x + frame)) `mod` 20) with 0 by dlia. change (0 <? 4) with true. cbv iota.
    edestruct random_char_ok as (c1 & r1 & E). rewrite E. exec. change (u8 32) with 32. rewrite i32_small by word_lia.
    by repeat eexists.
  - rewrite (i32_small (row - _)) by word_lia. destruct (Z.ltb_spec (row - (x + frame) `mod` 20) 0) as [Hneg|Hpos]; exec.
    + rewrite (i32_small (_ + 20)) by word_lia. replace ((row - (x + frame)) `mod` 20) with (row - (x + frame) `mod` 20 + 20) by dlia.
      destruct (Z.ltb_spec (row - (x + frame) `mod` 20 + 20) 4); exec.
      * edestruct random_char_ok as (c1 & r1 & E). rewrite E. exec. change (u8 32) with 32. rewrite i32_small by word_lia.
        by repeat eexists.
      * change (u8 32) with 32. rewrite i32_small by word_lia. by repeat eexists.
    + replace ((row - (x + frame)) `mod` 20) with (row - (x + frame) `mod` 20) by dlia.
      destruct (Z.ltb_spec (row - (x + frame) `mod` 20) 4); exec.
      * edestruct random_char_ok as (c1 & r1 & E). rewrite E. exec. change (u8 32) with 32. rewrite i32_small by word_lia.
        by repeat eexists.
      * change (u8 32) with 32. rewrite i32_small by word_lia. by repeat eexists.
Qed.

Lemma take_snoc (ds : list Z) k : (k < length ds)%nat → take (S k) ds = take k ds ++ [ds !!! k].
Proof. intros Hk. apply take_S_r. by apply list_lookup_lookup_total_lt. Qed.

Lemma draw_row_ok seed ii j frame col row ch pos r ds i o : drops_ok ds → 0 ≤ frame < 20 → 0 ≤ row < 20 →
  ∃ j' col' ch' pos' r' seed' o', draw_row (at_ seed ii j frame col row ch pos r ds i o) =
    Some (tt, at_ seed' ii j' frame col' (row + 1) ch' pos' r' ds i o') ∧
    (seed', o') = row_ref ds frame (seed, o) row.
Proof.
  intros Hds Hf Hr. pose proof Hds as [Hl _]. unfold draw_row. exec.
  destruct (While_run (λ k s, ∃ seed' j ch pos r o', (k ≤ 40)%nat ∧
      s = at_ seed' ii j frame (40 - Z.of_nat k) row ch pos r ds i o' ∧
      (seed', o') = foldl (cell_ref frame row) (seed, o) (take (40 - k) ds))
    (λ s, ∃ seed' j ch pos r o', s = at_ seed' ii j frame 40 row ch pos r ds i o' ∧
      (seed', o') = foldl (cell_ref frame row) (seed, o) ds) ("col" < 40)%tcc draw_cell)
    with (k := 40%nat) (s := at_ seed ii j frame 0 row ch pos r ds i o) as (s' & E & sd & j' & ch' & pos' & r' & o' & -> & Ho).
  - intros k s (sd & j1 & ch1 & pos1 & r1 & o1 & Hk & -> & Ho). eexists. split; [reflexivity|].
    destruct (Z.ltb_spec (40 - Z.of_nat k) 40); cbn [of_bool Z.eqb].
    + destruct (draw_cell_ok sd ii j1 frame (40 - Z.of_nat k) row ch1 pos1 r1 ds i o1 Hds Hf Hr)
        as (j2 & ch2 & pos2 & r2 & sd2 & o2 & E & Ho2); [lia|].
      eexists _, (k - 1)%nat. split; [exact E|]. split; [lia|]. exists sd2, j2, ch2, pos2, r2, o2. split; [lia|].
      split; [by replace (40 - Z.of_nat (k - 1)) with (40 - Z.of_nat k + 1) by lia|].
      replace (40 - (k - 1))%nat with (S (40 - k)) by lia. rewrite take_snoc, foldl_app by lia. cbn [foldl]. rewrite <- Ho.
      by replace (40 - k)%nat with (Z.to_nat (40 - Z.of_nat k)) by lia.
    + replace k with 0%nat in * by lia. exists sd, j1, ch1, pos1, r1, o1. split; [done|]. rewrite Ho. by rewrite take_ge by lia.
  - by exists seed, j, ch, pos, r, o.
  - unfold ROUNDS. lia.
  - rewrite (seq_some _ _ _ _ E). exec. change (u8 10) with 10. rewrite i32_small by word_lia.
    do 7 eexists. split; [reflexivity|]. unfold row_ref. by rewrite <- Ho.
Qed.

Lemma draw_frame_ok seed ii j frame col row ch pos r ds i o : drops_ok ds → 0 ≤ frame < 20 →
  ∃ j' col' row' ch' pos' r' seed' o', draw_frame (at_ seed ii j frame col row ch pos r ds i o) =
    Some (tt, at_ seed' ii j' (frame + 1) col' row' ch' pos' r' ds i o') ∧
    (seed', o') = frame_ref ds (seed, o) frame.
Proof.
  intros Hds Hf. unfold draw_frame. exec.
  destruct (While_run (λ k s, ∃ seed' j col ch pos r o', (k ≤ 20)%nat ∧
      s = at_ seed' ii j frame col (20 - Z.of_nat k) ch pos r ds i o' ∧
      (seed', o') = foldl (row_ref ds frame) (seed, o) (seqZ 0 (20 - Z.of_nat k)))
    (λ s, ∃ seed' j col ch pos r o', s = at_ seed' ii j frame col 20 ch pos r ds i o' ∧
      (seed', o') = foldl (row_ref ds frame) (seed, o) (seqZ 0 20)) ("row" < 20)%tcc draw_row)
    with (k := 20%nat) (s := at_ seed ii j frame col 0 ch pos r ds i o) as (s' & E & sd & j' & c' & ch' & pos' & r' & o' & -> & Ho).
  - intros k s (sd & j1 & c1 & ch1 & pos1 & r1 & o1 & Hk & -> & Ho). eexists. split; [reflexivity|].
    destruct (Z.ltb_spec (20 - Z.of_nat k) 20); cbn [of_bool Z.eqb].
    + destruct (draw_row_ok sd ii j1 frame c1 (20 - Z.of_nat k) ch1 pos1 r1 ds i o1 Hds Hf)
        as (j2 & c2 & ch2 & pos2 & r2 & sd2 & o2 & E & Ho2); [lia|].
      eexists _, (k - 1)%nat. split; [exact E|]. split; [lia|]. exists sd2, j2, c2, ch2, pos2, r2, o2. split; [lia|].
      replace (20 - Z.of_nat (k - 1)) with (20 - Z.of_nat k + 1) by lia. split; [done|].
      rewrite seqZ_app by lia. rewrite foldl_app, <- Ho. cbn [seqZ]. change (seqZ (0 + (20 - Z.of_nat k)) 1) with [0 + (20 - Z.of_nat k)].
      cbn [foldl]. by rewrite Z.add_0_l.
    + replace k with 0%nat in * by lia. by exists sd, j1, c1, ch1, pos1, r1, o1.
  - by exists seed, j, col, ch, pos, r, o.
  - unfold ROUNDS. lia.
  - rewrite (seq_some _ _ _ _ E). exec. change (u8 10) with 10. rewrite i32_small by word_lia.
    do 8 eexists. split; [reflexivity|]. unfold frame_ref. by rewrite <- Ho.
Qed.

(** The drops are the first forty numbers of the generator, reduced to a row. *)
Definition drop_of (s : Z) : Z := magnitude s %c 20.
Fixpoint seeds (n : nat) (s : Z) : list Z := match n with O => [] | S n' => lcg s :: seeds n' (lcg s) end.

Lemma init_drops_ok : ∃ r, init_drops (T decls [] []) =
  Some (tt, at_ (seeds 40 12345 !!! 39%nat) 40 0 0 0 0 0 0 r (map drop_of (seeds 40 12345)) [] []).
Proof. eexists. vm_compute. reflexivity. Qed.

Lemma frames_ok seed ii j col row ch pos r ds : drops_ok ds →
  ∃ s, While ("frame" < 20) draw_frame (at_ seed ii j 0 col row ch pos r ds [] []) = Some (tt, s) ∧
    rout s = snd (foldl (frame_ref ds) (seed, []) (seqZ 0 20)).
Proof.
  intros Hds.
  apply (While_run (λ k s, ∃ seed' j col row ch pos r o', (k ≤ 20)%nat ∧
      s = at_ seed' ii j (20 - Z.of_nat k) col row ch pos r ds [] o' ∧
      (seed', o') = foldl (frame_ref ds) (seed, []) (seqZ 0 (20 - Z.of_nat k)))) with (k := 20%nat).
  - intros k s (sd & j1 & c1 & w1 & ch1 & pos1 & r1 & o1 & Hk & -> & Ho). eexists. split; [reflexivity|].
    destruct (Z.ltb_spec (20 - Z.of_nat k) 20); cbn [of_bool Z.eqb].
    + destruct (draw_frame_ok sd ii j1 (20 - Z.of_nat k) c1 w1 ch1 pos1 r1 ds [] o1 Hds)
        as (j2 & c2 & w2 & ch2 & pos2 & r2 & sd2 & o2 & E & Ho2); [lia|].
      eexists _, (k - 1)%nat. split; [exact E|]. split; [lia|]. exists sd2, j2, c2, w2, ch2, pos2, r2, o2. split; [lia|].
      replace (20 - Z.of_nat (k - 1)) with (20 - Z.of_nat k + 1) by lia. split; [done|].
      rewrite seqZ_app by lia. rewrite foldl_app, <- Ho. change (seqZ (0 + (20 - Z.of_nat k)) 1) with [0 + (20 - Z.of_nat k)].
      cbn [foldl]. by rewrite Z.add_0_l.
    + replace k with 0%nat in * by lia. change (20 - Z.of_nat 0) with 20 in Ho. cbn [rout]. by rewrite <- Ho.
  - by exists seed, j, col, row, ch, pos, r, [].
  - unfold ROUNDS. lia.
Qed.

(** The program draws twenty frames of twenty rows, in each of which a column
    shows a character of the generator in the row of its drop, [frame] rows below
    where it started, and in the three rows below that, and a blank elsewhere. *)
Theorem rain_frames :
  let drops := map drop_of (seeds 40 12345) in
  Forall (λ x, 0 ≤ x < 20) drops ∧
  run decls main [] =
    Some (reverse (snd (foldl (frame_ref drops) (seeds 40 12345 !!! 39%nat, []) (seqZ 0 20)))).
Proof.
  cbv zeta. set (ds := map drop_of (seeds 40 12345)).
  assert (drops_ok ds) as Hds by (split; [reflexivity|vm_compute; repeat constructor; discriminate]).
  split; [apply Hds|]. destruct init_drops_ok as [r E]. fold ds in E.
  revert E. generalize (seeds 40 12345 !!! 39%nat) as seed. intros seed E. clearbody ds.
  destruct (frames_ok seed 40 0 0 0 0 0 r ds Hds) as (s & Ew & Ho).
  assert (main (T decls [] []) = Some (tt, s)) as Em by (unfold main; by rewrite (seq_some _ _ _ _ E)).
  unfold run. rewrite Em. cbn. unfold printed. by rewrite Ho.
Qed.
End Rain.
