(* ===== verification/Wumpus.v ===== *)
(** * Hunt the Wumpus ([samples/wumpus.c])

    The game as a state machine: [ref_round] is one turn of the hunter as the rules
    tell it, [turn] the body of the loop of [main] over the global variables.  The
    theorems say that the code plays the rules, for any input and any placement,
    and that the placements of all the seeds are games in which the hunter starts
    safely. *)

From S2P Require Import Prelude TinyC CMem.

#[local] Open Scope string_scope.
#[local] Open Scope Z_scope.
#[local] Open Scope list_scope.

Definition CAVE : globals :=
  [("c0a", 1); ("c0b", 3); ("c0c", 7); ("c1a", 0); ("c1b", 2); ("c1c", 4); ("c2a", 1); ("c2b", 3); ("c2c", 5);
   ("c3a", 0); ("c3b", 2); ("c3c", 6); ("c4a", 1); ("c4b", 5); ("c4c", 7); ("c5a", 2); ("c5b", 4); ("c5c", 6);
   ("c6a", 3); ("c6b", 5); ("c6c", 7); ("c7a", 0); ("c7b", 4); ("c7c", 6)].
Definition decls : globals :=
  ints (["player"; "wumpus"; "pit1"; "pit2"; "bats"; "arrows"; "alive"; "won"; "ch"; "next"; "seed"; "temp"; "i"] ++
        map fst CAVE ++ ["adj1"; "adj2"; "adj3"]).

(** ** The code *)

Definition nl : list Z := [10].
Definition lcg_step : stmt := "seed" ::= (("seed" * 1103515245 + 12345) .& 32767).

Definition read_seed : stmt :=
  getchar "ch";;;
  If (("ch" >= 48) && ("ch" <= 57)) ("seed" ::= 37 + ("ch" - 48) * 17) ("seed" ::= 37);;;
  (_ <- next_char;; skip).

Definition place : stmt :=
  lcg_step;;; "player" ::= "seed" %% 8;;;
  lcg_step;;; "wumpus" ::= "seed" %% 8;;;
  When ("wumpus" == "player") ("wumpus" ::= ("wumpus" + 1) %% 8);;;
  lcg_step;;; "pit1" ::= "seed" %% 8;;;
  When (("pit1" == "player") .| ("pit1" == "wumpus")) ("pit1" ::= ("pit1" + 2) %% 8);;;
  lcg_step;;; "pit2" ::= "seed" %% 8;;;
  When (("pit2" == "player") .| ("pit2" == "wumpus") .| ("pit2" == "pit1")) ("pit2" ::= ("pit2" + 3) %% 8);;;
  lcg_step;;; "bats" ::= "seed" %% 8;;;
  When (("bats" == "player") .| ("bats" == "wumpus") .| ("bats" == "pit1") .| ("bats" == "pit2"))
    ("bats" ::= ("bats" + 4) %% 8).

Definition adjacent (a b c : string) : stmt := "adj1" ::= a;;; "adj2" ::= b;;; "adj3" ::= c.
Definition get_adjacent : stmt :=
  When ("player" == 0) (adjacent "c0a" "c0b" "c0c");;;
  When ("player" == 1) (adjacent "c1a" "c1b" "c1c");;;
  When ("player" == 2) (adjacent "c2a" "c2b" "c2c");;;
  When ("player" == 3) (adjacent "c3a" "c3b" "c3c");;;
  When ("player" == 4) (adjacent "c4a" "c4b" "c4c");;;
  When ("player" == 5) (adjacent "c5a" "c5b" "c5c");;;
  When ("player" == 6) (adjacent "c6a" "c6b" "c6c");;;
  When ("player" == 7) (adjacent "c7a" "c7b" "c7c").

Definition warnings : stmt :=
  When (("adj1" == "wumpus") .| ("adj2" == "wumpus") .| ("adj3" == "wumpus"))
    (putchars (lit "You smell a Wumpus!" ++ nl));;;
  When (("adj1" == "pit1") .| ("adj2" == "pit1") .| ("adj3" == "pit1") .|
        ("adj1" == "pit2") .| ("adj2" == "pit2") .| ("adj3" == "pit2"))
    (putchars (lit "You feel a draft" ++ nl));;;
  When (("adj1" == "bats") .| ("adj2" == "bats") .| ("adj3" == "bats"))
    (putchars (lit "You hear bats" ++ nl)).

Definition show : stmt :=
  putchars (lit "Room ");;; putchar (48 + "player");;; putchar 10;;;
  warnings;;;
  putchars (lit "Exits: ");;;
  putchar (48 + "adj1");;; putchar 32;;; putchar (48 + "adj2");;; putchar 32;;; putchar (48 + "adj3");;; putchar 10;;;
  putchars (lit "Arrows: ");;; putchar (48 + "arrows");;; putchar 10.

Definition which_room : stmt :=
  putchars (lit "Which room? ");;; getchar "ch";;; putchar 10;;; "next" ::= "ch" - 48.

Definition hazards : stmt :=
  When ("player" == "wumpus") (putchars (lit "The Wumpus got you!" ++ nl);;; "alive" ::= 0);;;
  When (("player" == "pit1") .| ("player" == "pit2")) (putchars (lit "Fell in a pit!" ++ nl);;; "alive" ::= 0);;;
  When ("player" == "bats")
    (putchars (lit "Bats!" ++ nl);;;
     "seed" ::= (("seed" * 7) + 3) - (((("seed" * 7) + 3) / 8) * 8);;;
     When ("seed" < 0) ("seed" ::= 0 - "seed");;;
     "player" ::= "seed").

Definition move : stmt :=
  which_room;;;
  If (("next" == "adj1") .| ("next" == "adj2") .| ("next" == "adj3"))
    ("player" ::= "next";;; hazards)
    (putchars (lit "No exit" ++ nl)).

Definition shoot : stmt :=
  When ("arrows" > 0)
    (which_room;;;
     "arrows" ::= "arrows" - 1;;;
     If ("next" == "wumpus")
       (putchars (lit "You got the Wumpus!" ++ nl);;; "won" ::= 1;;; "alive" ::= 0)
       (putchars (lit "Miss!" ++ nl);;;
        When ("arrows" == 0) (putchars (lit "No arrows!" ++ nl);;; "alive" ::= 0))).

(** One round of [while (alive == 1)]. *)
Definition turn : stmt :=
  get_adjacent;;;
  show;;;
  putchars (lit "Move or Shoot? ");;; getchar "ch";;; putchar 10;;;
  When (("ch" == 109) .| ("ch" == 77)) move;;;
  When (("ch" == 115) .| ("ch" == 83)) shoot.

Definition setup : stmt :=
  assigns CAVE;;;
  putchars (lit "Hunt the Wumpus!" ++ nl ++ nl ++ lit "Seed (0-9): ");;;
  read_seed;;;
  place;;;
  "arrows" ::= 3;;; "alive" ::= 1;;; "won" ::= 0.
Definition the_end : stmt :=
  putchar 10;;;
  If ("won" == 1) (putchars (lit "You Win!")) (putchars (lit "Game Over"));;;
  putchar 10.
Definition main : stmt := setup;;; While ("alive" == 1) turn;;; the_end.

(** ** The rules *)

Record cave := Cave { c_wumpus : Z; c_pit1 : Z; c_pit2 : Z; c_bats : Z }.
Record hunter := Hunter { room : Z; quiver : Z; living : bool; winner : bool; luck : Z }.

Definition exits (r : Z) : list Z :=
  nth (Z.to_nat r) [[1; 3; 7]; [0; 2; 4]; [1; 3; 5]; [0; 2; 6]; [1; 5; 7]; [2; 4; 6]; [3; 5; 7]; [0; 4; 6]] [].
Definition near (r : Z) (x : Z) : bool := bool_decide (x ∈ exits r).

Definition describe (c : cave) (h : hunter) : list Z :=
  let r := room h in
  lit "Room " ++ [48 + r] ++ nl ++
  (if near r (c_wumpus c) then lit "You smell a Wumpus!" ++ nl else []) ++
  (if near r (c_pit1 c) || near r (c_pit2 c) then lit "You feel a draft" ++ nl else []) ++
  (if near r (c_bats c) then lit "You hear bats" ++ nl else []) ++
  lit "Exits: " ++ (match exits r with [x; y; z] => [48 + x; 32; 48 + y; 32; 48 + z] | _ => [] end) ++ nl ++
  lit "Arrows: " ++ [48 + quiver h] ++ nl.

(** A hunter who enters a room meets what is there; the bats carry him to a room
    without looking at what is in it. *)
Definition enter (c : cave) (h : hunter) (r : Z) : hunter * list Z :=
  let eaten := r =? c_wumpus c in
  let fallen := (r =? c_pit1 c) || (r =? c_pit2 c) in
  let flown := r =? c_bats c in
  let dest := (luck h * 7 + 3) `mod` 8 in
  (Hunter (if flown then dest else r) (quiver h) (living h && negb eaten && negb fallen) (winner h) (if flown then dest else luck h),
   (if eaten then lit "The Wumpus got you!" ++ nl else []) ++
   (if fallen then lit "Fell in a pit!" ++ nl else []) ++
   (if flown then lit "Bats!" ++ nl else [])).

Definition go (c : cave) (h : hunter) (key : Z) : hunter * list Z :=
  if near (room h) (key - 48) then enter c h (key - 48) else (h, lit "No exit" ++ nl).

Definition fire (c : cave) (h : hunter) (key : Z) : hunter * list Z :=
  if key - 48 =? c_wumpus c then
    (Hunter (room h) (quiver h - 1) false true (luck h), lit "You got the Wumpus!" ++ nl)
  else
    (Hunter (room h) (quiver h - 1) (living h && negb (quiver h - 1 =? 0)) (winner h) (luck h),
     lit "Miss!" ++ nl ++ (if quiver h - 1 =? 0 then lit "No arrows!" ++ nl else [])).

Definition key_of (i : list Z) : Z := match i with [] => -1 | k :: _ => k end.
Definition is_move (k : Z) : bool := (k =? 109) || (k =? 77).
Definition is_shot (k : Z) : bool := (k =? 115) || (k =? 83).

Definition ask (key : Z) (i : list Z) (f : Z → hunter * list Z) : hunter * Z * list Z * list Z :=
  let '(h, t) := f (key_of i) in (h, key_of i, tail i, lit "Which room? " ++ nl ++ t).

(** A turn: the hunter, the rest of the input and the text.  The key of the room
    that a move asks for is looked at again as a command to shoot. *)
Definition ref_round (c : cave) (h : hunter) (i : list Z) : hunter * list Z * list Z :=
  let k := key_of i in
  let t0 := describe c h ++ lit "Move or Shoot? " ++ nl in
  let '(h1, k1, i1, t1) := if is_move k then ask k (tail i) (go c h) else (h, k, tail i, []) in
  let '(h2, _, i2, t2) := if is_shot k1 && (0 <? quiver h1) then ask k1 i1 (fire c h1) else (h1, k1, i1, []) in
  (h2, i2, t0 ++ t1 ++ t2).

(** ** The code plays by the rules *)

Definition cave_ok (c : cave) : Prop :=
  0 ≤ c_wumpus c < 8 ∧ 0 ≤ c_pit1 c < 8 ∧ 0 ≤ c_pit2 c < 8 ∧ 0 ≤ c_bats c < 8.
Definition hunter_ok (h : hunter) : Prop := 0 ≤ room h < 8 ∧ 0 ≤ quiver h ≤ 3 ∧ 0 ≤ luck h < 32768.

Abbreviation at_ c h ch nx tmp ii a1 a2 a3 i o :=
  (T (("player", room h) :: ("wumpus", c_wumpus c) :: ("pit1", c_pit1 c) :: ("pit2", c_pit2 c) :: ("bats", c_bats c) ::
      ("arrows", quiver h) :: ("alive", of_bool (living h)) :: ("won", of_bool (winner h)) :: ("ch", ch) :: ("next", nx) ::
      ("seed", luck h) :: ("temp", tmp) :: ("i", ii) :: CAVE ++ [("adj1", a1); ("adj2", a2); ("adj3", a3)]) i o).

Lemma lor_bools a b : Z.lor (of_bool a) (of_bool b) = of_bool (a || b).
Proof. by destruct a, b. Qed.
Lemma if_bool {A} b (x y : A) : (if of_bool b =? 0 then x else y) = if b then y else x.
Proof. by destruct b. Qed.

Lemma If_bool b e (c d : stmt) s : ev e (vars s) = Some (of_bool b) → If e c d s = if b then c s else d s.
Proof. intros He. unfold If. rewrite He. cbn [mbind option_bind]. apply if_bool. Qed.
Lemma get_adj1 v : get "adj1" (CAVE ++ v) = get "adj1" v. Proof. done. Qed.
Lemma get_adj2 v : get "adj2" (CAVE ++ v) = get "adj2" v. Proof. done. Qed.
Lemma get_adj3 v : get "adj3" (CAVE ++ v) = get "adj3" v. Proof. done. Qed.

#[local] Arguments of_bool : simpl never.
#[local] Arguments putchars : simpl never.
#[local] Arguments CAVE : simpl never.
#[local] Arguments lit : simpl never.
Ltac exec1 := cbn -[Z.add Z.sub Z.mul Z.quot Z.modulo Z.eqb Z.ltb Z.leb Z.lor i32 u8 CAVE].
Ltac exec := unfold c_cmp; exec1; rewrite ?get_adj1, ?get_adj2, ?get_adj3; exec1; rewrite ?lor_bools, ?if_bool.

Lemma near_exits r a1 a2 a3 x : exits r = [a1; a2; a3] → near r x = (a1 =? x) || (a2 =? x) || (a3 =? x).
Proof.
  intros E. unfold near. rewrite E.
  destruct (Z.eqb_spec a1 x), (Z.eqb_spec a2 x), (Z.eqb_spec a3 x); subst; case_bool_decide; simpl; set_solver.
Qed.

Lemma get_adjacent_ok c h ch nx tmp ii a1 a2 a3 i o : hunter_ok h →
  ∃ x y z, exits (room h) = [x; y; z] ∧ 0 ≤ x < 8 ∧ 0 ≤ y < 8 ∧ 0 ≤ z < 8 ∧
    get_adjacent (at_ c h ch nx tmp ii a1 a2 a3 i o) = Some (tt, at_ c h ch nx tmp ii x y z i o).
Proof.
  intros [Hr _]. destruct h as [r q l w lk]. simpl in *.
  assert (r = 0 ∨ r = 1 ∨ r = 2 ∨ r = 3 ∨ r = 4 ∨ r = 5 ∨ r = 6 ∨ r = 7) as Hc by lia.
  destruct_or! Hc; subst r; do 3 eexists; (split_and!; [reflexivity|lia..|reflexivity]).
Qed.

Lemma when_text b t c h ch nx tmp ii x y z i o e :
  ev e (vars (at_ c h ch nx tmp ii x y z i o)) = Some (of_bool b) →
  When e (putchars t) (at_ c h ch nx tmp ii x y z i o) =
  Some (tt, at_ c h ch nx tmp ii x y z i (reverse (map u8 (if b then t else [])) ++ o)).
Proof.
  intros He. unfold When. rewrite (If_bool _ _ _ _ _ He). destruct b; [apply putchars_ok|done].
Qed.

Lemma warnings_ok c h ch nx tmp ii x y z i o : exits (room h) = [x; y; z] →
  warnings (at_ c h ch nx tmp ii x y z i o) =
  Some (tt, at_ c h ch nx tmp ii x y z i (reverse (map u8
    ((if near (room h) (c_wumpus c) then lit "You smell a Wumpus!" ++ nl else []) ++
     (if near (room h) (c_pit1 c) || near (room h) (c_pit2 c) then lit "You feel a draft" ++ nl else []) ++
     (if near (room h) (c_bats c) then lit "You hear bats" ++ nl else []))) ++ o)).
Proof.
  intros E. unfold warnings. rewrite !map_app, !reverse_app, <- !app_assoc.
  erewrite seq_some by (apply (when_text (near (room h) (c_wumpus c))); rewrite (near_exits _ _ _ _ _ E); exec; reflexivity).
  erewrite seq_some by (apply (when_text (near (room h) (c_pit1 c) || near (room h) (c_pit2 c)));
    rewrite !(near_exits _ _ _ _ _ E); exec; by rewrite !orb_assoc).
  apply when_text. rewrite (near_exits _ _ _ _ (c_bats c) E). exec. reflexivity.
Qed.

Lemma show_ok c h ch nx tmp ii x y z i o : hunter_ok h →
  exits (room h) = [x; y; z] → 0 ≤ x < 8 → 0 ≤ y < 8 → 0 ≤ z < 8 →
  show (at_ c h ch nx tmp ii x y z i o) =
  Some (tt, at_ c h ch nx tmp ii x y z i (reverse (map u8 (describe c h)) ++ o)).
Proof.
  intros (Hr & Hq & _) E Hx Hy Hz. unfold show, describe. rewrite E.
  erewrite seq_some by apply putchars_ok. do 2 (erewrite seq_some by reflexivity).
  erewrite seq_some by (by apply warnings_ok). erewrite seq_some by apply putchars_ok.
  do 6 (erewrite seq_some by (unfold putchar; exec; reflexivity)). erewrite seq_some by apply putchars_ok.
  unfold putchar, bindM. exec. rewrite !(i32_small (48 + _)) by word_lia. unfold nl. do 3 f_equal.
  repeat match goal with |- context [if ?b then _ else _] => let t := fresh "t" in set (t := if b then _ else _); clearbody t end.
  repeat (rewrite ?map_app, ?reverse_app, ?reverse_cons, <- ?app_assoc; cbn [map app]). done.
Qed.

Lemma key_ok i : Forall is_u8 i → -1 ≤ key_of i < 256.
Proof. destruct 1 as [|k i Hk _]; cbn [key_of]; [|unfold is_u8 in Hk]; lia. Qed.

Lemma getchar_ok c h ch nx tmp ii x y z i o :
  getchar "ch" (at_ c h ch nx tmp ii x y z i o) = Some (tt, at_ c h (key_of i) nx tmp ii x y z (tail i) o).
Proof. by destruct i. Qed.

Lemma which_room_ok c h ch nx tmp ii x y z i o : Forall is_u8 i →
  which_room (at_ c h ch nx tmp ii x y z i o) =
  Some (tt, at_ c h (key_of i) (key_of i - 48) tmp ii x y z (tail i) (reverse (map u8 (lit "Which room? " ++ nl)) ++ o)).
Proof.
  intros Hi%key_ok. unfold which_room. erewrite seq_some by apply putchars_ok. erewrite seq_some by apply getchar_ok.
  erewrite seq_some by reflexivity. unfold assign. exec. rewrite i32_small by word_lia.
  by rewrite map_app, reverse_app, <- app_assoc.
Qed.

Lemma when_dies b t c r q l w lk ch nx tmp ii x y z i o e :
  ev e (vars (at_ c (Hunter r q l w lk) ch nx tmp ii x y z i o)) = Some (of_bool b) →
  When e (putchars t;;; "alive" ::= 0) (at_ c (Hunter r q l w lk) ch nx tmp ii x y z i o) =
  Some (tt, at_ c (Hunter r q (l && negb b) w lk) ch nx tmp ii x y z i (reverse (map u8 (if b then t else [])) ++ o)).
Proof.
  intros He. unfold When. rewrite (If_bool _ _ _ _ _ He). destruct b.
  - rewrite (seq_some _ _ _ _ (putchars_ok _ _ _ _)). rewrite andb_false_r. done.
  - by rewrite andb_true_r.
Qed.

(** The arithmetic of "Random room". *)
Lemma random_room lk : 0 ≤ lk < 32768 →
  i32 (i32 (i32 (lk * 7) + 3) - i32 (i32 (i32 (lk * 7) + 3) /c 8 * 8)) = (lk * 7 + 3) `mod` 8.
Proof.
  intros Hl. rewrite (i32_small (lk * 7)) by word_lia. rewrite (i32_small (lk * 7 + 3)) by word_lia.
  rewrite Z.quot_div_nonneg by lia. rewrite (i32_small (_ * 8)) by (Z.div_mod_to_equations; word_lia).
  rewrite i32_small by (Z.div_mod_to_equations; word_lia). dlia.
Qed.

Lemma bats_ok c r q l w lk ch nx tmp ii x y z i o : 0 ≤ lk < 32768 →
  When ("player" == "bats")
    (putchars (lit "Bats!" ++ nl);;;
     "seed" ::= (("seed" * 7) + 3) - (((("seed" * 7) + 3) / 8) * 8);;;
     When ("seed" < 0) ("seed" ::= 0 - "seed");;;
     "player" ::= "seed") (at_ c (Hunter r q l w lk) ch nx tmp ii x y z i o) =
  let flown := r =? c_bats c in
  let dest := (lk * 7 + 3) `mod` 8 in
  Some (tt, at_ c (Hunter (if flown then dest else r) q l w (if flown then dest else lk)) ch nx tmp ii x y z i
    (reverse (map u8 (if flown then lit "Bats!" ++ nl else [])) ++ o)).
Proof.
  intros Hl. unfold When at 1. rewrite (If_bool (r =? c_bats c)) by (exec; reflexivity).
  destruct (r =? c_bats c); [|done].
  rewrite (seq_some _ _ _ _ (putchars_ok _ _ _ _)).
  erewrite seq_some by (unfold assign; exec; rewrite c_div_by by lia; exec; rewrite random_room by done; reflexivity).
  assert (0 ≤ (lk * 7 + 3) `mod` 8) by (apply Z.mod_pos_bound; lia).
  erewrite seq_some by (unfold When, If; exec; zb_false ((lk * 7 + 3) `mod` 8 <? 0); reflexivity). done.
Qed.

Lemma hazards_ok c h r ch nx tmp ii x y z i o : hunter_ok h →
  hazards (at_ c (Hunter r (quiver h) (living h) (winner h) (luck h)) ch nx tmp ii x y z i o) =
  Some (tt, at_ c (fst (enter c h r)) ch nx tmp ii x y z i (reverse (map u8 (snd (enter c h r))) ++ o)).
Proof.
  intros (_ & _ & Hl). unfold hazards.
  erewrite seq_some by (apply (when_dies (r =? c_wumpus c)); exec; reflexivity).
  erewrite seq_some by (apply (when_dies ((r =? c_pit1 c) || (r =? c_pit2 c))); exec; reflexivity).
  rewrite (bats_ok _ _ _ _ _ _ _ _ _ _ _ _ _ _ _ Hl). cbv zeta. unfold enter. cbn [fst snd].
  by rewrite !map_app, !reverse_app, <- !app_assoc.
Qed.

Lemma move_ok c h ch nx tmp ii x y z i o : hunter_ok h → exits (room h) = [x; y; z] → Forall is_u8 i →
  let '(h', _, i', t) := ask ch i (go c h) in
  ∃ nx', move (at_ c h ch nx tmp ii x y z i o) =
    Some (tt, at_ c h' (key_of i) nx' tmp ii x y z i' (reverse (map u8 t) ++ o)).
Proof.
  intros Hh E Hi. unfold ask, move. rewrite (seq_some _ _ _ _ (which_room_ok _ _ _ _ _ _ _ _ _ _ _ Hi)).
  unfold go.
  rewrite (If_bool (near (room h) (key_of i - 48))).
  2:{ rewrite (near_exits _ _ _ _ (key_of i - 48) E), (Z.eqb_sym x), (Z.eqb_sym y), (Z.eqb_sym z). exec. reflexivity. }
  destruct (near (room h) (key_of i - 48)).
  - rewrite (surjective_pairing (enter _ _ _)). eexists. erewrite seq_some by reflexivity.
    etransitivity; [apply (hazards_ok c h (key_of i - 48)); exact Hh|].
    by rewrite !map_app, !reverse_app, <- !app_assoc.
  - eexists. rewrite putchars_ok. by rewrite !map_app, !reverse_app, <- !app_assoc.
Qed.

Lemma shoot_ok c h ch nx tmp ii x y z i o : hunter_ok h → Forall is_u8 i →
  let '(h', k, i', t) := if 0 <? quiver h then ask ch i (fire c h) else (h, ch, i, []) in
  ∃ nx', shoot (at_ c h ch nx tmp ii x y z i o) =
    Some (tt, at_ c h' k nx' tmp ii x y z i' (reverse (map u8 t) ++ o)).
Proof.
  intros (_ & Hq & _) Hi. unfold shoot. unfold When at 1.
  rewrite (If_bool (0 <? quiver h)) by (exec; reflexivity). destruct (Z.ltb_spec 0 (quiver h)); [|by eexists].
  unfold ask. rewrite (seq_some _ _ _ _ (which_room_ok _ _ _ _ _ _ _ _ _ _ _ Hi)).
  destruct h as [r q l w lk]. cbn [room quiver living winner luck] in *.
  erewrite seq_some by (unfold assign; exec; rewrite i32_small by word_lia; reflexivity).
  rewrite (If_bool (key_of i - 48 =? c_wumpus c)) by (exec; reflexivity). unfold fire. destruct (key_of i - 48 =? c_wumpus c).
  - eexists. rewrite (seq_some _ _ _ _ (putchars_ok _ _ _ _)). cbn [room quiver luck].
    etransitivity; [reflexivity|]. cbn [of_bool living winner]. by rewrite !map_app, !reverse_app, <- !app_assoc.
  - eexists. rewrite (seq_some _ _ _ _ (putchars_ok _ _ _ _)). cbn [room quiver luck living winner].
    etransitivity; [apply (when_dies (q - 1 =? 0)); exec; reflexivity|].
    by rewrite !map_app, !reverse_app, <- !app_assoc.
Qed.

Lemma ask_key ch i f : ∃ h, ask ch i f = (h, key_of i, tail i, lit "Which room? " ++ nl ++ snd (f (key_of i))) ∧ h = fst (f (key_of i)).
Proof. unfold ask. destruct (f (key_of i)). by eexists. Qed.

Lemma near_range r x : near r x = true → 0 ≤ r < 8 → 0 ≤ x < 8.
Proof.
  intros Hn%bool_decide_eq_true Hr.
  assert (r = 0 ∨ r = 1 ∨ r = 2 ∨ r = 3 ∨ r = 4 ∨ r = 5 ∨ r = 6 ∨ r = 7) as Hc by lia.
  destruct_or! Hc; subst r; cbn in Hn; set_unfold in Hn; lia.
Qed.

Lemma go_ok c h k : hunter_ok h → hunter_ok (fst (go c h k)).
Proof.
  intros (Hr & Hq & Hl). unfold go. destruct (near (room h) (k - 48)) eqn:E; [|done].
  apply near_range in E; [|done]. unfold enter, hunter_ok. cbn [fst room quiver luck].
  pose proof (Z.mod_pos_bound (luck h * 7 + 3) 8). destruct (k - 48 =? c_bats c); lia.
Qed.

Lemma fire_ok c h k : hunter_ok h → 0 < quiver h → hunter_ok (fst (fire c h k)).
Proof. intros (Hr & Hq & Hl) H. unfold fire. by destruct (k - 48 =? c_wumpus c); (split_and!; cbn [fst room quiver luck]; lia). Qed.

(** A turn of the code is a turn of the rules, and leaves the hunter in the cave
    with at most the arrows he had. *)
Lemma hunt_turn c h ch nx tmp ii a1 a2 a3 i o : hunter_ok h → Forall is_u8 i →
  let '(h', i', t) := ref_round c h i in
  hunter_ok h' ∧ Forall is_u8 i' ∧
  ∃ ch' nx' x y z, turn (at_ c h ch nx tmp ii a1 a2 a3 i o) =
    Some (tt, at_ c h' ch' nx' tmp ii x y z i' (reverse (map u8 t) ++ o)).
Proof.
  intros Hh Hi. destruct (get_adjacent_ok c h ch nx tmp ii a1 a2 a3 i o Hh) as (x & y & z & E & Hx & Hy & Hz & Ea).
  pose proof (Forall_tail _ _ Hi) as Hi1.
  assert (turn (at_ c h ch nx tmp ii a1 a2 a3 i o) =
    (When (("ch" == 109) .| ("ch" == 77)) move;;; When (("ch" == 115) .| ("ch" == 83)) shoot)
      (at_ c h (key_of i) nx tmp ii x y z (tail i) (reverse (map u8 (describe c h ++ lit "Move or Shoot? " ++ nl)) ++ o))) as ->.
  { unfold turn. rewrite (seq_some _ _ _ _ Ea). erewrite seq_some by (by apply show_ok).
    erewrite seq_some by apply putchars_ok. erewrite seq_some by apply getchar_ok. erewrite seq_some by reflexivity.
    by rewrite !map_app, !reverse_app, <- !app_assoc. }
  set (o1 := reverse (map u8 (describe c h ++ lit "Move or Shoot? " ++ nl)) ++ o).
  unfold ref_round. set (k := key_of i).
  assert (∃ h1 k1 i1 t1 nx1, (if is_move k then ask k (tail i) (go c h) else (h, k, tail i, [])) = (h1, k1, i1, t1) ∧
    hunter_ok h1 ∧ Forall is_u8 i1 ∧
    When (("ch" == 109) .| ("ch" == 77)) move (at_ c h k nx tmp ii x y z (tail i) o1) =
    Some (tt, at_ c h1 k1 nx1 tmp ii x y z i1 (reverse (map u8 t1) ++ o1))) as (h1 & k1 & i1 & t1 & nx1 & -> & Hh1 & Hu1 & E1).
  { unfold When. rewrite (If_bool (is_move k)) by (exec; reflexivity). destruct (is_move k).
    - pose proof (move_ok c h k nx tmp ii x y z (tail i) o1 Hh E Hi1) as Hm.
      destruct (ask_key k (tail i) (go c h)) as (h1 & Eq & ->). rewrite Eq in *. destruct Hm as [nx1 Hm].
      do 5 eexists. split; [reflexivity|]. split; [by apply go_ok|]. split; [by apply Forall_tail|]. exact Hm.
    - by do 5 eexists. }
  rewrite (seq_some _ _ _ _ E1). unfold When. rewrite (If_bool (is_shot k1)) by (exec; reflexivity).
  pose proof (shoot_ok c h1 k1 nx1 tmp ii x y z i1 (reverse (map u8 t1) ++ o1) Hh1 Hu1) as Hs.
  destruct (is_shot k1); cbn [andb].
  - destruct (Z.ltb_spec 0 (quiver h1)).
    + destruct (ask_key k1 i1 (fire c h1)) as (h2 & Eq & ->). rewrite Eq in *. destruct Hs as [nx2 Hs].
      split; [by apply fire_ok|]. split; [by apply Forall_tail|]. do 5 eexists. rewrite Hs. unfold o1.
      by rewrite !map_app, !reverse_app, <- !app_assoc.
    + destruct Hs as [nx2 Hs]. split; [done|]. split; [done|]. do 5 eexists. rewrite Hs. unfold o1.
      by rewrite !map_app, !reverse_app, <- !app_assoc.
  - split; [done|]. split; [done|]. do 5 eexists. unfold skip, ret, o1. by rewrite !map_app, !reverse_app, <- !app_assoc.
Qed.

(** ** Whole games *)

(** A game of at most [n] turns; [None] when it is not over by then. *)
Fixpoint ref_game (n : nat) (c : cave) (h : hunter) (i : list Z) : option (hunter * list Z) :=
  if living h then
    match n with
    | O => None
    | S n' => let '(h', i', t) := ref_round c h i in '(h'', t') ← ref_game n' c h' i'; Some (h'', t ++ t')
    end
  else Some (h, []).

Lemma hunt_turns n c h i h' t ch nx tmp ii x y z o : hunter_ok h → Forall is_u8 i → (n < Pos.to_nat ROUNDS)%nat →
  ref_game n c h i = Some (h', t) →
  ∃ s, While ("alive" == 1) turn (at_ c h ch nx tmp ii x y z i o) = Some (tt, s) ∧
    get "won" (vars s) = Some (of_bool (winner h')) ∧ rout s = reverse (map u8 t) ++ o.
Proof.
  intros Hh Hi Hn Hg.
  apply (While_run (λ k s, ∃ h1 i1 t1 t2 ch nx x y z, hunter_ok h1 ∧ Forall is_u8 i1 ∧ ref_game k c h1 i1 = Some (h', t2) ∧
    t = t1 ++ t2 ∧ s = at_ c h1 ch nx tmp ii x y z i1 (reverse (map u8 t1) ++ o))) with (k := n); [| |done].
  - clear. intros k s (h1 & i1 & t1 & t2 & ch & nx & x & y & z & Hh & Hi & Hg & -> & ->).
    exists (of_bool (living h1)). split; [exec; by destruct (living h1)|]. rewrite if_bool.
    destruct k as [|k]; cbn [ref_game] in Hg; destruct (living h1) eqn:Hl; try done; [by simplify_eq; rewrite app_nil_r| |by simplify_eq; rewrite app_nil_r].
    pose proof (hunt_turn c h1 ch nx tmp ii x y z i1 (reverse (map u8 t1) ++ o) Hh Hi) as Ht. rewrite Hl in Ht.
    destruct (ref_round c h1 i1) as [[h2 i2] t3]. destruct Ht as (Hh2 & Hi2 & ch2 & nx2 & x2 & y2 & z2 & Et).
    destruct (ref_game k c h2 i2) as [[h3 t4]|] eqn:Hg2; [|done]. simpl in Hg. simplify_eq.
    eexists _, k. split; [exact Et|]. split; [lia|]. exists h2, i2, (t1 ++ t3), t4. do 5 eexists. split; [done|]. split; [done|].
    split; [done|]. split; [by rewrite app_assoc|]. by rewrite map_app, reverse_app, <- app_assoc.
  - exists h, i, [], t. by do 5 eexists.
Qed.

(** The placements of the ten digits: the room of the hunter, of the Wumpus, of the
    pits and of the bats, and the number that the bats draw from. *)
Definition PLACEMENTS : list (Z * cave * Z) :=
  [(2, Cave 3 0 1 6, 1990); (7, Cave 4 5 2 3, 21459); (4, Cave 5 2 3 0, 8160); (1, Cave 6 7 4 5, 27629); (6, Cave 7 4 5 2, 14330);
   (3, Cave 0 1 6 7, 1031); (0, Cave 1 6 7 4, 20500); (5, Cave 2 3 0 1, 7201); (2, Cave 3 0 1 6, 26670); (7, Cave 4 5 2 3, 13371)].
Definition seed_digit (k : Z) : nat := if (48 <=? k) && (k <=? 57) then Z.to_nat (k - 48) else 0%nat.
Definition placement (k : Z) : cave * hunter :=
  let '(r, c, lk) := nth (seed_digit k) PLACEMENTS (2, Cave 3 0 1 6, 1990) in (c, Hunter r 3 true false lk).
Definition TITLE : list Z := lit "Hunt the Wumpus!" ++ nl ++ nl ++ lit "Seed (0-9): ".

Definition begin_with (seed ch : Z) (i o : list Z) : tst :=
  T (ints ["player"; "wumpus"; "pit1"; "pit2"; "bats"; "arrows"; "alive"; "won"] ++ [("ch", ch); ("next", 0); ("seed", seed)] ++
     ints ["temp"; "i"] ++ CAVE ++ ints ["adj1"; "adj2"; "adj3"]) i o.

Lemma place_ok n ch i o : (n < 10)%nat →
  let '(r, c, lk) := nth n PLACEMENTS (2, Cave 3 0 1 6, 1990) in
  (place;;; "arrows" ::= 3;;; "alive" ::= 1;;; "won" ::= 0) (begin_with (37 + Z.of_nat n * 17) ch i o) =
  Some (tt, at_ c (Hunter r 3 true false lk) ch 0 0 0 0 0 0 i o).
Proof. intros Hn. do 10 (destruct n as [|n]; [vm_compute; reflexivity|]). lia. Qed.

Lemma read_seed_ok seed ch i o : Forall is_u8 i →
  read_seed (begin_with seed ch i o) =
  Some (tt, begin_with (37 + Z.of_nat (seed_digit (key_of i)) * 17) (key_of i) (tail (tail i)) o).
Proof.
  intros Hi. pose proof (key_ok i Hi) as Hk. unfold read_seed, begin_with.
  assert (getchar "ch" (begin_with seed ch i o) = Some (tt, begin_with seed (key_of i) (tail i) o)) as Eg by by destruct i.
  unfold begin_with in Eg. rewrite (seq_some _ _ _ _ Eg).
  assert (∀ v i o, (_ <- next_char;; skip) (T v i o) = Some (tt, T v (tail i) o)) as En by (intros ?? []; reflexivity || by destruct i0).
  erewrite seq_some; [apply En|]. unfold seed_digit. set (k := key_of i) in *.
  rewrite (If_bool ((48 <=? k) && (k <=? 57))).
  2:{ cbn -[Z.leb]. unfold c_cmp. cbn -[Z.leb]. by destruct (48 <=? k), (k <=? 57). }
  destruct (Z.leb_spec 48 k); [destruct (Z.leb_spec k 57)|]; cbn [andb]; unfold assign;
    cbn -[i32 Z.add Z.sub Z.mul CAVE Z.of_nat]; [|reflexivity..].
  rewrite Z2Nat.id by lia. by rewrite (i32_small (k - 48)), (i32_small (_ * _)), i32_small by word_lia.
Qed.

Lemma setup_ok i : Forall is_u8 i →
  let '(c, h) := placement (key_of i) in
  setup (T decls i []) = Some (tt, at_ c h (key_of i) 0 0 0 0 0 0 (tail (tail i)) (reverse (map u8 TITLE))).
Proof.
  intros Hi. unfold placement. pose proof (place_ok (seed_digit (key_of i)) (key_of i) (tail (tail i)) (reverse (map u8 TITLE))) as Hp.
  assert (setup (T decls i []) = (place;;; "arrows" ::= 3;;; "alive" ::= 1;;; "won" ::= 0)
    (begin_with (37 + Z.of_nat (seed_digit (key_of i)) * 17) (key_of i) (tail (tail i)) (reverse (map u8 TITLE)))) as ->.
  { unfold setup. rewrite (seq_some (assigns CAVE) _ _ (begin_with 0 0 i [])) by reflexivity.
    unfold begin_with. rewrite (seq_some _ _ _ _ (putchars_ok _ _ _ _)). rewrite app_nil_r.
    by rewrite (seq_some _ _ _ _ (read_seed_ok 0 0 i (reverse (map u8 TITLE)) Hi)). }
  destruct (nth _ PLACEMENTS _) as [[r c] lk]. apply Hp. unfold seed_digit. bool_cases; lia.
Qed.

Lemma the_end_ok v i o w : get "won" v = Some (of_bool w) →
  the_end (T v i o) = Some (tt, T v i (reverse (nl ++ (if w then lit "You Win!" else lit "Game Over") ++ nl) ++ o)).
Proof.
  intros Hw. unfold the_end. erewrite seq_some by reflexivity. cbn [inp rout vars].
  erewrite seq_some.
  2:{ rewrite (If_bool w) by (cbn [ev bin const var vars mbind option_bind]; rewrite Hw; by destruct w).
      instantiate (1 := T v i (reverse (if w then lit "You Win!" else lit "Game Over") ++ 10 :: o)). by destruct w. }
  unfold putchar. cbn [ev const vars inp rout mbind option_bind]. rewrite !reverse_app, <- !app_assoc. done.
Qed.

(** *** The texts are bytes *)

Lemma room_char r : 0 ≤ r < 8 → is_u8 (48 + r).
Proof. unfold is_u8. lia. Qed.
Lemma text_if (b : bool) t u : Forall is_u8 t → Forall is_u8 u → Forall is_u8 (if b then t else u).
Proof. by destruct b. Qed.
Create HintDb text.
#[local] Hint Resolve lit_u8 Forall_app_2 room_char text_if Forall_nil_2 Forall_cons_2 : text.
#[local] Hint Extern 0 (Forall is_u8 nl) => by repeat constructor : text.
#[local] Hint Extern 1 (is_u8 _) => unfold is_u8; lia : text.

Lemma describe_u8 c h : hunter_ok h → Forall is_u8 (describe c h).
Proof.
  intros Hh. destruct (get_adjacent_ok c h 0 0 0 0 0 0 0 [] [] Hh) as (x & y & z & E & Hx & Hy & Hz & _).
  destruct Hh as (Hr & Hq & _). unfold describe. rewrite E. cbv zeta. auto 20 with text.
Qed.

Lemma ref_round_u8 c h i : hunter_ok h → Forall is_u8 (snd (ref_round c h i)).
Proof.
  intros Hh. unfold ref_round, ask, go, enter, fire. pose proof (describe_u8 c h Hh).
  repeat match goal with
  | |- context [match (if ?b then _ else _) with (_, _) => _ end] => destruct b
  end; cbn [snd]; auto 20 with text.
Qed.

Lemma ref_game_u8 n c h i h' t : hunter_ok h → Forall is_u8 i → ref_game n c h i = Some (h', t) → Forall is_u8 t.
Proof.
  revert h i t. induction n as [|n IH]; intros h i t Hh Hi Hg; cbn [ref_game] in Hg; destruct (living h); simplify_eq; auto with text.
  pose proof (ref_round_u8 c h i Hh) as Ht. pose proof (hunt_turn c h 0 0 0 0 0 0 0 i [] Hh Hi) as Hr.
  destruct (ref_round c h i) as [[h1 i1] t1]. destruct Hr as (Hh1 & Hi1 & _).
  destruct (ref_game n c h1 i1) as [[h2 t2]|] eqn:E; simpl in Hg; simplify_eq. apply Forall_app_2; eauto.
Qed.

(** *** The game *)

Lemma placement_in k : ∃ r c lk, (r, c, lk) ∈ PLACEMENTS ∧ placement k = (c, Hunter r 3 true false lk).
Proof.
  unfold placement. generalize (seed_digit k) as n. intros n.
  assert (nth n PLACEMENTS (2, Cave 3 0 1 6, 1990) ∈ PLACEMENTS) as Hin.
  { destruct (decide (n < length PLACEMENTS)%nat) as [Hn|Hn]; [by apply list_elem_of_In, nth_In|].
    rewrite nth_overflow by lia. by left. }
  destruct (nth _ _ _) as [[r c] lk]. by exists r, c, lk.
Qed.

Definition placement_safe (p : Z * cave * Z) : Prop :=
  let '(r, c, lk) := p in NoDup [r; c_wumpus c; c_pit1 c; c_pit2 c; c_bats c] ∧
  Forall (λ x, 0 ≤ x < 8) [r; c_wumpus c; c_pit1 c; c_pit2 c; c_bats c] ∧ 0 ≤ lk < 32768.
#[local] Instance placement_safe_dec p : Decision (placement_safe p).
Proof. destruct p as [[r c] lk]. apply _. Defined.
Lemma placements_safe : Forall placement_safe PLACEMENTS.
Proof. apply (bool_decide_unpack _). vm_compute. exact I. Qed.

(** In the game of every seed the hunter, the Wumpus, the two pits and the
    bats start in five different rooms of the cave, and every room of the cave has
    three exits, each of which leads back. *)
Theorem wumpus_placements k :
  let '(c, h) := placement k in
  NoDup [room h; c_wumpus c; c_pit1 c; c_pit2 c; c_bats c] ∧
  Forall (λ r, 0 ≤ r < 8) [room h; c_wumpus c; c_pit1 c; c_pit2 c; c_bats c] ∧
  (∀ x y, 0 ≤ x < 8 → 0 ≤ y < 8 → length (exits x) = 3%nat ∧ near x y = near y x).
Proof.
  destruct (placement_in k) as (r & c & lk & Hin & ->). pose proof placements_safe as Hs. rewrite Forall_forall in Hs.
  destruct (Hs _ Hin) as (Hd & Hr & _). split; [done|]. split; [done|]. clear. intros x y Hx Hy.
  assert (Forall (λ x, Forall (λ y, length (exits x) = 3%nat ∧ near x y = near y x) (seqZ 0 8)) (seqZ 0 8)) as Hall
    by (apply (bool_decide_unpack _); vm_compute; exact I).
  rewrite Forall_forall in Hall. specialize (Hall x ltac:(apply elem_of_seqZ; lia)). rewrite Forall_forall in Hall.
  apply Hall, elem_of_seqZ. lia.
Qed.

Lemma placement_hunter k : hunter_ok (snd (placement k)).
Proof.
  destruct (placement_in k) as (r & c & lk & Hin & ->). pose proof placements_safe as Hs. rewrite Forall_forall in Hs.
  destruct (Hs _ Hin) as (_ & Hr & Hl). apply Forall_cons in Hr as [Hr _]. split_and!; cbn [snd room quiver luck]; lia.
Qed.

(** [C18] Whatever is typed, the program plays the game of the rules: the seed fixes
    the cave, every turn is a turn of [ref_round], and when the hunter's game ends
    the program says so and ends. *)
Theorem wumpus_plays i n h t :
  Forall is_u8 i → (n < Pos.to_nat ROUNDS)%nat →
  ref_game n (fst (placement (key_of i))) (snd (placement (key_of i))) (tail (tail i)) = Some (h, t) →
  run decls main i = Some (TITLE ++ t ++ nl ++ (if winner h then lit "You Win!" else lit "Game Over") ++ nl).
Proof.
  intros Hi Hn Hg. pose proof (setup_ok i Hi) as Hs. pose proof (placement_hunter (key_of i)) as Hh.
  assert (Forall is_u8 (tail (tail i))) as Hi2 by by do 2 apply Forall_tail.
  destruct (placement (key_of i)) as [c h0]. cbn [fst snd] in *.
  destruct (hunt_turns n c h0 _ h t (key_of i) 0 0 0 0 0 0 (reverse (map u8 TITLE)) Hh Hi2 Hn Hg) as (s & Ew & Hw & Ho).
  destruct s as [v j o]. cbn [vars rout] in *. pose proof (the_end_ok v j o _ Hw) as He. unfold run.
  assert (main (T decls i []) = the_end (T v j o)) as ->
    by (unfold main; rewrite (seq_some setup _ _ _ Hs), (seq_some (While _ _) _ _ _ Ew); reflexivity).
  rewrite He, Ho. cbn [mbind option_bind]. unfold printed. cbn [rout].
  rewrite (map_u8 t) by (by eapply ref_game_u8). rewrite (map_u8 TITLE) by (unfold TITLE; auto with text).
  rewrite !reverse_app, !reverse_involutive, <- !app_assoc. done.
Qed.

(** Seed 0: the Wumpus is next door. *)
Lemma wumpus_plays_witness : ∃ t, run decls main (lit "0" ++ nl ++ lit "s3") = Some (TITLE ++ t ++ nl ++ lit "You Win!" ++ nl).
Proof.
  eexists. apply (wumpus_plays (lit "0" ++ nl ++ lit "s3") 1 (Hunter 2 2 false true 1990)).
  - repeat (apply Forall_app_2 || apply lit_u8). by repeat constructor.
  - unfold ROUNDS. lia.
  - reflexivity.
Defined.

(** At the end of the input the turns go on for ever: nobody moves and nobody
    shoots. *)
Theorem wumpus_end_of_input n c h ch nx tmp ii x y z o : hunter_ok h → living h = true →
  ∃ ch' nx' x' y' z' o', loop_nat n (while_body ("alive" == 1)%tcc turn) (at_ c h ch nx tmp ii x y z [] o) =
    Some (inl (at_ c h ch' nx' tmp ii x' y' z' [] o')).
Proof.
  intros Hh Hl. revert ch nx x y z o. induction n as [|n IH]; intros; [by do 6 eexists|].
  pose proof (hunt_turn c h ch nx tmp ii x y z [] o Hh (Forall_nil_2 _)) as Ht. unfold ref_round in Ht. cbn in Ht.
  destruct Ht as (_ & _ & ch1 & nx1 & x1 & y1 & z1 & Et).
  edestruct IH as (ch2 & nx2 & x2 & y2 & z2 & o2 & E2). do 6 eexists. rewrite <- E2.
  apply (while_round _ _ _ _ 1); [by rewrite Hl|done|exact Et].
Qed.

(** Two turns that the rules of the game do not suggest: the key [s] in answer to
    "Which room?" of a move shoots, and the bats of seed 2 set the hunter down in a
    pit, where he lives on. *)
Example wumpus_surprises :
  ref_round (Cave 3 0 1 6) (Hunter 2 3 true false 1990) (lit "ms3") =
    (Hunter 2 2 false true 1990, [],
     describe (Cave 3 0 1 6) (Hunter 2 3 true false 1990) ++ lit "Move or Shoot? " ++ nl ++
     lit "Which room? " ++ nl ++ lit "No exit" ++ nl ++ lit "Which room? " ++ nl ++ lit "You got the Wumpus!" ++ nl) ∧
  fst (fst (ref_round (Cave 5 2 3 0) (Hunter 1 3 true false 8160) (lit "m0"))) = Hunter 3 3 true false 3.
Proof. by split. Qed.
