(* ===== verification/Arrays.v ===== *)
(** * Arrays and loops of stand-alone programs

    For the programs that keep their data in arrays of their own: an array is the
    list of its bytes, an access outside it is a fault, and [repeatM] is a loop
    over a local variable in a computation with state.  [repeatM_run] is the rule
    for it, [dec_loop] the digits that such a program takes a number apart into. *)

From S2P Require Import Prelude CStdlib.

(** The character at an index of an array, and an assignment to it. *)
Definition char_at (a : list Z) (k : Z) : option Z := if k <? 0 then None else i8 <$> a !! Z.to_nat k.
Definition put_at (a : list Z) (k c : Z) : option (list Z) :=
  if (0 <=? k) && (k <? Z.of_nat (length a)) then Some (<[Z.to_nat k := u8 c]> a) else None.

Definition liftO {S A} (x : option A) : M S A := λ s, a ← x; Some (a, s).
Definition reads {S A} (f : S → A) : M S A := λ s, Some (f s, s).
Definition does {S} (f : S → S) : M S unit := λ s, Some (tt, f s).

(** [while (1) { ... }] over a local: the body goes on with [inl] and leaves the
    loop with [inr].  The bound costs nothing when the loop ends. *)
Definition LOOP_BOUND : positive := 4294967296.
Definition loop_body {S I} (c : I → M S (I + I)) (x : I * S) : option ((I * S) + (I * S)) :=
  '(r, s) ← c (fst x) (snd x); Some (match r with inl i => inl (i, s) | inr i => inr (i, s) end).
Definition repeatM {S I} (c : I → M S (I + I)) (i : I) : M S I := λ s,
  r ← loop LOOP_BOUND (loop_body c) (i, s); match r with inr x => Some x | inl _ => None end.

(** Total correctness: [P k i s] is the invariant, with at most [k] rounds left. *)
Lemma repeatM_run {S I} (P : nat → I → S → Prop) (Q : I → S → Prop) (c : I → M S (I + I)) :
  (∀ k i s, P k i s → ∃ r s', c i s = Some (r, s') ∧
     match r with inl i' => ∃ k', (k' < k)%nat ∧ P k' i' s' | inr i' => Q i' s' end) →
  ∀ k i s, P k i s → (k < Pos.to_nat LOOP_BOUND)%nat → ∃ i' s', repeatM c i s = Some (i', s') ∧ Q i' s'.
Proof.
  intros HP k i s Hs Hk.
  assert (∃ i' s', loop_nat (Datatypes.S k) (loop_body c) (i, s) = Some (inr (i', s')) ∧ Q i' s') as (i' & s' & E & HQ).
  { clear Hk. revert i s Hs. induction (lt_wf k) as [k _ IH]. intros i s Hs. destruct (HP _ _ _ Hs) as (r & s1 & Ec & Hr).
    assert (loop_body c (i, s) = Some (match r with inl i' => inl (i', s1) | inr i' => inr (i', s1) end)) as Hb
      by (unfold loop_body; cbn [fst snd]; by rewrite Ec).
    destruct r as [i1|i1].
    - destruct Hr as (k1 & Hk & H1). destruct (IH k1 Hk i1 s1 H1) as (i' & s' & E & HQ). exists i', s'. split; [|done].
      cbn [loop_nat]. rewrite Hb. by apply (loop_nat_exit _ (Datatypes.S k1)); [|lia].
    - exists i1, s1. split; [|done]. cbn [loop_nat]. by rewrite Hb. }
  exists i', s'. split; [|done]. unfold repeatM. by rewrite (loop_exit _ (Datatypes.S k) LOOP_BOUND _ _ E).
Qed.

(** An array that starts with [acc], one character on. *)
Lemma put_at_next a acc c k : take (length acc) a = acc → k = Z.of_nat (length acc) → k < Z.of_nat (length a) →
  ∃ a', put_at a k c = Some a' ∧ length a' = length a ∧ take (S (length acc)) a' = acc ++ [u8 c].
Proof.
  intros Ht -> Hk. unfold put_at. zb_true (0 <=? Z.of_nat (length acc)). zb_true (Z.of_nat (length acc) <? Z.of_nat (length a)).
  eexists. split; [reflexivity|]. rewrite Nat2Z.id. split; [by rewrite length_insert|].
  erewrite take_S_r by (apply list_lookup_insert_eq; lia). by rewrite take_insert_ge, Ht by lia.
Qed.

(** An array that starts with [t] holds its characters. *)
Lemma char_at_take a t n i c : take n a = t → t !! i = Some c → char_at a (Z.of_nat i) = Some (i8 c).
Proof.
  intros <- Hi. unfold char_at. zb_false (Z.of_nat i <? 0). rewrite Nat2Z.id. pose proof (lookup_lt_Some _ _ _ Hi) as Hl.
  rewrite length_take in Hl. rewrite lookup_take_lt in Hi by lia. by rewrite Hi.
Qed.

Lemma i8_eqb c k : is_u8 c → 0 ≤ k < 128 → (i8 c =? k) = (c =? k).
Proof. intros Hc Hk. apply eq_bool_prop_intro. rewrite !Is_true_true, !Z.eqb_eq. word_lia. Qed.

(** The digit that [(n - (n / 10) * 10) + 48] computes. *)
Lemma last_digit m : 0 ≤ m < 2147483648 → i32 (i32 (m - i32 (m /c 10 * 10)) + 48) = 48 + m `mod` 10.
Proof.
  intros Hm. rewrite Z.quot_div_nonneg by lia. rewrite (i32_small (_ * _)) by (Z.div_mod_to_equations; word_lia).
  rewrite (i32_small (m - _)) by (Z.div_mod_to_equations; word_lia). rewrite i32_small by (Z.div_mod_to_equations; word_lia). dlia.
Qed.
