(* ===== verification/Json.v ===== *)
(** * The JSON tokenizer ([samples/json_parse.c])

    The state is the global variables of the program: the input buffer, the
    position in it, the current token and the arrays of the printing functions.  An
    access outside an array is a fault ([None]), so that every theorem that gives a
    result also says that the accesses stay inside.  [lex] is the lexer on a list
    of characters; [next_token] refines it. *)

From S2P Require Import Prelude CMem CStdlib Arrays.

#[local] Open Scope string_scope.
#[local] Open Scope Z_scope.
#[local] Open Scope list_scope.

(** The scratch variables of [print_int]. *)
Record digits := Digits { d_buf : list Z; d_i : Z; d_digit : Z; d_div : Z; d_neg : Z }.
Record js := J { json_buf : list Z; json_len : Z; pos : Z; tok_type : Z; tok_val : list Z; tok_vlen : Z;
                 names : list (list Z); scratch : digits; tok_count : Z; rout : list Z }.

Definition set_pos p s := J (json_buf s) (json_len s) p (tok_type s) (tok_val s) (tok_vlen s) (names s) (scratch s) (tok_count s) (rout s).
Definition set_type t s := J (json_buf s) (json_len s) (pos s) t (tok_val s) (tok_vlen s) (names s) (scratch s) (tok_count s) (rout s).
Definition set_val v s := J (json_buf s) (json_len s) (pos s) (tok_type s) v (tok_vlen s) (names s) (scratch s) (tok_count s) (rout s).
Definition set_vlen n s := J (json_buf s) (json_len s) (pos s) (tok_type s) (tok_val s) n (names s) (scratch s) (tok_count s) (rout s).
Definition set_count n s := J (json_buf s) (json_len s) (pos s) (tok_type s) (tok_val s) (tok_vlen s) (names s) (scratch s) n (rout s).
Definition set_scratch d s := J (json_buf s) (json_len s) (pos s) (tok_type s) (tok_val s) (tok_vlen s) (names s) d (tok_count s) (rout s).
Definition set_input b n s := J b n (pos s) (tok_type s) (tok_val s) (tok_vlen s) (names s) (scratch s) (tok_count s) (rout s).
Definition set_names l s := J (json_buf s) (json_len s) (pos s) (tok_type s) (tok_val s) (tok_vlen s) l (scratch s) (tok_count s) (rout s).
Definition set_out o s := J (json_buf s) (json_len s) (pos s) (tok_type s) (tok_val s) (tok_vlen s) (names s) (scratch s) (tok_count s) o.

(** ** The buffers and the console *)

Definition json_at (k : Z) : M js Z := λ s, c ← char_at (json_buf s) k; Some (c, s).
Definition put_val (k c : Z) : M js unit := λ s, v ← put_at (tok_val s) k c; Some (tt, set_val v s).
Definition advance (n : Z) : M js unit := does (λ s, set_pos (i32 (pos s + n)) s).
Definition putchar (c : Z) : M js unit := does (λ s, set_out (u8 c :: rout s) s).

(** ** The tokenizer *)

Definition QUOTE : Z := 34.

Definition is_ws (c : Z) : bool := (c =? 32) || (c =? 9) || (c =? 10) || (c =? 13).
Definition skip_char (_ : unit) : M js (unit + unit) :=
  p <- reads pos;; n <- reads json_len;;
  if p <? n then
    c <- json_at p;;
    if is_ws c then (advance 1;;; ret (inl tt)) else ret (inr tt)
  else ret (inr tt).
Definition skip_ws : M js unit := repeatM skip_char tt.

(** The loop of [match_lit] over [i], with whether it ends at [i == len] or by
    [return 0]. *)
Definition match_char (lits : list Z) (len : Z) (x : Z * bool) : M js (Z * bool + Z * bool) :=
  let i := fst x in
  if i <? len then
    p <- reads pos;; n <- reads json_len;;
    if n <=? i32 (p + i) then ret (inr (i, false))
    else
      c <- json_at (i32 (p + i));; d <- liftO (char_at lits i);;
      if negb (c =? d) then ret (inr (i, false)) else ret (inl (i32 (i + 1), false))
  else ret (inr (i, true)).
Definition match_lit (lits : list Z) (len : Z) : M js bool :=
  r <- repeatM (match_char lits len) (0, false);;
  if snd r then (advance len;;; ret true) else ret false.

(** [tok_val[0] = ...; tok_val[1] = ...; ...] *)
Fixpoint put_vals (k : Z) (t : list Z) : M js unit :=
  match t with [] => ret tt | c :: t' => put_val k c;;; put_vals (k + 1) t' end.

(** The six tokens of one character. *)
Definition punctuation (t c : Z) : M js unit := does (set_type t);;; advance 1;;; put_vals 0 [c; 0].

(** The body of the loop of a string: a character, or a backslash and the
    character after it. *)
Definition string_store (i c p n : Z) : M js Z :=
  if (c =? chr "\") && (i32 (p + 1) <? n) then
    put_val i (chr "\");;; advance 1;;; q <- reads pos;; d <- json_at q;; put_val (i32 (i + 1)) d;;; ret (i32 (i32 (i + 1) + 1))
  else put_val i c;;; ret (i32 (i + 1)).
Definition limit (i : Z) : M js (Z + Z) := ret (if 126 <=? i then inr i else inl i).
Definition string_char (i : Z) : M js (Z + Z) :=
  p <- reads pos;; n <- reads json_len;;
  if negb (p <? n) then ret (inr i) else
  c <- json_at p;;
  if c =? QUOTE then ret (inr i) else
  i <- string_store i c p n;;
  advance 1;;;
  limit i.
Definition string_token : M js unit :=
  does (set_type 7);;;
  advance 1;;;
  i <- repeatM string_char 0;;
  p <- reads pos;; n <- reads json_len;;
  (if p <? n then advance 1 else ret tt);;;
  put_val i 0;;;
  does (set_vlen i).

Definition is_digit (c : Z) : bool := (48 <=? c) && (c <=? 57).
(** [tok_val[i] = c; i = i + 1; pos = pos + 1;] *)
Definition take_char (i c : Z) : M js Z := put_val i c;;; advance 1;;; ret (i32 (i + 1)).
(** The branch of [e] and [E], with the sign of the exponent. *)
Definition exponent (i c n : Z) : M js (Z + Z) :=
  i <- take_char i c;; q <- reads pos;;
  if q <? n then
    d <- json_at q;; if (d =? chr "+") || (d =? chr "-") then (i <- take_char i d;; limit i) else limit i
  else limit i.
Definition number_char (i : Z) : M js (Z + Z) :=
  p <- reads pos;; n <- reads json_len;;
  if negb (p <? n) then ret (inr i) else
  c <- json_at p;;
  if is_digit c then (i <- take_char i c;; limit i)
  else if c =? chr "." then (i <- take_char i c;; limit i)
  else if (c =? chr "e") || (c =? chr "E") then
    exponent i c n
  else ret (inr i).
Definition number_token (c : Z) : M js unit :=
  does (set_type 8);;;
  i <- (if c =? chr "-" then take_char 0 c else ret 0);;
  i <- repeatM number_char i;;
  put_val i 0;;;
  does (set_vlen i).

Definition literal_token (t : Z) (lits : list Z) : M js unit := does (set_type t);;; put_vals 0 (lits ++ [0]).
Definition unknown_token (c : Z) : M js unit := does (set_type 255);;; put_vals 0 [c; 0];;; advance 1.
Definition word_token (c : Z) : M js unit :=
  a <- (if c =? chr "t" then match_lit (lit "true" ++ [0]) 4 else ret false);;
  if a : bool then literal_token 9 (lit "true") else
  b <- (if c =? chr "f" then match_lit (lit "false" ++ [0]) 5 else ret false);;
  if b : bool then literal_token 10 (lit "false") else
  d <- (if c =? chr "n" then match_lit (lit "null" ++ [0]) 4 else ret false);;
  if d : bool then literal_token 11 (lit "null") else
  unknown_token c.

Definition next_token : M js unit :=
  does (set_vlen 0);;;
  put_val 0 0;;;
  skip_ws;;;
  p <- reads pos;; n <- reads json_len;;
  if n <=? p then does (set_type 0) else
  c <- json_at p;;
  if c =? chr "{" then punctuation 1 c else
  if c =? chr "}" then punctuation 2 c else
  if c =? chr "[" then punctuation 3 c else
  if c =? chr "]" then punctuation 4 c else
  if c =? chr ":" then punctuation 5 c else
  if c =? chr "," then punctuation 6 c else
  if c =? QUOTE then string_token else
  if (c =? chr "-") || is_digit c then number_token c else
  word_token c.

(** ** Printing *)

Definition str_char (a : list Z) (i : Z) : M js (Z + Z) :=
  c <- liftO (char_at a i);;
  if c =? 0 then ret (inr i) else (putchar c;;; ret (inl (i32 (i + 1)))).
Definition print_str (a : list Z) : M js unit := _ <- repeatM (str_char a) 0;; ret tt.

Definition set_d (f : digits → digits) : M js unit := does (λ s, set_scratch (f (scratch s)) s).
Definition next_digit (n : Z) : M js (Z + Z) :=
  if 0 <? n then
    d <- reads scratch;;
    b <- liftO (put_at (d_buf d) (d_i d) (i32 (i32 (n - i32 (n /c 10 * 10)) + 48)));;
    set_d (λ d, Digits b (i32 (d_i d + 1)) (d_digit d) (d_div d) (d_neg d));;;
    ret (inl (n /c 10))
  else ret (inr n).
Definition print_digits (n : Z) : M js Z := repeatM next_digit n.
Definition reversed_digit (_ : unit) : M js (unit + unit) :=
  d <- reads scratch;;
  if 0 <=? d_digit d then
    c <- liftO (char_at (d_buf d) (d_digit d));;
    putchar c;;;
    set_d (λ d, Digits (d_buf d) (d_i d) (i32 (d_digit d - 1)) (d_div d) (d_neg d));;;
    ret (inl tt)
  else ret (inr tt).
Definition print_reversed : M js unit := repeatM reversed_digit tt.
Definition print_int (n : Z) : M js unit :=
  set_d (λ d, Digits (d_buf d) (d_i d) (d_digit d) (d_div d) 0);;;
  n <- (if n <? 0 then
          putchar (chr "-");;; set_d (λ d, Digits (d_buf d) (d_i d) (d_digit d) (d_div d) 1);;; ret (i32 (0 - n))
        else ret n);;
  if n =? 0 then putchar (chr "0") else
  set_d (λ d, Digits (d_buf d) 0 (d_digit d) (d_div d) (d_neg d));;;
  _ <- print_digits n;;
  set_d (λ d, Digits (d_buf d) (d_i d) (i32 (d_i d - 1)) 0 (d_neg d));;;
  print_reversed.

(** The arrays [tn_end], [tn_lb], ... [tn_unk], by their position. *)
Definition NAME_SIZES : list nat := [4; 7; 7; 7; 7; 7; 6; 7; 7; 5; 6; 5; 8]%nat.
Definition NAMES : list (list Z) :=
  [lit "END"; lit "LBRACE"; lit "RBRACE"; lit "LBRACK"; lit "RBRACK"; lit "COLON"; lit "COMMA"; lit "STRING"; lit "NUMBER";
   lit "TRUE"; lit "FALSE"; lit "NULL"; lit "UNKNOWN"].
Fixpoint store_all (a : list Z) (k : Z) (t : list Z) : option (list Z) :=
  match t with [] => Some a | c :: t' => a' ← put_at a k c; store_all a' (k + 1) t' end.
Definition init_names : M js unit := λ s,
  l ← mapM (λ '(a, t), store_all a 0 (t ++ [0])) (zip (names s) NAMES); Some (tt, set_names l s).

Definition print_type (t : Z) : M js unit :=
  l <- reads names;;
  print_str (nth (if (0 <=? t) && (t <=? 11) then Z.to_nat t else 12%nat) l []).

Definition INPUT : list Z := map (λ c, if c =? chr "'" then QUOTE else c)
  (lit "{'os':'Mellivora','ver':12,'bits':32,'ok':true,'list':[1,2,3]}").
Definition fill_json (lits : list Z) : M js unit :=
  i <- repeatM (λ i : Z,
    c <- liftO (char_at lits i);;
    if c =? 0 then ret (inr i) else
    (λ s, b ← put_at (json_buf s) i c; Some (tt, set_input b (json_len s) s));;; ret (inl (i32 (i + 1)))) 0;;
  (λ s, b ← put_at (json_buf s) i 0; Some (tt, set_input b i s)).

Definition show_quote (t : Z) : M js unit := if t =? 7 then putchar QUOTE else ret tt.
Definition show_value (t n : Z) (v : list Z) : M js unit :=
  if 0 <? n then putchar 32;;; putchar 32;;; show_quote t;;; print_str v;;; show_quote t else ret tt.
(** One round of the loop of [main]; [true] to leave it. *)
Definition report : M js bool :=
  next_token;;;
  putchar 32;;; putchar 32;;;
  k <- reads tok_count;; print_int k;;;
  putchar 32;;; putchar 32;;;
  t <- reads tok_type;; print_type t;;;
  n <- reads tok_vlen;; v <- reads tok_val;;
  show_value t n v;;;
  putchar 10;;;
  does (λ s, set_count (i32 (tok_count s + 1)) s);;;
  k <- reads tok_count;;
  ret ((t =? 0) || (200 <? k)).

Definition report_all : M js unit :=
  repeatM (λ _ : unit, b <- report;; ret (if b : bool then inr tt else inl tt)) tt.

Definition text (t : string) : M js unit := print_str (lit t ++ [0]).
Definition main : M js unit :=
  init_names;;;
  fill_json (INPUT ++ [0]);;;
  does (set_pos 0);;;
  does (set_count 0);;;
  text "Input: ";;; (b <- reads json_buf;; print_str b);;; putchar 10;;; putchar 10;;; text "Tokens:";;; putchar 10;;;
  report_all;;;
  putchar 10;;; text "Total tokens: ";;; (k <- reads tok_count;; print_int k);;; putchar 10.

Definition globals : js :=
  J (replicate 512 0) 0 0 0 (replicate 128 0) 0 (map (λ n, replicate n 0) NAME_SIZES) (Digits (replicate 12 0) 0 0 0 0) 0 [].

(** The program prints the 28 tokens of its input. *)
Definition listing : list (list Z) :=
  map (λ t, map (λ c, if c =? chr "'" then QUOTE else c) (lit t))
  ["Input: {'os':'Mellivora','ver':12,'bits':32,'ok':true,'list':[1,2,3]}"; ""; "Tokens:";
   "  0  LBRACE"; "  1  STRING  'os'"; "  2  COLON"; "  3  STRING  'Mellivora'"; "  4  COMMA"; "  5  STRING  'ver'";
   "  6  COLON"; "  7  NUMBER  12"; "  8  COMMA"; "  9  STRING  'bits'"; "  10  COLON"; "  11  NUMBER  32"; "  12  COMMA";
   "  13  STRING  'ok'"; "  14  COLON"; "  15  TRUE"; "  16  COMMA"; "  17  STRING  'list'"; "  18  COLON"; "  19  LBRACK";
   "  20  NUMBER  1"; "  21  COMMA"; "  22  NUMBER  2"; "  23  COMMA"; "  24  NUMBER  3"; "  25  RBRACK"; "  26  RBRACE";
   "  27  END"; ""; "Total tokens: 28"].
Example json_output :
  (λ x, reverse (rout (snd x))) <$> main globals = Some (concat (map (λ l, l ++ [10]) listing)).
Proof. vm_compute. reflexivity. Qed.

(** ** The lexer on lists *)

Fixpoint drop_ws (t : list Z) : list Z :=
  match t with c :: t' => if is_ws c then drop_ws t' else t | [] => [] end.

(** The value of a string from its [i]th character on, and what follows it; the
    lexer stops at the 126th character. *)
Fixpoint lex_string (i : Z) (t : list Z) : list Z * list Z :=
  match t with
  | [] => ([], [])
  | c :: t' =>
      let one := if 126 <=? i + 1 then ([c], t') else let '(v, r) := lex_string (i + 1) t' in (c :: v, r) in
      if c =? QUOTE then ([], t)
      else if c =? chr "\" then
        match t' with
        | d :: t'' => if 126 <=? i + 2 then ([c; d], t'') else let '(v, r) := lex_string (i + 2) t'' in (c :: d :: v, r)
        | [] => one
        end
      else one
  end.

Definition is_sign (c : Z) : bool := (c =? chr "+") || (c =? chr "-").
Fixpoint lex_number (i : Z) (t : list Z) : list Z * list Z :=
  match t with
  | [] => ([], [])
  | c :: t' =>
      let one := if 126 <=? i + 1 then ([c], t') else let '(v, r) := lex_number (i + 1) t' in (c :: v, r) in
      if is_digit c || (c =? chr ".") then one
      else if (c =? chr "e") || (c =? chr "E") then
        match t' with
        | d :: t'' =>
            if is_sign d then
              if 126 <=? i + 2 then ([c; d], t'') else let '(v, r) := lex_number (i + 2) t'' in (c :: d :: v, r)
            else one
        | [] => one
        end
      else ([], t)
  end.

Definition strip (w t : list Z) : option (list Z) :=
  if bool_decide (take (length w) t = w) then Some (drop (length w) t) else None.
Definition lex_word (t : list Z) : Z * list Z * list Z :=
  match strip (lit "true") t, strip (lit "false") t, strip (lit "null") t with
  | Some r, _, _ => (9, lit "true", r)
  | _, Some r, _ => (10, lit "false", r)
  | _, _, Some r => (11, lit "null", r)
  | _, _, _ => (255, take 1 t, tail t)
  end.
Definition punctuation_type (c : Z) : option Z :=
  if c =? chr "{" then Some 1 else if c =? chr "}" then Some 2 else if c =? chr "[" then Some 3 else
  if c =? chr "]" then Some 4 else if c =? chr ":" then Some 5 else if c =? chr "," then Some 6 else None.

(** The next token: its type, its value and the text after it. *)
Definition lex (t : list Z) : Z * list Z * list Z :=
  match drop_ws t with
  | [] => (0, [], [])
  | c :: t' =>
      match punctuation_type c with
      | Some ty => (ty, [c], t')
      | None =>
          if c =? QUOTE then let '(v, r) := lex_string 0 t' in (7, v, tail r)
          else if c =? chr "-" then let '(v, r) := lex_number 1 t' in (8, c :: v, r)
          else if is_digit c then let '(v, r) := lex_number 0 (c :: t') in (8, v, r)
          else lex_word (c :: t')
      end
  end.

(** ** The token being read *)

(** The array [v] starts with the characters [acc]. *)
Definition holds (v acc : list Z) : Prop := length v = 128%nat ∧ take (length acc) v = acc.

Lemma store_holds v acc c k : holds v acc → k = Z.of_nat (length acc) → k < 128 →
  ∃ v', put_at v k c = Some v' ∧ holds v' (acc ++ [u8 c]).
Proof.
  intros [Hl Ht] Hk Hk2. destruct (put_at_next v acc c k Ht Hk ltac:(lia)) as (v' & E & Hl' & Ht'). exists v'. split; [done|].
  split; [congruence|]. by rewrite length_app, Nat.add_1_r.
Qed.

Lemma i8_digit c : is_u8 c → is_digit (i8 c) = is_digit c.
Proof. intros Hc. apply eq_bool_prop_intro. rewrite !Is_true_true. unfold is_digit. rewrite !andb_true_iff, !Z.leb_le. word_lia. Qed.
Lemma i8_ws c : is_u8 c → is_ws (i8 c) = is_ws c.
Proof. intros Hc. unfold is_ws. by rewrite !i8_eqb. Qed.

(** [tok_vlen] is set for strings and numbers only. *)
Definition vlen_of (ty : Z) (V : list Z) : Z := if (ty =? 7) || (ty =? 8) then Z.of_nat (length V) else 0.

Lemma lex_word_type t ty V R : lex_word t = (ty, V, R) → vlen_of ty V = 0.
Proof. unfold lex_word. intros HX. repeat case_match; by simplify_eq. Qed.

Section Buffer.
#[local] Set Default Proof Using "All".
Context (buf : list Z) (len : Z) (nm : list (list Z)) (sc : digits) (cnt : Z) (o : list Z).
Context (Hbuf : Forall is_u8 buf) (Hlen : 0 ≤ len ≤ Z.of_nat (length buf)) (Hsmall : len < 2147483000).

Abbreviation st p ty v vl := (J buf len p ty v vl nm sc cnt o).
(** The text that is left at a position. *)
Definition rest (p : Z) : list Z := drop (Z.to_nat p) (take (Z.to_nat len) buf).

Lemma rest_length p : 0 ≤ p ≤ len → Z.of_nat (length (rest p)) = len - p.
Proof. intros Hp. unfold rest. rewrite length_drop, length_take. lia. Qed.

Lemma rest_nil p : 0 ≤ p ≤ len → rest p = [] → p = len.
Proof. intros Hp E. pose proof (rest_length p Hp) as Hl. rewrite E in Hl. simpl in Hl. lia. Qed.

Lemma rest_cons p c t : 0 ≤ p ≤ len → rest p = c :: t →
  p < len ∧ is_u8 c ∧ char_at buf p = Some (i8 c) ∧ rest (p + 1) = t.
Proof.
  intros Hp E. pose proof (rest_length p Hp) as Hl. rewrite E in Hl. simpl in Hl.
  assert (buf !! Z.to_nat p = Some c) as Hc.
  { assert (rest p !! O = Some c) as H0 by by rewrite E. unfold rest in H0. rewrite lookup_drop, Nat.add_0_r in H0.
    by rewrite lookup_take_lt in H0 by lia. }
  split; [lia|]. split; [by eapply Forall_lookup_1 in Hbuf|]. unfold char_at. zb_false (p <? 0). rewrite Hc. split; [done|].
  unfold rest. replace (Z.to_nat (p + 1)) with (S (Z.to_nat p)) by lia. unfold rest in E.
  rewrite <- Nat.add_1_r, <- drop_drop, E. done.
Qed.

Lemma rest_at p i c : 0 ≤ p ≤ len → rest p !! i = Some c →
  p + Z.of_nat i < len ∧ is_u8 c ∧ char_at buf (p + Z.of_nat i) = Some (i8 c).
Proof.
  intros Hp E. pose proof (lookup_lt_Some _ _ _ E) as Hl. pose proof (rest_length p Hp).
  unfold rest in E. rewrite lookup_drop, lookup_take_lt in E by lia. split; [lia|]. split; [by eapply Forall_lookup_1 in Hbuf|].
  unfold char_at. zb_false (p + Z.of_nat i <? 0). replace (Z.to_nat (p + Z.of_nat i)) with (Z.to_nat p + i)%nat by lia. by rewrite E.
Qed.

Lemma skip_ws_ok p ty v vl : 0 ≤ p ≤ len →
  ∃ p', skip_ws (st p ty v vl) = Some (tt, st p' ty v vl) ∧ p ≤ p' ≤ len ∧ rest p' = drop_ws (rest p).
Proof.
  intros Hp. unfold skip_ws.
  destruct (repeatM_run (λ k (_ : unit) s, ∃ q, p ≤ q ≤ len ∧ s = st q ty v vl ∧ k = length (rest q) ∧ drop_ws (rest q) = drop_ws (rest p))
    (λ _ s, ∃ q, p ≤ q ≤ len ∧ s = st q ty v vl ∧ rest q = drop_ws (rest p)) skip_char) with (k := length (rest p)) (i := tt) (s := st p ty v vl)
    as ([] & s' & E & q & Hq & -> & Hr).
  - intros k [] s (q & Hq & -> & -> & Hd). unfold skip_char, bindM, reads. cbn [mbind option_bind fst snd pos json_len].
    destruct (rest q) as [|c t] eqn:Er.
    + apply rest_nil in Er as Hn; [|lia]. subst q. rewrite Z.ltb_irrefl. do 2 eexists. split; [reflexivity|]. exists len. by rewrite Er.
    + destruct (rest_cons q c t ltac:(lia) Er) as (Hql & Hc & Hat & Hrt). zb_true (q <? len).
      unfold json_at. cbn [json_buf]. rewrite Hat. cbn [mbind option_bind fst snd]. rewrite i8_ws by done. simpl in Hd. destruct (is_ws c).
      * do 2 eexists. split; [reflexivity|]. cbv iota. exists (length t). split; [simpl; lia|]. exists (q + 1).
        unfold set_pos. simpl. rewrite i32_small by word_lia. rewrite Hrt. split; [lia|]. done.
      * do 2 eexists. split; [reflexivity|]. exists q. by rewrite Er.
  - exists p. split; [lia|]. done.
  - pose proof (rest_length p Hp). unfold LOOP_BOUND. lia.
  - exists q. by rewrite E.
Qed.
Lemma match_char_ok w p ty v vl i : 0 ≤ p ≤ len → Forall is_u8 w → (i < length w)%nat → len + Z.of_nat (length w) < 2147483648 →
  take i (rest p) = take i w →
  ∃ r, match_char (w ++ [0]) (Z.of_nat (length w)) (Z.of_nat i, false) (st p ty v vl) = Some (r, st p ty v vl) ∧
    if bool_decide (take (S i) (rest p) = take (S i) w) then r = inl (Z.of_nat (S i), false)
    else r = inr (Z.of_nat i, false).
Proof.
  intros Hp Hw Hi Hs Ht. destruct (lookup_lt_is_Some_2 w i Hi) as [d Hd]. pose proof (rest_length p Hp) as Hl.
  unfold match_char, bindM, reads, liftO. cbn [fst mbind option_bind snd pos json_len]. zb_true (Z.of_nat i <? Z.of_nat (length w)).
  cbn [fst mbind option_bind snd pos json_len]. rewrite (i32_small (p + _)) by word_lia.
  rewrite (take_S_r w i d Hd). destruct (rest p !! i) as [c|] eqn:Hc.
  - destruct (rest_at p i c Hp Hc) as (Hpi & Hu & Hat). zb_false (len <=? p + Z.of_nat i). unfold json_at. cbn [json_buf]. rewrite Hat.
    cbn [mbind option_bind fst snd].
    assert (char_at (w ++ [0]) (Z.of_nat i) = Some (i8 d)) as ->
      by (unfold char_at; zb_false (Z.of_nat i <? 0); rewrite Nat2Z.id, lookup_app_l by done; by rewrite Hd).
    cbn [mbind option_bind fst snd]. rewrite (take_S_r _ _ _ Hc), Ht. pose proof (proj1 (Forall_lookup _ _) Hw i d Hd) as Hud.
    destruct (Z.eqb_spec (i8 c) (i8 d)) as [E|E]; cbn [negb].
    + apply i8_inj in E; [subst c|done..]. rewrite bool_decide_true by done. eexists. split; [reflexivity|]. rewrite i32_small by word_lia.
      by replace (Z.of_nat i + 1) with (Z.of_nat (S i)) by lia.
    + rewrite bool_decide_false by (intros ?; simplify_list_eq). by eexists.
  - apply lookup_ge_None in Hc. zb_true (len <=? p + Z.of_nat i). rewrite bool_decide_false; [by eexists|].
    intros E%(f_equal length). rewrite length_app, !length_take in E. change (length [d]) with 1%nat in E. lia.
Qed.

Lemma match_lit_ok w p ty v vl : 0 ≤ p ≤ len → Forall is_u8 w → Z.of_nat (length w) < 600 →
  match strip w (rest p) with
  | Some r => match_lit (w ++ [0]) (Z.of_nat (length w)) (st p ty v vl) = Some (true, st (p + Z.of_nat (length w)) ty v vl) ∧
      p + Z.of_nat (length w) ≤ len ∧ rest (p + Z.of_nat (length w)) = r
  | None => match_lit (w ++ [0]) (Z.of_nat (length w)) (st p ty v vl) = Some (false, st p ty v vl)
  end.
Proof.
  intros Hp Hw Hs. pose proof (rest_length p Hp) as Hl.
  destruct (repeatM_run (λ k x s, ∃ i, (i ≤ length w)%nat ∧ x = (Z.of_nat i, false) ∧ k = (length w - i)%nat ∧ s = st p ty v vl ∧
      take i (rest p) = take i w)
    (λ x s, s = st p ty v vl ∧ snd x = bool_decide (take (length w) (rest p) = w)) (match_char (w ++ [0]) (Z.of_nat (length w))))
    with (k := length w) (i := (0, false)) (s := st p ty v vl) as ([i' b] & s' & E & -> & Hb).
  - intros k x s (i & Hi & -> & -> & -> & Ht). destruct (decide (i = length w)) as [->|].
    + unfold match_char. cbn [fst]. rewrite Z.ltb_irrefl. do 2 eexists. split; [reflexivity|]. split; [done|]. cbn [snd].
      rewrite Ht, firstn_all. by rewrite bool_decide_true.
    + destruct (match_char_ok w p ty v vl i Hp Hw) as (r & Er & Hr); [lia|lia|done|]. do 2 eexists. split; [exact Er|].
      case_bool_decide as Hd; subst r.
      * exists (length w - S i)%nat. split; [lia|]. exists (S i). split_and!; [lia|done..].
      * split; [done|]. cbn [snd]. rewrite bool_decide_false; [done|]. intros E. apply Hd. rewrite <- E, take_take. f_equal. lia.
  - exists 0%nat. split_and!; [lia|done|lia|done..].
  - unfold LOOP_BOUND. lia.
  - unfold match_lit. rewrite (bind_some _ _ _ _ _ E). cbn [snd] in *. subst b. unfold strip. case_bool_decide as Hd; [|done].
    apply (f_equal length) in Hd as Hlt. rewrite length_take in Hlt.
    unfold bindM, advance, does, set_pos. cbn. rewrite i32_small by word_lia. split; [done|]. split; [lia|].
    unfold rest. rewrite drop_drop. f_equal. lia.
Qed.
(** A token being read: the characters so far are at the start of [tok_val], and
    the rest of it is [f] of the text that is left. *)
Definition reading (f : Z → list Z → list Z * list Z) (ty : Z) (V R : list Z) (k : nat) (i : Z) (s : js) : Prop :=
  ∃ p v acc X, 0 ≤ p ≤ len ∧ s = st p ty v 0 ∧ holds v acc ∧ i = Z.of_nat (length acc) ∧ i ≤ 125 ∧ k = length (rest p) ∧
    V = acc ++ X ∧ f i (rest p) = (X, R).
Definition finished (ty : Z) (V R : list Z) (i : Z) (s : js) : Prop :=
  ∃ p v, 0 ≤ p ≤ len ∧ s = st p ty v 0 ∧ holds v V ∧ i = Z.of_nat (length V) ∧ i ≤ 127 ∧ rest p = R.
Definition progress (f : Z → list Z → list Z * list Z) (ty : Z) (V R : list Z) (k : nat) (c : M js (Z + Z)) (s : js) : Prop :=
  ∃ r s', c s = Some (r, s') ∧
    match r with
    | inl i' => ∃ k', (k' < k)%nat ∧ reading f ty V R k' i' s'
    | inr i' => finished ty V R i' s'
    end.

(** Characters [x] have been stored: go on, or stop at 126. *)
Lemma reading_next f ty V R (k : nat) p v acc x n X :
  0 ≤ p ≤ len → holds v (acc ++ x) → n = Z.of_nat (length (acc ++ x)) → n ≤ 127 → (length (rest p) < k)%nat →
  V = acc ++ X → (if 126 <=? n then (x, rest p) else let '(Y, r) := f n (rest p) in (x ++ Y, r)) = (X, R) →
  progress f ty V R k (limit n) (st p ty v 0).
Proof.
  intros Hp Hv -> Hl Hk -> HX. do 2 eexists. split; [reflexivity|]. destruct (Z.leb_spec 126 (Z.of_nat (length (acc ++ x)))).
  - simplify_eq. by exists p, v.
  - destruct (f _ _) as [Y r] eqn:Ef. simplify_eq. exists (length (rest p)). split; [done|].
    exists p, v, (acc ++ x), Y. rewrite app_assoc. split_and!; lia || done.
Qed.

Lemma put_val_ok p ty v vl acc c k : holds v acc → k = Z.of_nat (length acc) → k < 128 →
  ∃ v', put_val k c (st p ty v vl) = Some (tt, st p ty v' vl) ∧ holds v' (acc ++ [u8 c]).
Proof.
  intros Hv Hk Hk2. destruct (store_holds v acc c k Hv Hk Hk2) as (v' & E & Hv'). exists v'. split; [|done].
  unfold put_val. cbn [tok_val]. by rewrite E.
Qed.

Lemma advance_ok p ty v vl n : 0 ≤ p + n ≤ len → advance n (st p ty v vl) = Some (tt, st (p + n) ty v vl).
Proof. intros Hp. unfold advance, does, set_pos. cbn. by rewrite i32_small by word_lia. Qed.

Lemma json_at_ok p ty v vl c : char_at buf p = Some c → json_at p (st p ty v vl) = Some (c, st p ty v vl).
Proof. intros E. unfold json_at. cbn [json_buf]. by rewrite E. Qed.

Lemma finished_here f ty V R k i p v acc : 0 ≤ p ≤ len → holds v acc → i = Z.of_nat (length acc) → i ≤ 127 →
  V = acc ++ [] → rest p = R → progress f ty V R k (ret (inr i)) (st p ty v 0).
Proof. intros Hp Hv -> Hi ->. rewrite app_nil_r. do 2 eexists. split; [reflexivity|]. by exists p, v. Qed.

Lemma plain_char_ok V R i p v acc X c t : 0 ≤ p ≤ len → holds v acc → i = Z.of_nat (length acc) → i ≤ 125 →
  rest p = c :: t → V = acc ++ X →
  (if 126 <=? i + 1 then ([c], t) else let '(v, r) := lex_string (i + 1) t in (c :: v, r)) = (X, R) →
  progress lex_string 7 V R (S (length t)) (i <- (put_val i (i8 c);;; ret (i32 (i + 1)));; advance 1;;; limit i) (st p 7 v 0).
Proof.
  intros Hp Hv Hi Hi2 Er HV HX. destruct (rest_cons p c t Hp Er) as (Hpl & Hc & Hat & Hrt).
  destruct (put_val_ok p 7 v 0 acc (i8 c) i Hv Hi ltac:(lia)) as (v' & E & Hv').
  rewrite u8_i8, u8_small in Hv' by done. unfold progress. rewrite (i32_small (i + 1)) by word_lia.
  rewrite (bind_some _ _ _ (i + 1) (st p 7 v' 0)) by (by rewrite (bind_some _ _ _ _ _ E)).
  rewrite (bind_some _ _ _ _ _ (advance_ok p 7 v' 0 1 ltac:(lia))). rewrite <- Hrt in HX.
  eapply (reading_next lex_string); [lia|done|rewrite length_app; simpl; lia|lia|rewrite Hrt; simpl; lia|done|exact HX].
Qed.

Lemma escape_ok V R i p v acc X d t : 0 ≤ p ≤ len → holds v acc → i = Z.of_nat (length acc) → i ≤ 125 →
  rest p = chr "\" :: d :: t → V = acc ++ X →
  (if 126 <=? i + 2 then ([chr "\"; d], t) else let '(v, r) := lex_string (i + 2) t in (chr "\" :: d :: v, r)) = (X, R) →
  progress lex_string 7 V R (S (S (length t))) (i <- string_store i (chr "\") p len;; advance 1;;; limit i) (st p 7 v 0).
Proof.
  intros Hp Hv Hi Hi2 Er HV HX. destruct (rest_cons p _ _ Hp Er) as (Hpl & _ & Hat & Hr1).
  destruct (rest_cons (p + 1) _ _ ltac:(lia) Hr1) as (Hpl1 & Hd & Hat1 & Hr2).
  destruct (put_val_ok p 7 v 0 acc (chr "\") i Hv Hi ltac:(lia)) as (v1 & E1 & Hv1).
  destruct (put_val_ok (p + 1) 7 v1 0 _ (i8 d) (i + 1) Hv1) as (v2 & E2 & Hv2); [rewrite length_app; simpl; lia|lia|].
  rewrite u8_i8, (u8_small d) in Hv2 by done. rewrite <- app_assoc in Hv2.
  unfold string_store. rewrite Z.eqb_refl, (i32_small (p + 1)) by word_lia. zb_true (p + 1 <? len). cbn [andb].
  rewrite (i32_small (i + 1)) by word_lia. rewrite (i32_small (i + 1 + 1)) by word_lia. unfold progress.
  rewrite (bind_some _ _ _ (i + 1 + 1) (st (p + 1) 7 v2 0)).
  2:{ rewrite (bind_some _ _ _ _ _ E1), (bind_some _ _ _ _ _ (advance_ok p 7 v1 0 1 ltac:(lia))).
      rewrite (bind_some _ _ _ (p + 1) (st (p + 1) 7 v1 0)) by done.
      by rewrite (bind_some _ _ _ _ _ (json_at_ok _ _ _ _ _ Hat1)), (bind_some _ _ _ _ _ E2). }
  rewrite (bind_some _ _ _ _ _ (advance_ok (p + 1) 7 v2 0 1 ltac:(lia))). rewrite <- Hr2 in HX.
  replace (i + 1 + 1) with (i + 2) by lia.
  eapply (reading_next lex_string); [lia|done|rewrite length_app; simpl; lia|lia|rewrite Hr2; simpl; lia|done|exact HX].
Qed.

Lemma string_char_ok V R k i s : reading lex_string 7 V R k i s → progress lex_string 7 V R k (string_char i) s.
Proof.
  intros (p & v & acc & X & Hp & -> & Hv & Hi & Hi2 & -> & HV & HX). pose proof (rest_length p Hp) as Hl.
  unfold progress, string_char. do 2 (rewrite (bind_some (reads _) _ _ _ _ eq_refl)). cbn [pos json_len].
  destruct (rest p) as [|c t] eqn:Er.
  { cbn in HX. simplify_eq. apply rest_nil in Er as Hn; [|done]. zb_false (p <? len). by eapply (finished_here lex_string); [..|done|]; lia || done. }
  destruct (rest_cons p c t Hp Er) as (Hpl & Hc & Hat & Hrt). zb_true (p <? len). cbn [negb].
  rewrite (bind_some _ _ _ _ _ (json_at_ok _ _ _ _ _ Hat)), !i8_eqb by done. cbn [lex_string] in HX.
  destruct (Z.eqb_spec c QUOTE) as [->|Hq].
  { simplify_eq. by eapply (finished_here lex_string); [..|done|]; lia || done. }
  destruct (Z.eqb_spec c (chr "\")) as [->|Hbs]; [destruct t as [|d t]|].
  - unfold string_store. apply rest_nil in Hrt; [|lia]. rewrite (i32_small (p + 1)) by word_lia. zb_false (p + 1 <? len).
    rewrite andb_false_r. by eapply plain_char_ok.
  - by eapply escape_ok.
  - unfold string_store. rewrite i8_eqb by done. zb_false (c =? chr "\"). by eapply plain_char_ok.
Qed.
Lemma take_char_ok p ty v vl acc i c t : 0 ≤ p ≤ len → holds v acc → i = Z.of_nat (length acc) → i ≤ 126 → rest p = c :: t →
  ∃ v', take_char i (i8 c) (st p ty v vl) = Some (i + 1, st (p + 1) ty v' vl) ∧ holds v' (acc ++ [c]) ∧ p + 1 ≤ len ∧ rest (p + 1) = t.
Proof.
  intros Hp Hv Hi Hi2 Er. destruct (rest_cons p c t Hp Er) as (Hpl & Hc & Hat & Hrt).
  destruct (put_val_ok p ty v vl acc (i8 c) i Hv Hi ltac:(lia)) as (v' & E & Hv'). rewrite u8_i8, u8_small in Hv' by done.
  exists v'. split; [|split; [done|split; [lia|done]]]. unfold take_char.
  rewrite (bind_some _ _ _ _ _ E), (bind_some _ _ _ _ _ (advance_ok p ty v' vl 1 ltac:(lia))). by rewrite (i32_small (i + 1)) by word_lia.
Qed.

(** A character of a number that is not followed by a sign. *)
Lemma one_char_ok V R p v acc i c t X : 0 ≤ p ≤ len → holds v acc → i = Z.of_nat (length acc) → i ≤ 125 → rest p = c :: t →
  V = acc ++ X →
  (if 126 <=? i + 1 then ([c], t) else let '(v, r) := lex_number (i + 1) t in (c :: v, r)) = (X, R) →
  progress lex_number 8 V R (S (length t)) (i <- take_char i (i8 c);; limit i) (st p 8 v 0).
Proof.
  intros Hp Hv Hi Hi2 Er HV HX. destruct (take_char_ok p 8 v 0 acc i c t Hp Hv Hi ltac:(lia) Er) as (v' & E & Hv' & Hpl & Hrt).
  unfold progress. rewrite (bind_some _ _ _ _ _ E). rewrite <- Hrt in HX.
  eapply (reading_next lex_number); [lia|done|rewrite length_app; simpl; lia|lia|rewrite Hrt; simpl; lia|done|exact HX].
Qed.

Lemma exponent_ok V R p v acc i c t X : 0 ≤ p ≤ len → holds v acc → i = Z.of_nat (length acc) → i ≤ 125 → rest p = c :: t →
  V = acc ++ X →
  (let one := if 126 <=? i + 1 then ([c], t) else let '(v, r) := lex_number (i + 1) t in (c :: v, r) in
   match t with
   | d :: t'' => if is_sign d then
       if 126 <=? i + 2 then ([c; d], t'') else let '(v, r) := lex_number (i + 2) t'' in (c :: d :: v, r) else one
   | [] => one end) = (X, R) →
  progress lex_number 8 V R (S (length t)) (exponent i (i8 c) len) (st p 8 v 0).
Proof.
  intros Hp Hv Hi Hi2 Er HV HX. destruct (take_char_ok p 8 v 0 acc i c t Hp Hv Hi ltac:(lia) Er) as (v' & E & Hv' & Hpl & Hrt).
  assert (progress lex_number 8 V R (S (length t)) (i <- take_char i (i8 c);; limit i) (st p 8 v 0) →
    progress lex_number 8 V R (S (length t)) (limit (i + 1)) (st (p + 1) 8 v' 0)) as Hone
    by (unfold progress; by rewrite (bind_some _ _ _ _ _ E)).
  unfold progress, exponent. rewrite (bind_some _ _ _ _ _ E), (bind_some (reads _) _ _ _ _ eq_refl). cbn [pos]. cbv zeta in HX.
  destruct t as [|d t].
  - apply rest_nil in Hrt; [|lia]. zb_false (p + 1 <? len). apply Hone. by eapply one_char_ok.
  - destruct (rest_cons (p + 1) d t ltac:(lia) Hrt) as (Hpl1 & Hd & Hat1 & Hrt1). zb_true (p + 1 <? len).
    rewrite (bind_some _ _ _ _ _ (json_at_ok _ _ _ _ _ Hat1)), !i8_eqb by done. fold (is_sign d).
    destruct (is_sign d); [|apply Hone; by eapply one_char_ok].
    destruct (take_char_ok (p + 1) 8 v' 0 (acc ++ [c]) (i + 1) d t ltac:(lia) Hv') as (v2 & E2 & Hv2 & Hpl2 & Hrt2);
      [rewrite length_app; simpl; lia|lia|done|].
    rewrite (bind_some _ _ _ _ _ E2). rewrite <- app_assoc in Hv2. rewrite <- Hrt2 in HX. replace (i + 1 + 1) with (i + 2) in * by lia.
    eapply (reading_next lex_number); [lia|done|rewrite length_app; simpl; lia|lia|rewrite Hrt2; simpl; lia|done|exact HX].
Qed.

Lemma number_char_ok V R k i s : reading lex_number 8 V R k i s → progress lex_number 8 V R k (number_char i) s.
Proof.
  intros (p & v & acc & X & Hp & -> & Hv & Hi & Hi2 & -> & HV & HX). pose proof (rest_length p Hp) as Hl.
  unfold progress, number_char. do 2 (rewrite (bind_some (reads _) _ _ _ _ eq_refl)). cbn [pos json_len].
  destruct (rest p) as [|c t] eqn:Er.
  { cbn in HX. simplify_eq. apply rest_nil in Er as Hn; [|done]. zb_false (p <? len). by eapply (finished_here lex_number); [..|done|]; lia || done. }
  destruct (rest_cons p c t Hp Er) as (Hpl & Hc & Hat & Hrt). zb_true (p <? len). cbn [negb].
  rewrite (bind_some _ _ _ _ _ (json_at_ok _ _ _ _ _ Hat)), i8_digit, !i8_eqb by done. cbn [lex_number] in HX. cbv zeta in HX.
  destruct (is_digit c); cbn [orb] in HX; [by eapply one_char_ok|].
  destruct (c =? chr "."); [by eapply one_char_ok|].
  destruct ((c =? chr "e") || (c =? chr "E")); [by eapply exponent_ok|].
  simplify_eq. by eapply (finished_here lex_number); [..|done|]; lia || done.
Qed.
Lemma string_token_ok p ty v t V R : 0 ≤ p ≤ len → length v = 128%nat → rest p = QUOTE :: t → lex_string 0 t = (V, R) →
  ∃ p' v', string_token (st p ty v 0) = Some (tt, st p' 7 v' (Z.of_nat (length V))) ∧
    0 ≤ p' ≤ len ∧ rest p' = tail R ∧ holds v' (V ++ [0]).
Proof.
  intros Hp Hv Er HX. destruct (rest_cons p _ t Hp Er) as (Hpl & _ & _ & Hrt). unfold string_token.
  rewrite (bind_some (does _) _ _ tt (st p 7 v 0)) by done. rewrite (bind_some _ _ _ _ _ (advance_ok p 7 v 0 1 ltac:(lia))).
  destruct (repeatM_run (reading lex_string 7 V R) (finished 7 V R) string_char (string_char_ok V R) (length t) 0 (st (p + 1) 7 v 0))
    as (i & s & E & p' & v' & Hp' & -> & Hv' & -> & Hi & Hr).
  - exists (p + 1), v, [], V. rewrite Hrt. split_and!; lia || done.
  - pose proof (rest_length p Hp) as Hl. rewrite Er in Hl. simpl in Hl. unfold LOOP_BOUND. lia.
  - rewrite (bind_some _ _ _ _ _ E). do 2 (rewrite (bind_some (reads _) _ _ _ _ eq_refl)). cbn [pos json_len].
    assert (∃ q, (if p' <? len then advance 1 else ret tt) (st p' 7 v' 0) = Some (tt, st q 7 v' 0) ∧ 0 ≤ q ≤ len ∧ rest q = tail R) as (q & Eq & Hq & Hrq).
    { destruct R as [|c R].
      - apply rest_nil in Hr as ->; [|done]. rewrite Z.ltb_irrefl. exists len. split; [done|]. split; [lia|].
        unfold rest. rewrite drop_ge; [done|]. rewrite length_take. lia.
      - destruct (rest_cons _ _ _ Hp' Hr) as (Hpl' & _ & _ & Hrt'). zb_true (p' <? len). exists (p' + 1).
        rewrite advance_ok by lia. split; [done|]. split; [lia|done]. }
    rewrite (bind_some _ _ _ _ _ Eq). destruct (put_val_ok q 7 v' 0 V 0 _ Hv' eq_refl ltac:(lia)) as (v2 & E2 & Hv2).
    rewrite (bind_some _ _ _ _ _ E2). by exists q, v2.
Qed.

Lemma number_token_ok p ty v c t V R : 0 ≤ p ≤ len → length v = 128%nat → rest p = c :: t →
  (if c =? chr "-" then let '(v, r) := lex_number 1 t in (c :: v, r) else lex_number 0 (c :: t)) = (V, R) →
  ∃ p' v', number_token (i8 c) (st p ty v 0) = Some (tt, st p' 8 v' (Z.of_nat (length V))) ∧
    0 ≤ p' ≤ len ∧ rest p' = R ∧ holds v' (V ++ [0]).
Proof.
  intros Hp Hv Er HX. destruct (rest_cons p _ t Hp Er) as (Hpl & Hc & _ & Hrt). unfold number_token.
  rewrite (bind_some (does _) _ _ tt (st p 8 v 0)) by done. rewrite i8_eqb by done.
  assert (∃ i q v1, (if c =? chr "-" then take_char 0 (i8 c) else ret 0) (st p 8 v 0) = Some (i, st q 8 v1 0) ∧
    reading lex_number 8 V R (length (rest q)) i (st q 8 v1 0) ∧ 0 ≤ q ≤ len) as (i & q & v1 & E & Hrd & Hq).
  { destruct (c =? chr "-").
    - destruct (take_char_ok p 8 v 0 [] 0 c t Hp) as (v1 & E & Hv1 & Hpl1 & Hrt1); [done..|].
      do 3 eexists. split; [exact E|]. split; [|lia]. destruct (lex_number 1 t) as [Y r] eqn:EY. injection HX as <- <-.
      exists (p + 1), v1, [c], Y. rewrite Hrt1. split_and!; lia || done.
    - do 3 eexists. split; [reflexivity|]. split; [|lia]. exists p, v, [], V. rewrite Er. split_and!; lia || done. }
  rewrite (bind_some _ _ _ _ _ E). pose proof (rest_length q Hq) as Hlq.
  destruct (repeatM_run (reading lex_number 8 V R) (finished 8 V R) number_char (number_char_ok V R) _ _ _ Hrd)
    as (j & s & E1 & p' & v' & Hp' & -> & Hv' & -> & Hi & Hr); [unfold LOOP_BOUND; lia|].
  rewrite (bind_some _ _ _ _ _ E1). destruct (put_val_ok p' 8 v' 0 V 0 _ Hv' eq_refl ltac:(lia)) as (v2 & E2 & Hv2).
  rewrite (bind_some _ _ _ _ _ E2). by exists p', v2.
Qed.

Lemma put_vals_ok p ty v vl t acc k : holds v acc → k = Z.of_nat (length acc) → k + Z.of_nat (length t) ≤ 128 →
  ∃ v', put_vals k t (st p ty v vl) = Some (tt, st p ty v' vl) ∧ holds v' (acc ++ map u8 t).
Proof.
  revert v acc k. induction t as [|c t IH]; intros v acc k Hv Hk Hl; [exists v; by rewrite app_nil_r|].
  cbn [length] in Hl. destruct (put_val_ok p ty v vl acc c k Hv Hk ltac:(lia)) as (v1 & E & Hv1).
  destruct (IH v1 (acc ++ [u8 c]) (k + 1) Hv1) as (v2 & E2 & Hv2); [rewrite length_app; simpl; lia|lia|].
  exists v2. cbn [put_vals]. rewrite (bind_some _ _ _ _ _ E). rewrite <- app_assoc in Hv2. done.
Qed.

Lemma char_val_ok p ty v c : length v = 128%nat → is_u8 c →
  ∃ v', put_vals 0 [i8 c; 0] (st p ty v 0) = Some (tt, st p ty v' 0) ∧ holds v' ([c] ++ [0]).
Proof.
  intros Hv Hc. destruct (put_vals_ok p ty v 0 [i8 c; 0] [] 0) as (v' & E & Hv'); [done..|]. exists v'. split; [done|].
  cbn [map app] in Hv'. by rewrite u8_i8, u8_small in Hv'.
Qed.

Lemma literal_token_ok ty w p ty0 v r : Forall is_u8 w → Z.of_nat (length w) ≤ 127 → length v = 128%nat → 0 ≤ p ≤ len ∧ rest p = r →
  ∃ p' v', literal_token ty w (st p ty0 v 0) = Some (tt, st p' ty v' 0) ∧ 0 ≤ p' ≤ len ∧ rest p' = r ∧ holds v' (w ++ [0]).
Proof.
  intros Hw Hl Hv [Hp Hr]. unfold literal_token. rewrite (bind_some (does _) _ _ tt (st p ty v 0)) by done.
  destruct (put_vals_ok p ty v 0 (w ++ [0]) [] 0) as (v' & E & Hv'); [done|done|rewrite length_app; simpl; lia|].
  exists p, v'. cbn [app] in Hv'. by rewrite map_app, map_u8 in Hv'.
Qed.

(** [if (c == 't') { if (match_lit("true", 4)) ...] *)
Lemma word_branch x w p ty v c t : 0 ≤ p ≤ len → rest p = c :: t → Forall is_u8 (x :: w) → 0 ≤ x < 128 → Z.of_nat (length (x :: w)) < 600 →
  ∃ q, (if i8 c =? x then match_lit ((x :: w) ++ [0]) (Z.of_nat (length (x :: w))) else ret false) (st p ty v 0) =
    Some (match strip (x :: w) (rest p) with Some _ => true | None => false end, st q ty v 0) ∧
    match strip (x :: w) (rest p) with Some r => 0 ≤ q ≤ len ∧ rest q = r | None => q = p end.
Proof.
  intros Hp Er Hw Hx Hl. destruct (rest_cons p c t Hp Er) as (Hpl & Hc & _ & _). rewrite i8_eqb by done.
  pose proof (match_lit_ok (x :: w) p ty v 0 Hp Hw Hl) as Hm. destruct (Z.eqb_spec c x) as [->|Hne].
  - destruct (strip _ _) as [r|] eqn:Es; [destruct Hm as (Hm & Hq & Hr)|]; rewrite Hm; eexists; (split; [done|]); [split; [lia|done]|done].
  - assert (strip (x :: w) (rest p) = None) as ->.
    { unfold strip. rewrite Er. rewrite bool_decide_false; [done|]. cbn. congruence. }
    by exists p.
Qed.

Lemma word_token_ok p ty v c t V R ty' : 0 ≤ p ≤ len → length v = 128%nat → rest p = c :: t → lex_word (c :: t) = (ty', V, R) →
  ∃ p' v', word_token (i8 c) (st p ty v 0) = Some (tt, st p' ty' v' 0) ∧ 0 ≤ p' ≤ len ∧ rest p' = R ∧ holds v' (V ++ [0]).
Proof.
  intros Hp Hv Er HX. destruct (rest_cons p c t Hp Er) as (Hpl & Hc & _ & Hrt). unfold word_token, lex_word in *. rewrite <- Er in HX.
  destruct (word_branch (chr "t") (lit "rue") p ty v c t Hp Er (lit_u8 "true") ltac:(done) ltac:(done)) as (q1 & E1 & H1).
  rewrite (bind_some _ _ _ _ _ E1). change (chr "t" :: lit "rue") with (lit "true") in *.
  destruct (strip (lit "true") (rest p)) as [r|].
  { injection HX as <- <- <-. by apply literal_token_ok; [apply lit_u8|..]. }
  subst q1. destruct (word_branch (chr "f") (lit "alse") p ty v c t Hp Er (lit_u8 "false") ltac:(done) ltac:(done)) as (q1 & E2 & H1).
  rewrite (bind_some _ _ _ _ _ E2). change (chr "f" :: lit "alse") with (lit "false") in *.
  destruct (strip (lit "false") (rest p)) as [r|].
  { injection HX as <- <- <-. by apply literal_token_ok; [apply lit_u8|..]. }
  subst q1. destruct (word_branch (chr "n") (lit "ull") p ty v c t Hp Er (lit_u8 "null") ltac:(done) ltac:(done)) as (q1 & E3 & H1).
  rewrite (bind_some _ _ _ _ _ E3). change (chr "n" :: lit "ull") with (lit "null") in *.
  destruct (strip (lit "null") (rest p)) as [r|].
  { injection HX as <- <- <-. by apply literal_token_ok; [apply lit_u8|..]. }
  subst q1. rewrite Er in HX. injection HX as <- <- <-. unfold unknown_token.
  rewrite (bind_some (does _) _ _ tt (st p 255 v 0)) by done. destruct (char_val_ok p 255 v c Hv Hc) as (v' & E & Hv').
  rewrite (bind_some _ _ _ _ _ E). rewrite advance_ok by lia. exists (p + 1), v'. split; [done|]. split; [lia|]. done.
Qed.

Lemma punctuation_ok p ty0 v c t ty : 0 ≤ p ≤ len → length v = 128%nat → rest p = c :: t →
  ∃ p' v', punctuation ty (i8 c) (st p ty0 v 0) = Some (tt, st p' ty v' 0) ∧ 0 ≤ p' ≤ len ∧ rest p' = t ∧ holds v' ([c] ++ [0]).
Proof.
  intros Hp Hv Er. destruct (rest_cons p c t Hp Er) as (Hpl & Hc & _ & Hrt). unfold punctuation.
  rewrite (bind_some (does _) _ _ tt (st p ty v 0)) by done. rewrite (bind_some _ _ _ _ _ (advance_ok p ty v 0 1 ltac:(lia))).
  destruct (char_val_ok (p + 1) ty v c Hv Hc) as (v' & E & Hv'). rewrite E. exists (p + 1), v'. split; [done|]. split; [lia|]. done.
Qed.

Lemma next_token_ok p ty v vl V R ty' : 0 ≤ p ≤ len → length v = 128%nat → lex (rest p) = (ty', V, R) →
  ∃ p' v', next_token (st p ty v vl) = Some (tt, st p' ty' v' (vlen_of ty' V)) ∧
    0 ≤ p' ≤ len ∧ rest p' = R ∧ holds v' (V ++ [0]).
Proof.
  intros Hp Hv HX. unfold next_token. rewrite (bind_some (does _) _ _ tt (st p ty v 0)) by done.
  destruct (put_val_ok p ty v 0 [] 0 0) as (v0 & E0 & Hv0); [done..|]. rewrite (bind_some _ _ _ _ _ E0). clear v Hv E0.
  assert (length v0 = 128%nat) as Hv by apply Hv0.
  destruct (skip_ws_ok p ty v0 0 Hp) as (q & E1 & Hq & Hr). rewrite (bind_some _ _ _ _ _ E1). clear E1.
  do 2 (rewrite (bind_some (reads _) _ _ _ _ eq_refl)). cbn [pos json_len]. unfold lex in HX. rewrite <- Hr in HX.
  destruct (rest q) as [|c t] eqn:Er.
  { injection HX as <- <- <-. apply rest_nil in Er as Hn; [|lia]. zb_true (len <=? q). exists q, v0. split; [done|]. split; [lia|]. done. }
  destruct (rest_cons q c t ltac:(lia) Er) as (Hpl & Hc & Hat & Hrt). zb_false (len <=? q).
  rewrite (bind_some _ _ _ _ _ (json_at_ok _ _ _ _ _ Hat)). unfold QUOTE. rewrite !i8_eqb, i8_digit by done. unfold punctuation_type in HX.
  repeat match type of HX with
  | context [if ?b then Some ?n else _] => destruct b; [injection HX as <- <- <-; by apply punctuation_ok; [lia|..]|]
  end.
  unfold QUOTE in HX. destruct (Z.eqb_spec c 34) as [->|_].
  { destruct (lex_string 0 t) as [W r] eqn:El. injection HX as <- <- <-. by eapply string_token_ok; [lia|..]. }
  destruct ((c =? chr "-") || is_digit c) eqn:En.
  - assert ((if c =? chr "-" then let '(v, r) := lex_number 1 t in (c :: v, r) else lex_number 0 (c :: t)) = (V, R) ∧ ty' = 8) as [Hn ->].
    { destruct (c =? chr "-"); cbn [orb] in En; [|rewrite En in HX]; destruct (lex_number _ _) as [W r]; by simplify_eq. }
    by eapply number_token_ok; [lia|..].
  - apply orb_false_iff in En as [E1 E2]. rewrite E1, E2 in HX. rewrite (lex_word_type _ _ _ _ HX). by eapply word_token_ok; [lia|..].
Qed.
End Buffer.

(** ** The contract of [next_token] *)

Record js_wf (s : js) : Prop := {
  wf_buf : Forall is_u8 (json_buf s);
  wf_size : length (json_buf s) = 512%nat;
  wf_len : 0 ≤ json_len s ≤ 512;
  wf_pos : 0 ≤ pos s ≤ json_len s;
  wf_val : length (tok_val s) = 128%nat;
}.
Definition left_of (s : js) : list Z := rest (json_buf s) (json_len s) (pos s).






Lemma INPUT_u8 : Forall is_u8 INPUT.
Proof.
  unfold INPUT. apply Forall_map. eapply Forall_impl; [apply lit_u8|]. intros c Hc. destruct (c =? chr "'"); [unfold QUOTE, is_u8; lia|done].
Qed.



(** ** Texts of tokens *)














(** ** Whole texts *)

(** The tokens of a text, with the END token; at most [n] of them. *)
Fixpoint tokens (n : nat) (t : list Z) : list (Z * list Z) :=
  match n with
  | O => []
  | S n' => let '(ty, V, R) := lex t in (ty, V) :: (if ty =? 0 then [] else tokens n' R)
  end.





(** ** What is printed *)

Lemma print_str_ok a V s n : take n a = V ++ [0] → Forall is_char V → Z.of_nat (length V) < 1000 →
  print_str a s = Some (tt, set_out (reverse V ++ rout s) s).
Proof.
  intros Ha HV Hl.
  destruct (repeatM_run (λ k i s', ∃ j, (j ≤ length V)%nat ∧ k = (length V - j)%nat ∧ i = Z.of_nat j ∧
      s' = set_out (reverse (take j V) ++ rout s) s) (λ _ s', s' = set_out (reverse V ++ rout s) s) (str_char a))
    with (k := length V) (i := 0) (s := set_out (rout s) s) as (i & s' & E & ->).
  - intros k i s' (j & Hj & -> & -> & ->). unfold str_char. destruct (V !! j) as [c|] eqn:Hc.
    + pose proof (proj1 (Forall_lookup _ _) HV j c Hc) as Hch. pose proof (lookup_lt_Some _ _ _ Hc).
      erewrite bind_some by (rewrite (char_at_take a (V ++ [0]) n j c Ha); [reflexivity|by rewrite lookup_app_l]).
      destruct (Z.eqb_spec (i8 c) 0) as [E0|_]; [unfold is_char in Hch; word_lia|]. do 2 eexists. split; [reflexivity|].
      exists (length V - S j)%nat. split; [lia|]. exists (S j). split; [lia|]. split; [done|].
      split; [rewrite i32_small by word_lia; lia|]. rewrite u8_i8, (take_S_r _ _ _ Hc), reverse_snoc.
      unfold is_char in Hch. rewrite u8_small by (unfold is_u8; lia). done.
    + apply lookup_ge_None in Hc. replace j with (length V) in * by lia.
      erewrite bind_some by (rewrite (char_at_take a (V ++ [0]) n (length V) 0 Ha); [reflexivity|by rewrite list_lookup_middle]).
      do 2 eexists. split; [reflexivity|]. by rewrite firstn_all.
  - exists 0%nat. split_and!; [lia|lia|done..].
  - unfold LOOP_BOUND. lia.
  - unfold print_str. destruct s; cbn in E |- *. rewrite (bind_some _ _ _ _ _ E). done.
Qed.

Lemma print_digits_ok n s b dg dv ng : 0 ≤ n < 2147483648 → length b = 12%nat →
  ∃ b', print_digits n (set_scratch (Digits b 0 dg dv ng) s) =
    Some (0, set_scratch (Digits b' (Z.of_nat (length (dec_rev n))) dg dv ng) s) ∧ length b' = 12%nat ∧
    take (length (dec_rev n)) b' = map (λ d, 48 + d) (dec_rev n).
Proof.
  intros Hn Hb. pose proof (dec_rev_length 10 n) as Hd10.
  destruct (repeatM_run (λ k m s', ∃ b' l, 0 ≤ m < 2147483648 ∧ k = length (dec_rev m) ∧ l ++ dec_rev m = dec_rev n ∧ length b' = 12%nat ∧
      take (length l) b' = map (λ d, 48 + d) l ∧ s' = set_scratch (Digits b' (Z.of_nat (length l)) dg dv ng) s)
    (λ m s', m = 0 ∧ ∃ b', s' = set_scratch (Digits b' (Z.of_nat (length (dec_rev n))) dg dv ng) s ∧ length b' = 12%nat ∧
      take (length (dec_rev n)) b' = map (λ d, 48 + d) (dec_rev n)) next_digit)
    with (k := length (dec_rev n)) (i := n) (s := set_scratch (Digits b 0 dg dv ng) s) as (m & s' & E & -> & b' & -> & Hb' & Ht).
  - intros k m s' (b' & l & Hm & -> & Hl & Hb' & Ht & ->). unfold next_digit. destruct (Z.ltb_spec 0 m) as [Hp|Hp].
    + rewrite (bind_some (reads _) _ _ _ _ eq_refl). cbn [scratch set_scratch d_buf d_i d_digit d_div d_neg].
      rewrite dec_rev_step in Hl by done. pose proof (f_equal length Hl) as Hlen. rewrite length_app in Hlen. cbn [length] in Hlen.
      rewrite last_digit by done.
      destruct (put_at_next b' (map (λ d, 48 + d) l) (48 + m `mod` 10) (Z.of_nat (length l))) as (b2 & E & Hb2 & Ht2);
        [by rewrite length_map|by rewrite length_map|rewrite Hb'; lia|].
      erewrite bind_some by (cbn; rewrite E; reflexivity). do 2 eexists. split; [reflexivity|].
      rewrite length_map, u8_small in Ht2 by (unfold is_u8; dlia). rewrite Z.quot_div_nonneg by lia.
      exists (length (dec_rev (m `div` 10))). split; [rewrite (dec_rev_step m) by done; simpl; lia|].
      exists b2, (l ++ [m `mod` 10]). split; [dlia|]. split; [done|]. rewrite <- app_assoc. split; [done|]. split; [congruence|].
      rewrite length_app, Nat.add_1_r, map_app. split; [done|]. cbn. rewrite i32_small by word_lia. by replace (Z.of_nat (length l) + 1) with (Z.of_nat (S (length l))) by lia.
    + assert (m = 0) as -> by lia. do 2 eexists. split; [reflexivity|]. split; [done|]. change (dec_rev 0) with (@nil Z) in Hl.
      rewrite app_nil_r in Hl. subst l. by exists b'.
  - by exists b, [].
  - unfold LOOP_BOUND. lia.
  - exists b'. by split.
Qed.

Lemma print_reversed_ok s b di l dv ng : length b = 12%nat → take (length l) b = l → Forall (λ c, 0 ≤ c < 128) l →
  ∃ dg, print_reversed (set_scratch (Digits b di (Z.of_nat (length l) - 1) dv ng) s) =
    Some (tt, set_out (l ++ rout s) (set_scratch (Digits b di dg dv ng) s)).
Proof.
  intros Hb Ht Hl. pose proof (f_equal length Ht) as Hlen. rewrite length_take in Hlen.
  destruct (repeatM_run (λ k (_ : unit) s', (k ≤ length l)%nat ∧
      s' = set_out (drop k l ++ rout s) (set_scratch (Digits b di (Z.of_nat k - 1) dv ng) s))
    (λ _ s', s' = set_out (l ++ rout s) (set_scratch (Digits b di (-1) dv ng) s)) reversed_digit)
    with (k := length l) (i := tt) (s := set_scratch (Digits b di (Z.of_nat (length l) - 1) dv ng) s) as ([] & s' & E & ->).
  - intros k [] s' [Hk ->]. unfold reversed_digit. rewrite (bind_some (reads _) _ _ _ _ eq_refl). cbn [scratch set_out set_scratch d_buf d_i d_digit d_div d_neg].
    destruct k as [|k].
    + do 2 eexists. split; [reflexivity|]. done.
    + zb_true (0 <=? Z.of_nat (S k) - 1). replace (Z.of_nat (S k) - 1) with (Z.of_nat k) by lia.
      destruct (lookup_lt_is_Some_2 l k) as [c Hc]; [lia|]. pose proof (proj1 (Forall_lookup _ _) Hl k c Hc) as Hc8.
      erewrite bind_some by (rewrite (char_at_take b l (length l) k c Ht Hc); reflexivity).
      do 2 eexists. split; [reflexivity|]. exists k. split; [lia|]. split; [lia|]. cbn. rewrite i32_small by word_lia.
      cbn beta in Hc8. rewrite i8_small, u8_small by (done || (unfold is_u8; lia)). rewrite (drop_S l c k Hc). done.
  - split; [done|]. by rewrite drop_all.
  - unfold LOOP_BOUND. lia.
  - eexists. exact E.
Qed.

Lemma print_int_ok n s : 0 ≤ n < 2147483648 → length (d_buf (scratch s)) = 12%nat →
  ∃ d, print_int n s = Some (tt, set_out (reverse (dec_text n) ++ rout s) (set_scratch d s)) ∧ length (d_buf d) = 12%nat.
Proof.
  intros Hn Hb. unfold print_int. erewrite bind_some by reflexivity. zb_false (n <? 0). rewrite bind_ret.
  destruct (Z.eqb_spec n 0) as [->|Hne].
  { eexists. split; [reflexivity|]. done. }
  erewrite bind_some by reflexivity. cbn [scratch set_scratch d_buf d_i d_digit d_div d_neg].
  destruct (print_digits_ok n s (d_buf (scratch s)) (d_digit (scratch s)) (d_div (scratch s)) 0 Hn Hb) as (b' & E & Hb' & Ht).
  change (set_scratch (Digits ?x 0 ?y ?z ?w) (set_scratch _ s)) with (set_scratch (Digits x 0 y z w) s).
  rewrite (bind_some _ _ _ _ _ E). erewrite bind_some by reflexivity. cbn [scratch set_scratch d_buf d_i d_digit d_div d_neg].
  assert (length (dec_rev n) ≤ 10)%nat by (apply dec_rev_length; lia). rewrite i32_small by word_lia.
  destruct (print_reversed_ok s b' (Z.of_nat (length (dec_rev n))) (map (λ d, 48 + d) (dec_rev n)) 0 0 Hb') as (dg & E2).
  { by rewrite length_map. }
  { apply Forall_map. eapply Forall_impl; [apply dec_rev_range|]. cbn. lia. }
  rewrite length_map in E2. rewrite dec_text_rev, reverse_involutive by lia. eexists. split; [exact E2|]. done.
Qed.

Ltac chars := cbv zeta; cbn [fst snd tail] in *; split; repeat first [done | apply Forall_cons_2 | apply Forall_nil_2].
(** The lexer makes its values from the characters of the text. *)
Lemma lex_string_chars (P : Z → Prop) n i t : (length t ≤ n)%nat → Forall P t →
  Forall P (fst (lex_string i t)) ∧ Forall P (snd (lex_string i t)).
Proof.
  revert i t. induction n as [|n IH]; intros i [|c t] Hn Ht; try done; [simpl in Hn; lia|]. cbn [lex_string]. simpl in Hn.
  apply Forall_cons in Ht as [Hc Ht].
  assert (let e := if 126 <=? i + 1 then ([c], t) else let '(v, r) := lex_string (i + 1) t in (c :: v, r) in Forall P (fst e) ∧ Forall P (snd e)) as H1.
  { destruct (126 <=? i + 1); [by chars|]. destruct (IH (i + 1) t ltac:(lia) Ht). destruct (lex_string _ _). by chars. }
  destruct (c =? QUOTE); [by chars|]. destruct (c =? chr "\"); [|exact H1]. destruct t as [|d t]; [exact H1|].
  apply Forall_cons in Ht as [Hd Ht]. destruct (126 <=? i + 2); [by chars|].
  destruct (IH (i + 2) t ltac:(simpl in *; lia) Ht). clear H1. destruct (lex_string _ _). by chars.
Qed.

Lemma lex_number_chars (P : Z → Prop) n i t : (length t ≤ n)%nat → Forall P t →
  Forall P (fst (lex_number i t)) ∧ Forall P (snd (lex_number i t)).
Proof.
  revert i t. induction n as [|n IH]; intros i [|c t] Hn Ht; try done; [simpl in Hn; lia|]. cbn [lex_number]. simpl in Hn.
  apply Forall_cons in Ht as [Hc Ht].
  assert (let e := if 126 <=? i + 1 then ([c], t) else let '(v, r) := lex_number (i + 1) t in (c :: v, r) in Forall P (fst e) ∧ Forall P (snd e)) as H1.
  { destruct (126 <=? i + 1); [by chars|]. destruct (IH (i + 1) t ltac:(lia) Ht). destruct (lex_number _ _). by chars. }
  cbv zeta. destruct (is_digit c || (c =? chr ".")); [exact H1|]. destruct ((c =? chr "e") || (c =? chr "E")); [|by chars].
  destruct t as [|d t]; [exact H1|]. destruct (is_sign d); [|exact H1].
  apply Forall_cons in Ht as [Hd Ht]. destruct (126 <=? i + 2); [by chars|].
  destruct (IH (i + 2) t ltac:(simpl in *; lia) Ht). clear H1. destruct (lex_number _ _). by chars.
Qed.

Lemma lex_chars (P : Z → Prop) t ty V R : Forall P t → lex t = (ty, V, R) → Forall P V ∧ Forall P R.
Proof.
  intros Ht. unfold lex. assert (Forall P (drop_ws t)) as Hd.
  { induction Ht as [|c t Hc Ht IH]; [done|]. cbn. destruct (is_ws c); [done|]. by constructor. }
  destruct (drop_ws t) as [|c u]; [intros; by simplify_eq|]. pose proof (Forall_inv_tail Hd) as Hu. pose proof (Forall_inv Hd) as Hc.
  destruct (punctuation_type c); [intros; simplify_eq; by chars|]. destruct (c =? QUOTE).
  { destruct (lex_string_chars P (length u) 0 u ltac:(lia) Hu). destruct (lex_string 0 u). intros; simplify_eq. split; [done|]. by apply Forall_tail. }
  destruct (c =? chr "-").
  { destruct (lex_number_chars P (length u) 1 u ltac:(lia) Hu). destruct (lex_number 1 u). intros; simplify_eq. by chars. }
  destruct (is_digit c).
  { destruct (lex_number_chars P (length (c :: u)) 0 (c :: u) ltac:(lia) Hd). destruct (lex_number 0 (c :: u)). by intros; simplify_eq. }
  assert (∀ w r, strip w (c :: u) = Some r → Forall P w ∧ Forall P r) as Hs.
  { unfold strip. intros w r. case_bool_decide as E; [|done]. intros; simplify_eq. split; [rewrite <- E; by apply Forall_take|by apply Forall_drop]. }
  unfold lex_word. repeat case_match; intros; simplify_eq; eauto. by chars.
Qed.

(** The line of the [k]th token. *)
Definition line (k : Z) (x : Z * list Z) : list Z :=
  let '(ty, V) := x in
  let quote := if ty =? 7 then [QUOTE] else [] in
  lit "  " ++ dec_text k ++ lit "  " ++ nth (if (0 <=? ty) && (ty <=? 11) then Z.to_nat ty else 12%nat) NAMES [] ++
  (if 0 <? vlen_of ty V then lit "  " ++ quote ++ V ++ quote else []) ++ [10].
Fixpoint lines (k : Z) (l : list (Z * list Z)) : list Z :=
  match l with [] => [] | x :: l' => line k x ++ lines (k + 1) l' end.

Record ready (s : js) : Prop := {
  ready_wf : js_wf s;
  ready_names : Forall2 (λ a t, take (S (length t)) a = t ++ [0]) (names s) NAMES;
  ready_digits : length (d_buf (scratch s)) = 12%nat;
  ready_text : Forall is_char (left_of s);
}.

Lemma print_type_ok t s : Forall2 (λ a t, take (S (length t)) a = t ++ [0]) (names s) NAMES →
  print_type t s = Some (tt, set_out (reverse (nth (if (0 <=? t) && (t <=? 11) then Z.to_nat t else 12%nat) NAMES []) ++ rout s) s).
Proof.
  intros Hn. unfold print_type. rewrite (bind_some (reads _) _ _ _ _ eq_refl).
  set (k := if (0 <=? t) && (t <=? 11) then Z.to_nat t else 12%nat). assert (k < 13)%nat as Hk by (unfold k; bool_cases; lia).
  clearbody k. pose proof (Forall2_length _ _ _ Hn) as Hl. change (length NAMES) with 13%nat in Hl.
  destruct (lookup_lt_is_Some_2 (names s) k) as [a Ha]; [lia|]. destruct (lookup_lt_is_Some_2 NAMES k) as [w Hw]; [done|].
  pose proof (Forall2_lookup_lr _ _ _ _ _ _ Hn Ha Hw) as Ht. cbn beta in Ht. rewrite (nth_lookup_Some _ _ [] _ Ha), (nth_lookup_Some _ _ [] _ Hw).
  assert (Forall (λ w, Forall is_char w ∧ Z.of_nat (length w) < 1000) NAMES) as Hall.
  { repeat constructor; by vm_compute. }
  destruct (proj1 (Forall_lookup _ _) Hall _ _ Hw) as [Hc Hwl]. by eapply print_str_ok.
Qed.

Lemma show_value_ok t n v V s : take (S (length V)) v = V ++ [0] → Forall is_char V → Z.of_nat (length V) < 1000 →
  show_value t n v s = Some (tt, set_out (reverse (if 0 <? n then lit "  " ++ (if t =? 7 then [QUOTE] else []) ++ V ++ (if t =? 7 then [QUOTE] else []) else []) ++ rout s) s).
Proof.
  intros Hv HV Hl. unfold show_value, show_quote. destruct (0 <? n); [|by destruct s].
  do 2 (erewrite bind_some by reflexivity). destruct (t =? 7).
  - erewrite bind_some by reflexivity. erewrite bind_some by (by eapply print_str_ok).
    change (lit "  ") with [32; 32]. rewrite !reverse_app, <- !app_assoc. by destruct s.
  - rewrite bind_ret. erewrite bind_some by (by eapply print_str_ok).
    change (lit "  ") with [32; 32]. rewrite !reverse_app, <- !app_assoc. by destruct s.
Qed.

(** One round of the program's loop prints one line. *)
Lemma report_ok s ty V R : ready s → 0 ≤ tok_count s ≤ 200 → lex (left_of s) = (ty, V, R) →
  ∃ s', report s = Some ((ty =? 0) || (200 <? tok_count s + 1), s') ∧ ready s' ∧ left_of s' = R ∧
    rout s' = reverse (line (tok_count s) (ty, V)) ++ rout s ∧ tok_count s' = tok_count s + 1.
Proof.
  intros [[Hb Hsz Hl Hp Hv] Hn Hd Ht] Hk El. destruct (lex_chars _ _ _ _ _ Ht El) as [HV HR].
  destruct s as [buf len p ty0 v vl nm sc cnt o]. cbn [json_buf json_len pos tok_type tok_val tok_vlen names scratch tok_count rout] in *.
  destruct (next_token_ok buf len nm sc cnt o Hb ltac:(lia) ltac:(lia) p ty0 v vl V R ty Hp Hv El) as (p' & v' & E & Hp' & Hr & Hv1 & Hv2).
  pose proof (f_equal length Hv2) as HVl. rewrite length_take, length_app in HVl. simpl in HVl.
  rewrite length_app, Nat.add_1_r in Hv2.
  unfold report. rewrite (bind_some _ _ _ _ _ E). do 2 (erewrite bind_some by reflexivity). rewrite (bind_some (reads _) _ _ _ _ eq_refl).
  edestruct (print_int_ok cnt) as (d & Ed & Hd2); [| |rewrite (bind_some _ _ _ _ _ Ed)]; [lia|exact Hd|]. clear Ed.
  do 2 (erewrite bind_some by reflexivity). rewrite (bind_some (reads _) _ _ _ _ eq_refl).
  erewrite bind_some by (apply print_type_ok; exact Hn). do 2 (rewrite (bind_some (reads _) _ _ _ _ eq_refl)).
  erewrite bind_some by (eapply show_value_ok; [exact Hv2|exact HV|lia]). do 2 (erewrite bind_some by reflexivity).
  rewrite (bind_some (reads _) _ _ _ _ eq_refl).
  match goal with |- context [ret _ ?s] => set (s2 := s) end.
  assert (tok_count s2 = cnt + 1) as Hcnt by (transitivity (i32 (cnt + 1)); [reflexivity|apply i32_small; word_lia]).
  exists s2. split; [by rewrite Hcnt|]. split; [|split; [exact Hr|split; [|exact Hcnt]]].
  - constructor; [by constructor|exact Hn|exact Hd2|]. change (left_of s2) with (rest buf len p'). by rewrite Hr.
  - unfold s2, line. cbn [rout set_out set_scratch set_count tok_type tok_vlen]. change (u8 32) with 32. change (u8 10) with 10.
    change (lit "  ") with [32; 32]. rewrite !reverse_app, <- !app_assoc. reflexivity.
Qed.

(** The program's loop on any text: it ends, with the listing of the tokens of
    the text, one line each with its number, its name and its value, up to END or
    to the 201st token. *)
Theorem report_all_lists s : ready s → tok_count s = 0 →
  ∃ s', report_all s = Some (tt, s') ∧
    rout s' = reverse (lines 0 (tokens 201 (left_of s))) ++ rout s ∧
    tok_count s' = Z.of_nat (length (tokens 201 (left_of s))).
Proof.
  intros Hs Hc. set (T := tokens 201 (left_of s)).
  destruct (repeatM_run (λ k (_ : unit) s', ∃ l, (0 < k)%nat ∧ ready s' ∧ 0 ≤ tok_count s' ∧ Z.of_nat k = 201 - tok_count s' ∧
      l ++ tokens k (left_of s') = T ∧ rout s' = reverse (lines 0 l) ++ rout s ∧ tok_count s' = Z.of_nat (length l))
    (λ _ s', rout s' = reverse (lines 0 T) ++ rout s ∧ tok_count s' = Z.of_nat (length T))
    (λ _ : unit, b <- report;; ret (if b : bool then inr tt else inl tt)))
    with (k := 201%nat) (i := tt) (s := s) as ([] & s' & E & Hr & Hk).
  - intros k [] s1 (l & Hk & Hs1 & Hc1 & Hkc & HT & Ho & Hn). destruct (lex (left_of s1)) as [[ty V] R] eqn:El.
    destruct (report_ok s1 ty V R Hs1 ltac:(lia) El) as (s2 & E & Hs2 & Hl2 & Ho2 & Hc2). rewrite (bind_some _ _ _ _ _ E).
    do 2 eexists. split; [reflexivity|]. destruct k as [|k]; [lia|]. cbn [tokens] in HT. rewrite El in HT.
    assert (∀ x, lines 0 (l ++ [x]) = lines 0 l ++ line (tok_count s1) x) as Hline.
    { intros x. rewrite Hn. clear. replace (Z.of_nat (length l)) with (0 + Z.of_nat (length l)) by lia. generalize 0 as k.
      induction l as [|y l IH]; intros k; cbn [lines app length]; [by rewrite Z.add_0_r, app_nil_r|].
      rewrite IH, <- app_assoc. by replace (k + 1 + Z.of_nat (length l)) with (k + Z.of_nat (S (length l))) by lia. }
    destruct (Z.eqb_spec ty 0) as [->|Hty]; cbn [orb].
    + rewrite <- HT, Hline, reverse_app, Ho2, Ho, <- app_assoc, length_app. split; [done|]. simpl. lia.
    + destruct (Z.ltb_spec 200 (tok_count s1 + 1)).
      * assert (k = 0%nat) as -> by lia. cbn [tokens] in HT.
        rewrite <- HT, Hline, reverse_app, Ho2, Ho, <- app_assoc, length_app. split; [done|]. simpl. lia.
      * exists k. split; [lia|]. exists (l ++ [(ty, V)]). split; [lia|]. split; [done|]. split; [lia|]. split; [lia|].
        rewrite Hl2, <- app_assoc. split; [done|]. rewrite Hline, reverse_app, Ho2, Ho, <- app_assoc, length_app. split; [done|]. simpl. lia.
  - exists []. split_and!; [lia|done|lia|lia|done..].
  - unfold LOOP_BOUND. lia.
  - by exists s'.
Qed.

Lemma report_all_lists_witness :
  let s := J (INPUT ++ replicate 450 0) 62 0 0 (replicate 128 0) 0 (map (λ t, t ++ [0]) NAMES) (Digits (replicate 12 0) 0 0 0 0) 0 [] in
  ∃ s', report_all s = Some (tt, s') ∧ tok_count s' = 28.
Proof.
  intros s. assert (ready s) as Hs.
  { constructor; [constructor; [|done..]|by repeat constructor|done|].
    - apply Forall_app_2; [apply INPUT_u8|by apply Forall_is_u8_replicate].
    - change (left_of s) with INPUT. vm_compute. repeat constructor; done. }
  destruct (report_all_lists s Hs eq_refl) as (s' & E & _ & Hc). exists s'. split; [exact E|]. rewrite Hc. vm_compute. reflexivity.
Defined.




(** A string of more than 126 characters is cut, and the character after the cut
    is lost. *)
Example json_long_string : lex (QUOTE :: replicate 130 97 ++ [QUOTE]) = (7, replicate 126 97, replicate 3 97 ++ [QUOTE]).
Proof. vm_compute. reflexivity. Qed.
