(* ===== verification/EchoServer.v ===== *)
(** * The echo server ([samples/echo_server.c])

    A server on one listening socket that serves clients one at a time.  The
    kernel's sockets are a parameter: a state and the answers of the socket calls
    ([Net]); what the server relies on is that [SYS_RECV] never hands out more
    bytes than it was asked for ([NetBounds]).  What the server does to the world,
    the texts it prints, the bytes it sends and the sockets it closes, is a list of
    events.  An access outside [recv_buf], [msg_buf] or [digits] is a fault. *)

From S2P Require Import Prelude CMem CStdlib Arrays.

#[local] Open Scope string_scope.
#[local] Open Scope Z_scope.
#[local] Open Scope list_scope.

(** The socket calls; [net_recv] gives the answer and the bytes stored. *)
Class Net (K : Type) := {
  net_socket : Z → K → Z * K;
  net_bind : Z → Z → K → Z * K;
  net_listen : Z → K → Z * K;
  net_accept : Z → K → Z * K;
  net_recv : Z → Z → K → Z * list Z * K;
  net_send : Z → list Z → K → Z * K;
  net_close : Z → K → Z * K;
}.
Class NetBounds (K : Type) `{Net K} := {
  recv_bound : ∀ fd max k n bs k', net_recv fd max k = (n, bs, k') → 0 ≤ max → 0 < i32 n →
    Z.of_nat (length bs) = i32 n ∧ i32 n ≤ max ∧ Forall is_u8 bs;
  recv_nothing : ∀ fd max k n bs k', net_recv fd max k = (n, bs, k') → i32 n ≤ 0 → bs = [];
}.

Inductive event := Print (t : list Z) | Send (fd : Z) (bs : list Z) | Close (fd : Z).

Section server.
Context {K : Type} `{Net K}.

Record sv := Sv { server_fd : Z; client_fd : Z; n : Z; recv_buf : list Z; msg_buf : list Z; msg_i : Z; net : K; events : list event }.
Definition globals (k : K) : sv := Sv 0 0 0 (replicate 512 0) (replicate 64 0) 0 k [].

Definition set_server x s := Sv x (client_fd s) (n s) (recv_buf s) (msg_buf s) (msg_i s) (net s) (events s).
Definition set_client x s := Sv (server_fd s) x (n s) (recv_buf s) (msg_buf s) (msg_i s) (net s) (events s).
Definition set_n x s := Sv (server_fd s) (client_fd s) x (recv_buf s) (msg_buf s) (msg_i s) (net s) (events s).
Definition set_recv x s := Sv (server_fd s) (client_fd s) (n s) x (msg_buf s) (msg_i s) (net s) (events s).
Definition set_msg x i s := Sv (server_fd s) (client_fd s) (n s) (recv_buf s) x i (net s) (events s).
Definition set_net k s := Sv (server_fd s) (client_fd s) (n s) (recv_buf s) (msg_buf s) (msg_i s) k (events s).
Definition emit e s := Sv (server_fd s) (client_fd s) (n s) (recv_buf s) (msg_buf s) (msg_i s) (net s) (events s ++ [e]).

(** ** The system calls *)

Definition call (f : K → Z * K) : M sv Z := λ s, let '(r, k) := f (net s) in Some (i32 r, set_net k s).
Definition sys_socket (type : Z) : M sv Z := call (net_socket type).
Definition sys_bind (fd port : Z) : M sv Z := call (net_bind fd port).
Definition sys_listen (fd : Z) : M sv Z := call (net_listen fd).
Definition sys_accept (fd : Z) : M sv Z := call (net_accept fd).
(** [sys_recv(fd, recv_buf, maxlen)]: the bytes go to the start of the buffer. *)
Definition sys_recv (fd maxlen : Z) : M sv Z := λ s,
  let '(r, bs, k) := net_recv fd maxlen (net s) in
  if decide (length bs ≤ length (recv_buf s))%nat then
    Some (i32 r, set_net k (set_recv (bs ++ drop (length bs) (recv_buf s)) s))
  else None.
(** [sys_send(fd, recv_buf, len)] *)
Definition sys_send (fd len : Z) : M sv Z := λ s,
  if decide (Z.to_nat len ≤ length (recv_buf s))%nat then
    let bs := take (Z.to_nat len) (recv_buf s) in
    let '(r, k) := net_send fd bs (net s) in Some (i32 r, emit (Send fd bs) (set_net k s))
  else None.
Definition sys_sockclose (fd : Z) : M sv Z := λ s,
  let '(r, k) := net_close fd (net s) in Some (i32 r, emit (Close fd) (set_net k s)).
Definition sys_print (t : list Z) : M sv unit := does (emit (Print t)).
Definition print_str (t : string) : M sv unit := sys_print (lit t).

(** ** Messages *)

(** [msg_buf[msg_i] = c; msg_i = msg_i + 1;] *)
Definition put_msg (c : Z) : M sv unit := λ s,
  b ← put_at (msg_buf s) (msg_i s) c; Some (tt, set_msg b (i32 (msg_i s + 1)) s).

Definition prefix_char (prefix : list Z) (i : Z) : M sv (Z + Z) :=
  c <- liftO (char_at prefix i);;
  if c =? 0 then ret (inr i) else (put_msg c;;; ret (inl (i32 (i + 1)))).
(** The digits of [tmp], least significant first; the array and [dlen]. *)
Definition next_digit (x : Z * list Z * Z) : M sv (Z * list Z * Z + Z * list Z * Z) :=
  let '(tmp, digits, dlen) := x in
  if 0 <? tmp then
    digits <- liftO (put_at digits dlen (i32 (i32 (tmp - i32 (tmp /c 10 * 10)) + 48)));;
    ret (inl (tmp /c 10, digits, i32 (dlen + 1)))
  else ret (inr (tmp, digits, dlen)).
Definition copy_digit (digits : list Z) (i : Z) : M sv (Z + Z) :=
  if 0 <=? i then c <- liftO (char_at digits i);; put_msg c;;; ret (inl (i32 (i - 1))) else ret (inr i).

(** The text that [SYS_PRINT] finds in a buffer: up to the terminator. *)
Fixpoint until_nul (a : list Z) : option (list Z) :=
  match a with [] => None | c :: a' => if c =? 0 then Some [] else cons c <$> until_nul a' end.

(** "Convert v to decimal" and "Reverse digits", for a magnitude. *)
Definition put_number (v : Z) : M sv unit :=
  let digits := replicate 12 0 in
  first <- (if v =? 0 then d <- liftO (put_at digits 0 (chr "0"));; ret (d, 1) else ret (digits, 0));;
  r <- repeatM next_digit (v, fst first, snd first);;
  let '(_, digits, dlen) := r in
  repeatM (copy_digit digits) (i32 (dlen - 1));;;
  ret tt.
Definition print_int_nl (prefix : list Z) (v : Z) : M sv unit :=
  does (λ s, set_msg (msg_buf s) 0 s);;;
  repeatM (prefix_char prefix) 0;;;
  v <- (if v <? 0 then put_msg (chr "-");;; ret (i32 (0 - v)) else ret v);;
  put_number v;;;
  put_msg 10;;;
  (λ s, b ← put_at (msg_buf s) (msg_i s) 0; Some (tt, set_msg b (msg_i s) s));;;
  b <- reads msg_buf;; t <- liftO (until_nul b);; sys_print t.

(** ** Sessions *)

Definition newline_char (got : Z) (x : Z * Z) : M sv (Z * Z + Z * Z) :=
  let '(i, only_newline) := x in
  if i <? got then
    b <- reads recv_buf;; c <- liftO (char_at b i);;
    ret (inl (i32 (i + 1), if negb (c =? 10) && negb (c =? 13) then 0 else only_newline))
  else ret (inr (i, only_newline)).

(** One round of the loop of [handle_client]. *)
Definition receive (_ : unit) : M sv (unit + unit) :=
  fd <- reads client_fd;;
  got <- sys_recv fd 511;;
  if got <=? 0 then ret (inr tt) else
  (λ s, b ← put_at (recv_buf s) got 0; Some (tt, set_recv b s));;;
  sys_send fd got;;;
  r <- repeatM (newline_char got) (0, 1);;
  ret (if snd r =? 1 then inr tt else inl tt).
Definition handle_client : M sv unit :=
  print_str "echo_server: client connected
";;;
  repeatM receive tt;;;
  fd <- reads client_fd;;
  sys_sockclose fd;;;
  print_str "echo_server: client disconnected
".

(** One round of the accept loop, which never ends. *)
Definition accept_client : M sv unit :=
  fd <- reads server_fd;;
  c <- sys_accept fd;;
  does (set_client c);;;
  if c <? 0 then print_str "echo_server: accept() error, retrying
" else handle_client.

(** [main] from [sys_bind] to the accept loop: the status it returns, or [None] when
    it goes on to serve. *)
Definition listen_on (fd : Z) : M sv (option Z) :=
  r <- sys_bind fd 8080;;
  does (set_n r);;;
  if r <? 0 then print_str "echo_server: bind() failed
";;; sys_sockclose fd;;; ret (Some 1) else
  r <- sys_listen fd;;
  does (set_n r);;;
  if r <? 0 then print_str "echo_server: listen() failed
";;; sys_sockclose fd;;; ret (Some 1) else
  print_str "echo_server: listening -- connect with: chat 127.0.0.1 8080
";;;
  print_str "echo_server: send an empty line to close a session.
";;;
  ret None.
Definition open_server : M sv (option Z) :=
  print_str "echo_server: starting on port 8080
";;;
  fd <- sys_socket 1;;
  does (set_server fd);;;
  if fd <? 0 then print_str "echo_server: socket() failed
";;; ret (Some 1) else
  print_int_nl (lit "echo_server: server_fd=" ++ [0]) fd;;;
  listen_on fd.
(** [main] with [rounds] rounds of the accept loop. *)
Fixpoint serve (rounds : nat) : M sv unit :=
  match rounds with O => ret tt | S r => accept_client;;; serve r end.
Definition main (rounds : nat) : M sv (option Z) :=
  r <- open_server;;
  match r with Some status => ret (Some status) | None => serve rounds;;; ret None end.

(** ** Messages fit their buffer *)

(** The start of [msg_buf] holds [t], and [msg_i] is behind it. *)
Definition msg_state (t : list Z) (s s' : sv) : Prop :=
  ∃ b, length b = 64%nat ∧ take (length t) b = t ∧ s' = set_msg b (Z.of_nat (length t)) s.

Lemma put_msg_ok t c s s' : msg_state t s s' → Z.of_nat (length t) < 64 →
  ∃ s2, put_msg c s' = Some (tt, s2) ∧ msg_state (t ++ [u8 c]) s s2.
Proof using Type.
  intros (b & Hb & Ht & ->) Hl. destruct (put_at_next b t c (Z.of_nat (length t)) Ht eq_refl ltac:(lia)) as (b2 & E & Hb2 & Ht2).
  unfold put_msg. cbn [msg_buf msg_i set_msg]. rewrite E. eexists. split; [reflexivity|]. exists b2.
  rewrite length_app, Nat.add_1_r. split; [congruence|]. split; [done|]. rewrite i32_small by word_lia. unfold set_msg.
  by replace (Z.of_nat (length t) + 1) with (Z.of_nat (S (length t))) by lia.
Qed.

Lemma prefix_ok w s s' : msg_state [] s s' → Forall is_char w → Z.of_nat (length w) ≤ 50 →
  ∃ i s2, repeatM (prefix_char (w ++ [0])) 0 s' = Some (i, s2) ∧ msg_state w s s2.
Proof using Type.
  intros Hm Hw Hl.
  apply (repeatM_run (λ k i s', ∃ j, (j ≤ length w)%nat ∧ k = (length w - j)%nat ∧ i = Z.of_nat j ∧ msg_state (take j w) s s')) with (k := length w).
  - intros k i s1 (j & Hj & -> & -> & Hs1). unfold prefix_char. destruct (w !! j) as [c|] eqn:Hc.
    + pose proof (proj1 (Forall_lookup _ _) Hw j c Hc) as Hch. pose proof (lookup_lt_Some _ _ _ Hc). unfold is_char in Hch.
      erewrite bind_some by (unfold liftO; rewrite (char_at_take _ (w ++ [0]) (length (w ++ [0])) j c); [reflexivity|apply firstn_all|by rewrite lookup_app_l]).
      destruct (Z.eqb_spec (i8 c) 0) as [E0|_]; [word_lia|].
      destruct (put_msg_ok _ (i8 c) _ _ Hs1) as (s2 & E & Hs2); [rewrite length_take; lia|]. rewrite (bind_some _ _ _ _ _ E).
      do 2 eexists. split; [reflexivity|]. exists (length w - S j)%nat. split; [lia|]. exists (S j). split; [lia|]. split; [done|].
      split; [rewrite i32_small by word_lia; lia|]. by rewrite u8_i8, u8_small in Hs2 by (unfold is_u8; lia); rewrite (take_S_r _ _ _ Hc).
    + apply lookup_ge_None in Hc. replace j with (length w) in * by lia.
      erewrite bind_some by (unfold liftO; rewrite (char_at_take _ (w ++ [0]) (length (w ++ [0])) (length w) 0); [reflexivity|apply firstn_all|by rewrite list_lookup_middle]).
      do 2 eexists. split; [reflexivity|]. by rewrite firstn_all in Hs1.
  - exists 0%nat. split_and!; [lia|lia|done|done].
  - unfold LOOP_BOUND. lia.
Qed.

Lemma digits_ok v s : 0 < v < 2147483648 →
  ∃ ds, repeatM next_digit (v, replicate 12 0, 0) s = Some ((0, ds, Z.of_nat (length (dec_rev v))), s) ∧ length ds = 12%nat ∧
    take (length (dec_rev v)) ds = map (λ d, 48 + d) (dec_rev v).
Proof using Type.
  intros Hv. pose proof (dec_rev_length 10 v) as H10.
  destruct (repeatM_run (λ k x s', s' = s ∧ ∃ m ds l, x = (m, ds, Z.of_nat (length l)) ∧ 0 ≤ m < 2147483648 ∧ k = length (dec_rev m) ∧
      l ++ dec_rev m = dec_rev v ∧ length ds = 12%nat ∧ take (length l) ds = map (λ d, 48 + d) l)
    (λ x s', s' = s ∧ ∃ ds, x = (0, ds, Z.of_nat (length (dec_rev v))) ∧ length ds = 12%nat ∧
      take (length (dec_rev v)) ds = map (λ d, 48 + d) (dec_rev v)) next_digit) with (k := length (dec_rev v)) (i := (v, replicate 12 0, 0)) (s := s)
    as (x & s' & E & -> & ds & -> & Hds & Ht).
  - intros k x s' (-> & m & ds & l & -> & Hm & -> & Hl & Hds & Ht). unfold next_digit. destruct (Z.ltb_spec 0 m) as [Hp|Hp].
    + rewrite dec_rev_step in Hl by done. pose proof (f_equal length Hl) as Hlen. rewrite length_app in Hlen. cbn [length] in Hlen.
      rewrite last_digit by done.
      destruct (put_at_next ds (map (λ d, 48 + d) l) (48 + m `mod` 10) (Z.of_nat (length l))) as (b2 & E & Hb2 & Ht2);
        [by rewrite length_map|by rewrite length_map|rewrite Hds; lia|].
      erewrite bind_some by (unfold liftO; rewrite E; reflexivity). do 2 eexists. split; [reflexivity|].
      rewrite length_map, u8_small in Ht2 by (unfold is_u8; dlia). rewrite Z.quot_div_nonneg by lia.
      exists (length (dec_rev (m `div` 10))). split; [rewrite (dec_rev_step m) by done; simpl; lia|]. split; [done|].
      exists (m `div` 10), b2, (l ++ [m `mod` 10]). rewrite length_app, Nat.add_1_r, map_app, <- app_assoc, i32_small by word_lia.
      split; [by replace (Z.of_nat (length l) + 1) with (Z.of_nat (S (length l))) by lia|]. split; [dlia|]. split_and!; [done|done|congruence|done].
    + assert (m = 0) as -> by lia. do 2 eexists. split; [reflexivity|]. split; [done|]. change (dec_rev 0) with (@nil Z) in Hl.
      rewrite app_nil_r in Hl. subst l. by exists ds.
  - split; [done|]. exists v, (replicate 12 0), []. split_and!; [done|lia|lia|done..].
  - unfold LOOP_BOUND. lia.
  - by exists ds.
Qed.

Lemma copy_ok ds l t s s' : take (length l) ds = l → Forall (λ c, 0 ≤ c < 128) l → msg_state t s s' →
  Z.of_nat (length t + length l) < 64 →
  ∃ i s2, repeatM (copy_digit ds) (Z.of_nat (length l) - 1) s' = Some (i, s2) ∧ msg_state (t ++ reverse l) s s2.
Proof using Type.
  intros Hd Hl Hm Hb.
  apply (repeatM_run (λ k i s', (k ≤ length l)%nat ∧ i = Z.of_nat k - 1 ∧ msg_state (t ++ reverse (drop k l)) s s')) with (k := length l).
  - intros k i s1 (Hk & -> & Hs1). unfold copy_digit. destruct k as [|k].
    + do 2 eexists. split; [reflexivity|]. done.
    + zb_true (0 <=? Z.of_nat (S k) - 1). replace (Z.of_nat (S k) - 1) with (Z.of_nat k) by lia.
      destruct (lookup_lt_is_Some_2 l k) as [c Hc]; [lia|]. pose proof (proj1 (Forall_lookup _ _) Hl k c Hc) as Hc8. cbn beta in Hc8.
      erewrite bind_some by (unfold liftO; rewrite (char_at_take ds l (length l) k c Hd Hc); reflexivity).
      destruct (put_msg_ok _ (i8 c) _ _ Hs1) as (s2 & E & Hs2); [rewrite length_app, length_reverse, length_drop; lia|].
      rewrite (bind_some _ _ _ _ _ E). do 2 eexists. split; [reflexivity|]. exists k. split; [lia|]. split; [lia|].
      split; [rewrite i32_small by word_lia; lia|]. rewrite (drop_S l c k Hc), reverse_cons, app_assoc.
      by rewrite i8_small, u8_small in Hs2 by (done || (unfold is_u8; lia)).
  - split; [done|]. split; [done|]. by rewrite drop_all, app_nil_r.
  - unfold LOOP_BOUND. lia.
Qed.

Lemma until_nul_take b t : take (S (length t)) b = t ++ [0] → Forall is_char t → until_nul b = Some t.
Proof using Type.
  intros Ht Hc. revert b Ht. induction Hc as [|c t Hc _ IH]; intros [|x b] Ht; try done; cbn in Ht |- *.
  - injection Ht as ->. done.
  - injection Ht as -> Ht. unfold is_char in Hc. zb_false (c =? 0). by rewrite (IH b Ht).
Qed.

(** The magnitude of a number in [msg_buf]. *)
Lemma magnitude_ok m t s s' : 0 ≤ m < 2147483648 → msg_state t s s' → Z.of_nat (length t) ≤ 51 →
  ∃ s2, put_number m s' = Some (tt, s2) ∧ msg_state (t ++ dec_text m) s s2.
Proof using Type.
  intros Hm Hs Hl. assert (length (dec_rev m) ≤ 10)%nat as H10 by (apply dec_rev_length; lia). destruct (Z.eqb_spec m 0) as [->|Hne].
  - destruct (copy_ok (48 :: replicate 11 0) [48] t s s') as (i & s2 & E & Hs2);
      [done|by repeat constructor|done|simpl; lia|].
    exists s2. split; [|exact Hs2]. unfold put_number. erewrite bind_some by reflexivity.
    erewrite bind_some by reflexivity. apply (bind_some _ (λ _, ret tt) _ _ _ E).
  - unfold put_number. cbv zeta. zb_false (m =? 0). rewrite bind_ret. cbn [fst snd]. destruct (digits_ok m s' ltac:(lia)) as (ds & E & Hds & Ht). rewrite (bind_some _ _ _ _ _ E).
    destruct (copy_ok ds (map (λ d, 48 + d) (dec_rev m)) t s s') as (i & s2 & E2 & Hs2); [by rewrite length_map| |done|rewrite length_map; lia|].
    { apply Forall_map. eapply Forall_impl; [apply dec_rev_range|]. cbn. lia. }
    rewrite length_map in E2. rewrite i32_small by word_lia. exists s2. rewrite (bind_some _ _ _ _ _ E2). split; [done|].
    by rewrite dec_text_rev by lia.
Qed.

Lemma print_int_nl_ok w v s : Forall is_char w → Z.of_nat (length w) ≤ 50 → -2147483648 < v < 2147483648 → length (msg_buf s) = 64%nat →
  ∃ b i, print_int_nl (w ++ [0]) v s = Some (tt, emit (Print (w ++ dec_text v ++ [10])) (set_msg b i s)) ∧ length b = 64%nat.
Proof using Type.
  intros Hw Hl Hv Hb. unfold print_int_nl. erewrite bind_some by reflexivity.
  destruct (prefix_ok w s (set_msg (msg_buf s) 0 s)) as (i & s1 & E1 & Hs1); [by exists (msg_buf s)|done|done|].
  rewrite (bind_some _ _ _ _ _ E1).
  assert (∃ s2 sg m, (if v <? 0 then put_msg (chr "-");;; ret (i32 (0 - v)) else ret v) s1 = Some (m, s2) ∧
    msg_state (w ++ sg) s s2 ∧ (length sg ≤ 1)%nat ∧ 0 ≤ m < 2147483648 ∧ dec_text v = sg ++ dec_text m) as (s2 & sg & m & E2 & Hs2 & Hsg & Hm & Hd).
  { destruct (Z.ltb_spec v 0).
    - destruct (put_msg_ok _ (chr "-") _ _ Hs1) as (s2 & E & Hs2); [lia|]. exists s2, [45], (- v). rewrite (bind_some _ _ _ _ _ E).
      rewrite i32_small by word_lia. split; [done|]. split; [exact Hs2|]. split; [done|]. split; [lia|].
      unfold dec_text. zb_true (v <? 0). zb_false (- v <? 0). by rewrite Z.abs_opp.
    - exists s1, [], v. rewrite app_nil_r. split_and!; [done|done|simpl; lia|lia|lia|done]. }
  rewrite (bind_some _ _ _ _ _ E2). clear E1 E2 Hs1.
  destruct (magnitude_ok m _ _ _ Hm Hs2) as (s3 & E3 & Hs3); [rewrite length_app; lia|].
  rewrite (bind_some _ _ _ _ _ E3). rewrite <- app_assoc, <- Hd in Hs3. clear E3 Hs2. set (t := w ++ dec_text v) in *.
  assert (Z.of_nat (length t) ≤ 61) as Hlt.
  { unfold t. rewrite length_app, Hd, length_app. destruct (Z.eqb_spec m 0) as [->|]; [simpl; lia|].
    rewrite dec_text_rev, length_reverse, length_map by lia. assert (length (dec_rev m) ≤ 10)%nat by (apply dec_rev_length; lia). lia. }
  destruct (put_msg_ok _ 10 _ _ Hs3 ltac:(lia)) as (s4 & E4 & b & Hb4 & Ht4 & ->). rewrite (bind_some _ _ _ _ _ E4).
  change (u8 10) with 10 in *. destruct (put_at_next b (t ++ [10]) 0 (Z.of_nat (length (t ++ [10]))) Ht4 eq_refl) as (b5 & E5 & Hb5 & Ht5);
    [rewrite length_app; simpl; lia|].
  erewrite bind_some by (cbn [msg_buf msg_i set_msg]; rewrite E5; reflexivity). rewrite (bind_some (reads _) _ _ _ _ eq_refl).
  erewrite bind_some by (unfold liftO; cbn [msg_buf set_msg]; rewrite (until_nul_take b5 (t ++ [10]));
    [reflexivity|done|apply Forall_app_2; [apply Forall_app_2; [done|apply dec_text_chars]|by repeat constructor]]).
  exists b5. eexists. split; [|congruence]. unfold t. rewrite <- app_assoc. reflexivity.
Qed.

(** ** Sessions *)

(** What a client sends, from the answers of the kernel: chunks of bytes, until it
    closes the connection or sends nothing but the end of a line. *)
Definition bare_newline (bs : list Z) : bool := forallb (λ c, (c =? 10) || (c =? 13)) bs.
Inductive session (fd : Z) : K → list (list Z) → K → Prop :=
  | session_closed k r bs k' : net_recv fd 511 k = (r, bs, k') → i32 r ≤ 0 → session fd k [] k'
  | session_newline k r bs k1 q k2 : net_recv fd 511 k = (r, bs, k1) → 0 < i32 r → net_send fd bs k1 = (q, k2) →
      bare_newline bs = true → session fd k [bs] k2
  | session_chunk k r bs k1 q k2 cs k3 : net_recv fd 511 k = (r, bs, k1) → 0 < i32 r → net_send fd bs k1 = (q, k2) →
      bare_newline bs = false → session fd k2 cs k3 → session fd k (bs :: cs) k3.

Lemma newline_ok got bs s : got = Z.of_nat (length bs) → got ≤ 511 → take (length bs) (recv_buf s) = bs → Forall is_u8 bs →
  ∃ i, repeatM (newline_char got) (0, 1) s = Some ((i, of_bool (bare_newline bs)), s).
Proof using Type.
  intros -> Hg Ht Hu.
  destruct (repeatM_run (λ k x s', s' = s ∧ ∃ j, (j ≤ length bs)%nat ∧ k = (length bs - j)%nat ∧ x = (Z.of_nat j, of_bool (bare_newline (take j bs))))
    (λ x s', s' = s ∧ snd x = of_bool (bare_newline bs)) (newline_char (Z.of_nat (length bs)))) with (k := length bs) (i := (0, 1)) (s := s)
    as ([i x] & s' & E & -> & Hx).
  - intros k x s' (-> & j & Hj & -> & ->). unfold newline_char. destruct (bs !! j) as [c|] eqn:Hc.
    + pose proof (lookup_lt_Some _ _ _ Hc). zb_true (Z.of_nat j <? Z.of_nat (length bs)). rewrite (bind_some (reads _) _ _ _ _ eq_refl).
      erewrite bind_some by (unfold liftO; rewrite (char_at_take _ bs (length bs) j c Ht Hc); reflexivity).
      pose proof (proj1 (Forall_lookup _ _) Hu j c Hc) as Hc8. rewrite !i8_eqb by done.
      do 2 eexists. split; [reflexivity|]. exists (length bs - S j)%nat. split; [lia|]. split; [done|]. exists (S j). split; [lia|].
      split; [done|]. rewrite i32_small by word_lia. rewrite (take_S_r _ _ _ Hc). unfold bare_newline. rewrite forallb_app. cbn [forallb].
      f_equal; [lia|]. by destruct (forallb _ (take j bs)), (c =? 10), (c =? 13).
    + apply lookup_ge_None in Hc. replace j with (length bs) in * by lia. rewrite Z.ltb_irrefl. do 2 eexists. split; [reflexivity|].
      split; [done|]. by rewrite firstn_all.
  - split; [done|]. exists 0%nat. split_and!; [lia|lia|done].
  - unfold LOOP_BOUND. lia.
  - cbn [snd] in Hx. subst x. by exists i.
Qed.

Context `{!NetBounds K}.

(** The state after a part of a session: only the buffer, the kernel and the
    events have changed. *)
Definition after (s : sv) (k : K) (es : list event) (s' : sv) : Prop :=
  ∃ b, length b = 512%nat ∧ s' = Sv (server_fd s) (client_fd s) (n s) b (msg_buf s) (msg_i s) k (events s ++ es).

Lemma receive_closed s r bs k' : length (recv_buf s) = 512%nat → net_recv (client_fd s) 511 (net s) = (r, bs, k') → i32 r ≤ 0 →
  ∃ s', receive tt s = Some (inr tt, s') ∧ after s k' [] s'.
Proof using All.
  intros Hb Er Hr. rewrite (recv_nothing _ _ _ _ _ _ Er Hr) in Er. unfold receive. rewrite (bind_some (reads _) _ _ _ _ eq_refl).
  erewrite bind_some by (unfold sys_recv; rewrite Er; reflexivity). zb_true (i32 r <=? 0).
  eexists. split; [reflexivity|]. exists (recv_buf s). rewrite app_nil_r. done.
Qed.

Lemma receive_chunk s r bs k1 q k2 : length (recv_buf s) = 512%nat → net_recv (client_fd s) 511 (net s) = (r, bs, k1) → 0 < i32 r →
  net_send (client_fd s) bs k1 = (q, k2) →
  ∃ s', receive tt s = Some (if bare_newline bs then inr tt else inl tt, s') ∧ after s k2 [Send (client_fd s) bs] s'.
Proof using All.
  intros Hb Er Hr Es. destruct (recv_bound _ _ _ _ _ _ Er ltac:(lia) Hr) as (Hl & Hmax & Hu). unfold receive.
  rewrite (bind_some (reads _) _ _ _ _ eq_refl).
  erewrite bind_some by (unfold sys_recv; rewrite Er, decide_True by lia; reflexivity). zb_false (i32 r <=? 0).
  set (b1 := bs ++ drop (length bs) (recv_buf s)). assert (length b1 = 512%nat) as Hb1 by (unfold b1; rewrite length_app, length_drop; lia).
  destruct (put_at_next b1 bs 0 (i32 r)) as (b2 & E2 & Hb2 & Ht2); [apply take_app_length|lia|lia|].
  erewrite bind_some by (cbn [recv_buf set_recv set_net]; fold b1; rewrite E2; reflexivity).
  assert (take (length bs) b2 = bs) as Ht.
  { apply (f_equal (take (length bs))) in Ht2. rewrite take_take, take_app_length in Ht2. by replace (length bs `min` S (length bs))%nat with (length bs) in Ht2 by lia. }
  erewrite bind_some.
  2:{ unfold sys_send. cbn [recv_buf set_recv set_net]. rewrite decide_True by lia. replace (Z.to_nat (i32 r)) with (length bs) by lia.
      rewrite Ht. cbn [net set_recv set_net]. rewrite Es. reflexivity. }
  match goal with |- context [(_ <- repeatM _ _;; _) ?s] => destruct (newline_ok (i32 r) bs s) as (i & E3) end; [lia|lia|exact Ht|done|].
  rewrite (bind_some _ _ _ _ _ E3). cbn [snd]. eexists. split; [by destruct (bare_newline bs)|]. exists b2. split; [congruence|]. reflexivity.
Qed.

Lemma session_loop cs : ∀ s k', length (recv_buf s) = 512%nat → session (client_fd s) (net s) cs k' → Z.of_nat (length cs) < 4294967295 →
  ∃ s', repeatM receive tt s = Some (tt, s') ∧ after s k' (map (Send (client_fd s)) cs) s'.
Proof using All.
  intros s k' Hb Hs Hl.
  destruct (repeatM_run (λ k (_ : unit) s', ∃ k1 done cs1 b, done ++ cs1 = cs ∧ k = length cs1 ∧ session (client_fd s) k1 cs1 k' ∧ length b = 512%nat ∧
      s' = Sv (server_fd s) (client_fd s) (n s) b (msg_buf s) (msg_i s) k1 (events s ++ map (Send (client_fd s)) done))
    (λ _ s', after s k' (map (Send (client_fd s)) cs) s') receive) with (k := length cs) (i := tt) (s := s) as ([] & s' & E & Ha).
  - intros k [] s1 (k1 & done & cs1 & b & <- & -> & Hs1 & Hb1 & ->).
    inversion Hs1 as [k0 r bs k2 Er Hr|k0 r bs k2 q k3 Er Hr Es Hn|k0 r bs k2 q k3 cs2 k4 Er Hr Es Hn Hs2]; subst.
    + edestruct receive_closed as (s2 & E2 & b2 & Hb2 & ->); [..|do 2 eexists; split; [exact E2|]]; [exact Hb1|exact Er|exact Hr|].
      exists b2. cbn. by rewrite !app_nil_r.
    + edestruct receive_chunk as (s2 & E2 & b2 & Hb2 & ->); [..|do 2 eexists; split; [exact E2|]]; [exact Hb1|exact Er|exact Hr|exact Es|].
      rewrite Hn. exists b2. cbn. by rewrite <- app_assoc, map_app.
    + edestruct receive_chunk as (s2 & E2 & b2 & Hb2 & ->); [..|do 2 eexists; split; [exact E2|]]; [exact Hb1|exact Er|exact Hr|exact Es|].
      rewrite Hn. exists (length cs2). split; [simpl; lia|]. exists k3, (done ++ [bs]), cs2, b2. rewrite <- app_assoc. cbn.
      by rewrite <- app_assoc, map_app.
  - exists (net s), [], cs, (recv_buf s). cbn. rewrite app_nil_r. by destruct s.
  - unfold LOOP_BOUND. lia.
  - by exists s'.
Qed.

Definition CONNECTED : event := Print (lit "echo_server: client connected" ++ [10]).
Definition DISCONNECTED : event := Print (lit "echo_server: client disconnected" ++ [10]).
Definition session_events (fd : Z) (cs : list (list Z)) : list event :=
  [CONNECTED] ++ map (Send fd) cs ++ [Close fd; DISCONNECTED].

Lemma handle_client_ok s cs k' : length (recv_buf s) = 512%nat → session (client_fd s) (net s) cs k' → Z.of_nat (length cs) < 4294967295 →
  ∃ s', handle_client s = Some (tt, s') ∧ after s (snd (net_close (client_fd s) k')) (session_events (client_fd s) cs) s'.
Proof using All.
  intros Hb Hs Hl. unfold handle_client. erewrite bind_some by reflexivity.
  edestruct (session_loop cs (emit CONNECTED s)) as (s1 & E & b & Hb1 & ->); [..|rewrite (bind_some _ _ _ _ _ E)]; [exact Hb|exact Hs|done|].
  rewrite (bind_some (reads _) _ _ _ _ eq_refl). unfold sys_sockclose. cbn [client_fd emit].
  destruct (net_close (client_fd s) k') as [r k2] eqn:Ec. erewrite bind_some by (cbn [net]; rewrite Ec; reflexivity).
  eexists. split; [reflexivity|]. exists b. split; [done|]. unfold session_events, emit, set_net.
  cbn [server_fd client_fd n recv_buf msg_buf msg_i net events]. rewrite <- !app_assoc. reflexivity.
Qed.

(** ** Clients one after the other *)

(** The kernel's side of the accept loop: an error, or a client and its session. *)
Inductive clients (fd : Z) : K → list (option (Z * list (list Z))) → K → Prop :=
  | clients_nil k : clients fd k [] k
  | clients_error k r k1 l k2 : net_accept fd k = (r, k1) → i32 r < 0 → clients fd k1 l k2 → clients fd k (None :: l) k2
  | clients_session k r k1 cs k2 l k3 : net_accept fd k = (r, k1) → 0 ≤ i32 r → session (i32 r) k1 cs k2 →
      Z.of_nat (length cs) < 4294967295 → clients fd (snd (net_close (i32 r) k2)) l k3 →
      clients fd k (Some (i32 r, cs) :: l) k3.
Definition client_events (c : option (Z * list (list Z))) : list event :=
  match c with
  | None => [Print (lit "echo_server: accept() error, retrying" ++ [10])]
  | Some (fd, cs) => session_events fd cs
  end.

Lemma serve_ok l : ∀ s k', length (recv_buf s) = 512%nat → clients (server_fd s) (net s) l k' →
  ∃ s', serve (length l) s = Some (tt, s') ∧ events s' = events s ++ concat (map client_events l) ∧ net s' = k' ∧
    length (recv_buf s') = 512%nat.
Proof using All.
  induction l as [|c l IH]; intros s k' Hb Hc; inversion Hc as [|k r k1 l' k2 Ea Hr Hl|k r k1 cs k2 l' k3 Ea Hr Hs Hn Hl]; subst.
  { exists s. cbn. by rewrite app_nil_r. }
  - cbn [length serve]. set (s1 := emit (Print (lit "echo_server: accept() error, retrying" ++ [10])) (set_client (i32 r) (set_net k1 s))).
    erewrite bind_some. 2:{ unfold accept_client. rewrite (bind_some (reads _) _ _ _ _ eq_refl).
      erewrite bind_some by (unfold sys_accept, call; rewrite Ea; reflexivity). erewrite bind_some by reflexivity.
      zb_true (i32 r <? 0). instantiate (1 := s1). reflexivity. }
    destruct (IH s1 k' Hb Hl) as (s' & E & He & Hk & Hb'). exists s'. split; [done|]. split; [|done]. rewrite He. cbn. by rewrite <- app_assoc.
  - cbn [length serve]. destruct (handle_client_ok (set_client (i32 r) (set_net k1 s)) cs k2 Hb Hs Hn) as (s1 & E1 & b & Hb1 & ->).
    erewrite bind_some. 2:{ unfold accept_client. rewrite (bind_some (reads _) _ _ _ _ eq_refl).
      erewrite bind_some by (unfold sys_accept, call; rewrite Ea; reflexivity). erewrite bind_some by reflexivity.
      zb_false (i32 r <? 0). exact E1. }
    edestruct IH as (s' & E & He & Hk & Hb'); [..|exists s'; split; [exact E|]]; [exact Hb1|exact Hl|]. split; [|done].
    rewrite He. cbn. by rewrite <- app_assoc.
Qed.

Definition say (t : string) : event := Print (lit t ++ [10]).
Definition OPENING (fd : Z) : list event :=
  [say "echo_server: starting on port 8080"; Print (lit "echo_server: server_fd=" ++ dec_text fd ++ [10]);
   say "echo_server: listening -- connect with: chat 127.0.0.1 8080"; say "echo_server: send an empty line to close a session."].

Lemma open_ok k r k1 : net_socket 1 k = (r, k1) → 0 ≤ i32 r →
  ∃ b i, open_server (globals k) = listen_on (i32 r) (Sv (i32 r) 0 0 (replicate 512 0) b i k1 (take 2 (OPENING (i32 r)))).
Proof using Type.
  intros Es Hr. unfold open_server. erewrite bind_some by reflexivity.
  erewrite bind_some by (unfold sys_socket, call; cbn [net globals emit]; rewrite Es; reflexivity).
  erewrite bind_some by reflexivity. zb_false (i32 r <? 0).
  edestruct (print_int_nl_ok (lit "echo_server: server_fd=") (i32 r)) as (b & i & Ep & Hb2); [..|rewrite (bind_some _ _ _ _ _ Ep)].
  - vm_compute. repeat constructor; done.
  - done.
  - pose proof (i32_bound r). unfold is_i32 in *. lia.
  - done.
  - exists b, i. reflexivity.
Qed.

(** [C20] The server: it opens port 8080 and then, for every client that the kernel
    hands it, sends back every chunk of bytes it receives, unchanged and in order,
    until the client closes or sends an empty line, and closes that client's socket;
    an accept error is reported and the loop goes on.  No access leaves a buffer. *)
Theorem echo_server_echoes k r k1 rb k2 rl k3 l k4 :
  net_socket 1 k = (r, k1) → 0 ≤ i32 r → net_bind (i32 r) 8080 k1 = (rb, k2) → 0 ≤ i32 rb →
  net_listen (i32 r) k2 = (rl, k3) → 0 ≤ i32 rl → clients (i32 r) k3 l k4 →
  ∃ s, main (length l) (globals k) = Some (None, s) ∧ events s = OPENING (i32 r) ++ concat (map client_events l) ∧ net s = k4.
Proof using All.
  intros Es Hr Eb Hb El Hl Hc. destruct (open_ok k r k1 Es Hr) as (b & i & Eo). unfold main. erewrite bind_some.
  2:{ rewrite Eo. unfold listen_on. erewrite bind_some by (unfold sys_bind, call; cbn [net]; rewrite Eb; reflexivity).
      erewrite bind_some by reflexivity. zb_false (i32 rb <? 0).
      erewrite bind_some by (unfold sys_listen, call; cbn [net set_net set_n]; rewrite El; reflexivity).
      erewrite bind_some by reflexivity. zb_false (i32 rl <? 0). do 2 (erewrite bind_some by reflexivity). reflexivity. }
  edestruct (serve_ok l) as (s' & E & He & Hk & _); [..|rewrite (bind_some _ _ _ _ _ E)]; [reflexivity|exact Hc|].
  exists s'. split; [done|]. split; [|done]. rewrite He. reflexivity.
Qed.

(** [C36] When a call fails on the way, the server says so, closes the socket it has
    and returns 1. *)
Theorem echo_server_fails k r k1 rb k2 rl k3 rounds :
  net_socket 1 k = (r, k1) → net_bind (i32 r) 8080 k1 = (rb, k2) → net_listen (i32 r) k2 = (rl, k3) →
  (i32 r < 0 → ∃ s, main rounds (globals k) = Some (Some 1, s) ∧
     events s = [say "echo_server: starting on port 8080"; say "echo_server: socket() failed"]) ∧
  (0 ≤ i32 r → i32 rb < 0 → ∃ s, main rounds (globals k) = Some (Some 1, s) ∧
     events s = take 2 (OPENING (i32 r)) ++ [say "echo_server: bind() failed"; Close (i32 r)]) ∧
  (0 ≤ i32 r → 0 ≤ i32 rb → i32 rl < 0 → ∃ s, main rounds (globals k) = Some (Some 1, s) ∧
     events s = take 2 (OPENING (i32 r)) ++ [say "echo_server: listen() failed"; Close (i32 r)]).
Proof using Type.
  intros Es Eb El. split; [|split].
  - intros Hr. unfold main, open_server. erewrite bind_some.
    2:{ erewrite bind_some by reflexivity. erewrite bind_some by (unfold sys_socket, call; cbn [net globals emit]; rewrite Es; reflexivity).
        erewrite bind_some by reflexivity. zb_true (i32 r <? 0). reflexivity. }
    by eexists.
  - intros Hr Hb. destruct (open_ok k r k1 Es Hr) as (b & i & Eo). destruct (net_close (i32 r) k2) as [rc k4] eqn:Ec.
    unfold main. erewrite bind_some.
    2:{ rewrite Eo. unfold listen_on. erewrite bind_some by (unfold sys_bind, call; cbn [net]; rewrite Eb; reflexivity).
        erewrite bind_some by reflexivity. zb_true (i32 rb <? 0). erewrite bind_some by reflexivity.
        erewrite bind_some by (unfold sys_sockclose; cbn [net emit set_net set_n]; rewrite Ec; reflexivity). reflexivity. }
    by eexists.
  - intros Hr Hb Hl. destruct (open_ok k r k1 Es Hr) as (b & i & Eo). destruct (net_close (i32 r) k3) as [rc k4] eqn:Ec.
    unfold main. erewrite bind_some.
    2:{ rewrite Eo. unfold listen_on. erewrite bind_some by (unfold sys_bind, call; cbn [net]; rewrite Eb; reflexivity).
        erewrite bind_some by reflexivity. zb_false (i32 rb <? 0).
        erewrite bind_some by (unfold sys_listen, call; cbn [net set_net set_n]; rewrite El; reflexivity).
        erewrite bind_some by reflexivity. zb_true (i32 rl <? 0). erewrite bind_some by reflexivity.
        erewrite bind_some by (unfold sys_sockclose; cbn [net emit set_net set_n]; rewrite Ec; reflexivity). reflexivity. }
    by eexists.
Qed.
End server.

(** ** A kernel with a script: the chunks of the clients to come *)

Definition script := list (list (list Z)).
Definition scripted_recv (max : Z) (k : script) : Z * list Z * script :=
  match k with
  | (c :: cs) :: r => let bs := take (Z.to_nat (Z.min 511 max)) (map u8 c) in (Z.of_nat (length bs), bs, cs :: r)
  | _ => (0, [], k)
  end.
#[local] Instance script_net : Net script := {|
  net_socket _ k := (3, k); net_bind _ _ k := (0, k); net_listen _ k := (0, k);
  net_accept _ k := (match k with [] => -1 | _ => 4 end, k);
  net_recv _ max k := scripted_recv max k;
  net_send _ bs k := (Z.of_nat (length bs), k);
  net_close _ k := (0, tail k)
|}.
#[local] Instance script_bounds : NetBounds script.
Proof.
  split; intros fd max k n bs k' E; cbn [net_recv script_net] in E; unfold scripted_recv in E.
  - intros Hm Hn. destruct k as [|[|c cs] k]; [simplify_eq; by vm_compute in Hn|simplify_eq; by vm_compute in Hn|].
    set (t := take (Z.to_nat (Z.min 511 max)) (map u8 c)) in E. assert (Z.of_nat (length t) ≤ Z.min 511 max) as Hl by (unfold t; rewrite length_take; lia).
    assert (Forall is_u8 t) as Hu by (apply Forall_take, Forall_map, Forall_forall; intros x _; apply u8_bound). clearbody t.
    injection E as <- <- <-. rewrite i32_small in Hn |- * by word_lia. split; [done|]. split; [lia|done].
  - intros Hn. destruct k as [|[|c cs] k]; [by simplify_eq|by simplify_eq|].
    set (t := take (Z.to_nat (Z.min 511 max)) (map u8 c)) in E. assert (Z.of_nat (length t) ≤ 511) as Hl by (unfold t; rewrite length_take; lia).
    clearbody t. injection E as <- <- <-. rewrite i32_small in Hn by word_lia. apply nil_length_inv. lia.
Qed.

Definition two_clients : script := [[lit "hello"; [10]]; [lit "bye"]].
Lemma two_clients_run : clients 3 two_clients [Some (4, [lit "hello"; [10]]); Some (4, [lit "bye"]); None] [].
Proof.
  eapply (clients_session 3 two_clients 4); [reflexivity|done| |done|].
  { eapply session_chunk; [reflexivity|reflexivity|reflexivity|reflexivity|]. eapply session_newline; reflexivity. }
  eapply (clients_session _ _ 4); [reflexivity|done| |done|].
  { eapply session_chunk; [reflexivity|reflexivity|reflexivity|reflexivity|]. by eapply session_closed. }
  eapply clients_error; [reflexivity|reflexivity|]. apply clients_nil.
Qed.

Lemma echo_server_echoes_witness :
  ∃ s, main 3 (globals two_clients) = Some (None, s) ∧
    events s = OPENING 3 ++ [CONNECTED; Send 4 (lit "hello"); Send 4 [10]; Close 4; DISCONNECTED; CONNECTED; Send 4 (lit "bye"); Close 4;
      DISCONNECTED; say "echo_server: accept() error, retrying"].
Proof.
  destruct (echo_server_echoes two_clients 3 two_clients 0 two_clients 0 two_clients
    [Some (4, [lit "hello"; [10]]); Some (4, [lit "bye"]); None] []) as (s & E & He & _);
    [reflexivity|by vm_compute|reflexivity|by vm_compute|reflexivity|by vm_compute|exact two_clients_run|].
  exists s. split; [exact E|exact He].
Defined.

(** A kernel without sockets. *)
Definition no_net : Net script := {|
  net_socket _ k := (-1, k); net_bind _ _ k := (-1, k); net_listen _ k := (-1, k); net_accept _ k := (-1, k);
  net_recv _ _ k := (0, [], k); net_send _ _ k := (-1, k); net_close _ k := (-1, k)
|}.
Lemma echo_server_fails_witness :
  ∃ s, main (H := no_net) 0 (globals []) = Some (Some 1, s) ∧
    events s = [say "echo_server: starting on port 8080"; say "echo_server: socket() failed"].
Proof.
  by apply (echo_server_fails (H := no_net) [] (-1) [] (-1) [] (-1) [] 0).
Defined.
