(* ===== verification/Programs.v ===== *)
(** * Programs on top of the library

    What the utilities of [c/prog] share: the library calls as the programs write
    them, with string constants where [lits] puts them; the console as the place
    where a program's text is shown ([Console]); and the life of a program that opens
    one file, reads it, prints and closes it ([session]).  The programs themselves are
    in [Tools] and [ElfInfo]. *)

From S2P Require Import Prelude CMem CString CStdlib Heap HeapSpec Alloc Sys Posix Format Printf Stream StreamSpec FileRead Args GetOpt.

#[local] Open Scope string_scope.
#[local] Open Scope Z_scope.
#[local] Open Scope list_scope.

Section calls.
Context {H K : Type} `{Allocator H} `{Kernel K}.
Context (std : handles) (lits : string → Z) (args_answer : Z) (args_bytes : list Z) (args_buf : Z).
Abbreviation IO := (M (io H K)).

(** What the formatter writes goes through [fwrite]; a fault of the stream is a
    fault of the call. *)
#[export] Instance io_sink : ByteSink (option (io H K)) := {|
  write_chunk w f c :=
    match w with
    | None => (false, None)
    | Some s =>
        match fwrite (Local c) 1 (Z.of_nat (length c)) f s with
        | Some (n, s') => (n =? Z.of_nat (length c), Some s')
        | None => (false, None)
        end
    end
|}.
Definition c_fprintf (f : Z) (fmt : string) (args : list Z) : IO Z := λ s,
  '(r, w) ← fprintf (p_mem (io_proc s)) (Some s) f (lits fmt) args; s' ← w; Some (r, s').
Definition c_printf (fmt : string) (args : list Z) : IO Z := c_fprintf (h_stdout std) fmt args.

Definition with_memory {A} (f : mem → option (A * mem)) : IO A := λ s,
  '(a, m) ← f (p_mem (io_proc s)); lift (λ p, Some (a, with_mem m p)) s.
(** [mv_args(name, args, sizeof args, argv, MV_ARGS_MAX)] *)
Definition c_mv_args (name : string) : IO (Z * list Z) :=
  with_memory (λ m, '(argc, argv, m) ← mv_args args_answer args_bytes m (lits name) args_buf 512 32; Some ((argc, argv), m)).
Definition c_getopt (argc : Z) (optstring : string) (o : opts) : IO (Z * opts) := λ s,
  r ← getopt (p_mem (io_proc s)) argc (lits optstring) o; Some (r, s).
(** The globals of [getopt] at the start of a program that sets [opterr = 0]. *)
Definition quiet (argv : list Z) : opts := Opts 0 1 0 0 0 argv [].
Definition whenM {S} (b : bool) (c : M S Z) : M S unit := if b then c;;; ret tt else ret tt.
End calls.

(** ** The console *)

Lemma crlf_app t u : crlf (t ++ u) = crlf t ++ crlf u.
Proof. induction t as [|c t IH]; [done|]. cbn [app]. by rewrite !crlf_cons, IH, app_assoc. Qed.

Definition newlines (t : list Z) : Z := Z.of_nat (length (filter (λ c, c = 10) t)).
Lemma newlines_app t u : newlines (t ++ u) = newlines t + newlines u.
Proof. unfold newlines. rewrite filter_app, length_app. lia. Qed.
Lemma newlines_cons c t : newlines (c :: t) = (if c =? 10 then 1 else 0) + newlines t.
Proof. unfold newlines. destruct (Z.eqb_spec c 10); [rewrite filter_cons_True by done; cbn [length]; lia|by rewrite filter_cons_False]. Qed.
Lemma newlines_nonneg t : 0 ≤ newlines t.
Proof. unfold newlines. lia. Qed.
Lemma newlines_length t : newlines t ≤ Z.of_nat (length t).
Proof. unfold newlines. pose proof (length_filter (λ c, c = 10) t). lia. Qed.
Lemma conv_newlines k sp a : newlines (conv_text k sp a) = 0.
Proof.
  pose proof (conv_printable k sp a) as Hp. induction Hp as [|c u Hc _ IH]; [done|]. rewrite newlines_cons, IH. unfold printable in Hc. by zb_false (c =? 10).
Qed.
Lemma crlf_length t : Z.of_nat (length (crlf t)) = Z.of_nat (length t) + newlines t.
Proof. induction t as [|c t IH]; [done|]. rewrite crlf_cons, newlines_cons, length_app. destruct (c =? 10); simpl; lia. Qed.

Section console.
Context {H K : Type} `{AllocatorLaws H} `{FileDisk K}.
#[local] Set Default Proof Using "Type*".

(** What the console has shown; the kernel takes all of a short text written to it. *)
Class Console := {
  shown : obs_t → list Z;
  show_law : ∀ k bs, (length bs < CRLF_SIZE)%nat → ∃ r rs k', int80 (SYS_WRITE 1 bs) k = (r, rs, k') ∧ i32 r = Z.of_nat (length bs) ∧
    shown (obs k') = shown (obs k) ++ bs ∧ contents (obs k') = contents (obs k);
}.
Context `{!Console}.

(** A console stream: [stdout] and [stderr]. *)
Definition screen (f : Z) (s : io H K) : Prop := f ≠ 0 ∧ ∃ F, io_files s !! f = Some F ∧ f_is_console F ≠ 0.

(** The step from [s] to a state that differs in the kernel, which has shown [t]. *)
Definition shows (t : list Z) (s s' : io H K) : Prop :=
  ∃ k, s' = with_kern_io k s ∧ shown (obs k) = shown (obs (kern_of s)) ++ crlf t ∧ contents (obs k) = contents (obs (kern_of s)).

Lemma with_kern_same (s : io H K) : with_kern_io (kern_of s) s = s.
Proof. by destruct s as [[]]. Qed.
Lemma shows_nil s : shows [] s s.
Proof. exists (kern_of s). rewrite with_kern_same. cbn. by rewrite app_nil_r. Qed.
Lemma shows_trans t u s1 s2 s3 : shows t s1 s2 → shows u s2 s3 → shows (t ++ u) s1 s3.
Proof. intros (k & -> & Hs & Hc) (k' & -> & Hs' & Hc'). exists k'. split; [done|]. cbn in *. rewrite Hs', Hs, Hc', Hc. by rewrite crlf_app, app_assoc. Qed.
Lemma screen_shows f t s s' : shows t s s' → screen f s → screen f s'.
Proof. by intros (k & -> & _). Qed.

Lemma fwrite_shows f t (s : io H K) : screen f s → t ≠ [] → (length (crlf t) < CRLF_SIZE)%nat →
  ∃ s', fwrite (Local t) 1 (Z.of_nat (length t)) f s = Some (Z.of_nat (length t), s') ∧ shows t s s'.
Proof.
  intros (H0' & F & HF & Hc) Hne Hl. destruct (show_law (kern_of s) (crlf t) Hl) as (r & rs & k & E & Hr & Hs & Hcs).
  pose proof (console_text s f F t r rs k HF H0' Hc Hne Hl E) as Ew. rewrite Hr, Z.eqb_refl in Ew. eexists. split; [exact Ew|]. by exists k.
Qed.

Lemma putchar_shows std c (s : io H K) : screen (h_stdout std) s → is_u8 c → ∃ s', putchar std (i8 c) s = Some (c, s') ∧ shows [c] s s'.
Proof.
  intros Hs Hu. destruct (fwrite_shows (h_stdout std) [c] s Hs) as (s' & Ew & Hsh); [done| |].
  { rewrite crlf_cons. unfold CRLF_SIZE. destruct (c =? 10); simpl; lia. }
  exists s'. split; [|done]. unfold putchar, fputc. rewrite u8_i8, u8_small by done. change (Z.of_nat (length [c])) with 1 in Ew.
  erewrite bind_some by (rewrite (bind_some _ _ _ _ _ Ew); reflexivity). unfold EOF, is_u8 in *. change (1 =? 1) with true. cbv iota. by zb_false (c =? -1).
Qed.

Lemma send_shows f cs : ∀ s : io H K, screen f s → Forall is_chunk cs → newlines (concat cs) < 256 →
  ∃ s', send (Some s) f cs = (true, Some s') ∧ shows (concat cs) s s'.
Proof.
  induction cs as [|c cs IH]; intros s Hs Hc Hn; [exists s; split; [done|apply shows_nil]|].
  apply Forall_cons in Hc as [[Hc0 Hc1] Hcs]. cbn [concat] in *. rewrite newlines_app in Hn. pose proof (newlines_nonneg c). pose proof (newlines_nonneg (concat cs)).
  destruct (fwrite_shows f c s Hs) as (s1 & E & Hs1).
  { intros ->. simpl in Hc0. lia. }
  { pose proof (crlf_length c). unfold CRLF_SIZE, OUT_CHUNK in *. lia. }
  cbn [send write_chunk io_sink]. rewrite E, Z.eqb_refl. destruct (IH s1) as (s2 & -> & Hs2); [by eapply screen_shows|done|lia|].
  exists s2. split; [done|]. by eapply shows_trans.
Qed.

(** [fprintf] to the console shows the text of the format. *)
Lemma c_fprintf_shows lits f fmt l args t k (s : io H K) : screen f s → formatted l fmt = true → cstr (mem_of_io s) (lits fmt) (lit fmt) →
  renders (mem_of_io s) k l args t → newlines t < 256 → Z.of_nat k ≤ 4294967296 → (length (lit fmt) + k < fuel (mem_of_io s))%nat →
  ∃ s', c_fprintf lits f fmt args s = Some (0, s') ∧ shows t s s'.
Proof.
  intros Hs [Hok Hft]%formatted_ok Hc Hr Hn Hk Hf. rewrite <- Hft in Hc, Hf. pose proof (printf_renders _ k l args t _ _ Hr Hok Hc Hk Hf) as Hren.
  destruct (fprintf_text (mem_of_io s) (Some s) f (lits fmt) args (length t) t Hren) as [Hp _].
  destruct Hp as (cs & <- & Hcs & E); [by destruct Hs|]. destruct (send_shows f cs s Hs Hcs Hn) as (s' & Es & Hsh). rewrite Es in E.
  exists s'. split; [|done]. unfold c_fprintf. unfold mem_of_io in E. rewrite E. done.
Qed.

(** ** One open file *)

(** The standard streams are static objects. *)
Definition static_handles (std : handles) : Prop :=
  h_stdin std < a_base ∧ h_stdout std < a_base ∧ h_stderr std < a_base.
(** [fopen] has found the memory it needs. *)
Definition opens (path mode : Z) (s : io H K) : Prop :=
  ∃ f s1 F, fopen path mode s = Some (f, s1) ∧ f ≠ 0 ∧ io_files s1 !! f = Some F ∧ f_rbuf F ≠ 0.

(** The state of a program that started in [s0] and has the file [bs] open, read up
    to [i], and has shown [out].  It writes only to the local arrays [stack]. *)
Record session (s0 : io H K) (l : list (Z * Z)) (stack : Z → Prop) (f : Z) (bs : list Z) (i : nat) (out : list Z) (s : io H K) : Prop := {
  se_file : ∃ F n sz, cached s f F bs i ∧ f_wbuf F = 0 ∧ held (heap_of s) ((f_rbuf F, n) :: (f, sz) :: l);
  se_f : f ≠ 0 ∧ a_base ≤ f;
  se_mem : ∀ x, x < a_base → ¬ stack x → mem_of_io s !! x = mem_of_io s0 !! x;
  se_mapped : ∀ x, x < a_base → is_Some (mem_of_io s0 !! x) → is_Some (mem_of_io s !! x);
  se_files : ∀ g, g ≠ f → io_files s !! g = io_files s0 !! g;
  se_shown : shown (obs (kern_of s)) = shown (obs (kern_of s0)) ++ crlf out;
  se_contents : contents (obs (kern_of s)) = contents (obs (kern_of s0))
}.

Section session.
Context (s0 : io H K) (l : list (Z * Z)) (stack : Z → Prop) (bs : list Z).

(** Strings of the program and of its caller, and a static array, which stay. *)
Definition fixed (a : Z) (t : list Z) : Prop :=
  cstr (mem_of_io s0) a t ∧ 0 < a < 4294967296 ∧ ∀ x, a ≤ x ≤ a + Z.of_nat (length t) → x < a_base ∧ ¬ stack x.
Definition static_array (a n : Z) : Prop := ∀ x, a ≤ x < a + n → is_Some (mem_of_io s0 !! x) ∧ x < a_base ∧ ¬ stack x.

Lemma fixed_string a t : fixed a t → string_at s0 l a t.
Proof.
  intros ([Hs Hc] & Ha & Hx). split; [|split; [done|lia]]. split; [done|]. intros x Hr. left. apply Hx. rewrite length_app in Hr. simpl in Hr. lia.
Qed.
Definition memory_kept (s : io H K) : Prop := ∀ x, x < a_base → ¬ stack x → mem_of_io s !! x = mem_of_io s0 !! x.
Lemma fixed_cstr s a t : memory_kept s → fixed a t → cstr (mem_of_io s) a t.
Proof.
  intros Hm ([Hs Hc] & _ & Hx). split; [|done]. eapply seg_lookup_eq; [|exact Hs].
  intros x Hr. rewrite length_app in Hr. simpl in Hr. destruct (Hx x); [lia|]. by rewrite Hm.
Qed.
Lemma array_fuel s a n : memory_kept s → static_array a n → 0 ≤ n → (Z.to_nat n < fuel (mem_of_io s))%nat.
Proof.
  intros Hm Ha Hn. assert (mapped (mem_of_io s) a n) as Hmap.
  { intros x Hx. destruct (Ha x Hx) as (Hs & Hb & Hst). by rewrite Hm. }
  pose proof (mapped_size _ _ _ Hn Hmap). unfold fuel. lia.
Qed.

(** The file a program is told to read: it exists, its name and the mode are in
    memory, and there is room to open it. *)
Record input (std : handles) (lits : string → Z) (path : Z) (name : list Z) : Prop := {
  in_std : static_handles std;
  in_opens : opens path (lits "rb") s0;
  in_path : fixed path name;
  in_mode : fixed (lits "rb") (lit "rb");
  in_file : contents (obs (kern_of s0)) name = Some bs;
  in_u8 : Forall is_u8 bs;
  in_size : Z.of_nat (length bs) < HeapSpec.MAX_REQUEST;
  in_held : held (heap_of s0) l
}.

Lemma session_open std lits path name : input std lits path name →
  ∃ f s, fopen path (lits "rb") s0 = Some (f, s) ∧ f ≠ 0 ∧ session s0 l stack f bs 0 [] s.
Proof.
  intros [_ (f & s1 & F & E & Hf & HF & Hr) Hp%fixed_string Hm%fixed_string Hc Hu Hb Hh].
  destruct (fopen_reads path name (lits "rb") bs s0 l Hp Hm Hc Hu Hb Hh) as (f' & s' & E' & Hk & Hkp & Hor). simplify_eq.
  destruct Hor as [|(F' & sz & _ & HF' & Hfd & Hug & Hwb & Hfs & [|(n & HR & Hh')])]; [done|congruence|].
  exists f, s1. split; [done|]. split; [done|]. destruct (held_block _ _ f sz Hh') as (Hbase & _); [by right; left|].
  split; [by exists F', n, sz|done| | |done|by rewrite Hk, app_nil_r|by rewrite Hk]; intros x Hx ?; [apply Hkp; by left|]. by rewrite Hkp by by left.
Qed.

Lemma screen_session f g i out s : session s0 l stack f bs i out s → screen g s0 → g < a_base → screen g s.
Proof. intros [_ [_ Hf] _ _ Hfs _ _] (Hg & F & HF & Hc) Hb. split; [done|]. exists F. by rewrite Hfs by lia. Qed.

(** Printing. *)
Lemma session_shows f i out t s s' : session s0 l stack f bs i out s → shows t s s' → session s0 l stack f bs i (out ++ t) s'.
Proof.
  intros [(F & n & sz & [HF Hb Hu Hl Hp Hi Hs H8] & Hw & Hh) Hf Hm Hmp Hfs Hsh Hc] (k & -> & Hk & Hkc).
  split; try done; cbn in *; [|by rewrite Hk, Hsh, crlf_app, app_assoc|by rewrite Hkc]. exists F, n, sz. split; [|done]. by split.
Qed.

Lemma session_print lits f g i out fmt p args t k a n s : session s0 l stack f bs i out s → screen g s0 → g < a_base →
  formatted p fmt = true → fixed (lits fmt) (lit fmt) → renders (mem_of_io s) k p args t → newlines t < 256 →
  static_array a n → 0 ≤ n < 4294967296 → Z.of_nat (length (lit fmt) + k) ≤ n →
  ∃ s', c_fprintf lits g fmt args s = Some (0, s') ∧ session s0 l stack f bs i (out ++ t) s'.
Proof.
  intros Hse Hg Hb Hfm Hc Hr Hn Ha Hn0 Hk. pose proof (array_fuel s a n (se_mem _ _ _ _ _ _ _ _ Hse) Ha ltac:(lia)) as Hf.
  destruct (c_fprintf_shows lits g fmt p args t k s) as (s' & E & Hs); try done; [by eapply screen_session|by eapply fixed_cstr; [exact (se_mem _ _ _ _ _ _ _ _ Hse)|]|lia|lia|].
  exists s'. split; [done|]. by eapply session_shows.
Qed.

(** Writing to a local array. *)
Lemma session_write f i out s a ds : session s0 l stack f bs i out s → a + Z.of_nat (length ds) ≤ a_base →
  (∀ x, a ≤ x < a + Z.of_nat (length ds) → stack x) →
  session s0 l stack f bs i out (with_mem_io (write (mem_of_io s) a ds) s).
Proof.
  intros [(F & n & sz & [HF Hb Hu Hl Hp Hi Hs H8] & Hw & Hh) Hf Hm Hmp Hfs Hsh Hc] Hb' Ha. split; try done.
  - exists F, n, sz. split; [|split; [done|by apply held_write]]. split; try done. rewrite mem_with_mem. apply seg_write_disjoint; [|done].
    destruct (held_block _ _ (f_rbuf F) n Hh) as (Hbase & _); [by left|]. left. lia.
  - intros x Hx Hst. rewrite mem_with_mem. rewrite lookup_write_out; [by apply Hm|].
    intros Hr. by apply Hst, Ha.
  - intros x Hx Hs0. rewrite mem_with_mem. apply (mapped_write _ a ds x 1); [|lia]. intros y Hy. replace y with x by lia. by apply Hmp.
Qed.

(** Reading and seeking. *)
Lemma session_update f i j out s F n sz F' : session s0 l stack f bs i out s → cached s f F bs i → held (heap_of s) ((f_rbuf F, n) :: (f, sz) :: l) → f_wbuf F = 0 →
  cached (with_file f F' s) f F' bs j → same_buf F F' → f_wbuf F' = f_wbuf F → session s0 l stack f bs j out (with_file f F' s).
Proof.
  intros [_ Hf Hm Hmp Hfs Hsh Hc] HF Hh Hw HF' [Hsb _] Hw'. split; try done.
  - exists F', n, sz. split; [done|]. split; [congruence|]. by rewrite Hsb.
  - intros g Hg. cbn. rewrite lookup_insert_ne by done. by apply Hfs.
Qed.

Lemma session_fread f i out s n : session s0 l stack f bs i out s → 0 < n < 4294967296 →
  let t := take (Z.to_nat n) (drop i bs) in
  ∃ s', fread None 1 n f s = Some ((Z.of_nat (length t), t), s') ∧ session s0 l stack f bs (i + length t) out s'.
Proof.
  intros Hse Hn t. pose proof Hse as [(F & m & sz & HF & Hw & Hh) [Hf _] _ _ _ _ _].
  destruct (fread_cached n s f F bs i HF Hf Hn) as (F' & E & HF' & Hsb & Hw'). eexists. split; [exact E|]. by eapply session_update.
Qed.

Lemma session_fseek f i out s off : session s0 l stack f bs i out s → is_i32 off → Z.of_nat (length bs) < 4294967296 →
  if bool_decide (0 ≤ off ≤ Z.of_nat (length bs))
  then ∃ s', fseek f off SEEK_SET s = Some (0, s') ∧ session s0 l stack f bs (Z.to_nat off) out s'
  else ∃ s', fseek f off SEEK_SET s = Some (-1, s') ∧ session s0 l stack f bs i out s'.
Proof.
  intros Hse Ho Hl. pose proof Hse as [(F & m & sz & HF & Hw & Hh) [Hf _] _ _ _ _ _].
  destruct (fseek_cached s f F bs i off HF Hf Ho Hl) as [Hin Hout]. case_bool_decide as Hr.
  - destruct (Hin Hr) as (F' & E & HF' & Hsb & Hw'). eexists. split; [exact E|]. by eapply session_update.
  - destruct (Hout Hr) as (F' & E & HF' & Hsb & Hw'). eexists. split; [exact E|].
    destruct (session_update f i i out s F m sz F' Hse HF Hh Hw HF' Hsb Hw') as [(F2 & n2 & sz2 & [? ? ? ? ? ? ? ?] & ? & ?) ? ? ? ? ? ?].
    split; try done. exists F2, n2, sz2. split; [|done]. by split.
Qed.

(** Closing: only what was shown is left. *)
Definition closed (out : list Z) (s : io H K) : Prop :=
  held (heap_of s) l ∧ shown (obs (kern_of s)) = shown (obs (kern_of s0)) ++ crlf out ∧
  contents (obs (kern_of s)) = contents (obs (kern_of s0)) ∧ (∀ g, g < a_base → io_files s !! g = io_files s0 !! g) ∧
  (∀ x, x < a_base → ¬ stack x → mem_of_io s !! x = mem_of_io s0 !! x).
Lemma session_close std f i out s : session s0 l stack f bs i out s → static_handles std → ∃ r s', fclose std f s = Some (r, s') ∧ closed out s'.
Proof.
  intros [(F & n & sz & HF & Hw & Hh) [Hf Hbase] Hm Hmp Hfs Hsh Hc] (H0' & H1' & H2').
  destruct (fclose_reading std f F n sz l (drop i bs) s (cached_reading _ _ _ _ _ HF)) as (r & s' & E & Hh' & Hk & Hm' & Hf'); try lia; [exact Hh|].
  exists r, s'. split; [done|]. split; [done|]. split; [by rewrite Hk|]. split; [by rewrite Hk|]. split.
  - intros g Hg. rewrite Hf', lookup_delete_ne by lia. apply Hfs. lia.
  - intros x Hx Hst. rewrite Hm'. by apply Hm.
Qed.

(** Printing after the file was closed. *)
Lemma closed_shows out t s s' : closed out s → shows t s s' → closed (out ++ t) s'.
Proof.
  intros (Hh & Hsh & Hc & Hfs & Hm) (k & -> & Hk & Hkc). split; [done|]. cbn. rewrite Hk, Hkc, Hsh, crlf_app, app_assoc. done.
Qed.
Lemma screen_closed g out s : closed out s → screen g s0 → g < a_base → screen g s.
Proof. intros (_ & _ & _ & Hfs & _) (Hg & F & HF & Hc) Hb. split; [done|]. exists F. by rewrite Hfs. Qed.

(** ** A program's text *)

(** The console streams and the string constants of a program. *)
Record terminal (std : handles) (lits : string → Z) (strings : list string) (buf : Z) : Prop := {
  te_std : static_handles std;
  te_out : screen (h_stdout std) s0;
  te_err : screen (h_stderr std) s0;
  te_strings : Forall (λ x, fixed (lits x) (lit x) ∧ (length (lit x) < 250)%nat) strings;
  te_buf : static_array buf 512
}.
Context (std : handles).

Definition is_console (g : Z) : Prop := g = h_stdout std ∨ g = h_stderr std.
(** A state in which text can be printed, and a computation that only prints. *)
Definition ready (s : io H K) : Prop := (∀ g, is_console g → screen g s) ∧ memory_kept s.
Definition prints {A} (c : M (io H K) A) (a : A) (t : list Z) : Prop := ∀ s, ready s → ∃ s', c s = Some (a, s') ∧ shows t s s'.

Lemma ready_shows t s s' : shows t s s' → ready s → ready s'.
Proof. intros Hs [Hg Hm]. split; [intros g Hc; by eapply screen_shows, Hg|]. by destruct Hs as (k & -> & _). Qed.
Lemma prints_bind {A B} (c : M (io H K) A) (k : A → M (io H K) B) a b t u : prints c a t → prints (k a) b u → prints (bindM c k) b (t ++ u).
Proof.
  intros Hc Hk s Hs. destruct (Hc s Hs) as (s1 & E1 & S1). destruct (Hk s1 (ready_shows _ _ _ S1 Hs)) as (s2 & E2 & S2).
  exists s2. rewrite (bind_some _ _ _ _ _ E1). split; [exact E2|]. by eapply shows_trans.
Qed.

Context (lits : string → Z) (strings : list string) (buf : Z) (Hterm : terminal std lits strings buf).
Lemma ready_session f i out s : session s0 l stack f bs i out s → ready s.
Proof.
  intros Hse. split; [|exact (se_mem _ _ _ _ _ _ _ _ Hse)]. destruct Hterm as [(_ & Ho & He) Hso Hse' _ _].
  intros g [-> | ->]; by eapply screen_session.
Qed.
Lemma ready_closed out s : closed out s → ready s.
Proof.
  intros Hcl. split; [|by destruct Hcl as (_ & _ & _ & _ & Hm)]. destruct Hterm as [(_ & Ho & He) Hso Hse' _ _].
  intros g [-> | ->]; by eapply screen_closed.
Qed.
Lemma constant_held x : x ∈ strings → fixed (lits x) (lit x) ∧ (length (lit x) < 250)%nat.
Proof. intros Hx. pose proof (te_strings _ _ _ _ Hterm) as Hf. rewrite Forall_forall in Hf. by apply Hf. Qed.
Lemma ready_print g fmt p args t s : ready s → is_console g → fmt ∈ strings → formatted p fmt = true → renders (mem_of_io s) 250 p args t →
  newlines t < 256 → ∃ s', c_fprintf lits g fmt args s = Some (0, s') ∧ shows t s s'.
Proof.
  intros [Hg Hm] Hc Hf Hp Hr Hn. destruct (constant_held fmt Hf) as [Hx Hl]. pose proof (array_fuel s buf 512 Hm (te_buf _ _ _ _ Hterm) ltac:(lia)).
  eapply (c_fprintf_shows lits g fmt p args t 250 s); try done; [by apply Hg|by apply fixed_cstr|lia].
Qed.
Lemma prints_format g fmt p args t : is_console g → fmt ∈ strings → formatted p fmt = true →
  (∀ s, ready s → renders (mem_of_io s) 250 p args t) → newlines t < 256 → prints (c_fprintf lits g fmt args) 0 t.
Proof. intros Hg Hf Hp Hr Hn s Hs. eapply ready_print; try done. by apply Hr. Qed.
(** One string in a line. *)
Lemma prints_string g fmt pre post a u : is_console g → fmt ∈ strings → formatted (texts pre ++ Str plain :: texts post) fmt = true →
  fixed a u → (length u < 250)%nat → newlines (lit pre) + newlines (lit post) ≤ 1 → newlines u < 255 →
  prints (c_fprintf lits g fmt [a]) 0 (lit pre ++ u ++ lit post).
Proof.
  intros Hg Hf Hp Hu Hl Hn Hnu. eapply prints_format; try done; [|rewrite !newlines_app; lia].
  intros s [_ Hm]. apply renders_texts, renders_plain; [by destruct Hu as (_ & ? & _)|by apply fixed_cstr|done|].
  rewrite <- (app_nil_r (texts post)), <- (app_nil_r (lit post)). apply renders_texts, R_nil.
Qed.
End session.
End console.

(** ** A kernel with files and a console *)

Record fs := Fs { fs_files : gmap (list Z) (list Z); fs_shown : list Z }.
Definition word_bytes (n : Z) : list Z := [n `mod` 256; (n `div` 256) `mod` 256; (n `div` 65536) `mod` 256; (n `div` 16777216) `mod` 256].
Definition small_file (k : fs) (path : list Z) : option (list Z) :=
  bs ← fs_files k !! path; if decide (Z.of_nat (length bs) < 65536) then Some bs else None.
Definition fs_int80 (c : syscall) (k : fs) : Z * list Z * fs :=
  match c with
  | SYS_OPEN (Some path) _ => (3, [], k)
  | SYS_STAT (Some path) => match small_file k path with Some bs => (0, word_bytes (Z.of_nat (length bs)), k) | None => (-1, [], k) end
  | SYS_FREAD (Some path) => match small_file k path with Some bs => (Z.of_nat (length bs), bs, k) | None => (-1, [], k) end
  | SYS_WRITE 1 bs => if decide (Z.of_nat (length bs) < 65536) then (Z.of_nat (length bs), [], Fs (fs_files k) (fs_shown k ++ bs)) else (-1, [], k)
  | _ => (0, [], k)
  end.
#[local] Instance fs_kernel : Kernel fs := {| int80 := fs_int80 |}.
#[local] Instance fs_disk : FileDisk fs.
Proof.
  refine {| obs := λ k : fs, k; contents := small_file |}.
  - done.
  - intros k path bs E. cbn. rewrite E. exists 0, (word_bytes (Z.of_nat (length bs))), k. split; [done|]. split; [done|]. split; [|done].
    unfold small_file in E. destruct (fs_files k !! path); [|done]. cbn in E. case_decide; simplify_eq. unfold word_of, word_bytes. dlia.
  - intros k path bs E. cbn. rewrite E. exists (Z.of_nat (length bs)), k. split; [done|]. split; [|done].
    unfold small_file in E. destruct (fs_files k !! path); [|done]. cbn in E. case_decide; simplify_eq. apply i32_small. word_lia.
  - done.
  - done.
Defined.
#[local] Instance fs_laws : AllocatorLaws (heap Z) := heap_laws HEAP_FLOOR.

Definition fs_std : handles := Handles 8 16 24.
#[local] Instance fs_console : Console (K := fs).
Proof.
  refine {| shown := fs_shown |}. intros k bs Hl. unfold CRLF_SIZE in Hl. cbn. rewrite decide_True by lia. do 3 eexists. split; [reflexivity|].
  split; [apply i32_small; word_lia|]. done.
Defined.

Lemma fs_below x : x < 8192 → x < a_base.
Proof. cbn. unfold HEAP_FLOOR. lia. Qed.

(** A process with the bytes [static] at 4096 and the console at stream 16 (and 24),
    and what it holds. *)
Section demo.
Context (static : list Z) (files : gmap (list Z) (list Z)) (Hstatic : (length static < 4096)%nat).
Definition fs_process : io (heap Z) fs :=
  Io (Proc (with_ram task0 (write (ram task0) 4096 static)) (Fs files []) 0)
     {[16 := console_file 1 O_WRONLY 1; 24 := console_file 1 O_WRONLY 1]} [] [] (-2) 0.

Lemma fs_seg : seg (mem_of_io fs_process) 4096 static.
Proof. apply seg_write. Qed.
Lemma fs_fixed (stack : Z → Prop) i t : Forall is_char t → take (length (t ++ [0])) (drop i static) = t ++ [0] →
  (∀ x, 4096 + Z.of_nat i ≤ x ≤ 4096 + Z.of_nat i + Z.of_nat (length t) → ¬ stack x) →
  fixed fs_process stack (4096 + Z.of_nat i) t.
Proof using Hstatic.
  intros Ht E Hi. assert (i + length t < length static)%nat as Hl.
  { apply (f_equal length) in E. rewrite length_take, length_drop, !length_app in E. simpl in E. lia. }
  split; [|split; [lia|intros x Hx; split; [apply fs_below; lia|by apply Hi]]]. split; [|done].
  pose proof fs_seg as Hs. rewrite <- (take_drop i static), <- (take_drop (length (t ++ [0])) (drop i static)), E in Hs.
  apply seg_app in Hs as [_ Hs]. apply seg_app in Hs as [Hs _]. rewrite length_take in Hs.
  by replace (i `min` length static)%nat with i in Hs by lia.
Qed.
(** The constants of a program, by evaluation. *)
Definition constantsb (lits : string → Z) (top : Z) (strings : list string) : bool :=
  forallb (λ x, let t := lit x in
    (4096 <=? lits x) && bool_decide (take (length (t ++ [0])) (drop (Z.to_nat (lits x - 4096)) static) = t ++ [0]) &&
    bool_decide (Forall is_char t) && (lits x + Z.of_nat (length t) <? top) && (Z.of_nat (length t) <? 250)) strings.
Lemma constantsb_fixed (stack : Z → Prop) lits top strings : (∀ x, stack x → top ≤ x) → constantsb lits top strings = true →
  Forall (λ x, fixed fs_process stack (lits x) (lit x) ∧ (length (lit x) < 250)%nat) strings.
Proof using Hstatic.
  intros Hst Hc. apply Forall_forall. intros x Hx. unfold constantsb in Hc. rewrite forallb_forall in Hc. specialize (Hc x ltac:(by apply list_elem_of_In)).
  cbv zeta in Hc. rewrite !andb_true_iff, !bool_decide_eq_true, !Z.ltb_lt, Z.leb_le in Hc. destruct Hc as ((((H1 & H2) & H3) & H4) & H5). split; [|lia].
  replace (lits x) with (4096 + Z.of_nat (Z.to_nat (lits x - 4096))) by lia. apply fs_fixed; [done|done|]. intros y Hy Hs%Hst. lia.
Qed.
(** Where a string lies in a list of strings, each with its terminator. *)
Fixpoint offset (strings : list string) (x : string) : Z :=
  match strings with [] => 0 | y :: strings' => if bool_decide (y = x) then 0 else Z.of_nat (length (lit y)) + 1 + offset strings' x end.
Definition packed (strings : list string) : list Z := concat (map (λ x, lit x ++ [0]) strings).
Lemma fs_mapped x : 4096 ≤ x < 4096 + Z.of_nat (length static) → is_Some (mem_of_io fs_process !! x).
Proof using Type.
  clear Hstatic. intros Hx. replace x with (4096 + Z.of_nat (Z.to_nat (x - 4096))) by lia.
  destruct (lookup_lt_is_Some_2 static (Z.to_nat (x - 4096))) as [b Hb]; [lia|]. exists b. by apply fs_seg.
Qed.
Lemma fs_held : held (heap_of fs_process) [].
Proof. exists []. split; [exact (rep_with_ram HEAP_FLOOR task0 [] 4096 _ task_init_rep)|]. done. Qed.
Lemma fs_screen f : f = 16 ∨ f = 24 → screen f fs_process.
Proof. intros [-> | ->]; (split; [done|]); by exists (console_file 1 O_WRONLY 1). Qed.
(** [fopen] has found memory, by evaluation. *)
Definition opensb (path mode : Z) (s : io (heap Z) fs) : bool :=
  match fopen path mode s with
  | Some (f, s1) => negb (f =? 0) && match io_files s1 !! f with Some F => negb (f_rbuf F =? 0) | None => false end
  | None => false
  end.
Lemma opensb_opens path mode s : opensb path mode s = true → opens path mode s.
Proof.
  unfold opensb. intros Hc. destruct (fopen path mode s) as [[f s1]|] eqn:E; [|done]. destruct (io_files s1 !! f) as [F|] eqn:EF; [|by rewrite andb_false_r in Hc].
  apply andb_true_iff in Hc as [Ha%negb_true_iff%Z.eqb_neq Hb%negb_true_iff%Z.eqb_neq]. exists f, s1, F. split; [exact E|]. split; [exact Ha|]. split; [exact EF|exact Hb].
Qed.
End demo.
