(* ===== verification/CProg.v ===== *)
(** * The self-test of the C runtime ([c/prog/cprog.c])

    A program on the string routines ([CString]) and three system calls.  [main]
    checks the routines in a buffer of its own, adds up a hundred squares and prints
    the process number with a conversion of its own.  [c_prog_ok]: whatever the
    memory holds around its strings, its constant and its buffer, it succeeds and
    prints the process number in decimal. *)

From S2P Require Import Prelude CMem CString CStdlib Heap HeapSpec Alloc Sys.

#[local] Open Scope string_scope.
#[local] Open Scope Z_scope.
#[local] Open Scope list_scope.

Definition CRLF : string := String (Ascii.ascii_of_nat 13) (String (Ascii.ascii_of_nat 10) EmptyString).
Definition MSG_OK : string := "C_PROG_OK" ++ CRLF.

(** The body of [check_runtime] works on memory; [src] is its constant and [buf] its
    buffer. *)
Section runtime.
Context (lits : string → Z) (src buf : Z).
Definition reads {A} (f : mem → option A) : M mem A := λ m, a ← f m; Some (a, m).

Definition check_runtime : M mem Z :=
  e <- reads (λ m, strlen m (lits ""));;
  n <- reads (λ m, strlen m (lits "ring three"));;
  if negb (e =? 0) || negb (n =? 10) then ret 1
  else
    (λ m, memset m buf 35 16);;;
    b0 <- reads (λ m, load m buf);;
    b15 <- reads (λ m, load m (buf + 15));;
    if negb (b0 =? 35) || negb (b15 =? 35) then ret 2
    else
      (λ m, memcpy m buf src 8);;;
      d <- reads (λ m, memcmp m buf src 8);;
      if negb (d =? 0) then ret 3
      else
        (λ m, memcpy m buf src 8);;;
        (λ m, memmove m (buf + 1) buf 7);;;
        b0 <- reads (λ m, load m buf);;
        b1 <- reads (λ m, load m (buf + 1));;
        b7 <- reads (λ m, load m (buf + 7));;
        b8 <- reads (λ m, load m (buf + 8));;
        if negb (b0 =? chr "m") || negb (b1 =? chr "m") || negb (b7 =? chr "o") || negb (b8 =? chr "#") then ret 4
        else
          c <- reads (λ m, strcmp m (lits "mellivora") (lits "mellivora"));;
          if negb (c =? 0) then ret 5 else ret 0.
End runtime.

(** [for (i = 1; i <= 100; i++) acc += i * i], with [n] rounds left. *)
Fixpoint squares (n : nat) (i acc : Z) : Z :=
  match n with O => acc | S n' => squares n' (u32 (i + 1)) (u32 (acc + u32 (i * i))) end.
Definition check_arithmetic : Z := squares 100 1 0.

(** The digits [print_num] collects, the last one first; there is room for 11. *)
Fixpoint collect (room : nat) (value : Z) : list Z :=
  match room with
  | O => []
  | S room' => if value =? 0 then [] else (48 + value mod 10) :: collect room' (value / 10)
  end.

Section program.
Context {H K : Type} `{Allocator H} `{Kernel K}.
Context (lits : string → Z) (src buf : Z).
Abbreviation P := (M (proc H K)).

Definition mv_print (s : string) : P Z := λ p,
  t ← cstring (p_mem p) (lits s); (r <- mv_syscall (SYS_PRINT t);; ret (fst r)) p.
Definition mv_putchar (c : Z) : P Z := r <- mv_syscall (SYS_PUTCHAR (u8 c));; ret (fst r).
Definition mv_getpid : P Z := r <- mv_syscall SYS_GETPID;; ret (fst r).
Fixpoint put_all (cs : list Z) : P unit := match cs with [] => ret tt | c :: cs' => mv_putchar c;;; put_all cs' end.
Definition print_num (value : Z) : P unit :=
  if value =? 0 then mv_putchar (chr "0");;; ret tt else put_all (reverse (collect 11 value)).
Definition in_memory {A} (f : M mem A) : P A := λ p, '(a, m) ← f (p_mem p); Some (a, with_mem m p).

Definition main : P Z :=
  rc <- in_memory (check_runtime lits src buf);;
  if negb (rc =? 0) then
    mv_print "C_PROG_FAIL: runtime ";;; print_num (u32 rc);;; mv_print CRLF;;; ret 1
  else if negb (check_arithmetic =? 338350) then mv_print ("C_PROG_FAIL: arithmetic" ++ CRLF);;; ret 2
  else
    mv_print "C_PROG: C runtime and syscalls ok, pid ";;;
    pid <- mv_getpid;;
    print_num (u32 pid);;;
    mv_print CRLF;;;
    mv_print MSG_OK;;;
    ret 0.
End program.

(** ** The checks *)

Definition WORD : list Z := lit "mellivor".

(** The strings [main] uses when nothing fails. *)
Definition STRINGS : list string := [""; "ring three"; "mellivora"; "C_PROG: C runtime and syscalls ok, pid "; CRLF; MSG_OK].

(** The memory of the program: the strings, the constant, and a buffer apart from
    both. *)
Record image (lits : string → Z) (src buf : Z) (m : mem) : Prop := {
  im_strings : Forall (λ s, cstr m (lits s) (lit s) ∧ (lits s + Z.of_nat (length (lit s)) < buf ∨ buf + 16 ≤ lits s)) STRINGS;
  im_src : seg m src WORD;
  im_buf : mapped m buf 16;
  im_apart : src + 8 ≤ buf ∨ buf + 16 ≤ src
}.
Lemma string_in lits src buf m s : image lits src buf m → s ∈ STRINGS → cstr m (lits s) (lit s).
Proof. intros [Hs _ _ _] Hin. rewrite Forall_forall in Hs. by apply Hs. Qed.
(** Writing to the buffer keeps the strings. *)
Lemma string_kept lits src buf m m' s : image lits src buf m → (∀ a, ¬ (buf ≤ a < buf + 16) → m' !! a = m !! a) → s ∈ STRINGS → cstr m' (lits s) (lit s).
Proof.
  intros [Hs _ _ _] Hm Hin. rewrite Forall_forall in Hs. destruct (Hs s Hin) as [[Hc Hch] Haw]. split; [|done]. intros i b Hi.
  pose proof (lookup_lt_Some _ _ _ Hi) as Hlt. rewrite length_app in Hlt. cbn in Hlt. rewrite Hm by lia. by apply Hc.
Qed.

Lemma seg_word m p : seg m p WORD → m !! p = Some 109 ∧ m !! (p + 6) = Some 111 ∧ seg m p (take 7 WORD).
Proof.
  intros Hs. pose proof (Hs 0%nat 109 eq_refl) as H0. pose proof (Hs 6%nat 111 eq_refl) as H6. rewrite Z.add_0_r in H0. split; [done|]. split; [done|].
  change WORD with (take 7 WORD ++ [114]) in Hs. by apply seg_app in Hs as [].
Qed.

Lemma reads_bind {A B} (f : mem → option A) (k : A → M mem B) m a : f m = Some a → bindM (reads f) k m = k a m.
Proof. intros E. unfold bindM, reads. by rewrite E. Qed.

(** [memmove] inside the buffer: the word moves up by one. *)
Lemma moved m buf : seg m buf WORD → m !! (buf + 8) = Some 35 → mapped m (buf + 1) 7 →
  let m' := write m (buf + 1) (take 7 WORD) in
  memmove m (buf + 1) buf 7 = Some (buf + 1, m') ∧ m' !! buf = Some 109 ∧ m' !! (buf + 1) = Some 109 ∧ m' !! (buf + 7) = Some 111 ∧ m' !! (buf + 8) = Some 35.
Proof.
  intros Hs H8 Hm m'. destruct (seg_word m buf Hs) as (H0 & H6 & H7).
  split; [apply (memmove_ok m (buf + 1) buf (take 7 WORD)); [done|done|by apply (bool_decide_unpack _)]|].
  pose proof (seg_write m (buf + 1) (take 7 WORD)) as Hw. unfold m'. split; [|split; [|split]].
  - rewrite lookup_write_out; [done|]. cbn. lia.
  - pose proof (Hw 0%nat 109 eq_refl) as E. by rewrite Z.add_0_r in E.
  - pose proof (Hw 6%nat 111 eq_refl) as E. by replace (buf + 1 + Z.of_nat 6) with (buf + 7) in E by lia.
  - rewrite lookup_write_out; [done|]. cbn. lia.
Qed.

(** The checks pass, and only the buffer is written. *)
Lemma check_runtime_ok lits src buf m : image lits src buf m →
  ∃ m', check_runtime lits src buf m = Some (0, m') ∧ ∀ a, ¬ (buf ≤ a < buf + 16) → m' !! a = m !! a.
Proof.
  intros Him. pose proof Him as [_ Hs Hb Hap]. unfold check_runtime.
  rewrite (reads_bind _ _ _ _ (strlen_ok m _ _ (string_in _ _ _ _ "" Him ltac:(by left)) ltac:(done))).
  rewrite (reads_bind _ _ _ _ (strlen_ok m _ _ (string_in _ _ _ _ "ring three" Him ltac:(by right; left)) ltac:(done))).
  change (negb (Z.of_nat (length (lit "")) =? 0) || negb (Z.of_nat (length (lit "ring three")) =? 10)) with false. cbv iota.
  rewrite (bind_some _ _ _ _ _ (memset_ok m buf 35 16 ltac:(lia) Hb)). change (replicate (Z.to_nat 16) (u8 35)) with (replicate 16 35).
  set (m1 := write m buf (replicate 16 35)). pose proof (seg_write m buf (replicate 16 35) : seg m1 buf (replicate 16 35)) as Hw1.
  pose proof (Hw1 0%nat 35 eq_refl) as E0. rewrite Z.add_0_r in E0. rewrite (reads_bind _ _ m1 _ E0). rewrite (reads_bind _ _ m1 _ (Hw1 15%nat 35 eq_refl)).
  cbn [Z.eqb Pos.eqb negb orb].
  assert (mapped m1 buf 16) as Hb1 by by apply mapped_write.
  assert (seg m1 src WORD) as Hs1 by (apply seg_write_disjoint; [unfold disjoint; change (length WORD) with 8%nat; cbn; lia|done]).
  assert (∀ m, seg m src WORD → mapped m buf 16 → memcpy m buf src 8 = Some (buf, write m buf WORD)) as Hcpy.
  { intros m2 H2 Hm2. apply (memcpy_apart m2 buf src WORD); [done|intros i Hi; apply Hm2; change (length WORD) with 8%nat in Hi; lia|].
    unfold disjoint. change (length WORD) with 8%nat. lia. }
  rewrite (bind_some _ _ _ _ _ (Hcpy m1 Hs1 Hb1)). set (m2 := write m1 buf WORD).
  assert (seg m2 src WORD) as Hs2 by (apply seg_write_disjoint; [unfold disjoint; change (length WORD) with 8%nat; cbn; lia|done]).
  rewrite (reads_bind _ _ _ _ (memcmp_loop_spec m2 buf src WORD WORD (seg_write m1 buf WORD) Hs2 eq_refl)).
  change (negb (lexdiff WORD WORD =? 0)) with false. cbv iota.
  assert (mapped m2 buf 16) as Hb2 by by apply mapped_write.
  rewrite (bind_some _ _ _ _ _ (Hcpy m2 Hs2 Hb2)). set (m3 := write m2 buf WORD).
  assert (m3 !! (buf + 8) = Some 35) as H8.
  { unfold m3, m2. rewrite !lookup_write_out by (change (length WORD) with 8%nat; lia). exact (Hw1 8%nat 35 eq_refl). }
  destruct (moved m3 buf (seg_write m2 buf WORD) H8) as (Emv & R0 & R1 & R7 & R8).
  { intros i Hi. apply (mapped_write m2 buf WORD buf 16 Hb2). lia. }
  rewrite (bind_some _ _ _ _ _ Emv). set (m4 := write m3 (buf + 1) (take 7 WORD)) in *.
  rewrite (reads_bind _ _ m4 _ R0), (reads_bind _ _ m4 _ R1), (reads_bind _ _ m4 _ R7), (reads_bind _ _ m4 _ R8).
  change (negb (109 =? chr "m") || negb (109 =? chr "m") || negb (111 =? chr "o") || negb (35 =? chr "#")) with false. cbv iota.
  assert (∀ a, ¬ (buf ≤ a < buf + 16) → m4 !! a = m !! a) as Hout.
  { intros a Ha. unfold m4, m3, m2, m1. rewrite !lookup_write_out; try done; change (length (take 7 WORD)) with 7%nat; change (length WORD) with 8%nat; cbn; lia. }
  pose proof (string_kept _ _ _ _ m4 "mellivora" Him Hout ltac:(by right; right; left)) as Hn4.
  rewrite (reads_bind _ _ _ _ (strcmp_ok m4 _ _ _ _ Hn4 Hn4)). exists m4. split; [|done]. reflexivity.
Qed.

(** ** The output *)

(** A console that shows what is printed, and a process number. *)
Class Tty (K : Type) `{Kernel K} := {
  tty : K → list Z;
  pid : K → Z;
  tty_print : ∀ k t, ∃ r rs k', int80 (SYS_PRINT t) k = (r, rs, k') ∧ tty k' = tty k ++ t ∧ pid k' = pid k;
  tty_putchar : ∀ k c, ∃ r rs k', int80 (SYS_PUTCHAR c) k = (r, rs, k') ∧ tty k' = tty k ++ [c] ∧ pid k' = pid k;
  tty_getpid : ∀ k, ∃ rs k', int80 SYS_GETPID k = (pid k, rs, k') ∧ tty k' = tty k ∧ pid k' = pid k
}.

Lemma collect_digits n v : 0 ≤ v → (length (dec_rev v) ≤ n)%nat → collect n v = map (λ d, 48 + d) (dec_rev v).
Proof.
  revert v. induction n as [|n IH]; intros v Hv Hl.
  - destruct (dec_rev v); [done|simpl in Hl; lia].
  - cbn [collect]. destruct (Z.eqb_spec v 0) as [->|]; [done|]. rewrite dec_rev_step in Hl |- * by lia. simpl in Hl. cbn [map]. rewrite IH; [done| |lia].
    apply Z.div_pos; lia.
Qed.

Section output.
Context {H K : Type} `{AllocatorLaws H} `{Kernel K} `{!Tty K}.
#[local] Set Default Proof Using "Type*".
Implicit Types p : proc H K.

(** [p'] differs from [p] in the kernel, which has shown [t]. *)
Definition types (t : list Z) (p p' : proc H K) : Prop :=
  ∃ k, p' = Proc (p_heap p) k (p_errno p) ∧ tty k = tty (p_kern p) ++ t ∧ pid k = pid (p_kern p).
Definition typing {A} (c : M (proc H K) A) (a : A) (t : list Z) (p : proc H K) : Prop := ∃ p', c p = Some (a, p') ∧ types t p p'.

Lemma types_trans t u p1 p2 p3 : types t p1 p2 → types u p2 p3 → types (t ++ u) p1 p3.
Proof. intros (k & -> & Hs & Hp) (k' & -> & Hs' & Hp'). exists k'. split; [done|]. cbn in *. rewrite Hs', Hs, Hp', Hp. by rewrite app_assoc. Qed.
Lemma typing_bind {A B} (c : M (proc H K) A) (k : A → M (proc H K) B) a b t u p :
  typing c a t p → (∀ p', types t p p' → typing (k a) b u p') → typing (bindM c k) b (t ++ u) p.
Proof.
  intros (p1 & E1 & T1) Hk. destruct (Hk p1 T1) as (p2 & E2 & T2). exists p2. rewrite (bind_some _ _ _ _ _ E1). split; [done|]. by eapply types_trans.
Qed.
Lemma typing_ret {A} (a : A) p : typing (ret a) a [] p.
Proof. exists p. split; [done|]. exists (p_kern p). destruct p. cbn. by rewrite app_nil_r. Qed.

Lemma mv_print_types lits s p : cstr (p_mem p) (lits s) (lit s) → ∃ r, typing (mv_print lits s) r (lit s) p.
Proof.
  intros Hc. destruct (tty_print (p_kern p) (lit s)) as (r & rs & k & E & Hk & Hp). exists (i32 r), (Proc (p_heap p) k (p_errno p)).
  split; [|by exists k]. unfold mv_print. rewrite (cstring_ok _ _ _ Hc). cbn. unfold bindM, mv_syscall. by rewrite E.
Qed.
Lemma mv_putchar_types c p : is_u8 c → ∃ r, typing (mv_putchar c) r [c] p.
Proof.
  intros Hc. destruct (tty_putchar (p_kern p) c) as (r & rs & k & E & Hk & Hp). exists (i32 r), (Proc (p_heap p) k (p_errno p)).
  split; [|by exists k]. unfold mv_putchar, bindM, mv_syscall. by rewrite u8_small, E.
Qed.
Lemma put_all_types cs p : Forall is_u8 cs → typing (put_all cs) tt cs p.
Proof.
  intros Hc. revert p. induction Hc as [|c cs Hc _ IH]; intros p; [apply typing_ret|]. destruct (mv_putchar_types c p Hc) as (r & Ht).
  change (c :: cs) with ([c] ++ cs) at 2. cbn [put_all]. eapply typing_bind; [exact Ht|]. intros. apply IH.
Qed.

(** [print_num] prints the decimal text of any 32-bit number. *)
Lemma print_num_types v p : is_u32 v → typing (print_num v) tt (dec_text v) p.
Proof.
  intros Hv. unfold is_u32 in Hv. unfold print_num. destruct (Z.eqb_spec v 0) as [->|Hne].
  - destruct (mv_putchar_types (chr "0") p ltac:(done)) as (r & Ht). change (dec_text 0) with ([chr "0"] ++ []).
    eapply typing_bind; [exact Ht|]. intros. apply typing_ret.
  - pose proof (dec_rev_length 10 v ltac:(simpl; lia)). rewrite collect_digits, dec_text_rev by lia. apply put_all_types. apply Forall_reverse, Forall_map.
    eapply Forall_impl; [apply dec_rev_range|]. intros d Hd. unfold is_u8. simpl in Hd |- *. lia.
Qed.

Lemma mv_getpid_types p : typing mv_getpid (i32 (pid (p_kern p))) [] p.
Proof.
  destruct (tty_getpid (p_kern p)) as (rs & k & E & Hk & Hp). exists (Proc (p_heap p) k (p_errno p)).
  split; [unfold mv_getpid, bindM, mv_syscall; by rewrite E|]. exists k. by rewrite app_nil_r.
Qed.

(** The self-test succeeds: in every memory that holds its strings, its constant
    and its buffer, the checks of the string routines and of the arithmetic pass, and
    [main] prints the number of the process in decimal and [C_PROG_OK] and returns
    0.  Only the buffer is written. *)
Theorem c_prog_ok lits src buf p : image lits src buf (p_mem p) →
  ∃ p', main lits src buf p = Some (0, p') ∧
    tty (p_kern p') = tty (p_kern p) ++ lit "C_PROG: C runtime and syscalls ok, pid " ++ dec_text (u32 (pid (p_kern p))) ++ lit CRLF ++ lit MSG_OK ∧
    ∀ a, ¬ (buf ≤ a < buf + 16) → p_mem p' !! a = p_mem p !! a.
Proof.
  intros Him. destruct (check_runtime_ok lits src buf _ Him) as (m & E & Hm). unfold main, in_memory.
  set (p1 := with_mem m p). assert (p_mem p1 = m) as Hpm by apply a_mem_set.
  rewrite (bind_some _ _ p 0 p1) by by rewrite E. cbn [Z.eqb negb]. change (check_arithmetic =? 338350) with true. cbn [negb].
  assert (∀ s p', s ∈ STRINGS → p_mem p' = m → ∃ r, typing (mv_print lits s) r (lit s) p') as Hpr.
  { intros s p' Hs Hp'. apply mv_print_types. rewrite Hp'. by eapply string_kept. }
  assert (∀ t p', types t p1 p' → p_mem p' = m ∧ pid (p_kern p') = pid (p_kern p)) as Hty by (intros t p' (k & -> & _ & Hk); done).
  destruct (Hpr "C_PROG: C runtime and syscalls ok, pid " p1) as (r1 & p2 & E2 & T2); [by do 3 right; left|done|]. rewrite (bind_some _ _ _ _ _ E2).
  destruct (Hty _ _ T2) as [Hm2 Hp2]. destruct (mv_getpid_types p2) as (p3 & E3 & T3). rewrite (bind_some _ _ _ _ _ E3), u32_i32, Hp2.
  pose proof (types_trans _ _ _ _ _ T2 T3) as T3'. destruct (print_num_types (u32 (pid (p_kern p))) p3 (u32_bound _)) as (p4 & E4 & T4).
  rewrite (bind_some _ _ _ _ _ E4). pose proof (types_trans _ _ _ _ _ T3' T4) as T4'. destruct (Hty _ _ T4') as [Hm4 _].
  destruct (Hpr CRLF p4) as (r5 & p5 & E5 & T5); [by do 4 right; left|done|]. rewrite (bind_some _ _ _ _ _ E5).
  pose proof (types_trans _ _ _ _ _ T4' T5) as T5'. destruct (Hty _ _ T5') as [Hm5 _].
  destruct (Hpr MSG_OK p5) as (r6 & p6 & E6 & T6); [by do 5 right; left|done|]. rewrite (bind_some _ _ _ _ _ E6).
  pose proof (types_trans _ _ _ _ _ T5' T6) as T6'. destruct (Hty _ _ T6') as [Hm6 _].
  exists p6. split; [done|]. split; [|intros a Ha; rewrite Hm6; by apply Hm].
  destruct T6' as (k & -> & Ht & _). cbn [p_kern] in Ht |- *. rewrite Ht, app_nil_r. unfold p1, with_mem, with_heap. cbn [p_kern]. by rewrite <- !app_assoc.
Qed.
End output.

(** ** A kernel with a console, and the program as it is loaded *)

#[local] Instance tty_kernel : Kernel (list Z * Z) := {|
  int80 c k := match c with
    | SYS_PRINT t => (0, [], (k.1 ++ t, k.2))
    | SYS_PUTCHAR c => (c, [], (k.1 ++ [c], k.2))
    | SYS_GETPID => (k.2, [], k)
    | _ => (-1, [], k)
    end
|}.
#[local] Instance tty_console : Tty (list Z * Z).
Proof.
  refine {| tty := fst; pid := snd |}.
  - intros [o n] t. by do 3 eexists.
  - intros [o n] c. by do 3 eexists.
  - intros [o n]. by do 2 eexists.
Defined.
#[local] Instance c_prog_laws : AllocatorLaws (heap Z) := heap_laws HEAP_FLOOR.

(** The string [s] in the list of the strings, each with its terminator. *)
Fixpoint position (ss : list string) (s : string) : Z :=
  match ss with [] => 0 | x :: ss' => if bool_decide (x = s) then 0 else Z.of_nat (length (lit x)) + 1 + position ss' s end.
Definition c_prog_lits (s : string) : Z := 4096 + position STRINGS s.
Definition c_prog_process (n : Z) : proc (heap Z) (list Z * Z) :=
  Proc (with_ram task0 (write (write (ram task0) 4096 (concat (map (λ s, lit s ++ [0]) STRINGS))) 5000 (WORD ++ replicate 16 0))) ([], n) 0.

Lemma c_prog_ok_witness : ∃ p', main c_prog_lits 5000 5008 (c_prog_process 417) = Some (0, p') ∧
  fst (p_kern p') = lit "C_PROG: C runtime and syscalls ok, pid 417" ++ [13; 10] ++ lit "C_PROG_OK" ++ [13; 10].
Proof.
  destruct (c_prog_ok c_prog_lits 5000 5008 (c_prog_process 417)) as (p' & E & Ht & _).
  - split.
    + repeat (apply Forall_cons; split; [split; [apply cstrb_cstr; vm_compute; reflexivity|left; vm_compute; reflexivity]|]). constructor.
    + intros i b Hi. change (p_mem (c_prog_process 417)) with (write (write (ram task0) 4096 (concat (map (λ s, lit s ++ [0]) STRINGS))) 5000 (WORD ++ replicate 16 0)).
      apply seg_write. by apply lookup_app_l_Some.
    + apply mappedb_mapped. vm_compute. reflexivity.
    + lia.
  - exists p'. split; [exact E|]. etransitivity; [exact Ht|]. vm_compute. reflexivity.
Defined.
