(* ===== verification/ElfInfo.v ===== *)
(** * The utility [elfinfo] ([c/prog/elfinfo.c])

    It reads the ELF32 header of a file and the program headers the header names, and
    prints what it found.  [describe] is what the file means: the header fields as
    little-endian numbers of the file's bytes, and the program headers as rows of 32
    bytes from the offset the header gives.  [elfinfo_describes]: what the program
    prints, and its status, is the description, for every file it can open. *)

From S2P Require Import Prelude CMem CString CStdlib Heap HeapSpec Alloc Sys Posix Format Printf Stream StreamSpec FileRead Args GetOpt Programs.

#[local] Open Scope string_scope.
#[local] Open Scope Z_scope.
#[local] Open Scope list_scope.

Definition EHDR_SIZE : Z := 52.
Definition PHDR_SIZE : Z := 32.
Definition ET_REL : Z := 1.
Definition ET_EXEC : Z := 2.
Definition ET_DYN : Z := 3.
Definition EM_386 : Z := 3.
Definition PT_LOAD : Z := 1.
Definition PT_FLAG_X : Z := 1.
Definition PT_FLAG_W : Z := 2.
Definition PT_FLAG_R : Z := 4.

(** The bytes from [p] on; the arrays [eh] and [ph] are full when they are read. *)
Definition byte_at (i : nat) (p : list Z) : Z := nth i p 0.
Definition le32 (p : list Z) : Z :=
  Z.lor (Z.lor (Z.lor (byte_at 0 p) (u32 (Z.shiftl (byte_at 1 p) 8))) (u32 (Z.shiftl (byte_at 2 p) 16))) (u32 (Z.shiftl (byte_at 3 p) 24)).
Definition le16 (p : list Z) : Z := Z.lor (byte_at 0 p) (u32 (Z.shiftl (byte_at 1 p) 8)).

Definition type_name (t : Z) : string :=
  if t =? ET_REL then "REL (relocatable)"
  else if t =? ET_EXEC then "EXEC (fixed address)"
  else if t =? ET_DYN then "DYN (position independent)"
  else "unknown".
Definition machine_name (m : Z) : string :=
  if m =? EM_386 then "i386"
  else if m =? 8 then "MIPS"
  else if m =? 20 then "PowerPC"
  else if m =? 40 then "ARM"
  else if m =? 62 then "x86-64"
  else "not i386".

Section elfinfo.
Context {H K : Type} `{Allocator H} `{Kernel K}.
Context (std : handles) (lits : string → Z) (args_answer : Z) (args_bytes : list Z) (args_buf : Z).
Abbreviation IO := (M (io H K)).
Abbreviation c_fprintf := (c_fprintf lits).
Abbreviation c_printf := (c_printf std lits).

Definition flags_text (f out : Z) : IO unit :=
  lift (pokes out [if Z.land f PT_FLAG_R =? 0 then chr "-" else chr "r";
                   if Z.land f PT_FLAG_W =? 0 then chr "-" else chr "w";
                   if Z.land f PT_FLAG_X =? 0 then chr "-" else chr "x"; 0]).

(** The lines on the header. *)
Definition header_lines (path : Z) (eh : list Z) : IO Z :=
  c_printf "elfinfo: %s
" [path];;;
  c_printf "  class    %s
" [lits (if byte_at 4 eh =? 1 then "ELF32" else "not ELF32")];;;
  c_printf "  data     %s
" [lits (if byte_at 5 eh =? 1 then "little-endian" else "big-endian")];;;
  c_printf "  type     %s
" [lits (type_name (le16 (drop 16 eh)))];;;
  c_printf "  machine  %s
" [lits (machine_name (le16 (drop 18 eh)))];;;
  c_printf "  entry    0x%08x
" [le32 (drop 24 eh)];;;
  c_printf "  phdrs    %u x %u at 0x%08x
" [le16 (drop 44 eh); le16 (drop 42 eh); le32 (drop 28 eh)].

(** The loop over the program headers, with [n] of them left: the segments counted,
    or [None] after the early return.  [fl] is the array of that name. *)
Fixpoint phdr_loop (n : nat) (f fl i loads : Z) : IO (option Z) :=
  match n with
  | O => ret (Some loads)
  | S n' =>
      r <- fread None 1 PHDR_SIZE f;;
      let ph := snd r in
      if negb (fst r =? PHDR_SIZE) then
        c_fprintf (h_stderr std) "elfinfo: program header %u is past the end
" [i];;;
        fclose std f;;;
        ret None
      else if negb (le32 ph =? PT_LOAD) then phdr_loop n' f fl (u32 (i + 1)) loads
      else
        flags_text (le32 (drop 24 ph)) fl;;;
        c_printf "  LOAD %s vaddr 0x%08x filesz 0x%08x memsz 0x%08x
" [fl; le32 (drop 8 ph); le32 (drop 16 ph); le32 (drop 20 ph)];;;
        phdr_loop n' f fl (u32 (i + 1)) (u32 (loads + 1))
  end.

(** [main] from [fopen] on. *)
Definition elfinfo_file (path fl : Z) : IO Z :=
  f <- fopen path (lits "rb");;
  if f =? 0 then c_fprintf (h_stderr std) "elfinfo: cannot open %s
" [path];;; ret 1
  else
    r <- fread None 1 EHDR_SIZE f;;
    let eh := snd r in
    if negb (fst r =? EHDR_SIZE) then
      c_fprintf (h_stderr std) "elfinfo: %s is shorter than an ELF header
" [path];;;
      fclose std f;;; ret 1
    else if negb (byte_at 0 eh =? 127) || negb (byte_at 1 eh =? chr "E") || negb (byte_at 2 eh =? chr "L") || negb (byte_at 3 eh =? chr "F") then
      c_printf "elfinfo: %s is not an ELF image
" [path];;;
      fclose std f;;; ret 1
    else
      header_lines path eh;;;
      let phoff := le32 (drop 28 eh) in
      let phentsize := le16 (drop 42 eh) in
      let phnum := le16 (drop 44 eh) in
      if negb (phentsize =? PHDR_SIZE) then
        c_printf "elfinfo: program headers are %u bytes, not %u: this is not an ELF32 image the loader can walk
" [phentsize; PHDR_SIZE];;;
        fclose std f;;; ret 1
      else
        z <- fseek f (i32 phoff) SEEK_SET;;
        if negb (z =? 0) then
          c_fprintf (h_stderr std) "elfinfo: cannot seek to the program headers
" [];;;
          fclose std f;;; ret 1
        else
          w <- phdr_loop (Z.to_nat phnum) f fl 0 0;;
          match w with
          | None => ret 1
          | Some loads =>
              fclose std f;;;
              c_printf "%u loadable segment%s
" [loads; lits (if loads =? 1 then "" else "s")];;;
              c_printf "ELFINFO_OK
" [];;;
              ret 0
          end.

Definition elfinfo_main (fl : Z) : IO Z :=
  a <- c_mv_args lits args_answer args_bytes args_buf "elfinfo";;
  let '(argc, argv) := a in
  elfinfo_file (if 1 <? argc then nth 1 argv 0 else lits "/bin/elfinfo") fl.
End elfinfo.

(** ** What a file means *)

(** The [n] bytes at [off] as a little-endian number. *)
Definition little (bs : list Z) : Z := foldr (λ b v, b + 256 * v) 0 bs.
Definition word (n off : nat) (bs : list Z) : Z := little (take n (drop off bs)).

Definition MAGIC : list Z := 127 :: lit "ELF".
Definition decimal (n : Z) : list Z := conv_text Unsigned plain n.
Definition address (n : Z) : list Z := lit "0x" ++ conv_text Hex (Spec [chr "0"] 8 None []) n.
Definition line (t : list Z) : list Z := t ++ [10].

Definition rwx (flags : Z) : list Z :=
  [if Z.testbit flags 2 then chr "r" else chr "-"; if Z.testbit flags 1 then chr "w" else chr "-"; if Z.testbit flags 0 then chr "x" else chr "-"].

(** The rows of the table of [n] program headers at [off] that are in the file. *)
Definition in_file (bs : list Z) (off n : nat) : nat := Nat.min n ((length bs - off) / 32).
Definition rows (bs : list Z) (off n : nat) : list (list Z) :=
  map (λ j, take 32 (drop (off + 32 * j) bs)) (seq 0 (in_file bs off n)).
Definition loadable (ph : list Z) : Prop := word 4 0 ph = 1.
#[export] Instance loadable_dec ph : Decision (loadable ph).
Proof. unfold loadable. apply _. Defined.
Definition load_line (ph : list Z) : list Z :=
  line (lit "  LOAD " ++ rwx (word 4 24 ph) ++ lit " vaddr " ++ address (word 4 8 ph) ++
        lit " filesz " ++ address (word 4 16 ph) ++ lit " memsz " ++ address (word 4 20 ph)).

Definition type_text (t : Z) : list Z :=
  match t with 1 => lit "REL (relocatable)" | 2 => lit "EXEC (fixed address)" | 3 => lit "DYN (position independent)" | _ => lit "unknown" end.
Definition machine_text (m : Z) : list Z :=
  match m with 3 => lit "i386" | 8 => lit "MIPS" | 20 => lit "PowerPC" | 40 => lit "ARM" | 62 => lit "x86-64" | _ => lit "not i386" end.

Definition header_text (name bs : list Z) : list Z :=
  line (lit "elfinfo: " ++ name) ++
  line (lit "  class    " ++ if decide (word 1 4 bs = 1) then lit "ELF32" else lit "not ELF32") ++
  line (lit "  data     " ++ if decide (word 1 5 bs = 1) then lit "little-endian" else lit "big-endian") ++
  line (lit "  type     " ++ type_text (word 2 16 bs)) ++
  line (lit "  machine  " ++ machine_text (word 2 18 bs)) ++
  line (lit "  entry    " ++ address (word 4 24 bs)) ++
  line (lit "  phdrs    " ++ decimal (word 2 44 bs) ++ lit " x " ++ decimal (word 2 42 bs) ++ lit " at " ++ address (word 4 28 bs)).

(** The lines of the loadable rows, then the end: a row that is not in the file, or
    the number of loadable segments. *)
Definition table_text (bs : list Z) (off n : nat) : list Z * Z :=
  let rs := rows bs off n in
  let loads := filter loadable rs in
  let text := concat (map load_line loads) in
  if decide (length rs < n)%nat
  then (text ++ line (lit "elfinfo: program header " ++ decimal (Z.of_nat (length rs)) ++ lit " is past the end"), 1)
  else (text ++ line (decimal (Z.of_nat (length loads)) ++ lit " loadable segment" ++ if decide (length loads = 1%nat) then [] else lit "s") ++
        line (lit "ELFINFO_OK"), 0).

Definition describe (name bs : list Z) : list Z * Z :=
  if decide (length bs < 52)%nat then (line (lit "elfinfo: " ++ name ++ lit " is shorter than an ELF header"), 1)
  else if decide (take 4 bs ≠ MAGIC) then (line (lit "elfinfo: " ++ name ++ lit " is not an ELF image"), 1)
  else
    let '(text, status) :=
      if decide (word 2 42 bs ≠ 32) then
        (line (lit "elfinfo: program headers are " ++ decimal (word 2 42 bs) ++ lit " bytes, not 32: this is not an ELF32 image the loader can walk"), 1)
      else if decide (Z.of_nat (length bs) < word 4 28 bs) then (line (lit "elfinfo: cannot seek to the program headers"), 1)
      else table_text bs (Z.to_nat (word 4 28 bs)) (Z.to_nat (word 2 44 bs))
    in (header_text name bs ++ text, status).

(** The strings of the program. *)
Definition STRINGS : list string :=
  ["elfinfo: %s
"; "elfinfo: %s is shorter than an ELF header
"; "elfinfo: %s is not an ELF image
"; "  class    %s
"; "  data     %s
"; "  type     %s
"; "  machine  %s
"; "  entry    0x%08x
"; "  phdrs    %u x %u at 0x%08x
"; "elfinfo: program headers are %u bytes, not %u: this is not an ELF32 image the loader can walk
"; "elfinfo: cannot seek to the program headers
"; "elfinfo: program header %u is past the end
"; "  LOAD %s vaddr 0x%08x filesz 0x%08x memsz 0x%08x
"; "%u loadable segment%s
"; "ELFINFO_OK
"; "ELF32"; "not ELF32"; "little-endian"; "big-endian"; "REL (relocatable)"; "EXEC (fixed address)"; "DYN (position independent)"; "unknown";
   "i386"; "MIPS"; "PowerPC"; "ARM"; "x86-64"; "not i386"; ""; "s"].

(** ** Little-endian numbers *)

Lemma little_bound bs : Forall is_u8 bs → 0 ≤ little bs < 256 ^ Z.of_nat (length bs).
Proof.
  induction 1 as [|b bs Hb _ IH]; [done|]. cbn [little foldr length]. fold (little bs). rewrite Nat2Z.inj_succ, Z.pow_succ_r by lia. unfold is_u8 in Hb. lia.
Qed.
Lemma lor_low x y k : 0 ≤ k → 0 ≤ x < 2 ^ k → Z.lor x (Z.shiftl y k) = x + 2 ^ k * y.
Proof. intros. rewrite Z.lor_comm, lor_shiftl_add by done. lia. Qed.

Lemma le16_word off bs : Forall is_u8 bs → (off + 2 ≤ length bs)%nat → le16 (drop off bs) = word 2 off bs.
Proof.
  intros Hu Hl. apply (Forall_drop _ off) in Hu. unfold word, le16, byte_at. assert (2 ≤ length (drop off bs))%nat by (rewrite length_drop; lia).
  destruct (drop off bs) as [|a [|b bs']]; try (cbn in *; lia). apply Forall_cons in Hu as [Ha Hu]. apply Forall_cons in Hu as [Hb _]. rewrite !firstn_cons, take_0; cbn [nth little foldr].
  unfold is_u8 in *. rewrite u32_small by (unfold is_u32; rewrite Z.shiftl_mul_pow2 by lia; lia). rewrite lor_low by lia.
  lia.
Qed.
Lemma le32_word off bs : Forall is_u8 bs → (off + 4 ≤ length bs)%nat → le32 (drop off bs) = word 4 off bs.
Proof.
  intros Hu Hl. apply (Forall_drop _ off) in Hu. unfold word, le32, byte_at. assert (4 ≤ length (drop off bs))%nat by (rewrite length_drop; lia).
  destruct (drop off bs) as [|a [|b [|c [|d bs']]]]; try (cbn in *; lia).
  apply Forall_cons in Hu as [Ha Hu]. apply Forall_cons in Hu as [Hb Hu]. apply Forall_cons in Hu as [Hc Hu]. apply Forall_cons in Hu as [Hd _].
  unfold is_u8 in *. rewrite !firstn_cons, take_0; cbn [nth little foldr]. rewrite !u32_small by (unfold is_u32; rewrite Z.shiftl_mul_pow2 by lia; lia).
  rewrite (lor_low a b 8) by lia. rewrite (lor_low _ c 16) by lia. rewrite (lor_low _ d 24) by lia. lia.
Qed.
Lemma word_bound n off bs : Forall is_u8 bs → (off + n ≤ length bs)%nat → 0 ≤ word n off bs < 256 ^ Z.of_nat n.
Proof.
  intros Hu Hl. pose proof (little_bound (take n (drop off bs)) (Forall_take _ _ _ (Forall_drop _ _ _ Hu))) as Hb.
  rewrite length_take, length_drop in Hb. by replace (n `min` (length bs - off))%nat with n in Hb by lia.
Qed.
Lemma word_take n off k bs : (off + n ≤ k)%nat → word n off (take k bs) = word n off bs.
Proof. intros. unfold word. rewrite skipn_firstn_comm, take_take. by replace (n `min` (k - off))%nat with n by lia. Qed.
Lemma byte_word i bs : (i < length bs)%nat → byte_at i bs = word 1 i bs.
Proof.
  intros Hi. unfold byte_at, word. destruct (lookup_lt_is_Some_2 bs i Hi) as [b Hb]. rewrite (drop_S bs b i Hb), firstn_cons, take_0. cbn [little foldr]. rewrite (nth_lookup_Some bs i 0 b Hb). lia.
Qed.

Lemma type_name_text t : lit (type_name t) = type_text t ∧ type_name t ∈ STRINGS.
Proof.
  unfold type_name, type_text, ET_REL, ET_EXEC, ET_DYN.
  destruct (Z.eqb_spec t 1) as [->|]; [split; [done|by apply (bool_decide_unpack _)]|].
  destruct (Z.eqb_spec t 2) as [->|]; [split; [done|by apply (bool_decide_unpack _)]|].
  destruct (Z.eqb_spec t 3) as [->|]; (split; [|by apply (bool_decide_unpack _)]); [done|]. by repeat case_match.
Qed.
Lemma machine_name_text m : lit (machine_name m) = machine_text m ∧ machine_name m ∈ STRINGS.
Proof.
  unfold machine_name, machine_text, EM_386.
  repeat match goal with |- context [m =? ?k] => destruct (Z.eqb_spec m k) as [->|]; [split; [done|by apply (bool_decide_unpack _)]|] end.
  split; [by repeat case_match|by apply (bool_decide_unpack _)].
Qed.
Lemma flag_bit f k : 0 ≤ k → (Z.land f (2 ^ k) =? 0) = negb (Z.testbit f k).
Proof.
  intros Hk. destruct (Z.testbit f k) eqn:E; cbn [negb].
  - apply Z.eqb_neq. intros Hz. apply (f_equal (λ x, Z.testbit x k)) in Hz. by rewrite Z.land_spec, E, Z.pow2_bits_true, Z.bits_0 in Hz.
  - apply Z.eqb_eq, Z.bits_inj'. intros i Hi. rewrite Z.land_spec, Z.bits_0. destruct (decide (i = k)) as [->|]; [by rewrite E|].
    by rewrite Z.pow2_bits_false, andb_false_r.
Qed.

(** The rows one by one. *)
Lemma rows_step bs off n : (off + 32 ≤ length bs)%nat → rows bs off (S n) = take 32 (drop off bs) :: rows bs (off + 32) n.
Proof.
  intros Hl. unfold rows. assert (in_file bs off (S n) = S (in_file bs (off + 32) n)) as ->.
  { unfold in_file. replace (length bs - off)%nat with ((length bs - (off + 32)) + 1 * 32)%nat by lia. rewrite Nat.div_add by lia. lia. }
  cbn [seq map]. replace (off + 32 * 0)%nat with off by lia. f_equal. rewrite <- seq_shift, map_map. apply map_ext. intros j. do 2 f_equal. lia.
Qed.
Lemma rows_short bs off n : (length bs < off + 32)%nat → rows bs off n = [].
Proof. intros Hl. unfold rows, in_file. rewrite (Nat.div_small (length bs - off) 32) by lia. by rewrite Nat.min_0_r. Qed.

(** Counting the newlines of a line. *)
Ltac newline_count :=
  unfold line, address, decimal; rewrite ?newlines_app, ?conv_newlines;
  repeat match goal with |- context [newlines (lit ?s)] => let v := eval vm_compute in (newlines (lit s)) in change (newlines (lit s)) with v end;
  change (newlines [10]) with 1.
(** The text of a format, piece by piece. *)
Ltac pieces := unfold line, address, decimal; rewrite <- ?app_assoc;
  repeat first [apply renders_texts | apply R_number | apply R_text | apply R_nil].
(** Conditions on constants. *)
Ltac checked := try first [done | (by left) | (by right) | (apply (bool_decide_unpack _); vm_compute; exact I) | (vm_compute; reflexivity)].
Abbreviation hex8 := (Number Hex (Spec [chr "0"] 8 None [])).
Abbreviation dec := (Number Unsigned plain).

(** ** The program *)

Section program.
Context {H K : Type} `{AllocatorLaws H} `{FileDisk K} `{!Console}.
#[local] Set Default Proof Using "Type*".
Context (s0 : io H K) (l : list (Z * Z)) (bs : list Z) (std : handles) (lits : string → Z) (path : Z) (name : list Z) (fl buf : Z).
Definition local_fl (x : Z) : Prop := fl ≤ x < fl + 4.
Context (Hin : input s0 l local_fl bs std lits path name) (Hterm : terminal s0 local_fl std lits STRINGS buf) (Hname : (length name < 250)%nat).
Context (Hfl : 0 < fl < 4294967296) (Hmap : ∀ x, local_fl x → is_Some (mem_of_io s0 !! x) ∧ x < a_base).
Abbreviation session := (session s0 l local_fl).
Abbreviation prints := (prints s0 local_fl std).
Abbreviation closed := (closed s0 l local_fl).

Lemma prints_line g fmt pre a u : is_console std g → fmt ∈ STRINGS → formatted (texts pre ++ Str plain :: texts "
") fmt = true → fixed s0 local_fl a u → (length u < 250)%nat → newlines (lit pre) = 0 → prints (c_fprintf lits g fmt [a]) 0 (line (lit pre ++ u)).
Proof.
  intros Hg Hf Hp Hu Hl Hn. unfold line. rewrite <- app_assoc. change [10] with (lit "
"). pose proof (newlines_length u). eapply prints_string; try done; [rewrite Hn; by vm_compute|lia].
Qed.
Lemma name_fixed x : x ∈ STRINGS → fixed s0 local_fl (lits x) (lit x) ∧ (length (lit x) < 250)%nat.
Proof. intros Hx. by eapply constant_held. Qed.
Lemma path_fixed : fixed s0 local_fl path name.
Proof. by destruct Hin. Qed.
Lemma prints_name fmt pre x u : fmt ∈ STRINGS → formatted (texts pre ++ Str plain :: texts "
") fmt = true → newlines (lit pre) = 0 → x ∈ STRINGS → lit x = u → prints (c_printf std lits fmt [lits x]) 0 (line (lit pre ++ u)).
Proof. intros Hf Hp Hn Hx <-. destruct (name_fixed x Hx). apply prints_line; try done. by left. Qed.

Lemma header_prints : (52 ≤ length bs)%nat → prints (header_lines std lits path (take 52 bs)) 0 (header_text name bs).
Proof.
  intros Hl. pose proof (in_u8 _ _ _ _ _ _ _ _ Hin) as Hu. assert (length (take 52 bs) = 52)%nat as Hlen by (rewrite length_take; lia).
  assert (Forall is_u8 (take 52 bs)) as Hut by by apply Forall_take. unfold header_lines, header_text.
  rewrite !le16_word, !le32_word, !byte_word, !word_take by (done || lia).
  destruct (type_name_text (word 2 16 bs)) as [Ht Hti]. destruct (machine_name_text (word 2 18 bs)) as [Hm Hmi].
  apply prints_bind with (a := 0); [apply prints_line; [checked|checked|checked|apply path_fixed|done|done]|].
  apply prints_bind with (a := 0); [destruct (Z.eqb_spec (word 1 4 bs) 1); [rewrite decide_True by done|rewrite decide_False by done]; apply prints_name; checked|].
  apply prints_bind with (a := 0); [destruct (Z.eqb_spec (word 1 5 bs) 1); [rewrite decide_True by done|rewrite decide_False by done]; apply prints_name; checked|].
  apply prints_bind with (a := 0); [apply prints_name; [checked|checked|checked|done|done]|].
  apply prints_bind with (a := 0); [apply prints_name; [checked|checked|checked|done|done]|].
  apply prints_bind with (a := 0).
  - apply (prints_format _ _ _ _ _ _ Hterm _ _ (texts "  entry    " ++ texts "0x" ++ hex8 :: [Text 10])); [checked|checked|checked|intros s _; by pieces|by newline_count].
  - apply (prints_format _ _ _ _ _ _ Hterm _ _ (texts "  phdrs    " ++ dec :: texts " x " ++ dec :: texts " at " ++ texts "0x" ++ hex8 :: [Text 10]));
      [checked|checked|checked|intros s _; by pieces|by newline_count].
Qed.

Lemma flags_ok f i out v s : session f bs i out s →
  flags_text v fl s = Some (tt, with_mem_io (write (mem_of_io s) fl (rwx v ++ [0])) s).
Proof.
  intros Hse. apply lift_some. unfold pokes. fold (mem_of_io s). change PT_FLAG_R with (2 ^ 2). change PT_FLAG_W with (2 ^ 1). change PT_FLAG_X with (2 ^ 0).
  rewrite (flag_bit v 2), (flag_bit v 1), (flag_bit v 0) by lia. rewrite stores_ok.
  - unfold rwx. by destruct (Z.testbit v 2), (Z.testbit v 1), (Z.testbit v 0).
  - intros x Hx. cbn in Hx. apply (se_mapped _ _ _ _ _ _ _ _ Hse); by apply Hmap.
Qed.

Lemma load_prints {A} f i out ph (k : M (io H K) A) s : session f bs i out s → Forall is_u8 ph → length ph = 32%nat →
  ∃ s', (flags_text (le32 (drop 24 ph)) fl;;;
         c_printf std lits "  LOAD %s vaddr 0x%08x filesz 0x%08x memsz 0x%08x
" [fl; le32 (drop 8 ph); le32 (drop 16 ph); le32 (drop 20 ph)];;; k) s = k s' ∧ session f bs i (out ++ load_line ph) s'.
Proof.
  intros Hse Hu Hl. rewrite (bind_some _ _ _ _ _ (flags_ok f i out _ s Hse)). rewrite !le32_word by (done || lia).
  set (s1 := with_mem_io _ s). assert (session f bs i out s1) as Hse1.
  { apply session_write; [done| |]; cbn; [|done]. pose proof (Hmap (fl + 3) ltac:(unfold local_fl; lia)). lia. }
  assert (cstr (mem_of_io s1) fl (rwx (word 4 24 ph))) as Hc.
  { unfold s1. rewrite mem_with_mem. split; [apply seg_write|]. unfold rwx. by destruct (Z.testbit _ 2), (Z.testbit _ 1), (Z.testbit _ 0); repeat constructor. }
  destruct (ready_print _ _ _ _ _ _ Hterm (h_stdout std) "  LOAD %s vaddr 0x%08x filesz 0x%08x memsz 0x%08x
" (texts "  LOAD " ++ Str plain :: texts " vaddr " ++ texts "0x" ++ hex8 :: texts " filesz " ++ texts "0x" ++ hex8 :: texts " memsz " ++ texts "0x" ++ hex8 :: [Text 10])
    [fl; word 4 8 ph; word 4 16 ph; word 4 20 ph] (load_line ph) s1) as (s2 & E2 & S2); [by eapply ready_session|checked|checked|checked| | |].
  - unfold load_line. pieces. apply renders_plain; [lia|done|simpl; lia|]. by pieces.
  - unfold load_line. newline_count. pose proof (newlines_length (rwx (word 4 24 ph))). simpl in *. lia.
  - exists s2. split; [by rewrite (bind_some _ _ _ _ _ E2)|]. by eapply session_shows.
Qed.

Lemma phdr_loop_ok f n : ∀ i off loads out s, session f bs off out s → 0 ≤ i → i + Z.of_nat n < 4294967296 → 0 ≤ loads → loads + Z.of_nat n < 4294967296 →
  let rs := rows bs off n in
  let text := out ++ concat (map load_line (filter loadable rs)) in
  if decide (length rs < n)%nat
  then ∃ s', phdr_loop std lits n f fl i loads s = Some (None, s') ∧
    closed (text ++ line (lit "elfinfo: program header " ++ decimal (i + Z.of_nat (length rs)) ++ lit " is past the end")) s'
  else ∃ off' s', phdr_loop std lits n f fl i loads s = Some (Some (loads + Z.of_nat (length (filter loadable rs))), s') ∧ session f bs off' text s'.
Proof.
  induction n as [|n IH]; intros i off loads out s Hse Hi Hin' Hlo Hln rs text.
  - rewrite decide_False by lia. exists off, s. unfold text, rs, rows, in_file. cbn. by rewrite Z.add_0_r, app_nil_r.
  - cbn [phdr_loop]. destruct (session_fread s0 l local_fl bs f off out s PHDR_SIZE Hse ltac:(unfold PHDR_SIZE; lia)) as (s1 & E1 & Hse1).
    rewrite (bind_some _ _ _ _ _ E1). cbn [fst snd]. change (Z.to_nat PHDR_SIZE) with 32%nat in *. set (ph := take 32 (drop off bs)) in *.
    assert (length ph = Nat.min 32 (length bs - off)) as Hph by (unfold ph; by rewrite length_take, length_drop).
    destruct (decide (off + 32 ≤ length bs)%nat) as [Hr|Hr].
    + unfold PHDR_SIZE. zb_true (Z.of_nat (length ph) =? 32). cbn [negb].
      replace (off + length ph)%nat with (off + 32)%nat in Hse1 by lia. unfold text, rs. rewrite (rows_step bs off n Hr). fold ph. cbn [length].
      assert (Forall is_u8 ph) as Hu by (apply Forall_take, Forall_drop; apply (in_u8 _ _ _ _ _ _ _ _ Hin)).
      assert (le32 ph = word 4 0 ph) as -> by (apply (le32_word 0); [done|lia]). rewrite (u32_small (i + 1)) by (unfold is_u32; lia).
      rewrite (decide_ext _ (length (rows bs (off + 32) n) < n)%nat) by lia. rewrite Nat2Z.inj_succ.
      destruct (decide (loadable ph)) as [Hld|Hld]; [rewrite (filter_cons_True _ _ _ Hld)|rewrite (filter_cons_False _ _ _ Hld)]; unfold loadable in Hld; unfold PT_LOAD.
      * zb_true (word 4 0 ph =? 1). cbn [negb length map concat]. edestruct (load_prints (A := option Z) f (off + 32)%nat out ph) as (s2 & E2 & Hse2); [exact Hse1|done|lia|].
        rewrite E2, (u32_small (loads + 1)) by (unfold is_u32; lia). specialize (IH (i + 1) _ (loads + 1) _ s2 Hse2 ltac:(lia) ltac:(lia) ltac:(lia) ltac:(lia)).
        cbv zeta in IH. rewrite Nat2Z.inj_succ, !(app_assoc out (load_line ph)).
        replace (i + 1 + Z.of_nat (length (rows bs (off + 32) n))) with (i + Z.succ (Z.of_nat (length (rows bs (off + 32) n)))) in IH by lia.
        by replace (loads + 1 + Z.of_nat (length (filter loadable (rows bs (off + 32) n)))) with (loads + Z.succ (Z.of_nat (length (filter loadable (rows bs (off + 32) n))))) in IH by lia.
      * zb_false (word 4 0 ph =? 1). cbn [negb]. specialize (IH (i + 1) _ loads _ s1 Hse1 ltac:(lia) ltac:(lia) ltac:(lia) ltac:(lia)). cbv zeta in IH.
        by replace (i + 1 + Z.of_nat (length (rows bs (off + 32) n))) with (i + Z.succ (Z.of_nat (length (rows bs (off + 32) n)))) in IH by lia.
    + unfold PHDR_SIZE. zb_false (Z.of_nat (length ph) =? 32). cbn [negb]. unfold text, rs. rewrite (rows_short bs off (S n)) by lia. cbn [length filter].
      rewrite decide_True by lia. cbn. rewrite Z.add_0_r, app_nil_r.
      destruct (ready_print _ _ _ _ _ _ Hterm (h_stderr std) "elfinfo: program header %u is past the end
" (texts "elfinfo: program header " ++ dec :: texts " is past the end" ++ [Text 10]) [i]
        (line (lit "elfinfo: program header " ++ decimal i ++ lit " is past the end")) s1) as (s2 & E2 & S2);
        [by eapply ready_session|checked|checked|checked|by pieces|by newline_count|].
      rewrite (bind_some _ _ _ _ _ E2). pose proof (session_shows _ _ _ _ _ _ _ _ _ _ Hse1 S2) as Hse2.
      destruct (session_close _ _ _ _ _ _ _ _ _ Hse2 (te_std _ _ _ _ _ _ Hterm)) as (r & s3 & E3 & Hcl). rewrite (bind_some _ _ _ _ _ E3). by exists s3.
Qed.

(** A message, and out. *)
Lemma refuses (c : M (io H K) Z) t f i out s : prints c 0 t → session f bs i out s →
  ∃ s', (c;;; fclose std f;;; ret 1) s = Some (1, s') ∧ closed (out ++ t) s'.
Proof.
  intros Hc Hse. destruct (Hc s) as (s1 & E1 & S1); [by eapply ready_session|]. rewrite (bind_some _ _ _ _ _ E1).
  pose proof (session_shows _ _ _ _ _ _ _ _ _ _ Hse S1) as Hse1. destruct (session_close _ _ _ _ _ _ _ _ _ Hse1 (te_std _ _ _ _ _ _ Hterm)) as (r & s2 & E2 & Hcl).
  rewrite (bind_some _ _ _ _ _ E2). by exists s2.
Qed.

(** The table, and the lines behind it. *)
Lemma summary_prints n : 0 ≤ n < 65536 →
  prints (c_printf std lits "%u loadable segment%s
" [n; lits (if n =? 1 then "" else "s")];;; c_printf std lits "ELFINFO_OK
" [];;; ret 0) 0 (line (decimal n ++ lit " loadable segment" ++ (if n =? 1 then [] else lit "s")) ++ line (lit "ELFINFO_OK")).
Proof.
  intros Hn. destruct (name_fixed (if n =? 1 then "" else "s")) as [Hx Hl]; [case_match; checked|].
  assert (lit (if n =? 1 then "" else "s") = if n =? 1 then [] else lit "s") as El by by case_match.
  apply prints_bind with (a := 0); [|rewrite <- (app_nil_r (line (lit "ELFINFO_OK"))); apply prints_bind with (a := 0)].
  - apply (prints_format _ _ _ _ _ _ Hterm _ _ (dec :: texts " loadable segment" ++ Str plain :: [Text 10])); [checked|checked|checked| |].
    + intros s [_ Hm]. pieces. rewrite <- El. apply renders_plain; [by destruct Hx as (_ & ? & _)|by eapply fixed_cstr|done|by pieces].
    + newline_count. by case_match.
  - apply (prints_format _ _ _ _ _ _ Hterm _ _ (texts "ELFINFO_OK" ++ [Text 10])); [checked|checked|checked|intros s _; by pieces|by newline_count].
  - intros s _. exists s. split; [done|apply shows_nil].
Qed.

Lemma segment_table_ok f off n out s : session f bs off out s → Z.of_nat n < 65536 →
  ∃ s', (w <- phdr_loop std lits n f fl 0 0;;
         match w with
         | None => ret 1
         | Some loads =>
             fclose std f;;;
             c_printf std lits "%u loadable segment%s
" [loads; lits (if loads =? 1 then "" else "s")];;; c_printf std lits "ELFINFO_OK
" [];;; ret 0
         end) s = Some (snd (table_text bs off n), s') ∧ closed (out ++ fst (table_text bs off n)) s'.
Proof.
  intros Hse Hn. pose proof (phdr_loop_ok f n 0 off 0 out s Hse ltac:(lia) ltac:(lia) ltac:(lia) ltac:(lia)) as HL. cbv zeta in HL. unfold table_text.
  assert (length (rows bs off n) ≤ n)%nat as Hrn by (unfold rows, in_file; rewrite length_map, length_seq; lia).
  pose proof (length_filter loadable (rows bs off n)) as Hfl'. rewrite !Z.add_0_l in HL. destruct (decide (length (rows bs off n) < n)%nat).
  - destruct HL as (s1 & E1 & Hcl). rewrite (bind_some _ _ _ _ _ E1). exists s1. split; [done|]. cbn [fst]. by rewrite <- app_assoc in Hcl.
  - destruct HL as (off' & s1 & E1 & Hse1). rewrite (bind_some _ _ _ _ _ E1). destruct (session_close _ _ _ _ _ _ _ _ _ Hse1 (te_std _ _ _ _ _ _ Hterm)) as (r & s2 & E2 & Hcl).
    rewrite (bind_some _ _ _ _ _ E2). destruct (summary_prints (Z.of_nat (length (filter loadable (rows bs off n))))) with (s := s2) as (s3 & E3 & S3);
      [lia|by eapply ready_closed|]. exists s3. split; [exact E3|]. cbn [fst]. pose proof (closed_shows _ _ _ _ _ _ _ Hcl S3) as Hcl3.
    rewrite <- app_assoc in Hcl3. destruct (decide (length _ = 1%nat)) as [E|]; [rewrite E in *; exact Hcl3|].
    revert Hcl3. by zb_false (Z.of_nat (length (filter loadable (rows bs off n))) =? 1).
Qed.

Lemma magic_bytes : (52 ≤ length bs)%nat →
  negb (byte_at 0 (take 52 bs) =? 127) || negb (byte_at 1 (take 52 bs) =? chr "E") || negb (byte_at 2 (take 52 bs) =? chr "L") ||
  negb (byte_at 3 (take 52 bs) =? chr "F") = bool_decide (take 4 bs ≠ MAGIC).
Proof.
  intros Hl. destruct bs as [|a [|b [|c [|d bs']]]]; try (cbn in Hl; lia). rewrite !firstn_cons, take_0. cbn [byte_at nth]. change MAGIC with [127; 69; 76; 70]. chrs.
  destruct (Z.eqb_spec a 127), (Z.eqb_spec b 69), (Z.eqb_spec c 76), (Z.eqb_spec d 70); cbn; symmetry;
    first [apply bool_decide_eq_true_2; congruence | apply bool_decide_eq_false_2; subst; intros Hn; by apply Hn].
Qed.

Lemma complaint g fmt post : is_console std g → fmt ∈ STRINGS → formatted (texts "elfinfo: " ++ Str plain :: texts post ++ [Text 10]) fmt = true →
  newlines (lit post) = 0 → prints (c_fprintf lits g fmt [path]) 0 (line (lit "elfinfo: " ++ name ++ lit post)).
Proof.
  intros Hg Hf Hp Hn. pose proof (newlines_length name). pose proof path_fixed as Hx. eapply (prints_format _ _ _ _ _ _ Hterm); try done.
  - intros s [_ Hm]. pieces. apply renders_plain; [by destruct Hx as (_ & ? & _)|by eapply fixed_cstr|done|by pieces].
  - unfold line. rewrite !newlines_app, Hn. newline_count. lia.
Qed.

(** What follows the header lines. *)
Definition tail_text : list Z * Z :=
  if decide (word 2 42 bs ≠ 32) then
    (line (lit "elfinfo: program headers are " ++ decimal (word 2 42 bs) ++ lit " bytes, not 32: this is not an ELF32 image the loader can walk"), 1)
  else if decide (Z.of_nat (length bs) < word 4 28 bs) then (line (lit "elfinfo: cannot seek to the program headers"), 1)
  else table_text bs (Z.to_nat (word 4 28 bs)) (Z.to_nat (word 2 44 bs)).

Lemma tail_ok f i out s : session f bs i out s → (52 ≤ length bs)%nat →
  let phoff := word 4 28 bs in
  let phentsize := word 2 42 bs in
  ∃ s', (if negb (phentsize =? PHDR_SIZE) then
      c_printf std lits "elfinfo: program headers are %u bytes, not %u: this is not an ELF32 image the loader can walk
" [phentsize; PHDR_SIZE];;; fclose std f;;; ret 1
    else
      z <- fseek f (i32 phoff) SEEK_SET;;
      if negb (z =? 0) then
        c_fprintf lits (h_stderr std) "elfinfo: cannot seek to the program headers
" [];;; fclose std f;;; ret 1
      else
        w <- phdr_loop std lits (Z.to_nat (word 2 44 bs)) f fl 0 0;;
        match w with
        | None => ret 1
        | Some loads =>
            fclose std f;;;
            c_printf std lits "%u loadable segment%s
" [loads; lits (if loads =? 1 then "" else "s")];;; c_printf std lits "ELFINFO_OK
" [];;; ret 0
        end) s = Some (snd tail_text, s') ∧ closed (out ++ fst tail_text) s'.
Proof.
  intros Hse Hl phoff phentsize. unfold tail_text, PHDR_SIZE. pose proof (in_u8 _ _ _ _ _ _ _ _ Hin) as Hu. pose proof (in_size _ _ _ _ _ _ _ _ Hin) as Hsz.
  unfold HeapSpec.MAX_REQUEST in Hsz. fold phoff phentsize. pose proof (word_bound 4 28 bs Hu ltac:(lia)) as Hb4. pose proof (word_bound 2 44 bs Hu ltac:(lia)) as Hb2. fold phoff in Hb4.
  change (256 ^ Z.of_nat 4) with 4294967296 in Hb4. change (256 ^ Z.of_nat 2) with 65536 in Hb2.
  destruct (Z.eqb_spec phentsize 32) as [Ee|Ee]; [rewrite (decide_False (P := phentsize ≠ 32)) by lia|rewrite (decide_True (P := phentsize ≠ 32)) by done]; cbn [negb].
  - pose proof (session_fseek s0 l local_fl bs f i out s (i32 phoff) Hse (i32_bound phoff) ltac:(lia)) as Hs. case_bool_decide as Hr.
    + assert (i32 phoff = phoff) as Ei by (unfold i32, u32 in *; word_lia). rewrite Ei in *. destruct Hs as (s1 & E1 & Hse1). rewrite (bind_some _ _ _ _ _ E1).
      cbn [Z.eqb negb]. rewrite decide_False by lia. eapply segment_table_ok; [exact Hse1|lia].
    + assert (Z.of_nat (length bs) < phoff) by (destruct (decide (phoff < 2147483648)); [rewrite i32_small in Hr by (unfold is_i32; lia)|]; lia).
      destruct Hs as (s1 & E1 & Hse1). rewrite (bind_some _ _ _ _ _ E1). cbn [Z.eqb negb]. rewrite decide_True by done.
      cbn [fst snd]. eapply refuses; [|exact Hse1]. apply (prints_format _ _ _ _ _ _ Hterm _ _ (texts "elfinfo: cannot seek to the program headers" ++ [Text 10]));
        [checked|checked|checked|intros s2 _; by pieces|by newline_count].
  - cbn [fst snd]. eapply refuses; [|exact Hse]. apply (prints_format _ _ _ _ _ _ Hterm _ _ (texts "elfinfo: program headers are " ++ dec :: texts " bytes, not " ++ dec ::
      texts ": this is not an ELF32 image the loader can walk" ++ [Text 10])); [checked|checked|checked| |by newline_count].
    intros s1 _. change (lit " bytes, not 32: this is not an ELF32 image the loader can walk") with
      (lit " bytes, not " ++ conv_text Unsigned plain 32 ++ lit ": this is not an ELF32 image the loader can walk"). by pieces.
Qed.

(** [C35] [elfinfo] on a file that exists prints the description of the file and
    returns its status: the header fields as the little-endian numbers the bytes
    stand for, a line for every loadable program header that is in the file, and for
    a file that is too short, is no ELF image, has headers of another size, or a
    table behind the end of the file, the message and status 1.  The file is closed,
    and the memory of the caller and the files are as they were. *)
Theorem elfinfo_describes :
  ∃ s', elfinfo_file std lits path fl s0 = Some (snd (describe name bs), s') ∧ closed (fst (describe name bs)) s'.
Proof.
  destruct (session_open s0 l local_fl bs std lits path name Hin) as (f & s1 & E1 & Hf & Hse1). unfold elfinfo_file, describe.
  rewrite (bind_some _ _ _ _ _ E1). zb_false (f =? 0).
  destruct (session_fread s0 l local_fl bs f 0 [] s1 EHDR_SIZE Hse1 ltac:(unfold EHDR_SIZE; lia)) as (s2 & E2 & Hse2). rewrite (bind_some _ _ _ _ _ E2).
  change (Z.to_nat EHDR_SIZE) with 52%nat in *. cbn [fst snd]. rewrite drop_0 in *. rewrite length_take. unfold EHDR_SIZE. destruct (decide (length bs < 52)%nat) as [Hl|Hl].
  { zb_false (Z.of_nat (52 `min` length bs) =? 52). apply (refuses _ _ _ _ [] _ (complaint (h_stderr std) "elfinfo: %s is shorter than an ELF header
" " is shorter than an ELF header" ltac:(by right) ltac:(checked) ltac:(checked) ltac:(checked)) Hse2). }
  zb_true (Z.of_nat (52 `min` length bs) =? 52). cbn [negb]. rewrite magic_bytes by lia. destruct (decide (take 4 bs ≠ MAGIC)) as [Hm|Hm].
  { rewrite bool_decide_eq_true_2 by done. apply (refuses _ _ _ _ [] _ (complaint (h_stdout std) "elfinfo: %s is not an ELF image
" " is not an ELF image" ltac:(by left) ltac:(checked) ltac:(checked) ltac:(checked)) Hse2). }
  rewrite bool_decide_eq_false_2 by done. fold tail_text. destruct tail_text as [t st] eqn:Et.
  destruct (header_prints ltac:(lia) s2) as (s3 & E3 & S3); [by eapply ready_session|]. rewrite (bind_some _ _ _ _ _ E3).
  pose proof (session_shows _ _ _ _ _ _ _ _ _ _ Hse2 S3) as Hse3. pose proof (in_u8 _ _ _ _ _ _ _ _ Hin) as Hu.
  rewrite !le16_word, !le32_word, !word_take by (lia || (by apply Forall_take) || (rewrite length_take; lia)).
  destruct (tail_ok f _ _ s3 Hse3 ltac:(lia)) as (s4 & E4 & Hcl). rewrite Et in *. exists s4. split; [exact E4|exact Hcl].
Qed.
End program.

(** ** A file with two program headers, one of them loadable *)

#[local] Existing Instances fs_kernel fs_disk fs_laws fs_console.

Definition demo_elf : list Z :=
  MAGIC ++ [1; 1; 1; 0] ++ replicate 8 0 ++ [2; 0; 3; 0; 1; 0; 0; 0] ++ word_bytes 4194304 ++ word_bytes 52 ++ replicate 10 0 ++ [32; 0; 2; 0] ++ replicate 6 0 ++
  word_bytes 1 ++ word_bytes 116 ++ word_bytes 4194304 ++ word_bytes 4194304 ++ word_bytes 16 ++ word_bytes 4096 ++ word_bytes 5 ++ word_bytes 4 ++
  word_bytes 4 ++ replicate 28 0.
Definition demo_strings : list string := "/e" :: "rb" :: STRINGS.
Definition demo_lits (x : string) : Z := 4096 + offset demo_strings x.
Definition demo_static : list Z := packed demo_strings ++ replicate 516 0.
Definition demo_fl : Z := 4096 + Z.of_nat (length (packed demo_strings)).
Definition demo_io : io (heap Z) fs := fs_process demo_static {[lit "/e" := demo_elf]}.

Lemma demo_constants : Forall (λ x, fixed demo_io (local_fl demo_fl) (demo_lits x) (lit x) ∧ (length (lit x) < 250)%nat) demo_strings.
Proof.
  apply (constantsb_fixed demo_static {[lit "/e" := demo_elf]} ltac:(apply (bool_decide_unpack _); vm_compute; exact I) _ _ demo_fl); [|vm_compute; reflexivity].
  unfold local_fl. lia.
Qed.
Lemma demo_cell x : demo_fl ≤ x < demo_fl + 516 → is_Some (mem_of_io demo_io !! x) ∧ x < a_base.
Proof.
  intros Hx. assert (Z.of_nat (length demo_static) = demo_fl - 4096 + 516 ∧ 4096 ≤ demo_fl < 6000) as [Hl Hb] by (vm_compute; split; [done|split; congruence]).
  split; [apply fs_mapped; lia|apply fs_below; lia].
Qed.

Lemma elfinfo_describes_witness : ∃ s', elfinfo_file fs_std demo_lits (demo_lits "/e") demo_fl demo_io = Some (0, s') ∧
  fs_shown (kern_of s') = concat (map (λ x, lit x ++ [13; 10]) ["elfinfo: /e"; "  class    ELF32"; "  data     little-endian"; "  type     EXEC (fixed address)";
    "  machine  i386"; "  entry    0x00400000"; "  phdrs    2 x 32 at 0x00000034";
    "  LOAD r-x vaddr 0x00400000 filesz 0x00000010 memsz 0x00001000"; "1 loadable segment"; "ELFINFO_OK"]).
Proof.
  destruct (elfinfo_describes demo_io [] demo_elf fs_std demo_lits (demo_lits "/e") (lit "/e") demo_fl (demo_fl + 4)) as (s' & E & _ & Hs & _).
  - pose proof demo_constants as Hc. apply Forall_cons in Hc as [[Hp _] Hc]. apply Forall_cons in Hc as [[Hm _] _]. split.
    + split_and!; by apply fs_below.
    + apply opensb_opens. vm_compute. reflexivity.
    + exact Hp.
    + exact Hm.
    + reflexivity.
    + apply (bool_decide_unpack _). vm_compute. exact I.
    + vm_compute. reflexivity.
    + apply fs_held.
  - pose proof demo_constants as Hc. apply Forall_cons in Hc as [_ Hc]. apply Forall_cons in Hc as [_ Hc]. split.
    + split_and!; by apply fs_below.
    + apply fs_screen. by left.
    + apply fs_screen. by right.
    + exact Hc.
    + intros x Hx. split; [apply demo_cell; lia|split; [apply demo_cell; lia|unfold local_fl; lia]].
  - simpl. lia.
  - vm_compute. split; congruence.
  - intros x Hx. apply demo_cell. unfold local_fl in Hx. lia.
  - exists s'. split; [exact E|]. etransitivity; [exact Hs|]. vm_compute. reflexivity.
Defined.
