(* ===== verification/Tools.v ===== *)
(** * The utilities [elfwc] and [elfcat] ([c/prog])

    Programs on top of the C library: the command line ([Args]), the options
    ([GetOpt]), streams ([Stream]) and formatted output ([Format]) are the models
    of the library.  String constants lie where [lits] puts them, and the array
    [args] of [main] at [args_buf]; what [SYS_GETARGS] answers is a parameter.

    The theorems are about whole files: [count_file] opens a file, counts it and
    closes it, and [cat] copies it to the console, with line numbers or without. *)

From S2P Require Import Prelude CMem CString CStdlib Heap HeapSpec Alloc Sys Posix Format Printf Stream StreamSpec FileRead Args GetOpt Arrays Programs.

#[local] Open Scope string_scope.
#[local] Open Scope Z_scope.
#[local] Open Scope list_scope.

Section tools.
Context {H K : Type} `{Allocator H} `{Kernel K}.
Context (std : handles) (lits : string → Z) (args_answer : Z) (args_bytes : list Z) (args_buf : Z).
Abbreviation IO := (M (io H K)).
Abbreviation c_fprintf := (c_fprintf lits).
Abbreviation c_printf := (c_printf std lits).
Abbreviation c_mv_args := (c_mv_args lits args_answer args_bytes args_buf).
Abbreviation c_getopt := (c_getopt lits).

(** ** [elfwc] *)

Definition CHUNK : Z := 512.
Definition is_space (c : Z) : bool := (c =? 32) || (c =? 9) || (c =? 10) || (c =? 13) || (c =? 11) || (c =? 12).

Record counts := Counts { lines : Z; words : Z; bytes : Z }.

(** The body of the loop over the bytes of a chunk, with [in_word]. *)
Definition count_byte (x : counts * bool) (c : Z) : counts * bool :=
  let '(Counts l w b, in_word) := x in
  let l := if c =? 10 then u32 (l + 1) else l in
  if is_space c then (Counts l w b, false)
  else if negb in_word then (Counts l (u32 (w + 1)) b, true)
  else (Counts l w b, true).
Definition count_chunk (f : Z) (x : counts * bool) : IO (counts * bool + counts * bool) :=
  r <- fread None 1 CHUNK f;;
  if 0 <? fst r then
    let '(Counts l w b, in_word) := x in
    ret (inl (foldl count_byte (Counts l w (u32 (b + fst r)), in_word) (snd r)))
  else ret (inr x).
Definition count_file (path : Z) : IO (Z * counts) :=
  f <- fopen path (lits "rb");;
  if f =? 0 then
    c_fprintf (h_stderr std) "elfwc: cannot open %s
" [path];;; ret (1, Counts 0 0 0)
  else
    x <- repeatM (count_chunk f) (Counts 0 0 0, false);;
    fclose std f;;;
    ret (0, fst x).

Record wants := Wants { want_l : bool; want_w : bool; want_b : bool }.

Definition report (c : counts) (w : wants) (name : Z) : IO unit :=
  whenM (want_l w) (c_printf "%8lu" [lines c]);;;
  whenM (want_w w) (c_printf "%8lu" [words c]);;;
  whenM (want_b w) (c_printf "%8lu" [bytes c]);;;
  whenM (negb (name =? 0)) (c_printf " %s" [name]);;;
  whenM true (putchar std 10).

(** The loop over [getopt]: the options so far, or the status of the return. *)
Definition wc_option (argc : Z) (x : opts * wants * option Z) : IO (opts * wants * option Z + opts * wants * option Z) :=
  let '(o, Wants l w b, _) := x in
  r <- c_getopt argc "lwc" o;;
  let '(opt, o) := r in
  if opt =? -1 then ret (inr (o, Wants l w b, None))
  else if opt =? chr "l" then ret (inl (o, Wants true w b, None))
  else if opt =? chr "w" then ret (inl (o, Wants l true b, None))
  else if opt =? chr "c" then ret (inl (o, Wants l w true, None))
  else
    c_fprintf (h_stderr std) "elfwc: unknown option -%c
" [optopt o];;; ret (inr (o, Wants l w b, Some 1)).

(** The loop over the operands: [files], [total] and [rc]. *)
Fixpoint wc_files (paths : list Z) (w : wants) (files rc : Z) (total : counts) : IO (Z * Z * counts) :=
  match paths with
  | [] => ret (files, rc, total)
  | path :: paths' =>
      r <- count_file path;;
      let c := snd r in
      if negb (fst r =? 0) then wc_files paths' w (i32 (files + 1)) 1 total
      else
        let total := Counts (u32 (lines total + lines c)) (u32 (words total + words c)) (u32 (bytes total + bytes c)) in
        report c w path;;;
        wc_files paths' w (i32 (files + 1)) rc total
  end.

Definition elfwc_main : IO Z :=
  a <- c_mv_args "elfwc";;
  let '(argc, argv) := a in
  r <- repeatM (wc_option argc) (quiet argv, Wants false false false, None);;
  let '(o, w, status) := r in
  match status with
  | Some status => ret status
  | None =>
      let w := if negb (want_l w) && negb (want_w w) && negb (want_b w) then Wants true true true else w in
      t <- wc_files (drop (Z.to_nat (optind o)) (GetOpt.argv o)) w 0 0 (Counts 0 0 0);;
      let '(files, rc, total) := t in
      if files =? 0 then
        c_fprintf (h_stderr std) "elfwc: no file named
" [];;; ret 1
      else whenM (1 <? files) (report total w (lits "total");;; ret 0);;; ret rc
  end.

(** ** [elfcat] *)

(** The body of the loop over the bytes of a chunk, with [at_line_start] and
    [*line]. *)
Fixpoint cat_bytes (number : bool) (buf : list Z) (x : bool * Z) : IO (bool * Z) :=
  match buf with
  | [] => ret x
  | c :: buf' =>
      let '(at_line_start, line) := x in
      start <- (if at_line_start && number then c_printf "%6lu  " [line];;; ret false else ret at_line_start);;
      putchar std (i8 c);;;
      cat_bytes number buf' (if c =? 10 then (true, u32 (line + 1)) else (start, line))
  end.
Definition cat_chunk (number : bool) (f : Z) (x : bool * Z) : IO (bool * Z + bool * Z) :=
  r <- fread None 1 CHUNK f;;
  if 0 <? fst r then x <- cat_bytes number (snd r) x;; ret (inl x) else ret (inr x).
Definition cat (path : Z) (number : bool) (line : Z) : IO (Z * Z) :=
  f <- fopen path (lits "rb");;
  if f =? 0 then
    c_fprintf (h_stderr std) "elfcat: cannot open %s
" [path];;; ret (1, line)
  else
    x <- repeatM (cat_chunk number f) (true, line);;
    fclose std f;;;
    ret (0, snd x).

Definition cat_option (argc : Z) (x : opts * bool * option Z) : IO (opts * bool * option Z + opts * bool * option Z) :=
  let '(o, number, _) := x in
  r <- c_getopt argc "n" o;;
  let '(opt, o) := r in
  if opt =? -1 then ret (inr (o, number, None))
  else if opt =? chr "n" then ret (inl (o, true, None))
  else
    c_fprintf (h_stderr std) "elfcat: unknown option -%c
" [optopt o];;; ret (inr (o, number, Some 1)).
Fixpoint cat_files (paths : list Z) (number : bool) (files rc line : Z) : IO (Z * Z) :=
  match paths with
  | [] => ret (files, rc)
  | path :: paths' =>
      r <- cat path number line;;
      cat_files paths' number (i32 (files + 1)) (if fst r =? 0 then rc else 1) (snd r)
  end.
Definition elfcat_main : IO Z :=
  a <- c_mv_args "elfcat";;
  let '(argc, argv) := a in
  r <- repeatM (cat_option argc) (quiet argv, false, None);;
  let '(o, number, status) := r in
  match status with
  | Some status => ret status
  | None =>
      t <- cat_files (drop (Z.to_nat (optind o)) (GetOpt.argv o)) number 0 0 1;;
      if fst t =? 0 then c_fprintf (h_stderr std) "elfcat: no file named
" [];;; ret 1
      else ret (snd t)
  end.
End tools.

(** ** What is counted *)

Definition SPACES : list Z := [32; 9; 10; 13; 11; 12].

(** The number of words that start in [t], when the byte before it is in a word or
    not, and whether its last byte is. *)
Fixpoint starts (in_word : bool) (t : list Z) : Z :=
  match t with
  | [] => 0
  | c :: t' => if is_space c then starts false t' else (if in_word then 0 else 1) + starts true t'
  end.
Definition ends (in_word : bool) (t : list Z) : bool := foldl (λ _ c, negb (is_space c)) in_word t.

Lemma is_space_memb c : memb c SPACES = is_space c.
Proof. unfold memb, is_space, SPACES. cbn. by rewrite orb_false_r, !orb_assoc. Qed.

Lemma starts_app w t u : starts w (t ++ u) = starts w t + starts (ends w t) u.
Proof. revert w. induction t as [|c t IH]; intros w; [done|]. cbn [app starts].
  change (ends w (c :: t)) with (ends (negb (is_space c)) t). destruct (is_space c); rewrite IH; cbn [negb]; lia.
Qed.

Lemma tokens_starts s cur : Z.of_nat (length (tokens_acc SPACES cur s)) = if decide (cur = []) then starts false s else 1 + starts true s.
Proof.
  revert cur. induction s as [|c s IH]; intros cur; cbn [tokens_acc starts].
  - destruct (decide (cur = [])); [by rewrite bool_decide_true|by rewrite bool_decide_false].
  - rewrite is_space_memb. destruct (is_space c).
    + destruct (decide (cur = [])); [rewrite bool_decide_true by done|rewrite bool_decide_false by done; cbn [length]]; [|rewrite Nat2Z.inj_succ];
        rewrite IH; rewrite decide_True by done; lia.
    + rewrite IH. rewrite decide_False by by destruct cur. destruct (decide (cur = [])); lia.
Qed.

Lemma count_bytes t l w b k : foldl count_byte (Counts (u32 l) (u32 w) b, k) t = (Counts (u32 (l + newlines t)) (u32 (w + starts k t)) b, ends k t).
Proof.
  revert l w k. induction t as [|c t IH]; intros l w k; [cbn; by rewrite !Z.add_0_r|]. cbn [foldl]. unfold newlines in *.
  assert (∃ l' w' k', count_byte (Counts (u32 l) (u32 w) b, k) c = (Counts (u32 l') (u32 w') b, k') ∧ k' = negb (is_space c) ∧
    l' + Z.of_nat (length (filter (λ c, c = 10) t)) = l + Z.of_nat (length (filter (λ c, c = 10) (c :: t))) ∧
    w' + starts k' t = w + starts k (c :: t)) as (l' & w' & k' & -> & Hk & Hl & Hw).
  { exists (if c =? 10 then l + 1 else l), (if is_space c then w else if k then w else w + 1), (negb (is_space c)). unfold count_byte. cbn [starts].
    assert ((if c =? 10 then u32 (u32 l + 1) else u32 l) = u32 (if c =? 10 then l + 1 else l)) as ->
      by (destruct (c =? 10); by rewrite ?u32_add_l). split; [|split; [done|split]].
    - destruct (is_space c); [done|]. destruct k; cbn; [done|]. by rewrite u32_add_l.
    - destruct (Z.eqb_spec c 10) as [->|]; [rewrite filter_cons_True by done; cbn; lia|by rewrite filter_cons_False].
    - destruct (is_space c); cbn; [lia|]. destruct k; lia. }
  rewrite IH, Hl, Hw. unfold ends. cbn [foldl]. by rewrite Hk.
Qed.

(** What the program counts in a text. *)
Definition counted (t : list Z) : counts := Counts (u32 (newlines t)) (u32 (Z.of_nat (length (tokens SPACES t)))) (u32 (Z.of_nat (length t))).

(** What its header says it counts: a word is a run of bytes that are not space,
    tab or newline. *)
Definition BLANKS : list Z := [32; 9; 10].
Definition wc (t : list Z) : counts := Counts (u32 (newlines t)) (u32 (Z.of_nat (length (tokens BLANKS t)))) (u32 (Z.of_nat (length t))).

(** The two agree on a text without carriage returns, vertical tabs and form feeds. *)
Definition no_controls (t : list Z) : Prop := Forall (λ c, c ≠ 13 ∧ c ≠ 11 ∧ c ≠ 12) t.

Lemma tokens_blanks t cur : no_controls t → tokens_acc SPACES cur t = tokens_acc BLANKS cur t.
Proof.
  intros Ht. revert cur. induction Ht as [|c t (? & ? & ?) _ IH]; intros cur; [done|]. cbn [tokens_acc].
  assert (memb c SPACES = memb c BLANKS) as ->.
  { unfold memb, SPACES, BLANKS. cbn. zb_false (c =? 13). zb_false (c =? 11). by zb_false (c =? 12). }
  by rewrite !IH.
Qed.

Lemma counted_wc t : no_controls t → counted t = wc t.
Proof. intros Ht. unfold counted, wc, tokens. by rewrite tokens_blanks. Qed.

(** They differ otherwise: a carriage return ends a word. *)
Theorem wc_carriage_return :
  words (fst (foldl count_byte (Counts 0 0 0, false) (lit "a" ++ [13] ++ lit "b"))) = 2 ∧
  words (wc (lit "a" ++ [13] ++ lit "b")) = 1.
Proof. vm_compute. done. Qed.

Section files.
Context {H K : Type} `{AllocatorLaws H} `{FileDisk K} `{!Console}.
#[local] Set Default Proof Using "Type*".
Implicit Types s : io H K.

(** These programs write to no array of theirs. *)
Definition nowhere : Z → Prop := λ _, False.

Lemma ends_app w t u : ends w (t ++ u) = ends (ends w t) u.
Proof. unfold ends. apply foldl_app. Qed.

(** The end of a file: an empty chunk. *)
Lemma chunk_end i (bs : list Z) : (i ≤ length bs)%nat → take (Z.to_nat CHUNK) (drop i bs) = [] → take i bs = bs.
Proof.
  intros Hi E. apply (f_equal length) in E. rewrite length_take, length_drop in E. unfold CHUNK in E. cbn [length] in E.
  change (Z.to_nat 512) with 512%nat in E. apply take_ge. lia.
Qed.
Lemma take_plus {A} i n (bs : list A) : take (i + n) bs = take i bs ++ take n (drop i bs).
Proof. revert bs. induction i as [|i IH]; intros [|x bs]; cbn; rewrite ?take_nil; [done|done|done|]. by rewrite IH. Qed.
Lemma chunk_next i n (bs : list Z) : take (i + length (take n (drop i bs))) bs = take i bs ++ take n (drop i bs).
Proof. rewrite take_plus. f_equal. rewrite length_take, <- take_take. by rewrite (take_ge (drop i bs) (length (drop i bs))) by lia. Qed.

Lemma count_stream s0 l f bs s : session s0 l nowhere f bs 0 [] s → Z.of_nat (length bs) < 4294967295 →
  ∃ k i s', repeatM (count_chunk f) (Counts 0 0 0, false) s = Some ((counted bs, k), s') ∧ session s0 l nowhere f bs i [] s'.
Proof.
  intros HR Hl.
  destruct (repeatM_run (λ k x s', ∃ i, k = (length bs - i)%nat ∧ session s0 l nowhere f bs i [] s' ∧
      x = (Counts (u32 (newlines (take i bs))) (u32 (starts false (take i bs))) (u32 (Z.of_nat (length (take i bs)))), ends false (take i bs)))
    (λ x s', (∃ i, session s0 l nowhere f bs i [] s') ∧ fst x = counted bs) (count_chunk f)) with (k := length bs) (i := (Counts 0 0 0, false)) (s := s)
    as ([c k] & s' & E & [i HR'] & Hc).
  - intros k x s1 (i & -> & HR1 & ->). destruct (session_fread s0 l nowhere bs f i [] s1 CHUNK HR1 ltac:(unfold CHUNK; lia)) as (s2 & E & HR2).
    unfold count_chunk. rewrite (bind_some _ _ _ _ _ E). cbn [fst snd].
    assert (i ≤ length bs)%nat as Hi by by destruct HR1 as [(? & ? & ? & [] & _) _ _ _ _ _ _].
    set (t := take (Z.to_nat CHUNK) (drop i bs)) in *. destruct (decide (t = [])) as [Ht|Ht].
    + rewrite Ht in *. do 2 eexists. split; [reflexivity|]. split; [by eexists|]. cbn [fst]. rewrite (chunk_end i bs Hi Ht). unfold counted, tokens.
      by rewrite tokens_starts.
    + assert (0 < length t)%nat by (destruct t; [done|simpl; lia]). zb_true (0 <? Z.of_nat (length t)). do 2 eexists. split; [reflexivity|].
      assert (length t ≤ length bs - i)%nat by (unfold t; rewrite length_take, length_drop; lia).
      exists (length bs - (i + length t))%nat. split; [lia|]. exists (i + length t)%nat. split; [done|]. split; [done|].
      unfold t. rewrite chunk_next. fold t. rewrite count_bytes. rewrite newlines_app, starts_app, ends_app, length_app, u32_add_l. do 3 f_equal. lia.
  - exists 0%nat. split; [lia|]. split; [exact HR|]. done.
  - unfold LOOP_BOUND. lia.
  - exists k, i, s'. cbn [fst] in Hc. subst c. done.
Qed.

(** [count_file] on a file that exists: it opens it, counts all of it and closes it;
    nothing is shown. *)
Lemma count_file_counts std lits path name bs s l : input s l nowhere bs std lits path name →
  ∃ s', count_file std lits path s = Some ((0, counted bs), s') ∧ closed s l nowhere [] s'.
Proof.
  intros Hin. destruct (session_open s l nowhere bs std lits path name Hin) as (f & s1 & E & Hf & HR). unfold count_file.
  rewrite (bind_some _ _ _ _ _ E). zb_false (f =? 0).
  destruct (count_stream s l f bs s1 HR) as (k & i & s2 & E2 & HR2); [pose proof (in_size _ _ _ _ _ _ _ _ Hin); unfold HeapSpec.MAX_REQUEST in *; lia|].
  rewrite (bind_some _ _ _ _ _ E2). destruct (session_close s l nowhere bs std f i [] s2 HR2 (in_std _ _ _ _ _ _ _ _ Hin)) as (r & s3 & E3 & Hc).
  rewrite (bind_some _ _ _ _ _ E3). by exists s3.
Qed.

(** ** Copying to the console *)

(** The number in front of a line. *)
Definition line_number (n : Z) : list Z := conv_text Unsigned (Spec [] 6 None [chr "l"]) n ++ [32; 32].

(** The characters [cat_bytes] writes, with the state it keeps. *)
Fixpoint cat_text (number st : bool) (line : Z) (t : list Z) : list Z :=
  match t with
  | [] => []
  | c :: t' => (if st && number then line_number line else []) ++
      c :: cat_text number (if c =? 10 then true else st && negb number) (if c =? 10 then u32 (line + 1) else line) t'
  end.
Fixpoint cat_state (number st : bool) (line : Z) (t : list Z) : bool * Z :=
  match t with
  | [] => (st, line)
  | c :: t' => cat_state number (if c =? 10 then true else st && negb number) (if c =? 10 then u32 (line + 1) else line) t'
  end.

Lemma cat_text_app number t u : ∀ st line, cat_text number st line (t ++ u) =
  cat_text number st line t ++ cat_text number (fst (cat_state number st line t)) (snd (cat_state number st line t)) u.
Proof. induction t as [|c t IH]; intros st line; [done|]. cbn [app cat_text cat_state]. rewrite IH. by rewrite <- app_assoc. Qed.
Lemma cat_state_app number t u : ∀ st line, cat_state number st line (t ++ u) =
  cat_state number (fst (cat_state number st line t)) (snd (cat_state number st line t)) u.
Proof. induction t as [|c t IH]; intros st line; [done|]. cbn [app cat_state]. by rewrite IH. Qed.

(** Without numbers it is the text; with numbers, the lines behind their numbers. *)
Lemma cat_text_plain t : ∀ st line, cat_text false st line t = t.
Proof. induction t as [|c t IH]; intros st line; [done|]. cbn. rewrite andb_false_r, IH. done. Qed.

Fixpoint lines_acc (cur t : list Z) : list (list Z) :=
  match t with
  | [] => if bool_decide (cur = []) then [] else [cur]
  | c :: t' => if c =? 10 then (cur ++ [c]) :: lines_acc [] t' else lines_acc (cur ++ [c]) t'
  end.
Fixpoint numbered (line : Z) (ls : list (list Z)) : list Z :=
  match ls with [] => [] | x :: ls' => line_number line ++ x ++ numbered (u32 (line + 1)) ls' end.

Lemma cat_text_numbered t : ∀ line,
  cat_text true true line t = numbered line (lines_acc [] t) ∧
  ∀ cur, cur ≠ [] → line_number line ++ cur ++ cat_text true false line t = numbered line (lines_acc cur t).
Proof.
  induction t as [|c t IH]; intros line; cbn [cat_text lines_acc].
  - split; [done|]. intros cur Hc. rewrite bool_decide_eq_false_2 by done. cbn. by rewrite !app_nil_r.
  - destruct (IH line) as [_ Hs]. destruct (IH (u32 (line + 1))) as [Hn _]. cbn [andb negb].
    destruct (c =? 10); cbn [numbered app]; (split; [|intros cur Hc]).
    + by rewrite Hn.
    + rewrite <- app_assoc. by rewrite Hn.
    + rewrite <- Hs by done. done.
    + rewrite <- Hs by by destruct cur. by rewrite <- app_assoc.
Qed.

Lemma cat_state_line number t : ∀ st line, is_u32 line → snd (cat_state number st line t) = u32 (line + newlines t).
Proof.
  induction t as [|c t IH]; intros st line Hl; [cbn; by rewrite Z.add_0_r, u32_small|]. cbn [cat_state]. rewrite newlines_cons.
  destruct (c =? 10); rewrite IH by (done || apply u32_bound); [|done]. rewrite u32_add_l. f_equal. lia.
Qed.

Section cat.
Context (s0 : io H K) (l : list (Z * Z)) (bs : list Z) (std : handles) (lits : string → Z) (number : bool) (buf : Z).
(** The format of the numbers is in memory, and so is the array [args]. *)
Context (Hfmt : number = true → fixed s0 nowhere (lits "%6lu  ") (lit "%6lu  ") ∧ static_array s0 nowhere buf 512).
Context (Hscreen : screen (h_stdout std) s0) (Hstd : static_handles std).

Lemma cat_bytes_ok f i t : ∀ st line out s, session s0 l nowhere f bs i out s → Forall is_u8 t →
  ∃ s', cat_bytes std lits number t (st, line) s = Some (cat_state number st line t, s') ∧
    session s0 l nowhere f bs i (out ++ cat_text number st line t) s'.
Proof.
  induction t as [|c t IH]; intros st line out s HR Hu; [exists s; cbn; by rewrite app_nil_r|].
  apply Forall_cons in Hu as [Hc Hu]. cbn [cat_bytes cat_text cat_state].
  assert (∃ s1, (if st && number then c_printf std lits "%6lu  " [line];;; ret false else ret st) s = Some (st && negb number, s1) ∧
    session s0 l nowhere f bs i (out ++ (if st && number then line_number line else [])) s1) as (s1 & E1 & HR1).
  { destruct st; cbn [andb]; [|exists s; by rewrite app_nil_r]. destruct number; [|exists s; by rewrite app_nil_r].
    destruct (Hfmt eq_refl) as [Hf Ha].
    destruct (session_print s0 l nowhere bs lits f (h_stdout std) i out "%6lu  "
      [Number Unsigned (Spec [] 6 None [chr "l"]); Text 32; Text 32] [line] (line_number line) 1 buf 512 s HR Hscreen) as (s' & E & HR'); try done.
    - by destruct Hstd as (_ & ? & _).
    - unfold line_number. by repeat constructor.
    - unfold line_number. rewrite newlines_app. change (newlines [32; 32]) with 0. by rewrite conv_newlines.
    - exists s'. split; [|done]. unfold c_printf. rewrite (bind_some _ _ _ _ _ E). done. }
  rewrite (bind_some _ _ _ _ _ E1).
  destruct (putchar_shows std c s1) as (s2 & E2 & Hs2); [eapply screen_session; [exact HR1|done|by destruct Hstd as (_ & ? & _)]|done|].
  rewrite (bind_some _ _ _ _ _ E2). pose proof (session_shows _ _ _ _ _ _ _ _ _ _ HR1 Hs2) as HR2. rewrite <- app_assoc in HR2.
  destruct (IH (if c =? 10 then true else st && negb number) (if c =? 10 then u32 (line + 1) else line) _ s2 HR2 Hu) as (s3 & E3 & HR3).
  exists s3. rewrite <- !app_assoc in HR3. cbn [app] in HR3. split; [|exact HR3]. rewrite <- E3. by destruct (c =? 10).
Qed.

Lemma cat_stream f line s : session s0 l nowhere f bs 0 [] s → Forall is_u8 bs → Z.of_nat (length bs) < 4294967295 →
  ∃ i s', repeatM (cat_chunk std lits number f) (true, line) s = Some (cat_state number true line bs, s') ∧
    session s0 l nowhere f bs i (cat_text number true line bs) s'.
Proof.
  intros HR Hu Hl.
  destruct (repeatM_run (λ k x s', ∃ i, k = (length bs - i)%nat ∧ session s0 l nowhere f bs i (cat_text number true line (take i bs)) s' ∧
      x = cat_state number true line (take i bs))
    (λ x s', (∃ i, session s0 l nowhere f bs i (cat_text number true line bs) s') ∧ x = cat_state number true line bs)
    (cat_chunk std lits number f)) with (k := length bs) (i := (true, line)) (s := s) as (y & s' & E & [i HR'] & ->).
  - intros k x s1 (i & -> & HR1 & ->). destruct (session_fread s0 l nowhere bs f i _ s1 CHUNK HR1 ltac:(unfold CHUNK; lia)) as (s2 & E & HR2).
    unfold cat_chunk. rewrite (bind_some _ _ _ _ _ E). cbn [fst snd].
    assert (i ≤ length bs)%nat as Hi by by destruct HR1 as [(? & ? & ? & [] & _) _ _ _ _ _ _].
    set (t := take (Z.to_nat CHUNK) (drop i bs)) in *. destruct (decide (t = [])) as [Ht|Ht].
    + rewrite Ht in *. do 2 eexists. split; [reflexivity|]. rewrite (chunk_end i bs Hi Ht) in *. split; [by eexists|done].
    + assert (0 < length t)%nat by (destruct t; [done|simpl; lia]). zb_true (0 <? Z.of_nat (length t)).
      assert (Forall is_u8 t) as Hut by (unfold t; by apply Forall_take, Forall_drop).
      destruct (cat_state number true line (take i bs)) as [st ln] eqn:Est.
      destruct (cat_bytes_ok f (i + length t) t st ln _ s2 HR2 Hut) as (s3 & E3 & HR3). rewrite (bind_some _ _ _ _ _ E3).
      do 2 eexists. split; [reflexivity|]. assert (length t ≤ length bs - i)%nat by (unfold t; rewrite length_take, length_drop; lia).
      exists (length bs - (i + length t))%nat. split; [lia|]. exists (i + length t)%nat. split; [done|].
      assert (take (i + length t) bs = take i bs ++ t) as -> by apply chunk_next.
      rewrite cat_text_app, cat_state_app, Est. cbn [fst snd]. done.
  - exists 0%nat. split; [lia|]. split; [exact HR|done].
  - unfold LOOP_BOUND. lia.
  - by exists i, s'.
Qed.
End cat.

(** [C33] [cat] on a file that exists shows its contents on the console, all of it and
    nothing else, with the console's line ends; with [-n] every line behind its
    number, counting on from [line].  The file is closed and the line number after
    the file is returned. *)
Theorem cat_copies std lits path name bs number line s l buf : input s l nowhere bs std lits path name → is_u32 line →
  screen (h_stdout std) s → (number = true → fixed s nowhere (lits "%6lu  ") (lit "%6lu  ") ∧ static_array s nowhere buf 512) →
  ∃ s', cat std lits path number line s = Some ((0, u32 (line + newlines bs)), s') ∧
    closed s l nowhere (if number then numbered line (lines_acc [] bs) else bs) s'.
Proof.
  intros Hin Hline Hscr Hfmt. destruct (session_open s l nowhere bs std lits path name Hin) as (f & s1 & E & Hf & HR). unfold cat.
  rewrite (bind_some _ _ _ _ _ E). zb_false (f =? 0). pose proof (in_std _ _ _ _ _ _ _ _ Hin) as Hstd.
  destruct (cat_stream s l bs std lits number buf Hfmt Hscr Hstd f line s1 HR) as (i & s2 & E2 & HR2);
    [apply (in_u8 _ _ _ _ _ _ _ _ Hin)|pose proof (in_size _ _ _ _ _ _ _ _ Hin); unfold HeapSpec.MAX_REQUEST in *; lia|].
  rewrite (bind_some _ _ _ _ _ E2). destruct (session_close s l nowhere bs std f i _ s2 HR2 Hstd) as (r & s3 & E3 & Hc).
  rewrite (bind_some _ _ _ _ _ E3). exists s3. unfold ret. rewrite cat_state_line by done. split; [done|].
  destruct number; [by rewrite <- (proj1 (cat_text_numbered bs line))|by rewrite cat_text_plain in Hc].
Qed.

(** ** The report of [elfwc] *)

Definition column (n : Z) : list Z := conv_text Unsigned (Spec [] 8 None [chr "l"]) n.
Definition report_text (c : counts) (w : wants) (name : list Z) : list Z :=
  (if want_l w then column (lines c) else []) ++ (if want_w w then column (words c) else []) ++
  (if want_b w then column (bytes c) else []) ++ [32] ++ name ++ [10].

Lemma shows_when (b : bool) (c : M (io H K) Z) t s : (b = true → ∃ r s', c s = Some (r, s') ∧ shows t s s') →
  ∃ s', whenM b c s = Some (tt, s') ∧ shows (if b then t else []) s s'.
Proof.
  intros Hc. destruct b; cbn; [|exists s; split; [done|apply shows_nil]]. destruct (Hc eq_refl) as (r & s' & E & Hs). exists s'.
  by rewrite (bind_some _ _ _ _ _ E).
Qed.
(** Showing text leaves the memory as it is. *)
Lemma shows_mem t s s' : shows t s s' → mem_of_io s' = mem_of_io s.
Proof. by intros (k & -> & _). Qed.

Lemma column_shows std lits n s : screen (h_stdout std) s → cstr (mem_of_io s) (lits "%8lu") (lit "%8lu") → (100 < fuel (mem_of_io s))%nat →
  ∃ r s', c_printf std lits "%8lu" [n] s = Some (r, s') ∧ shows (column n) s s'.
Proof.
  intros Hs Hc Hf. destruct (c_fprintf_shows lits (h_stdout std) "%8lu" [Number Unsigned (Spec [] 8 None [chr "l"])] [n] (column n) 1 s) as (s' & E & Hsh);
    try done; [rewrite <- (app_nil_r (column n)); by repeat constructor| |simpl; lia|by exists 0, s'].
  unfold column. by rewrite conv_newlines.
Qed.

Lemma report_shows std lits c w a name s : screen (h_stdout std) s → cstr (mem_of_io s) (lits "%8lu") (lit "%8lu") →
  cstr (mem_of_io s) (lits " %s") (lit " %s") → cstr (mem_of_io s) a name → 0 < a < 4294967296 → (length name < 250)%nat →
  (300 < fuel (mem_of_io s))%nat →
  ∃ s', report std lits c w a s = Some (tt, s') ∧ shows (report_text c w name) s s'.
Proof.
  intros Hscr Hc8 Hcs Hn Ha Hl Hf. unfold report, report_text.
  destruct (shows_when (want_l w) (c_printf std lits "%8lu" [lines c]) (column (lines c)) s) as (s1 & E1 & S1); [intros _; apply column_shows; (done || lia)|].
  rewrite (bind_some _ _ _ _ _ E1). pose proof (screen_shows _ _ _ _ S1 Hscr) as Hscr1. pose proof (shows_mem _ _ _ S1) as M1.
  destruct (shows_when (want_w w) (c_printf std lits "%8lu" [words c]) (column (words c)) s1) as (s2 & E2 & S2);
    [intros _; apply column_shows; rewrite ?M1; (done || lia)|].
  rewrite (bind_some _ _ _ _ _ E2). pose proof (screen_shows _ _ _ _ S2 Hscr1) as Hscr2. pose proof (shows_mem _ _ _ S2) as M2. rewrite M1 in M2.
  destruct (shows_when (want_b w) (c_printf std lits "%8lu" [bytes c]) (column (bytes c)) s2) as (s3 & E3 & S3);
    [intros _; apply column_shows; rewrite ?M2; (done || lia)|].
  rewrite (bind_some _ _ _ _ _ E3). pose proof (screen_shows _ _ _ _ S3 Hscr2) as Hscr3. pose proof (shows_mem _ _ _ S3) as M3. rewrite M2 in M3.
  zb_false (a =? 0). cbn [negb].
  destruct (c_fprintf_shows lits (h_stdout std) " %s" [Text 32; Str plain] [a] ([32] ++ name) 250 s3) as (s4 & E4 & S4); rewrite ?M3; try done.
  { cbn [app]. apply R_text. replace name with (str_text plain name ++ []) by by rewrite app_nil_r, str_plain.
    assert (u32 a = a) as Hu by (apply u32_small; unfold is_u32; lia). apply R_str; rewrite ?Hu; [lia|done|lia|apply R_nil]. }
  { change ([32] ++ name) with (32 :: name). rewrite newlines_cons. change (32 =? 10) with false. pose proof (newlines_length name). lia. }
  { simpl. lia. }
  unfold whenM at 1. unfold c_printf at 1. rewrite (bind_some _ _ _ tt s4) by by rewrite (bind_some _ _ _ _ _ E4).
  destruct (putchar_shows std 10 s4) as (s5 & E5 & S5); [by eapply screen_shows|done|]. change (i8 10) with 10 in E5.
  unfold whenM. rewrite (bind_some _ _ _ _ _ E5). exists s5. split; [done|].
  replace ([32] ++ name ++ [10]) with (([32] ++ name) ++ [10]) by by rewrite <- app_assoc.
  by repeat (eapply shows_trans; [eassumption|]).
Qed.

(** On any file that exists. *)
Lemma wc_files_counted std lits path name bs w s l buf : input s l nowhere bs std lits path name → screen (h_stdout std) s →
  fixed s nowhere (lits "%8lu") (lit "%8lu") → fixed s nowhere (lits " %s") (lit " %s") → static_array s nowhere buf 512 → (length name < 250)%nat →
  ∃ s', wc_files std lits [path] w 0 0 (Counts 0 0 0) s = Some ((1, 0, counted bs), s') ∧ closed s l nowhere (report_text (counted bs) w name) s'.
Proof.
  intros Hin Hscr Hf1 Hf2 Ha Hl. destruct (count_file_counts std lits path name bs s l Hin) as (s1 & E & Hcl). pose proof Hcl as (_ & _ & _ & _ & Hm).
  pose proof (in_std _ _ _ _ _ _ _ _ Hin) as (_ & Hso & _). pose proof (in_path _ _ _ _ _ _ _ _ Hin) as Hp.
  cbn [wc_files]. rewrite (bind_some _ _ _ _ _ E). cbn [fst snd]. change (negb (0 =? 0)) with false. cbv iota.
  destruct (report_shows std lits (counted bs) w path name s1) as (s2 & E2 & Hs2); try (by eapply (fixed_cstr s)).
  - by eapply screen_closed.
  - by destruct Hp as (_ & ? & _).
  - done.
  - pose proof (array_fuel s nowhere s1 buf 512 Hm Ha ltac:(lia)). lia.
  - rewrite (bind_some _ _ _ _ _ E2). exists s2. split; [|by apply (closed_shows _ _ _ [] _ s1)].
    unfold ret, counted. cbn [lines words bytes]. by rewrite !Z.add_0_l, !(u32_small (u32 _)) by apply u32_bound.
Qed.

(** [C21] [elfwc] on a file that exists: it opens it, counts all of it, closes it and
    prints one line, the number of newlines, of words (runs of bytes that are not
    space, tab or newline, as its header says) and of bytes, as asked for, each in a
    column of eight, and the name.  The files, the standard streams and the memory
    of the caller are as they were.  The file holds no carriage return, vertical tab
    or form feed, which the program counts as white space too. *)
Theorem wc_reports std lits path name bs w s l buf : input s l nowhere bs std lits path name → screen (h_stdout std) s →
  fixed s nowhere (lits "%8lu") (lit "%8lu") → fixed s nowhere (lits " %s") (lit " %s") → static_array s nowhere buf 512 → (length name < 250)%nat →
  no_controls bs →
  ∃ s', wc_files std lits [path] w 0 0 (Counts 0 0 0) s = Some ((1, 0, wc bs), s') ∧ closed s l nowhere (report_text (wc bs) w name) s'.
Proof.
  intros Hin Hscr Hf1 Hf2 Ha Hl Hn. rewrite <- (counted_wc bs Hn). by eapply wc_files_counted.
Qed.
End files.

(** ** Witnesses *)

#[local] Existing Instances fs_kernel fs_disk fs_laws fs_console.

(** The strings, each with its terminator, and an array of 512 bytes behind them. *)
Definition fs_lits (s : string) : Z :=
  if bool_decide (s = "rb") then 4100 else if bool_decide (s = "%6lu  ") then 4104 else if bool_decide (s = "%8lu") then 4112 else 4120.
Definition fs_static : list Z :=
  lit "/a" ++ [0; 0] ++ lit "rb" ++ [0; 0] ++ lit "%6lu  " ++ [0; 0] ++ lit "%8lu" ++ [0; 0; 0; 0] ++ lit " %s" ++ [0] ++ replicate 512 0.
Definition fs_text : list Z := lit "one two" ++ [10] ++ lit "three" ++ [10].
Abbreviation fs_io := (fs_process fs_static {[lit "/a" := fs_text]}).

Lemma demo_fixed i t : Forall is_char t → take (length (t ++ [0])) (drop i fs_static) = t ++ [0] → fixed fs_io nowhere (4096 + Z.of_nat i) t.
Proof. intros Ht E. apply fs_fixed; [apply (bool_decide_unpack _); by vm_compute|done|done|by intros x _ []]. Qed.
Lemma demo_array : static_array fs_io nowhere 4124 512.
Proof. intros x Hx. split; [|split; [apply fs_below; lia|by intros []]]. apply fs_mapped. change (length fs_static) with 540%nat. lia. Qed.
Lemma demo_input : input fs_io [] nowhere fs_text fs_std fs_lits 4096 (lit "/a").
Proof.
  split.
  - split_and!; by apply fs_below.
  - apply opensb_opens. vm_compute. reflexivity.
  - by apply (demo_fixed 0); [repeat constructor|].
  - by apply (demo_fixed 4); [repeat constructor|].
  - reflexivity.
  - repeat (apply Forall_app_2 || apply lit_u8); by repeat constructor.
  - vm_compute. reflexivity.
  - apply fs_held.
Qed.

Lemma wc_reports_witness : ∃ s', wc_files fs_std fs_lits [4096] (Wants true true true) 0 0 (Counts 0 0 0) fs_io = Some ((1, 0, Counts 2 3 14), s') ∧
  fs_shown (kern_of s') = lit "       2       3      14 /a" ++ [13; 10].
Proof.
  destruct (wc_reports fs_std fs_lits 4096 (lit "/a") fs_text (Wants true true true) fs_io [] 4124) as (s' & E & _ & Hs & _).
  - exact demo_input.
  - apply fs_screen; by left.
  - by apply (demo_fixed 16); [repeat constructor|].
  - by apply (demo_fixed 24); [repeat constructor|].
  - exact demo_array.
  - simpl. lia.
  - by apply (bool_decide_unpack _); vm_compute.
  - exists s'. split; [exact E|exact Hs].
Defined.

Lemma cat_copies_witness : ∃ s', cat fs_std fs_lits 4096 true 9 fs_io = Some ((0, 11), s') ∧
  fs_shown (kern_of s') = lit "     9  one two" ++ [13; 10] ++ lit "    10  three" ++ [13; 10].
Proof.
  destruct (cat_copies fs_std fs_lits 4096 (lit "/a") fs_text true 9 fs_io [] 4124) as (s' & E & _ & Hs & _).
  - exact demo_input.
  - done.
  - apply fs_screen; by left.
  - intros _. split; [|exact demo_array]. by apply (demo_fixed 8); [repeat constructor|].
  - exists s'. split; [exact E|exact Hs].
Defined.
